(* ===== verification/_CoqProject ===== *)
-Q . S2P
Prelude.v
CList.v
COrder.v
CListRepr.v
CListSpec.v
CListMove.v
CListSplice.v
COrderSpec.v
ListProps.v
SortEquiv.v
Machine.v
Thread.v
Main.v
Tests.v
App.v
Sim.v
Sched.v
SchedInv.v
SchedFacts.v
Drain.v
ThreadRep.v
ThreadLife.v
ThreadSpec.v
ThreadCreate.v
MainSpec.v
Kernel.v
Frames.v
Boot.v
Reach.v
Demo.v
KernelProps.v
ErrorProps.v
AppSafe.v
AppProps.v
Interrupt.v
InterruptSpec.v
InterruptProps.v
Synch.v
SynchSpec.v
SynchIrq.v
SynchWait.v
SynchProps.v
CondProps.v
Race.v
RaceSleep.v
Palloc.v
PallocProps.v
Debug.v
Switch.v
CompilerId.v
CompilerIdProps.v
