(* ===== verification/Prelude.v ===== *)
(** * Verification of OS-for-piPico

    ** The program

    A small kernel for the Raspberry Pi Pico, derived from Pintos, and the Pintos
    sources it keeps beside it.  main.c asks the user for a test, starts the thread
    system, runs the test program, which creates threads, and then loops on
    [after_interrupt], while a repeating timer calls [timer_interrupt].  thread.c keeps
    the threads in three intrusive lists of list.c (ready, waiting, all) and switches
    between them with [switch_threads_c] of switch.c; timer.c counts ticks and puts
    threads to sleep.  A thread runs no code of its own: it "runs" while its duration
    counts down, and a switch changes [thread_running_var] and some saved registers but
    neither the program counter nor the stack.  The kernel is therefore a sequential
    state transformer, interrupted by the timer and by alarms.  interrupt.c, synch.c,
    palloc.c, debug.c and switch.S are the rest of the C library of the kernel
    (interrupt.c and synch.c are not built for the board).

    ** How it is modelled

    A C function is a definition of the same name in the monad [M] of this file: it maps
    a state to a result and a new state, or stops with an [error] (a panic with file and
    line, a fault, a store into another object, an overrun, a signed overflow, a loop
    that exceeds its bound).  [runs m s Q] is total correctness: [m] returns and its
    result satisfies [Q].  Integers are [Z], kept at their width where the code computes:
    [int] operations are checked ([int_op]), unsigned ones wrap ([uint32], [uint64]).
    A pointer is an address; list cells, threads, semaphores and locks are maps from
    addresses to objects, so that aliasing and dangling pointers are visible.

    Code outside the repository is a parameter.  [Platform] (Machine): [calloc], as a
    function of the history of allocations, and the interrupt mask of the SDK.  [Board]
    (Tests): [rand], the timer interrupts that fire during [sleep_ms], the address of
    the name buffer and the bytes up to the next object behind it.  [X86] (Interrupt): the
    interrupt stubs, the code selector, the code of the registered handlers.  [Asm]
    (Palloc): the value that two inline assembly statements leave in their declared
    output.  [Ample] (AppSafe): the allocator can serve seven threads.  Sim and AppSafe
    give instances of [Platform], [Board] and [Ample], InterruptProps of [X86],
    PallocProps of [Asm]; the witnesses are evaluated on them.

    Stores outside an object are checked against the other objects of the model: the frame
    that [thread_create] stores behind its block, against the threads and the static
    lists; a thread name and a word that the user types, against the room they have.  A
    store that hits none of them has no further effect: the bookkeeping of the allocator
    and the data of the libraries are not objects of the model.

    ** The files

    - misc/list.c, list.h: CList, COrder (operations), CListRepr (the representation
      predicate [list_repr]), CListSpec, CListMove, CListSplice, COrderSpec (rules),
      ListProps (theorems: a list is a deque, [list_sort] is a stable sort for every
      strict weak order, insertion, duplicates, splicing within and between lists,
      reversal, size, extrema), SortEquiv ([list_sort] and repeated
      [list_insert_ordered] give the same list).
    - threads/thread.c, thread.h, lib/switch.c, misc/timer.c: Machine (the state
      [kstate]: objects, cells, globals, allocator history, console), Thread.
    - main.c: Main ([schedule_set_quantum], [after_interrupt], [timer_interrupt],
      start-up), App (prompts, [main], the endless loop as a list of events).
    - tests/: Tests (the table, the fifteen programs, the alarm callbacks).
    - What the kernel promises: Sched (an abstract scheduler: queues are lists, each
      operation a pure function), SchedInv (its invariant [sched_ok]), SchedFacts
      (scheduling over time), Drain (rounds use up the work that is left).
    - Refinement: ThreadRep (the simulation relation [krep]), ThreadLife, ThreadSpec,
      ThreadCreate, MainSpec (each C function implements its abstract counterpart),
      Kernel (calls as a transition system), Frames (what code leaves alone), Boot,
      Reach (reachable states, read from memory), Sim and Demo (a concrete machine).
    - KernelProps: a call fails exactly when [failure] of Kernel says so, with the error
      it names, and simulates the abstract scheduler otherwise; threads are partitioned;
      no leak; every thread completes; bounded waiting, FIFO runs, sleepers on time, the
      quantum, rotation, creation, exit, start-up.  ErrorProps: what happens outside those
      conditions, the corrupting frame among it.
    - AppSafe, AppProps: [main] as a whole, for every test, input of short words, board
      with memory for seven threads and sequence of events, stops only by a [mishap] (a
      name that does not fit, a frame stored into a block in use); otherwise the kernel
      stays in good order, and after enough rounds of the loop every thread of the test
      has finished; the prompts.
    - Race: [thread_create] with a timer interrupt at each statement of the insertion
      into the ready list: where it does no harm, and where it loses the thread.
      RaceSleep: the same for the insertion of a sleeper into the waiting list, and a
      tick that wakes another one: where it leads to a panic.
    - lib/interrupt.c: Interrupt, InterruptSpec, InterruptProps (descriptors, the table
      along registrations, dispatch over a reachable kernel, rate of messages, guards).
    - lib/synch.c: Synch, SynchSpec (a semaphore is a counter with a queue, over
      [krep]), SynchIrq (the semaphore operations with an interrupt at every statement are
      atomic), SynchWait (what a wait does), SynchProps (refinement, mutual exclusion for
      every interleaving of the steps of lock calls, waits never end), CondProps (signals
      and broadcasts wake in order).
    - lib/palloc.c: Palloc, PallocProps.  lib/debug.c: Debug; ASSERT and PANIC of
      debug.h are in this file.  lib/switch.S: Switch.
    - build/CMakeFiles/3.29.3/CompilerIdC/CMakeCCompilerId.c, the program with which the
      build finds out its compiler: CompilerId (directives as syntax with an interpreter,
      the strings, [main]), CompilerIdProps (the GNU compiler is recognized and its
      version reads back, whatever it is; every compiler gets a known name; [main] stays
      within its strings; the two compilers of this build).

    ** Bounds

    Loops over a list run with the number of cells of the heap (plus one) as fuel;
    [repr_fuel] shows that a represented list is shorter, and the rules derive
    termination from it.  [sema_down] takes its fuel as an argument: it returns at once
    or, on this kernel, uses up any fuel ([waiting_never_ends]).  [debug_backtrace] takes its fuel as an
    argument too; its theorem asks for more than the number of frames.  Executions,
    inputs and events are lists of any length; theorems about long runs ask only that
    the [int] counters (ticks, identifiers, the tests' [count]) do not overflow.

    ** Granularity

    The timer and the alarms fire between two calls of the loop or of the test program,
    and during [sleep_ms], not between two statements of a kernel function, except in
    Race and RaceSleep, which cut the insertions of [thread_unblock] and of
    [insertar_en_lista_espera] at their statements, in ErrorProps, which shows a window in
    [thread_exit] and one in [thread_sleep] where an interrupt panics, and in SynchIrq,
    which takes interrupts at every statement of the semaphore operations.  Output is a
    list of calls with their formats and arguments; formats are not expanded.

    ** Not modelled

    The rest of src/build, generated by CMake and the compiler (among it the C++ variants
    of the identification program, and the copy of the C one under elf2uf2, the same file);
    tests/temp-test.c (not in the table and not built); switch2.S (not built); the SDK and the C library, which are
    parameters or recorded calls; the compiled [thread_schedule_tail] that
    [switch_entry] of switch.S calls, a parameter that follows the procedure call
    standard; the code that timer.c and main.c have commented out; the optimization
    barrier macro of synch.h, which has no effect at run time; the functions that
    palloc.h and timer.h declare and no file defines.  Of the
    inline assembly of [bitmap_mark] and [bitmap_reset] the declared output is modelled,
    not the register that it changes without declaring it. *)

From Stdlib Require Export ssreflect.
From stdpp Require Export prelude gmap strings.

#[global] Open Scope general_if_scope.

(** ** Results, the error monad and total-correctness triples *)

(** How a C call can go wrong.  [Panic] is [debug_panic] called from the given
    file and line (an [ASSERT] that fails or an explicit [PANIC]); [Fault] is an
    access to an address where no live object is; [Clobber] is a store that
    lands inside a live object it does not belong to; [Overrun] is a text longer than
    the array it is written to; [Overflow] is a signed integer overflow; [Diverge] is a
    loop that exceeds the model's bound. *)
Inductive error :=
| Panic (file : string) (line : Z)
| Fault (addr : Z)
| Clobber (addr : Z)
| Overrun
| Overflow
| Diverge.

#[global] Instance error_eq_dec : EqDecision error.
Proof. solve_decision. Defined.

Inductive result (A : Type) :=
| Ok (a : A)
| Err (e : error).
Arguments Ok {A} a.
Arguments Err {A} e.

(** A computation over a state [S]: it either ends with a value and a new state,
    or stops with an error. *)
Definition M (S A : Type) : Type := S → result (A * S).

#[global] Instance M_ret S : MRet (M S) := λ A a s, Ok (a, s).
#[global] Instance M_bind S : MBind (M S) := λ A B f m s,
  match m s with
  | Ok (a, s') => f a s'
  | Err e => Err e
  end.

Definition fail {S A} (e : error) : M S A := λ _, Err e.
Definition get {S} : M S S := λ s, Ok (s, s).
Definition modify {S} (f : S → S) : M S unit := λ s, Ok (tt, f s).

(** [PANIC (...)] and [ASSERT (c)] at line [line] of [file]: lib/debug.h, with NDEBUG
    unset. *)
Definition PANIC {S A} (file : string) (line : Z) : M S A := fail (Panic file line).
Definition ASSERT {S} (file : string) (line : Z) (c : bool) : M S unit :=
  if c then mret tt else PANIC file line.

(** [runs m s Q]: started in [s], [m] returns (no panic, no fault, no overflow,
    no divergence) and its result and final state satisfy [Q]. *)
Definition runs {S A} (m : M S A) (s : S) (Q : A → S → Prop) : Prop :=
  match m s with
  | Ok (a, s') => Q a s'
  | Err _ => False
  end.

Section Runs.
Context {S : Type}.

Lemma runs_ret {A} (a : A) (s : S) Q : Q a s → runs (mret a) s Q.
Proof. done. Qed.

Lemma runs_bind {A B} (m : M S A) (f : A → M S B) s Q :
  runs m s (λ a s', runs (f a) s' Q) → runs (m ≫= f) s Q.
Proof.
  rw /runs /mbind /M_bind. by destruct (m s) as [[a s']|e].
Qed.

Lemma runs_mono {A} (m : M S A) s (Q Q' : A → S → Prop) :
  runs m s Q → (∀ a s', Q a s' → Q' a s') → runs m s Q'.
Proof. rw /runs. destruct (m s) as [[a s']|e]; auto. Qed.

Lemma runs_get s (Q : S → S → Prop) : Q s s → runs get s Q.
Proof. done. Qed.

Lemma runs_modify (f : S → S) s (Q : unit → S → Prop) :
  Q tt (f s) → runs (modify f) s Q.
Proof. done. Qed.

Lemma runs_assert file line (c : bool) (s : S) (Q : unit → S → Prop) :
  c = true → Q tt s → runs (ASSERT file line c) s Q.
Proof. by intros ->. Qed.

Lemma runs_Ok {A} (m : M S A) s a s' (Q : A → S → Prop) :
  m s = Ok (a, s') → Q a s' → runs m s Q.
Proof. by rw /runs => ->. Qed.

Lemma runs_inv {A} (m : M S A) s Q :
  runs m s Q → ∃ a s', m s = Ok (a, s') ∧ Q a s'.
Proof. rw /runs. destruct (m s) as [[a s']|e]; [eauto|done]. Qed.

Lemma runs_and {A} (m : M S A) s (Q Q' : A → S → Prop) :
  runs m s Q → runs m s Q' → runs m s (λ a s', Q a s' ∧ Q' a s').
Proof. rw /runs. by destruct (m s) as [[a s']|e]. Qed.

(** Reading the state, asserting and binding, as equations for evaluation. *)
Lemma bind_Ok {A B} (m : M S A) (f : A → M S B) s a s' :
  m s = Ok (a, s') → (m ≫= f) s = f a s'.
Proof. by rw /mbind /M_bind => ->. Qed.

Lemma bind_Err {A B} (m : M S A) (f : A → M S B) s e :
  m s = Err e → (m ≫= f) s = Err e.
Proof. by rw /mbind /M_bind => ->. Qed.

Lemma bind_inv {A B} (m : M S A) (f : A → M S B) s b s' :
  (m ≫= f) s = Ok (b, s') → ∃ a s1, m s = Ok (a, s1) ∧ f a s1 = Ok (b, s').
Proof. rw /mbind /M_bind. destruct (m s) as [[a s1]|]; [eauto|done]. Qed.

(** A call that returns has passed its assertions. *)
Lemma bind_assert_inv {B} file line c (m : M S B) s b s' :
  (ASSERT file line c ≫= λ _, m) s = Ok (b, s') → c = true ∧ m s = Ok (b, s').
Proof. destruct c; [done|by intros [=]]. Qed.

(** Whatever follows a part that runs. *)
Lemma runs_then {A B} (m : M S A) (f : A → M S B) s (P : result (B * S) → Prop) :
  runs m s (λ a s', P (f a s')) → P ((m ≫= f) s).
Proof. rw /runs /mbind /M_bind. by destruct (m s) as [[a s']|]. Qed.

(** An error after a part that runs. *)
Lemma runs_err {A B} (m : M S A) (f : A → M S B) s e :
  runs m s (λ a s', f a s' = Err e) → (m ≫= f) s = Err e.
Proof. apply (runs_then m f s (λ r, r = Err e)). Qed.

Lemma assert_err file line (c : bool) (s : S) :
  c = false → ASSERT file line c s = Err (Panic file line).
Proof. by intros ->. Qed.
End Runs.

(** [tries E m s Q]: like [runs], except that [m] may also stop with an error of [E]. *)
Definition tries {S A} (E : error → Prop) (m : M S A) (s : S) (Q : A → S → Prop) : Prop :=
  match m s with
  | Ok (a, s') => Q a s'
  | Err e => E e
  end.

Section Tries.
Context {S : Type} (E : error → Prop).

Lemma tries_bind {A B} (m : M S A) (f : A → M S B) s Q :
  tries E m s (λ a s', tries E (f a) s' Q) → tries E (m ≫= f) s Q.
Proof. rw /tries /mbind /M_bind. by destruct (m s) as [[a s']|e]. Qed.

Lemma tries_mono {A} (m : M S A) s (Q Q' : A → S → Prop) :
  tries E m s Q → (∀ a s', Q a s' → Q' a s') → tries E m s Q'.
Proof. rw /tries. destruct (m s) as [[a s']|e]; auto. Qed.

Lemma runs_tries {A} (m : M S A) s Q : runs m s Q → tries E m s Q.
Proof. rw /runs /tries. by destruct (m s) as [[a s']|e]. Qed.

Lemma tries_Err {A} (m : M S A) s e Q : m s = Err e → E e → tries E m s Q.
Proof. by rw /tries => ->. Qed.

(** When none of the errors can happen. *)
Lemma tries_runs {A} (m : M S A) s Q : (∀ e, ¬ E e) → tries E m s Q → runs m s Q.
Proof. rw /runs /tries => HE. destruct (m s) as [[a s']|e]; [done|apply HE]. Qed.
End Tries.

(** Running a computation on a component of a larger state. *)
Definition zoom {S T A} (view : S → T) (upd : T → S → S) (m : M T A) : M S A :=
  λ s, match m (view s) with
       | Ok (a, t) => Ok (a, upd t s)
       | Err e => Err e
       end.

Lemma runs_zoom {S T A} (view : S → T) upd (m : M T A) s (Q : A → S → Prop) :
  runs m (view s) (λ a t, Q a (upd t s)) → runs (zoom view upd m) s Q.
Proof. rw /runs /zoom. by destruct (m (view s)) as [[a t]|e]. Qed.

Create HintDb runs.
#[export] Hint Resolve runs_ret runs_get runs_modify runs_assert : runs.

(** [step] peels one bind or one primitive off a [runs] goal. *)
Ltac step :=
  match goal with
  | |- runs (_ ≫= _) _ _ => apply runs_bind
  | |- runs (mret _) _ _ => apply runs_ret
  | |- runs get _ _ => apply runs_get
  | |- runs (modify _) _ _ => apply runs_modify
  | |- runs (ASSERT _ _ _) _ _ => apply runs_assert
  | |- tries _ (_ ≫= _) _ _ => apply tries_bind
  | |- tries _ (mret _) _ _ => apply runs_tries, runs_ret
  | |- tries _ get _ _ => apply runs_tries, runs_get
  end.
Ltac steps := repeat step.

(** Use a [runs] fact for the computation at the head of the goal. *)
Ltac use H := eapply runs_mono; [eapply H|cbn beta].

(** ** Machine integers (ARMv6-M, ILP32) *)

Definition NULL : Z := 0.
Definition INT_MAX : Z := 2147483647.
Definition INT_MIN : Z := -2147483648.
Definition uint32 (z : Z) : Z := z `mod` 2 ^ 32.
Definition uint64 (z : Z) : Z := z `mod` 2 ^ 64.

(** The value of an [int] expression: out of range, the behaviour is undefined. *)
Definition int_op {S} (z : Z) : M S Z :=
  if bool_decide (INT_MIN ≤ z ≤ INT_MAX)%Z then mret z else fail Overflow.

(** The same for [long long] counters. *)
Definition llong_op {S} (z : Z) : M S Z :=
  if bool_decide (-2 ^ 63 ≤ z < 2 ^ 63)%Z then mret z else fail Overflow.

Lemma runs_int_op {S} z (s : S) Q :
  (INT_MIN ≤ z ≤ INT_MAX)%Z → Q z s → runs (int_op z) s Q.
Proof. intros Hz HQ. rw /int_op bool_decide_eq_true_2 //. Qed.

Lemma runs_llong_op {S} z (s : S) Q :
  (-2 ^ 63 ≤ z < 2 ^ 63)%Z → Q z s → runs (llong_op z) s Q.
Proof. intros Hz HQ. rw /llong_op bool_decide_eq_true_2 //. Qed.

Lemma uint32_id z : (0 ≤ z < 2 ^ 32)%Z → uint32 z = z.
Proof. apply Z.mod_small. Qed.

Lemma uint64_id z : (0 ≤ z < 2 ^ 64)%Z → uint64 z = z.
Proof. apply Z.mod_small. Qed.

Lemma uint32_range z : (0 ≤ uint32 z < 2 ^ 32)%Z.
Proof. by apply Z.mod_pos_bound. Qed.

(** ** Lists *)

Lemma filter_all {A} (P : A → Prop) `{∀ x, Decision (P x)} (l : list A) :
  (∀ x, x ∈ l → P x) → filter P l = l.
Proof.
  induction l as [|x l IH]; [done|]. intros Hl. rw filter_cons_True.
  - apply Hl. by left.
  - f_equal. apply IH. intros y Hy. apply Hl. by right.
Qed.

Lemma filter_ext_in {A} (P Q : A → Prop) `{∀ x, Decision (P x), ∀ x, Decision (Q x)}
    (l : list A) :
  (∀ x, x ∈ l → P x ↔ Q x) → filter P l = filter Q l.
Proof.
  induction l as [|x l IH]; [done|]. intros Hl.
  assert (filter P l = filter Q l) as E by (apply IH; intros y Hy; apply Hl; by right).
  assert (P x ↔ Q x) as Hx by (apply Hl; by left). rw !filter_cons E.
  repeat case_decide; tauto.
Qed.
