(* ===== verification/CList.v ===== *)
(** * misc/list.c: the intrusive doubly linked list, operation by operation

    A [struct list_elem] is a cell of a typed heap, found by its address; a
    [struct list] at address [l] is the pair of sentinel cells [head] at [l] and
    [tail] at [l + 8].  A pointer is an address and [NULL] is 0.  Reading or
    writing through a pointer to no cell is a [Fault].  Every [ASSERT] of the
    source is kept, with its line. *)

From S2P Require Import Prelude.

(** ** Data: list.h *)

Record list_elem := Elem { prev : Z; next : Z }.

#[global] Instance list_elem_eq_dec : EqDecision list_elem.
Proof. solve_decision. Defined.

(** The cells in memory.  ([heap] is an abbreviation so that map lemmas apply.) *)
Abbreviation heap := (gmap Z list_elem).

(** [&list->head] and [&list->tail]. *)
Definition head_of (l : Z) : Z := l.
Definition tail_of (l : Z) : Z := (l + 8)%Z.

(** [LIST_INITIALIZER (list)]: the head and the tail of an empty list. *)
Definition LIST_INITIALIZER (list : Z) : list_elem * list_elem :=
  (Elem NULL (tail_of list), Elem (head_of list) NULL).

Definition list_c : string := "misc/list.c".

(** [list_less_func], applied to two element pointers and the [aux] pointer.
    A function value is never NULL, so [ASSERT (less != NULL)] always passes. *)
Definition list_less_func : Type := Z → Z → Z → bool.

(** ** Access to the fields of a cell *)

Definition load (a : Z) : M heap list_elem := λ h,
  match h !! a with
  | Some e => Ok (e, h)
  | None => Err (Fault a)
  end.

Definition store (a : Z) (e : list_elem) : M heap unit := λ h,
  match h !! a with
  | Some _ => Ok (tt, <[a := e]> h)
  | None => Err (Fault a)
  end.

Definition get_prev (a : Z) : M heap Z := e ← load a; mret (prev e).
Definition get_next (a : Z) : M heap Z := e ← load a; mret (next e).
Definition set_prev (a v : Z) : M heap unit := e ← load a; store a (Elem v (next e)).
Definition set_next (a v : Z) : M heap unit := e ← load a; store a (Elem (prev e) v).

(** A bound on every traversal: no list is longer than the number of cells. *)
Definition with_fuel {A} (f : nat → M heap A) : M heap A := λ h, f (S (size h)) h.

(** ** Element kinds *)

Definition is_head (elem : Z) : M heap bool :=
  if bool_decide (elem = NULL) then mret false
  else e ← load elem;
       mret (bool_decide (prev e = NULL) && negb (bool_decide (next e = NULL))).

Definition is_interior (elem : Z) : M heap bool :=
  if bool_decide (elem = NULL) then mret false
  else e ← load elem;
       mret (negb (bool_decide (prev e = NULL)) && negb (bool_decide (next e = NULL))).

Definition is_tail (elem : Z) : M heap bool :=
  if bool_decide (elem = NULL) then mret false
  else e ← load elem;
       mret (negb (bool_decide (prev e = NULL)) && bool_decide (next e = NULL)).

(** C's short-circuit [a || b] on tests that read memory. *)
Definition or_else (a b : M heap bool) : M heap bool :=
  x ← a; if (x : bool) then mret true else b.

Definition not_null (line : Z) (p : Z) : M heap unit :=
  ASSERT list_c line (negb (bool_decide (p = NULL))).

(** ** Initialization and traversal *)

Definition list_init (list : Z) : M heap unit :=
  not_null 63 list;;
  set_prev (head_of list) NULL;;
  set_next (head_of list) (tail_of list);;
  set_prev (tail_of list) (head_of list);;
  set_next (tail_of list) NULL.

Definition list_begin (list : Z) : M heap Z :=
  not_null 74 list;;
  get_next (head_of list).

Definition list_next (elem : Z) : M heap Z :=
  b ← or_else (is_head elem) (is_interior elem);
  ASSERT list_c 84 b;;
  get_next elem.

Definition list_end (list : Z) : M heap Z :=
  not_null 96 list;;
  mret (tail_of list).

Definition list_rbegin (list : Z) : M heap Z :=
  not_null 105 list;;
  get_prev (tail_of list).

Definition list_prev (elem : Z) : M heap Z :=
  b ← or_else (is_interior elem) (is_tail elem);
  ASSERT list_c 115 b;;
  get_prev elem.

Definition list_rend (list : Z) : M heap Z :=
  not_null 135 list;;
  mret (head_of list).

Definition list_head (list : Z) : M heap Z :=
  not_null 153 list;;
  mret (head_of list).

Definition list_tail (list : Z) : M heap Z :=
  not_null 161 list;;
  mret (tail_of list).

(** ** Insertion *)

Definition list_insert (before elem : Z) : M heap unit :=
  b ← or_else (is_interior before) (is_tail before);
  ASSERT list_c 171 b;;
  not_null 172 elem;;
  p ← get_prev before;
  set_prev elem p;;
  set_next elem before;;
  p ← get_prev before;
  set_next p elem;;
  set_prev before elem.

Definition list_splice (before first last : Z) : M heap unit :=
  b ← or_else (is_interior before) (is_tail before);
  ASSERT list_c 187 b;;
  if bool_decide (first = last) then mret tt
  else
    last ← list_prev last;
    b ← is_interior first;
    ASSERT list_c 192 b;;
    b ← is_interior last;
    ASSERT list_c 193 b;;
    (* cleanly remove FIRST...LAST from its current list *)
    fp ← get_prev first;
    ln ← get_next last;
    set_next fp ln;;
    ln ← get_next last;
    fp ← get_prev first;
    set_prev ln fp;;
    (* splice FIRST...LAST into the new list *)
    bp ← get_prev before;
    set_prev first bp;;
    set_next last before;;
    bp ← get_prev before;
    set_next bp first;;
    set_prev before last.

Definition list_push_front (list elem : Z) : M heap unit :=
  b ← list_begin list;
  list_insert b elem.

Definition list_push_back (list elem : Z) : M heap unit :=
  e ← list_end list;
  list_insert e elem.

(** ** Removal *)

Definition list_remove (elem : Z) : M heap Z :=
  b ← is_interior elem;
  ASSERT list_c 251 b;;
  p ← get_prev elem;
  n ← get_next elem;
  set_next p n;;
  n ← get_next elem;
  p ← get_prev elem;
  set_prev n p;;
  get_next elem.

Definition list_empty (list : Z) : M heap bool :=
  b ← list_begin list;
  e ← list_end list;
  mret (bool_decide (b = e)).

Definition list_front (list : Z) : M heap Z :=
  b ← list_empty list;
  ASSERT list_c 282 (negb b);;
  get_next (head_of list).

Definition list_back (list : Z) : M heap Z :=
  b ← list_empty list;
  ASSERT list_c 291 (negb b);;
  get_prev (tail_of list).

Definition list_pop_front (list : Z) : M heap Z :=
  front ← list_front list;
  list_remove front;;
  mret front.

Definition list_pop_back (list : Z) : M heap Z :=
  back ← list_back list;
  list_remove back;;
  mret back.

(** ** Size and reversal *)

Fixpoint list_size_loop (fuel : nat) (list e cnt : Z) : M heap Z :=
  match fuel with
  | O => fail Diverge
  | S fuel =>
      t ← list_end list;
      if bool_decide (e = t) then mret cnt
      else
        e ← list_next e;
        list_size_loop fuel list e (uint32 (cnt + 1))
  end.

Definition list_size (list : Z) : M heap Z :=
  e ← list_begin list;
  with_fuel (λ fuel, list_size_loop fuel list e 0).

(** A [struct list_elem **] that points at a field of a cell. *)
Inductive field := FPrev | FNext.

Definition get_field (lv : Z * field) : M heap Z :=
  match lv.2 with FPrev => get_prev lv.1 | FNext => get_next lv.1 end.
Definition set_field (lv : Z * field) (v : Z) : M heap unit :=
  match lv.2 with FPrev => set_prev lv.1 v | FNext => set_next lv.1 v end.

Definition swap (a b : Z * field) : M heap unit :=
  t ← get_field a;
  vb ← get_field b;
  set_field a vb;;
  set_field b t.

Fixpoint list_reverse_loop (fuel : nat) (list e : Z) : M heap unit :=
  match fuel with
  | O => fail Diverge
  | S fuel =>
      t ← list_end list;
      if bool_decide (e = t) then mret tt
      else
        swap (e, FPrev) (e, FNext);;
        e' ← get_prev e;
        list_reverse_loop fuel list e'
  end.

Definition list_reverse (list : Z) : M heap unit :=
  b ← list_empty list;
  if (b : bool) then mret tt
  else
    e ← list_begin list;
    with_fuel (λ fuel, list_reverse_loop fuel list e);;
    swap (head_of list, FNext) (tail_of list, FPrev);;
    hn ← get_next (head_of list);
    tp ← get_prev (tail_of list);
    swap (hn, FPrev) (tp, FNext).
