(* ===== verification/COrder.v ===== *)
(** * misc/list.c: operations on lists with ordered elements

    [list_sort] (a natural, iterative, in-place merge sort), [list_insert_ordered],
    [list_unique], [list_max] and [list_min], with the static helpers they use. *)

From S2P Require Import Prelude CList.

Section Ordered.
Context (less : list_less_func) (aux : Z).

(** ** is_sorted: [while ((a = list_next (a)) != b) if (less (a, list_prev (a))) ...] *)

Fixpoint is_sorted_loop (fuel : nat) (a b : Z) : M heap bool :=
  match fuel with
  | O => fail Diverge
  | S fuel =>
      a ← list_next a;
      if bool_decide (a = b) then mret true
      else
        p ← list_prev a;
        if less a p aux then mret false
        else is_sorted_loop fuel a b
  end.

Definition is_sorted (a b : Z) : M heap bool :=
  if bool_decide (a = b) then mret true
  else with_fuel (λ fuel, is_sorted_loop fuel a b).

(** ** find_end_of_run *)

Fixpoint find_end_of_run_loop (fuel : nat) (a b : Z) : M heap Z :=
  match fuel with
  | O => fail Diverge
  | S fuel =>
      a ← list_next a;
      if bool_decide (a = b) then mret a
      else
        p ← list_prev a;
        if less a p aux then mret a
        else find_end_of_run_loop fuel a b
  end.

Definition find_end_of_run (a b : Z) : M heap Z :=
  not_null 361 a;;
  not_null 362 b;;
  ASSERT list_c 364 (negb (bool_decide (a = b)));;
  with_fuel (λ fuel, find_end_of_run_loop fuel a b).

(** ** inplace_merge *)

Fixpoint inplace_merge_loop (fuel : nat) (a0 a1b0 b1 : Z) : M heap unit :=
  match fuel with
  | O => fail Diverge
  | S fuel =>
      if bool_decide (a0 = a1b0) then mret tt
      else if bool_decide (a1b0 = b1) then mret tt
      else if negb (less a1b0 a0 aux) then
        a0 ← list_next a0;
        inplace_merge_loop fuel a0 a1b0 b1
      else
        a1b0 ← list_next a1b0;
        p ← list_prev a1b0;
        list_splice a0 p a1b0;;
        inplace_merge_loop fuel a0 a1b0 b1
  end.

Definition inplace_merge (a0 a1b0 b1 : Z) : M heap unit :=
  not_null 384 a0;;
  not_null 385 a1b0;;
  not_null 386 b1;;
  s ← is_sorted a0 a1b0;
  ASSERT list_c 388 s;;
  s ← is_sorted a1b0 b1;
  ASSERT list_c 389 s;;
  with_fuel (λ fuel, inplace_merge_loop fuel a0 a1b0 b1).

(** ** list_sort *)

(** One pass: the [for] loop, from [a0], with [output_run_cnt] so far. *)
Fixpoint sort_pass_loop (fuel : nat) (list a0 output_run_cnt : Z) : M heap Z :=
  match fuel with
  | O => fail Diverge
  | S fuel =>
      t ← list_end list;
      if bool_decide (a0 = t) then mret output_run_cnt
      else
        let output_run_cnt := uint32 (output_run_cnt + 1) in
        t ← list_end list;
        a1b0 ← find_end_of_run a0 t;
        t ← list_end list;
        if bool_decide (a1b0 = t) then mret output_run_cnt
        else
          t ← list_end list;
          b1 ← find_end_of_run a1b0 t;
          inplace_merge a0 a1b0 b1;;
          sort_pass_loop fuel list b1 output_run_cnt
  end.

(** The [do ... while (output_run_cnt > 1)] loop. *)
Fixpoint sort_loop (fuel : nat) (list : Z) : M heap unit :=
  match fuel with
  | O => fail Diverge
  | S fuel =>
      a0 ← list_begin list;
      cnt ← with_fuel (λ fuel', sort_pass_loop fuel' list a0 0);
      if bool_decide (1 < cnt)%Z then sort_loop fuel list else mret tt
  end.

Definition list_sort (list : Z) : M heap unit :=
  not_null 409 list;;
  with_fuel (λ fuel, sort_loop fuel list);;
  b ← list_begin list;
  e ← list_end list;
  s ← is_sorted b e;
  ASSERT list_c 439 s.

(** ** list_insert_ordered *)

Fixpoint insert_ordered_loop (fuel : nat) (list elem e : Z) : M heap Z :=
  match fuel with
  | O => fail Diverge
  | S fuel =>
      t ← list_end list;
      if bool_decide (e = t) then mret e
      else if less elem e aux then mret e
      else
        e ← list_next e;
        insert_ordered_loop fuel list elem e
  end.

Definition list_insert_ordered (list elem : Z) : M heap unit :=
  not_null 451 list;;
  not_null 452 elem;;
  e ← list_begin list;
  e ← with_fuel (λ fuel, insert_ordered_loop fuel list elem e);
  list_insert e elem.

(** ** list_unique *)

Fixpoint list_unique_loop (fuel : nat) (list duplicates elem : Z) : M heap unit :=
  match fuel with
  | O => fail Diverge
  | S fuel =>
      next ← list_next elem;
      t ← list_end list;
      if bool_decide (next = t) then mret tt
      else if negb (less elem next aux) && negb (less next elem aux) then
        list_remove next;;
        (if bool_decide (duplicates = NULL) then mret tt
         else list_push_back duplicates next);;
        list_unique_loop fuel list duplicates elem
      else list_unique_loop fuel list duplicates next
  end.

Definition list_unique (list duplicates : Z) : M heap unit :=
  not_null 471 list;;
  b ← list_empty list;
  if (b : bool) then mret tt
  else
    elem ← list_begin list;
    with_fuel (λ fuel, list_unique_loop fuel list duplicates elem).

(** ** list_max and list_min *)

Fixpoint list_max_loop (fuel : nat) (list e max : Z) : M heap Z :=
  match fuel with
  | O => fail Diverge
  | S fuel =>
      t ← list_end list;
      if bool_decide (e = t) then mret max
      else
        let max := if less max e aux then e else max in
        e ← list_next e;
        list_max_loop fuel list e max
  end.

Definition list_max (list : Z) : M heap Z :=
  max ← list_begin list;
  t ← list_end list;
  if bool_decide (max = t) then mret max
  else
    e ← list_next max;
    with_fuel (λ fuel, list_max_loop fuel list e max).

Fixpoint list_min_loop (fuel : nat) (list e min : Z) : M heap Z :=
  match fuel with
  | O => fail Diverge
  | S fuel =>
      t ← list_end list;
      if bool_decide (e = t) then mret min
      else
        let min := if less e min aux then e else min in
        e ← list_next e;
        list_min_loop fuel list e min
  end.

Definition list_min (list : Z) : M heap Z :=
  min ← list_begin list;
  t ← list_end list;
  if bool_decide (min = t) then mret min
  else
    e ← list_next min;
    with_fuel (λ fuel, list_min_loop fuel list e min).
End Ordered.
