(* ===== verification/CListRepr.v ===== *)
(** * The representation predicate of list.c's lists

    [list_repr h l xs]: in the heap [h] the [struct list] at [l] holds exactly the
    elements at the addresses [xs], in this order.  The file gives the segment
    lemmas, the frame reasoning, and a [runs] rule for each primitive access. *)

From S2P Require Import Prelude CList.

(** ** Segments *)

(** The last node of [xs], or [p] when it is empty. *)
Fixpoint lastd (p : Z) (xs : list Z) : Z :=
  match xs with
  | [] => p
  | x :: xs => lastd x xs
  end.

(** [dseg h p xs n]: the cells [xs] are linked in a row; [p] is the predecessor
    of the first and [n] the successor of the last. *)
Fixpoint dseg (h : heap) (p : Z) (xs : list Z) (n : Z) : Prop :=
  match xs with
  | [] => True
  | x :: xs' => h !! x = Some (Elem p (hd n xs')) ∧ dseg h x xs' n
  end.

(** All cells of a list, the sentinels included. *)
Definition nodes (l : Z) (xs : list Z) : list Z := head_of l :: xs ++ [tail_of l].

Record list_repr (h : heap) (l : Z) (xs : list Z) : Prop := {
  repr_null : NULL ∉ nodes l xs;
  repr_nodup : NoDup (nodes l xs);
  repr_seg : dseg h NULL (nodes l xs) NULL;
}.

(** [h'] differs from [h] only at the cells [ns], and has the same cells. *)
Definition changes (ns : list Z) (h h' : heap) : Prop :=
  (∀ x, x ∉ ns → h' !! x = h !! x) ∧ dom h' = dom h.

(** ** Segment lemmas *)

Lemma lastd_app p xs ys : lastd p (xs ++ ys) = lastd (lastd p xs) ys.
Proof. revert p. induction xs as [|x xs IH]; intros p; simpl; auto. Qed.

Lemma lastd_in p xs : xs ≠ [] → lastd p xs ∈ xs.
Proof.
  revert p. induction xs as [|x xs IH]; intros p Hne; [done|].
  simpl. destruct xs as [|y ys]; [simpl; set_solver|].
  right. by apply IH.
Qed.

Lemma hd_in (n : Z) xs : xs ≠ [] → hd n xs ∈ xs.
Proof. destruct xs; [done|]. simpl. set_solver. Qed.

Lemma hd_app_cons (n x : Z) xs ys : hd n (xs ++ x :: ys) = hd x xs.
Proof. by destruct xs. Qed.

Lemma dseg_app h p xs ys n :
  dseg h p (xs ++ ys) n ↔ dseg h p xs (hd n ys) ∧ dseg h (lastd p xs) ys n.
Proof.
  revert p. induction xs as [|x xs IH]; intros p; simpl; [tauto|].
  rw IH. destruct xs as [|y xs]; simpl; tauto.
Qed.

Lemma dseg_frame h h' p xs n :
  (∀ x, x ∈ xs → h' !! x = h !! x) → dseg h p xs n → dseg h' p xs n.
Proof.
  revert p. induction xs as [|x xs IH]; intros p Heq; simpl; [done|].
  intros [Hx Hxs]. rw Heq; [set_solver|]. split; [done|].
  apply IH; [set_solver|done].
Qed.

Lemma dseg_insert_ne h p xs n a e :
  a ∉ xs → dseg h p xs n → dseg (<[a := e]> h) p xs n.
Proof.
  intros Ha. apply dseg_frame. intros x Hx.
  apply lookup_insert_ne. by intros ->.
Qed.

Lemma dseg_lookup h p a x b n :
  dseg h p (a ++ x :: b) n → h !! x = Some (Elem (lastd p a) (hd n b)).
Proof. rw dseg_app. simpl. tauto. Qed.

Lemma dseg_in_dom h p xs n x : dseg h p xs n → x ∈ xs → x ∈ dom h.
Proof.
  intros Hs Hx. apply list_elem_of_split in Hx as (a & b & ->).
  apply dseg_lookup in Hs. apply elem_of_dom. eauto.
Qed.

(** ** Frames *)

Lemma changes_refl ns h : changes ns h h.
Proof. done. Qed.

Lemma changes_trans ns h1 h2 h3 :
  changes ns h1 h2 → changes ns h2 h3 → changes ns h1 h3.
Proof.
  intros [H1 D1] [H2 D2]. split; [|congruence].
  intros x Hx. rw H2 //. by apply H1.
Qed.

Lemma changes_mono ns ns' h h' :
  ns ⊆ ns' → changes ns h h' → changes ns' h h'.
Proof. intros Hsub [H D]. split; [|done]. intros x Hx. apply H. set_solver. Qed.

(** The changed cells count as a set: their order does not matter. *)
#[global] Instance changes_proper : Proper ((≡ₚ) ==> (=) ==> (=) ==> iff) changes.
Proof.
  intros ns ns' Hns h _ <- h' _ <-. rw /changes. by setoid_rewrite Hns.
Qed.

#[global] Instance nodes_proper l : Proper ((≡ₚ) ==> (≡ₚ)) (nodes l).
Proof. intros xs ys Hxy. by rw /nodes Hxy. Qed.

Lemma changes_insert ns h h' a e :
  a ∈ ns → a ∈ dom h → changes ns h h' → changes ns h (<[a := e]> h').
Proof.
  intros Ha Hd [H D]. split.
  - intros x Hx. rw lookup_insert_ne; [by intros ->|]. by apply H.
  - rw dom_insert_L D. set_solver.
Qed.

(** A list disjoint from the changed cells is left as it was. *)
Lemma repr_frame ns h h' l xs :
  changes ns h h' → (∀ x, x ∈ nodes l xs → x ∉ ns) →
  list_repr h l xs → list_repr h' l xs.
Proof.
  intros [H _] Hdisj [Hn Hd Hs]. split; [done..|].
  eapply dseg_frame; [|done]. intros x Hx. apply H. by apply Hdisj.
Qed.

(** ** Lookups in a represented list *)

Section Lookup.
Context (h : heap) (l : Z) (xs : list Z) (R : list_repr h l xs).

Lemma repr_node_lookup a x b :
  nodes l xs = a ++ x :: b → h !! x = Some (Elem (lastd NULL a) (hd NULL b)).
Proof. intros E. destruct R as [_ _ Hs]. rw E in Hs. by eapply dseg_lookup. Qed.

Lemma repr_node_nonnull x : x ∈ nodes l xs → x ≠ NULL.
Proof. destruct R as [Hn _ _]. by intros Hx ->. Qed.

Lemma repr_node_dom x : x ∈ nodes l xs → x ∈ dom h.
Proof. destruct R as [_ _ Hs]. intros Hx. by eapply dseg_in_dom. Qed.

Lemma repr_head : h !! head_of l = Some (Elem NULL (hd (tail_of l) xs)).
Proof.
  rw (repr_node_lookup [] (head_of l) (xs ++ [tail_of l])) //.
  by rw hd_app_cons.
Qed.

Lemma repr_tail : h !! tail_of l = Some (Elem (lastd (head_of l) xs) NULL).
Proof. by rw (repr_node_lookup (head_of l :: xs) (tail_of l) []). Qed.

Lemma repr_elem a x b :
  xs = a ++ x :: b →
  h !! x = Some (Elem (lastd (head_of l) a) (hd (tail_of l) b)).
Proof.
  intros E. rw (repr_node_lookup (head_of l :: a) x (b ++ [tail_of l])).
  - rw /nodes E -app_assoc //.
  - by rw hd_app_cons.
Qed.
End Lookup.

Lemma in_nodes l xs x :
  x ∈ nodes l xs ↔ x = head_of l ∨ x ∈ xs ∨ x = tail_of l.
Proof. rw /nodes elem_of_cons elem_of_app list_elem_of_singleton //. Qed.

Lemma lastd_nodes l xs p : p = head_of l → lastd p xs ∈ nodes l xs.
Proof.
  intros ->. apply in_nodes. destruct xs as [|x xs]; [by left|].
  right. left. by apply lastd_in.
Qed.

Lemma hd_nodes l xs n : n = tail_of l → hd n xs ∈ nodes l xs.
Proof.
  intros ->. apply in_nodes. destruct xs as [|x xs]; simpl; set_solver.
Qed.

(** ** Rules for the primitive accesses *)

Section Prim.
Implicit Types (h : heap).

Lemma runs_load a e h (Q : list_elem → heap → Prop) :
  h !! a = Some e → Q e h → runs (load a) h Q.
Proof. rw /runs /load => -> //. Qed.

Lemma runs_store a e e' h (Q : unit → heap → Prop) :
  h !! a = Some e' → Q tt (<[a := e]> h) → runs (store a e) h Q.
Proof. rw /runs /store => -> //. Qed.

Lemma runs_get_prev a e h (Q : Z → heap → Prop) :
  h !! a = Some e → Q (prev e) h → runs (get_prev a) h Q.
Proof. intros He HQ. rw /get_prev. step. eapply runs_load; [done|]. by step. Qed.

Lemma runs_get_next a e h (Q : Z → heap → Prop) :
  h !! a = Some e → Q (next e) h → runs (get_next a) h Q.
Proof. intros He HQ. rw /get_next. step. eapply runs_load; [done|]. by step. Qed.

Lemma runs_set_prev a v e h (Q : unit → heap → Prop) :
  h !! a = Some e → Q tt (<[a := Elem v (next e)]> h) → runs (set_prev a v) h Q.
Proof.
  intros He HQ. rw /set_prev. step. eapply runs_load; [done|].
  by eapply runs_store.
Qed.

Lemma runs_set_next a v e h (Q : unit → heap → Prop) :
  h !! a = Some e → Q tt (<[a := Elem (prev e) v]> h) → runs (set_next a v) h Q.
Proof.
  intros He HQ. rw /set_next. step. eapply runs_load; [done|].
  by eapply runs_store.
Qed.

Lemma runs_not_null line p h (Q : unit → heap → Prop) :
  p ≠ NULL → Q tt h → runs (not_null line p) h Q.
Proof. intros Hp HQ. apply runs_assert; [|done]. by rw bool_decide_eq_false_2. Qed.

Lemma runs_is_interior a p n h (Q : bool → heap → Prop) :
  h !! a = Some (Elem p n) → a ≠ NULL →
  Q (negb (bool_decide (p = NULL)) && negb (bool_decide (n = NULL))) h →
  runs (is_interior a) h Q.
Proof.
  intros He Ha HQ. rw /is_interior bool_decide_eq_false_2 //.
  step. eapply runs_load; [done|]. by step.
Qed.

Lemma runs_is_tail a p n h (Q : bool → heap → Prop) :
  h !! a = Some (Elem p n) → a ≠ NULL →
  Q (negb (bool_decide (p = NULL)) && bool_decide (n = NULL)) h →
  runs (is_tail a) h Q.
Proof.
  intros He Ha HQ. rw /is_tail bool_decide_eq_false_2 //.
  step. eapply runs_load; [done|]. by step.
Qed.

Lemma runs_is_head a p n h (Q : bool → heap → Prop) :
  h !! a = Some (Elem p n) → a ≠ NULL →
  Q (bool_decide (p = NULL) && negb (bool_decide (n = NULL))) h →
  runs (is_head a) h Q.
Proof.
  intros He Ha HQ. rw /is_head bool_decide_eq_false_2 //.
  step. eapply runs_load; [done|]. by step.
Qed.

(** An interior element passes [is_interior]. *)
Lemma runs_interior a p n h (Q : bool → heap → Prop) :
  h !! a = Some (Elem p n) → a ≠ NULL → p ≠ NULL → n ≠ NULL →
  Q true h → runs (is_interior a) h Q.
Proof.
  intros He Ha Hp Hn HQ. eapply runs_is_interior; [done..|].
  rw !bool_decide_eq_false_2 //.
Qed.

(** An element with a predecessor is interior or a tail. *)
Lemma runs_interior_or_tail a p n h (Q : bool → heap → Prop) :
  h !! a = Some (Elem p n) → a ≠ NULL → p ≠ NULL → Q true h →
  runs (or_else (is_interior a) (is_tail a)) h Q.
Proof.
  intros He Ha Hp HQ. rw /or_else. step. eapply runs_is_interior; [done..|].
  rw (bool_decide_eq_false_2 (p = NULL)) //=. case_bool_decide; simpl; [|by step].
  eapply runs_is_tail; [done..|]. rw bool_decide_eq_false_2 // bool_decide_eq_true_2 //.
Qed.

(** An element with a successor is a head or interior. *)
Lemma runs_head_or_interior a p n h (Q : bool → heap → Prop) :
  h !! a = Some (Elem p n) → a ≠ NULL → n ≠ NULL → Q true h →
  runs (or_else (is_head a) (is_interior a)) h Q.
Proof.
  intros He Ha Hn HQ. rw /or_else. step. eapply runs_is_head; [done..|].
  rw (bool_decide_eq_false_2 (n = NULL)) //= andb_true_r.
  case_bool_decide as Hp; [by step|].
  by eapply runs_interior.
Qed.

Lemma runs_list_next a p n h (Q : Z → heap → Prop) :
  h !! a = Some (Elem p n) → a ≠ NULL → n ≠ NULL → Q n h →
  runs (list_next a) h Q.
Proof.
  intros He Ha Hn HQ. rw /list_next. step. eapply runs_head_or_interior; [done..|].
  steps; [done|]. by eapply runs_get_next.
Qed.

Lemma runs_list_prev a p n h (Q : Z → heap → Prop) :
  h !! a = Some (Elem p n) → a ≠ NULL → p ≠ NULL → Q p h →
  runs (list_prev a) h Q.
Proof.
  intros He Ha Hp HQ. rw /list_prev. step. eapply runs_interior_or_tail; [done..|].
  steps; [done|]. by eapply runs_get_prev.
Qed.

Lemma runs_with_fuel {A} (f : nat → M heap A) h (Q : A → heap → Prop) :
  runs (f (S (size h))) h Q → runs (with_fuel f) h Q.
Proof. done. Qed.
End Prim.

(** The fuel given to a traversal exceeds the length of any list in the heap. *)
Lemma repr_fuel h l xs : list_repr h l xs → length xs + 2 ≤ size h.
Proof.
  intros [_ Hnd Hs].
  assert (list_to_set (C := gset Z) (nodes l xs) ⊆ dom h) as Hsub.
  { intros x Hx%elem_of_list_to_set. by eapply dseg_in_dom. }
  apply subseteq_size in Hsub. rw size_list_to_set // size_dom in Hsub.
  revert Hsub. rw /nodes /= length_app /=. lia.
Qed.
