(* ===== verification/CListSpec.v ===== *)
(** * Functional correctness of list.c's basic operations

    For each operation, a rule in the style of total correctness: from a heap
    that represents a list, the operation returns, and the heap it leaves
    represents the expected list; [changes] bounds what it touched. *)

From S2P Require Import Prelude CList CListRepr.

(** ** Node sequences under one insertion or one removal *)

(** A two-part node sequence, opened at the seam. *)
Lemma dseg_seam h A p b B :
  dseg h NULL ((A ++ [p]) ++ b :: B) NULL ↔
  dseg h NULL A p ∧ h !! p = Some (Elem (lastd NULL A) b) ∧
  h !! b = Some (Elem p (hd NULL B)) ∧ dseg h b B NULL.
Proof. rw !dseg_app lastd_app /=. tauto. Qed.

Lemma dseg_insert_seam h A p b B e :
  NoDup ((A ++ [p]) ++ b :: B) → e ∉ (A ++ [p]) ++ b :: B →
  dseg h NULL ((A ++ [p]) ++ b :: B) NULL →
  dseg (<[b := Elem e (hd NULL B)]>
         (<[p := Elem (lastd NULL A) e]> (<[e := Elem p b]> h)))
       NULL ((A ++ [p]) ++ e :: b :: B) NULL.
Proof.
  intros Hnd He (HA & Hp & Hb & HB)%dseg_seam.
  assert (e ∉ A ∧ e ≠ p ∧ e ≠ b ∧ e ∉ B) as (? & ? & ? & ?) by set_solver.
  rw !NoDup_app !NoDup_cons in Hnd. destruct Hnd as ((_ & Hpa & _) & Hab & Hbb & _).
  assert (p ∉ A ∧ b ∉ A ∧ p ≠ b ∧ p ∉ B) as (? & ? & ? & ?) by set_solver.
  apply dseg_seam. split_and!; [|by simplify_map_eq..|].
  - repeat apply dseg_insert_ne; done.
  - simpl. split; [by simplify_map_eq|]. repeat apply dseg_insert_ne; done.
Qed.

Lemma dseg_remove_seam h A p x n B :
  NoDup ((A ++ [p]) ++ x :: n :: B) →
  dseg h NULL ((A ++ [p]) ++ x :: n :: B) NULL →
  dseg (<[n := Elem p (hd NULL B)]> (<[p := Elem (lastd NULL A) n]> h))
       NULL ((A ++ [p]) ++ n :: B) NULL.
Proof.
  intros Hnd (HA & Hp & Hx & Hn & HB)%dseg_seam. simpl in Hn.
  rw !NoDup_app !NoDup_cons in Hnd.
  destruct Hnd as ((_ & Hpa & _) & Hab & Hxx & Hnn & _).
  assert (p ∉ A ∧ n ∉ A ∧ p ≠ n ∧ p ∉ B) as (? & ? & ? & ?) by set_solver.
  apply dseg_seam. split_and!; [|by simplify_map_eq..|];
    repeat apply dseg_insert_ne; done.
Qed.

(** The node sequence of a list, split where its elements are split. *)
Lemma nodes_split l xs ys :
  ∃ A p b B, nodes l (xs ++ ys) = (A ++ [p]) ++ b :: B ∧
    A ++ [p] = head_of l :: xs ∧ b :: B = ys ++ [tail_of l] ∧
    p = lastd (head_of l) xs ∧ b = hd (tail_of l) ys.
Proof.
  assert (∃ A p, A ++ [p] = head_of l :: xs ∧ p = lastd (head_of l) xs) as (A & p & HA & Hp).
  { induction xs as [|x xs _] using rev_ind; [by exists [], (head_of l)|].
    exists (head_of l :: xs), x. by rw lastd_app. }
  assert (∃ b B, b :: B = ys ++ [tail_of l] ∧ b = hd (tail_of l) ys) as (b & B & HB & Hb).
  { destruct ys as [|y ys]; [by exists (tail_of l), []|].
    by exists y, (ys ++ [tail_of l]). }
  exists A, p, b, B. split_and!; [|done..].
  rw HA HB /nodes /= app_assoc //.
Qed.

(** ** Initialization, ends and emptiness *)

Section Spec.
Context (l : Z).
Implicit Types (h : heap) (xs a b : list Z).

Lemma runs_list_init h (Q : unit → heap → Prop) :
  l ≠ NULL → tail_of l ≠ NULL → head_of l ∈ dom h → tail_of l ∈ dom h →
  (∀ h', list_repr h' l [] → changes [head_of l; tail_of l] h h' → Q tt h') →
  runs (list_init l) h Q.
Proof.
  intros Hl Ht [eh Hh]%elem_of_dom [et Htl]%elem_of_dom HQ.
  assert (head_of l ≠ tail_of l) by (rw /head_of /tail_of; lia).
  rw /list_init. repeat step.
  apply runs_not_null; [done|]. steps.
  eapply runs_set_prev; [done|]. steps.
  eapply runs_set_next; [by simplify_map_eq|]. steps.
  eapply runs_set_prev; [by simplify_map_eq|]. steps.
  eapply runs_set_next; [by simplify_map_eq|]. apply HQ.
  - split; rw /nodes /=.
    + rw /head_of in Hl *. set_solver.
    + apply NoDup_cons; split; [set_solver|apply NoDup_singleton].
    + split_and!; [by simplify_map_eq..|done].
  - repeat (apply changes_insert; [set_solver|by eapply elem_of_dom_2|]).
    apply changes_refl.
Qed.

(** A list is empty exactly when its sentinels are those of [LIST_INITIALIZER]. *)
Lemma list_initializer_empty h :
  l ≠ NULL → tail_of l ≠ NULL →
  list_repr h l [] ↔
    h !! head_of l = Some (LIST_INITIALIZER l).1 ∧ h !! tail_of l = Some (LIST_INITIALIZER l).2.
Proof.
  intros Hl Ht. assert (head_of l ≠ tail_of l) by (rw /head_of /tail_of; lia). split.
  - intros [_ _ Hs]. rw /nodes /= in Hs. tauto.
  - intros [H1 H2]. split; rw /nodes /=.
    + rw /head_of in Hl *. set_solver.
    + apply NoDup_cons; split; [set_solver|apply NoDup_singleton].
    + done.
Qed.

Lemma runs_list_begin h xs (Q : Z → heap → Prop) :
  list_repr h l xs → Q (hd (tail_of l) xs) h → runs (list_begin l) h Q.
Proof.
  intros R HQ. rw /list_begin. steps. apply runs_not_null.
  { eapply (repr_node_nonnull _ _ _ R (head_of l)), in_nodes; by left. }
  eapply runs_get_next; [by apply repr_head|done].
Qed.

Lemma runs_list_end h xs (Q : Z → heap → Prop) :
  list_repr h l xs → Q (tail_of l) h → runs (list_end l) h Q.
Proof.
  intros R HQ. rw /list_end. steps. apply runs_not_null; [|by step].
  eapply (repr_node_nonnull _ _ _ R (head_of l)), in_nodes; by left.
Qed.

Lemma runs_list_rbegin h xs (Q : Z → heap → Prop) :
  list_repr h l xs → Q (lastd (head_of l) xs) h → runs (list_rbegin l) h Q.
Proof.
  intros R HQ. rw /list_rbegin. steps. apply runs_not_null.
  { eapply (repr_node_nonnull _ _ _ R (head_of l)), in_nodes; by left. }
  eapply runs_get_prev; [by apply repr_tail|done].
Qed.

Lemma hd_tail_eq h xs :
  list_repr h l xs → hd (tail_of l) xs = tail_of l ↔ xs = [].
Proof.
  intros [_ Hnd _]. split; [|by intros ->].
  destruct xs as [|x xs]; [done|]. simpl. intros ->.
  rw /nodes NoDup_cons /= NoDup_cons in Hnd. set_solver.
Qed.

Lemma runs_list_empty h xs (Q : bool → heap → Prop) :
  list_repr h l xs → Q (bool_decide (xs = [])) h → runs (list_empty l) h Q.
Proof.
  intros R HQ. rw /list_empty. steps. eapply runs_list_begin; [done|].
  steps. eapply runs_list_end; [done|]. step.
  by rw (bool_decide_ext _ _ (hd_tail_eq h xs R)).
Qed.

(** The neighbours of an element are never NULL. *)
Lemma repr_neighbours h a x b :
  list_repr h l (a ++ x :: b) →
  x ≠ NULL ∧ lastd (head_of l) a ≠ NULL ∧ hd (tail_of l) b ≠ NULL.
Proof.
  intros R. split_and!; eapply (repr_node_nonnull _ _ _ R), in_nodes.
  - set_solver.
  - destruct a as [|y a]; [by left|]. right; left.
    apply elem_of_app; left. by apply lastd_in.
  - destruct b as [|y b]; [by right; right|]. right; left. set_solver.
Qed.

(** [list_next] walks to the next element, or to the tail. *)
Lemma runs_list_next_elem h a x b (Q : Z → heap → Prop) :
  list_repr h l (a ++ x :: b) → Q (hd (tail_of l) b) h → runs (list_next x) h Q.
Proof.
  intros R HQ. destruct (repr_neighbours _ _ _ _ R) as (Hx & Hp & Hn).
  eapply runs_list_next; [by eapply repr_elem|done..].
Qed.

Lemma runs_list_prev_elem h a x b (Q : Z → heap → Prop) :
  list_repr h l (a ++ x :: b) → Q (lastd (head_of l) a) h → runs (list_prev x) h Q.
Proof.
  intros R HQ. destruct (repr_neighbours _ _ _ _ R) as (Hx & Hp & Hn).
  eapply runs_list_prev; [by eapply repr_elem|done..].
Qed.

(** [list_prev] of any position that is not the head. *)
Lemma runs_list_prev_pos h a b (Q : Z → heap → Prop) :
  list_repr h l (a ++ b) → Q (lastd (head_of l) a) h →
  runs (list_prev (hd (tail_of l) b)) h Q.
Proof.
  intros R HQ. destruct b as [|x b]; simpl.
  - rw app_nil_r in R. eapply runs_list_prev; [by apply repr_tail|..|done];
      eapply (repr_node_nonnull _ _ _ R); [by apply in_nodes; auto|by apply lastd_nodes].
  - by eapply runs_list_prev_elem.
Qed.

(** ** Insertion *)

Lemma runs_list_insert h a b e (Q : unit → heap → Prop) :
  list_repr h l (a ++ b) → e ∈ dom h → e ≠ NULL → e ∉ nodes l (a ++ b) →
  (∀ h', list_repr h' l (a ++ e :: b) → changes (e :: nodes l (a ++ b)) h h' →
         Q tt h') →
  runs (list_insert (hd (tail_of l) b) e) h Q.
Proof.
  intros R [e0 He]%elem_of_dom Hnn Hin HQ.
  destruct (nodes_split l a b) as (A & p & q & B & HN & HA & HB & Hp & Hq).
  destruct R as [Hnull Hnd Hseg]. rw HN in Hnull Hnd Hseg Hin HQ.
  pose proof Hseg as (_ & Hlp & Hlq & _)%dseg_seam.
  assert (p ≠ NULL ∧ q ≠ NULL) as [Hp0 Hq0] by set_solver.
  assert (e ≠ p ∧ e ≠ q) as [? ?] by set_solver.
  assert (p ≠ q).
  { rw !NoDup_app in Hnd. set_solver. }
  rw -Hq /list_insert. clear Hp Hq. steps. eapply runs_interior_or_tail; [done..|].
  steps; [done|]. apply runs_not_null; [done|]. step.
  eapply runs_get_prev; [done|]. steps.
  eapply runs_set_prev; [done|]. steps.
  eapply runs_set_next; [by simplify_map_eq|]. steps.
  eapply runs_get_prev; [by simplify_map_eq|]. steps.
  eapply runs_set_next; [by simplify_map_eq|]. steps.
  eapply runs_set_prev; [by simplify_map_eq|]. rw /= insert_insert_eq.
  apply HQ.
  - assert (nodes l (a ++ e :: b) = (A ++ [p]) ++ e :: q :: B) as HN'.
    { by rw HA HB /nodes -app_assoc. }
    split; rw HN'; [set_solver| |by apply dseg_insert_seam].
    rw -Permutation_middle. by apply NoDup_cons.
  - repeat (apply changes_insert; [set_solver|by eapply elem_of_dom_2|]).
    apply changes_refl.
Qed.

Lemma runs_list_push_back h xs e (Q : unit → heap → Prop) :
  list_repr h l xs → e ∈ dom h → e ≠ NULL → e ∉ nodes l xs →
  (∀ h', list_repr h' l (xs ++ [e]) → changes (e :: nodes l xs) h h' → Q tt h') →
  runs (list_push_back l e) h Q.
Proof.
  intros R He Hnn Hin HQ. rw /list_push_back. steps.
  eapply runs_list_end; [done|]. rw -(app_nil_r xs) in R Hin HQ.
  eapply (runs_list_insert _ xs []); try done. by rw app_nil_r in HQ *.
Qed.

Lemma runs_list_push_front h xs e (Q : unit → heap → Prop) :
  list_repr h l xs → e ∈ dom h → e ≠ NULL → e ∉ nodes l xs →
  (∀ h', list_repr h' l (e :: xs) → changes (e :: nodes l xs) h h' → Q tt h') →
  runs (list_push_front l e) h Q.
Proof.
  intros R He Hnn Hin HQ. rw /list_push_front. steps.
  eapply runs_list_begin; [done|]. by eapply (runs_list_insert _ [] xs).
Qed.

(** ** Removal *)

Lemma nodes_middle a x b : nodes l (a ++ x :: b) ≡ₚ x :: nodes l (a ++ b).
Proof. by rw -(Permutation_middle a b x) /nodes /= Permutation_swap. Qed.

Lemma repr_removed_out h a x b :
  list_repr h l (a ++ x :: b) → x ∉ nodes l (a ++ b).
Proof. intros [_ Hnd _]. rw nodes_middle NoDup_cons in Hnd. tauto. Qed.

Lemma runs_list_remove h a x b (Q : Z → heap → Prop) :
  list_repr h l (a ++ x :: b) →
  (∀ h', list_repr h' l (a ++ b) → changes (nodes l (a ++ b)) h h' →
         Q (hd (tail_of l) b) h') →
  runs (list_remove x) h Q.
Proof.
  intros R HQ. destruct (repr_neighbours _ _ _ _ R) as (Hx0 & Hp0 & Hn0).
  destruct (nodes_split l a b) as (A & p & q & B & HN & HA & HB & Hp & Hq).
  assert (nodes l (a ++ x :: b) = (A ++ [p]) ++ x :: q :: B) as HN'.
  { by rw HA HB /nodes -app_assoc. }
  destruct R as [Hnull Hnd Hseg]. rw HN' in Hnull Hnd Hseg. rw HN in HQ.
  pose proof Hseg as (_ & Hlp & Hlx & Hlq & _)%dseg_seam. simpl in Hlx, Hlq.
  rw -Hp -Hq in Hp0 Hn0 HQ. clear Hp Hq.
  assert (x ≠ p ∧ x ≠ q ∧ p ≠ q) as (? & ? & ?).
  { rw !NoDup_app !NoDup_cons in Hnd. set_solver. }
  rw /list_remove. steps. eapply runs_interior; [done..|]. steps; [done|].
  eapply runs_get_prev; [done|]. step. eapply runs_get_next; [done|]. steps.
  eapply runs_set_next; [done|]. steps.
  eapply runs_get_next; [by simplify_map_eq|]. step.
  eapply runs_get_prev; [by simplify_map_eq|]. steps.
  eapply runs_set_prev; [by simplify_map_eq|].
  eapply runs_get_next; [by simplify_map_eq|]. simpl. apply HQ.
  - split; rw HN.
    + set_solver.
    + rw -Permutation_middle NoDup_cons in Hnd. tauto.
    + by eapply dseg_remove_seam.
  - repeat (apply changes_insert; [set_solver|by eapply elem_of_dom_2|]).
    apply changes_refl.
Qed.

Lemma runs_list_front h x xs (Q : Z → heap → Prop) :
  list_repr h l (x :: xs) → Q x h → runs (list_front l) h Q.
Proof.
  intros R HQ. rw /list_front. steps. eapply runs_list_empty; [done|].
  rw bool_decide_eq_false_2 //. steps; [done|].
  eapply runs_get_next; [by apply repr_head|done].
Qed.

Lemma runs_list_back h xs x (Q : Z → heap → Prop) :
  list_repr h l (xs ++ [x]) → Q x h → runs (list_back l) h Q.
Proof.
  intros R HQ. rw /list_back. steps. eapply runs_list_empty; [done|].
  rw bool_decide_eq_false_2; [by destruct xs|]. steps; [done|].
  eapply runs_get_prev; [by apply repr_tail|]. by rw /= lastd_app.
Qed.

Lemma runs_list_pop_front h x xs (Q : Z → heap → Prop) :
  list_repr h l (x :: xs) →
  (∀ h', list_repr h' l xs → changes (nodes l xs) h h' → Q x h') →
  runs (list_pop_front l) h Q.
Proof.
  intros R HQ. rw /list_pop_front. steps. eapply runs_list_front; [done|].
  steps. eapply (runs_list_remove _ [] x xs); [done|]. intros h' R' C. step. auto.
Qed.

Lemma runs_list_pop_back h xs x (Q : Z → heap → Prop) :
  list_repr h l (xs ++ [x]) →
  (∀ h', list_repr h' l xs → changes (nodes l xs) h h' → Q x h') →
  runs (list_pop_back l) h Q.
Proof.
  intros R HQ. rw /list_pop_back. steps. eapply runs_list_back; [done|].
  steps. eapply (runs_list_remove _ xs x []); [done|].
  intros h' R' C. rw app_nil_r in R' C. step. auto.
Qed.

(** Popping an empty list trips the assertion in [list_front] or [list_back]. *)
Lemma list_empty_nil h : list_repr h l [] → list_empty l h = Ok (true, h).
Proof.
  intros R.
  assert (runs (list_empty l) h (λ r h', r = true ∧ h' = h))
    as (r & h' & E & -> & ->)%runs_inv; [|done]. by eapply runs_list_empty.
Qed.

Lemma list_pop_front_empty h :
  list_repr h l [] → list_pop_front l h = Err (Panic list_c 282).
Proof.
  intros R. rw /list_pop_front. apply bind_Err. rw /list_front.
  by rw (bind_Ok _ _ _ _ _ (list_empty_nil h R)).
Qed.

Lemma list_pop_back_empty h :
  list_repr h l [] → list_pop_back l h = Err (Panic list_c 291).
Proof.
  intros R. rw /list_pop_back. apply bind_Err. rw /list_back.
  by rw (bind_Ok _ _ _ _ _ (list_empty_nil h R)).
Qed.

(** ** Size *)

Lemma runs_list_size_loop h xs fuel ys cnt (Q : Z → heap → Prop) :
  list_repr h l (xs ++ ys) → length ys < fuel → (0 ≤ cnt)%Z →
  (cnt + Z.of_nat (length ys) < 2 ^ 32)%Z → Q (cnt + Z.of_nat (length ys))%Z h →
  runs (list_size_loop fuel l (hd (tail_of l) ys) cnt) h Q.
Proof.
  revert fuel xs cnt. induction ys as [|y ys IH]; intros [|fuel] xs cnt R Hf H0 Hc HQ;
    simpl in *; try lia; step; (eapply runs_list_end; [done|]).
  - rw bool_decide_eq_true_2 //. step. by rw Z.add_0_r in HQ.
  - rw bool_decide_eq_false_2.
    { intros ->. destruct R as [_ Hnd _]. rw /nodes NoDup_cons NoDup_app in Hnd. set_solver. }
    step. eapply runs_list_next_elem; [done|].
    rw uint32_id; [lia|]. rw (cons_middle y xs ys) app_assoc in R.
    eapply IH; [done|lia..|]. by replace (cnt + 1 + Z.of_nat (length ys))%Z with (cnt + Z.of_nat (S (length ys)))%Z by lia.
Qed.

Lemma runs_list_size h xs (Q : Z → heap → Prop) :
  list_repr h l xs → (Z.of_nat (length xs) < 2 ^ 32)%Z → Q (Z.of_nat (length xs)) h →
  runs (list_size l) h Q.
Proof.
  intros R Hlen HQ. rw /list_size. step. eapply runs_list_begin; [done|].
  apply runs_with_fuel. apply repr_fuel in R as Hf.
  eapply (runs_list_size_loop _ []); [done|lia..|done].
Qed.
End Spec.
