(* ===== verification/CListMove.v ===== *)
(** * list_splice and list_reverse

    Both rewire links in place, sometimes several links of one cell, so the
    proofs look at the [prev] links and the [next] links of a heap as two
    separate chains. *)

From S2P Require Import Prelude CList CListRepr CListSpec.

(** ** The two link functions of a heap *)

Definition pv (h : heap) (x : Z) : option Z := prev <$> h !! x.
Definition nx (h : heap) (x : Z) : option Z := next <$> h !! x.

Fixpoint pseg (f : Z → option Z) (p : Z) (xs : list Z) : Prop :=
  match xs with
  | [] => True
  | x :: xs' => f x = Some p ∧ pseg f x xs'
  end.

Fixpoint nseg (f : Z → option Z) (xs : list Z) (n : Z) : Prop :=
  match xs with
  | [] => True
  | x :: xs' => f x = Some (hd n xs') ∧ nseg f xs' n
  end.

(** [f] with the value at [a] replaced. *)
Definition upd (f : Z → option Z) (a v : Z) : Z → option Z :=
  λ x, if decide (x = a) then Some v else f x.

Lemma lookup_pv_nx h x p n : h !! x = Some (Elem p n) ↔ pv h x = Some p ∧ nx h x = Some n.
Proof. rw /pv /nx. destruct (h !! x) as [[p' n']|]; simpl; naive_solver. Qed.

Lemma dseg_links h p xs n :
  dseg h p xs n ↔ pseg (pv h) p xs ∧ nseg (nx h) xs n.
Proof.
  revert p. induction xs as [|x xs IH]; intros p; simpl; [tauto|].
  rw IH lookup_pv_nx. tauto.
Qed.

Lemma pseg_app f p xs ys : pseg f p (xs ++ ys) ↔ pseg f p xs ∧ pseg f (lastd p xs) ys.
Proof.
  revert p. induction xs as [|x xs IH]; intros p; simpl; [tauto|]. rw IH. tauto.
Qed.

Lemma nseg_app f xs ys n : nseg f (xs ++ ys) n ↔ nseg f xs (hd n ys) ∧ nseg f ys n.
Proof.
  induction xs as [|x xs IH]; simpl; [tauto|].
  rw IH. destruct xs; simpl; tauto.
Qed.

(** The links of a chain lead to its cells or out at its end. *)
Lemma pseg_value f p xs x :
  pseg f p xs → x ∈ xs → ∃ q, f x = Some q ∧ q ∈ p :: xs.
Proof.
  revert p. induction xs as [|y xs IH]; intros p; simpl; [set_solver|].
  intros [Hy Hs] [->|Hx]%elem_of_cons; [exists p; set_solver|].
  destruct (IH y Hs Hx) as (q & Hq & Hin). exists q. set_solver.
Qed.

Lemma nseg_value f xs n x :
  nseg f xs n → x ∈ xs → ∃ m, f x = Some m ∧ m ∈ xs ++ [n].
Proof.
  induction xs as [|y xs IH]; simpl; [set_solver|].
  intros [Hy Hs] [->|Hx]%elem_of_cons.
  - eexists. split; [done|]. destruct xs; simpl; set_solver.
  - destruct (IH Hs Hx) as (m & Hm & Hin). exists m. set_solver.
Qed.

Lemma pseg_upd_ne f p xs a v : a ∉ xs → pseg f p xs → pseg (upd f a v) p xs.
Proof.
  revert p. induction xs as [|x xs IH]; intros p Ha; simpl; [done|].
  intros [Hx Hxs]. rw /upd decide_False; [set_solver|]. split; [done|].
  apply IH; [set_solver|done].
Qed.

Lemma nseg_upd_ne f xs n a v : a ∉ xs → nseg f xs n → nseg (upd f a v) xs n.
Proof.
  induction xs as [|x xs IH]; intros Ha; simpl; [done|].
  intros [Hx Hxs]. rw /upd decide_False; [set_solver|]. split; [done|].
  apply IH; [set_solver|done].
Qed.

(** Redirecting the [prev] link of a chain's first cell. *)
Lemma pseg_rebase f p q x xs :
  x ∉ xs → pseg f p (x :: xs) → pseg (upd f x q) q (x :: xs).
Proof.
  simpl. intros Hx [_ Hs]. split; [by rw /upd decide_True|]. by apply pseg_upd_ne.
Qed.

(** Redirecting the [next] link of a chain's last cell. *)
Lemma nseg_rebase f n m xs x :
  x ∉ xs → nseg f (xs ++ [x]) n → nseg (upd f x m) (xs ++ [x]) m.
Proof.
  rw !nseg_app /=. intros Hx [Hs _]. split; [by apply nseg_upd_ne|].
  split; [by rw /upd decide_True|done].
Qed.

Lemma pseg_ext f g p xs : (∀ x, x ∈ xs → f x = g x) → pseg f p xs → pseg g p xs.
Proof.
  revert p. induction xs as [|x xs IH]; intros p H; simpl; [done|].
  rw H; [set_solver|]. intros [Hx Hs]. split; [done|]. apply IH; [set_solver|done].
Qed.

Lemma nseg_ext f g xs n : (∀ x, x ∈ xs → f x = g x) → nseg f xs n → nseg g xs n.
Proof.
  induction xs as [|x xs IH]; intros H; simpl; [done|].
  rw H; [set_solver|]. intros [Hx Hs]. split; [done|]. apply IH; [set_solver|done].
Qed.

Lemma lastd_rev n xs : lastd n (reverse xs) = hd n xs.
Proof. destruct xs as [|x xs]; [done|]. by rw reverse_cons lastd_app. Qed.

Lemma hd_rev p xs : hd p (reverse xs) = lastd p xs.
Proof.
  revert p. induction xs as [|x xs IH]; intros p; [done|]. rw reverse_cons /= -IH.
  by destruct (reverse xs).
Qed.

(** Read backwards, [next] links are [prev] links. *)
Lemma nseg_reverse f xs n : nseg f xs n → pseg f n (reverse xs).
Proof.
  induction xs as [|x xs IH]; simpl; [done|]. intros [Hx Hs].
  rw reverse_cons pseg_app lastd_rev /=. auto.
Qed.

Lemma pseg_reverse f p xs : pseg f p xs → nseg f (reverse xs) p.
Proof.
  revert p. induction xs as [|x xs IH]; intros p; simpl; [done|]. intros [Hx Hs].
  rw reverse_cons nseg_app /=. auto.
Qed.

(** ** Field updates as updates of a link function *)

(** [links h f g]: the [prev] and [next] links of [h] are [f] and [g]. *)
Definition links (h : heap) (f g : Z → option Z) : Prop :=
  ∀ x, pv h x = f x ∧ nx h x = g x.

Lemma links_self h : links h (pv h) (nx h).
Proof. done. Qed.

Section Links.
Context (h : heap) (f g : Z → option Z) (L : links h f g).

Lemma links_lookup x p n : f x = Some p → g x = Some n → h !! x = Some (Elem p n).
Proof. destruct (L x) as [E1 E2]. rw -E1 -E2. intros. by apply lookup_pv_nx. Qed.

Lemma links_get_prev a v (Q : Z → heap → Prop) :
  f a = Some v → Q v h → runs (get_prev a) h Q.
Proof.
  destruct (L a) as [E _]. rw -E /pv. destruct (h !! a) as [e|] eqn:He; simpl; [|done].
  intros [= <-] HQ. by eapply runs_get_prev.
Qed.

Lemma links_get_next a v (Q : Z → heap → Prop) :
  g a = Some v → Q v h → runs (get_next a) h Q.
Proof.
  destruct (L a) as [_ E]. rw -E /nx. destruct (h !! a) as [e|] eqn:He; simpl; [|done].
  intros [= <-] HQ. by eapply runs_get_next.
Qed.

Lemma links_set_prev a v (Q : unit → heap → Prop) :
  a ∈ dom h →
  (∀ h', links h' (upd f a v) g → dom h' = dom h → Q tt h') → runs (set_prev a v) h Q.
Proof.
  intros [e He]%elem_of_dom HQ. eapply runs_set_prev; [done|]. apply HQ.
  - intros x. destruct (L x) as [E1 E2]. rw /upd -E1 -E2 /pv /nx lookup_insert.
    repeat case_decide; simplify_eq; rw ?He //.
  - by rw dom_insert_lookup_L.
Qed.

Lemma links_set_next a v (Q : unit → heap → Prop) :
  a ∈ dom h →
  (∀ h', links h' f (upd g a v) → dom h' = dom h → Q tt h') → runs (set_next a v) h Q.
Proof.
  intros [e He]%elem_of_dom HQ. eapply runs_set_next; [done|]. apply HQ.
  - intros x. destruct (L x) as [E1 E2]. rw /upd -E1 -E2 /pv /nx lookup_insert.
    repeat case_decide; simplify_eq; rw ?He //.
  - by rw dom_insert_lookup_L.
Qed.

Lemma links_dseg p xs n : dseg h p xs n ↔ pseg f p xs ∧ nseg g xs n.
Proof.
  rw dseg_links. split; intros [H1 H2]; split.
  all: try (eapply pseg_ext; [|done]; intros x _; by destruct (L x)).
  all: eapply nseg_ext; [|done]; intros x _; by destruct (L x).
Qed.

Lemma links_dom x v : f x = Some v → x ∈ dom h.
Proof.
  destruct (L x) as [E _]. rw -E /pv elem_of_dom. destruct (h !! x); by eauto.
Qed.
End Links.

Lemma upd_eq f a v : upd f a v a = Some v.
Proof. by rw /upd decide_True. Qed.

Lemma upd_ne f a v x : x ≠ a → upd f a v x = f x.
Proof. intros Hx. by rw /upd decide_False. Qed.

(** ** list_splice, on link functions *)

Lemma runs_splice_links h f g before first last last' fp bp (Q : unit → heap → Prop) :
  links h f g →
  (∃ b0, f before = Some b0 ∧ b0 ≠ NULL) → (∃ n, g before = Some n) →
  before ≠ NULL → first ≠ last' → before ≠ first →
  last' ≠ NULL → f last' = Some last → (∃ n, g last' = Some n) →
  first ≠ NULL → f first = Some fp → fp ≠ NULL → (∃ n, g first = Some n ∧ n ≠ NULL) →
  last ≠ NULL → (∃ q, f last = Some q ∧ q ≠ NULL) → g last = Some last' →
  fp ∈ dom h → bp ∈ dom h → upd f last' fp before = Some bp → first ≠ last' →
  (∀ h', links h' (upd (upd (upd f last' fp) first bp) before last)
                  (upd (upd (upd g fp last') last before) bp first) →
         dom h' = dom h → Q tt h') →
  runs (list_splice before first last') h Q.
Proof.
  intros L (b0 & Hb0 & Hb0n) [bn Hbn] Hbef Hfl Hbf Hl'0 Hl' [ln' Hln'] Hf0 Hfp Hfp0
    (fn & Hfn & Hfn0) Hl0 (q & Hq & Hq0) Hln Hfpd Hbpd Hbp Hne HQ.
  rw /list_splice. step.
  eapply runs_interior_or_tail; [by eapply links_lookup|done..|]. steps; [done|].
  rw bool_decide_eq_false_2 //. step.
  eapply runs_list_prev; [by eapply links_lookup|done..|]. step.
  eapply runs_interior; [by eapply links_lookup|done..|]. steps; [done|].
  eapply runs_interior; [by eapply links_lookup|done..|]. steps; [done|].
  eapply links_get_prev; [done..|]. step. eapply links_get_next; [done..|]. step.
  eapply links_set_next; [done..|]. intros h1 L1 D1. step.
  eapply (links_get_next _ _ _ L1 _ last').
  { rw /upd. by case_decide. } step.
  eapply links_get_prev; [done..|]. step.
  assert (last' ∈ dom h) by by eapply links_dom.
  eapply links_set_prev; [done|by rw D1|]. intros h2 L2 D2. step.
  eapply links_get_prev; [done..|]. step.
  assert (first ∈ dom h) by by eapply links_dom.
  eapply links_set_prev; [done|by rw D2 D1|]. intros h3 L3 D3. step.
  assert (last ∈ dom h) by by eapply links_dom.
  eapply links_set_next; [done|by rw D3 D2 D1|]. intros h4 L4 D4. step.
  eapply links_get_prev; [done|by rw upd_ne|]. step.
  eapply links_set_next; [done|by rw D4 D3 D2 D1|]. intros h5 L5 D5.
  assert (before ∈ dom h) by by eapply links_dom.
  eapply links_set_prev; [done|by rw D5 D4 D3 D2 D1|]. intros h6 L6 D6.
  apply HQ; [done|congruence].
Qed.

Lemma NoDup_snoc (xs : list Z) x : NoDup (xs ++ [x]) → x ∉ xs.
Proof. rw NoDup_app. intros (_ & H & _) Hx. apply (H x Hx). by apply list_elem_of_singleton. Qed.

(** ** Moving a block of nodes over its left neighbours *)

(** The nodes [P ++ B ++ W ++ C], all blocks non-empty, become [P ++ W ++ B ++ C]. *)
Section Blocks.
Context (f g : Z → option Z).
Context (P B W C : list Z) (p b0 bq s0 sk c0 : Z).
Context (P' B' B'' W' W'' C'' : list Z).
Hypothesis HP : P = P' ++ [p].
Hypothesis HB : B = b0 :: B'' ∧ B = B' ++ [bq].
Hypothesis HW : W = s0 :: W'' ∧ W = W' ++ [sk].
Hypothesis HC : C = c0 :: C''.
Hypothesis Hnd : NoDup (P ++ B ++ W ++ C).
Hypothesis Hpseg : pseg f NULL (P ++ B ++ W ++ C).
Hypothesis Hnseg : nseg g (P ++ B ++ W ++ C) NULL.

Lemma blocks_disjoint :
  (∀ x, x ∈ P → x ∉ B ∧ x ∉ W ∧ x ∉ C) ∧ (∀ x, x ∈ B → x ∉ P ∧ x ∉ W ∧ x ∉ C) ∧
  (∀ x, x ∈ W → x ∉ P ∧ x ∉ B ∧ x ∉ C) ∧ (∀ x, x ∈ C → x ∉ P ∧ x ∉ B ∧ x ∉ W).
Proof.
  move: Hnd. rw !NoDup_app. intros (_ & H1 & _ & H2 & _ & H3 & _).
  split_and!; intros x; specialize (H1 x); specialize (H2 x); specialize (H3 x);
    rw !elem_of_app in H1 H2; tauto.
Qed.

Lemma blocks_ends :
  p ∈ P ∧ b0 ∈ B ∧ bq ∈ B ∧ s0 ∈ W ∧ sk ∈ W ∧ c0 ∈ C ∧
  p ∉ P' ∧ b0 ∉ B'' ∧ bq ∉ B' ∧ s0 ∉ W'' ∧ sk ∉ W' ∧ c0 ∉ C''.
Proof.
  destruct HB as [HB1 HB2], HW as [HW1 HW2].
  assert (NoDup P ∧ NoDup B ∧ NoDup W ∧ NoDup C) as (NP & NB & NW & NC).
  { move: Hnd. rw !NoDup_app. tauto. }
  split_and!.
  - rw HP. clear; set_solver.
  - rw HB1. clear; set_solver.
  - rw HB2. clear; set_solver.
  - rw HW1. clear; set_solver.
  - rw HW2. clear; set_solver.
  - rw HC. clear; set_solver.
  - rw HP in NP. by apply NoDup_snoc.
  - rw HB1 NoDup_cons in NB. tauto.
  - rw HB2 in NB. by apply NoDup_snoc.
  - rw HW1 NoDup_cons in NW. tauto.
  - rw HW2 in NW. by apply NoDup_snoc.
  - rw HC NoDup_cons in NC. tauto.
Qed.

Lemma blocks_links :
  (pseg f NULL P ∧ pseg f p B ∧ pseg f bq W ∧ pseg f sk C) ∧
  (nseg g P b0 ∧ nseg g B s0 ∧ nseg g W c0 ∧ nseg g C NULL).
Proof.
  destruct HB as [HB1 HB2], HW as [HW1 HW2].
  move: Hpseg Hnseg. rw !pseg_app !nseg_app.
  assert (lastd NULL P = p) as -> by by rw HP lastd_app.
  assert (lastd p B = bq) as -> by by rw HB2 lastd_app.
  assert (lastd bq W = sk) as -> by by rw HW2 lastd_app.
  assert (hd NULL (W ++ C) = s0) as -> by by rw HW1.
  assert (hd NULL C = c0) as -> by by rw HC.
  assert (hd NULL (B ++ W ++ C) = b0) as -> by by rw HB1.
  tauto.
Qed.

Lemma blocks_out :
  ((c0 ∉ P ∧ s0 ∉ P ∧ b0 ∉ P) ∧ (b0 ∉ W ∧ c0 ∉ W) ∧ (c0 ∉ B ∧ s0 ∉ B) ∧ b0 ∉ C ∧ s0 ∉ C) ∧
  ((sk ∉ P ∧ bq ∉ P) ∧ (p ∉ W ∧ bq ∉ W) ∧ (p ∉ B ∧ sk ∉ B) ∧ p ∉ C ∧ sk ∉ C ∧ bq ∉ C).
Proof.
  destruct blocks_disjoint as (DP & DB & DW & DC).
  destruct blocks_ends as (Ep & Eb0 & Ebq & Es0 & Esk & Ec0 & _).
  apply DP in Ep. apply DB in Eb0, Ebq. apply DW in Es0, Esk. apply DC in Ec0. tauto.
Qed.

Lemma blocks_swap_prev :
  pseg (upd (upd (upd f c0 bq) s0 p) b0 sk) NULL (P ++ W ++ B ++ C).
Proof.
  destruct blocks_out as ([(? & ? & ?) ((? & ?) & (? & ?) & ? & ?)] & _).
  destruct blocks_ends as (_ & _ & _ & _ & _ & _ & _ & Nb & _ & Ns & _ & Nc).
  destruct blocks_links as ((L1 & L2 & L3 & L4) & _), HB as [HB1 HB2], HW as [HW1 HW2].
  rw !pseg_app.
  assert (lastd NULL P = p) as -> by by rw HP lastd_app.
  assert (lastd p W = sk) as -> by by rw HW2 lastd_app.
  assert (lastd sk B = bq) as -> by by rw HB2 lastd_app.
  split_and!.
  - by repeat apply pseg_upd_ne.
  - apply pseg_upd_ne; [done|]. apply (pseg_upd_ne _ _ _ c0 bq) in L3; [|done].
    rw HW1 in L3 *. by eapply pseg_rebase.
  - apply (pseg_upd_ne _ _ _ c0 bq), (pseg_upd_ne _ _ _ s0 p) in L2; [|done..].
    rw HB1 in L2 *. by eapply pseg_rebase.
  - do 2 (apply pseg_upd_ne; [done|]). rw HC in L4 *. by eapply pseg_rebase.
Qed.

Lemma blocks_swap_next :
  nseg (upd (upd (upd g bq c0) sk b0) p s0) (P ++ W ++ B ++ C) NULL.
Proof.
  destruct blocks_out as (_ & (? & ?) & (? & ?) & (? & ?) & ? & ? & ?).
  destruct blocks_ends as (_ & _ & _ & _ & _ & _ & Np & _ & Nb & _ & Ns & _).
  destruct blocks_links as (_ & (L1 & L2 & L3 & L4)), HB as [HB1 HB2], HW as [HW1 HW2].
  rw !nseg_app.
  assert (hd NULL C = c0) as -> by by rw HC.
  assert (hd NULL (B ++ C) = b0) as -> by by rw HB1.
  assert (hd NULL (W ++ B ++ C) = s0) as -> by by rw HW1.
  split_and!.
  - apply (nseg_upd_ne _ _ _ bq c0), (nseg_upd_ne _ _ _ sk b0) in L1; [|done..].
    rw HP in L1 *. by eapply nseg_rebase.
  - apply nseg_upd_ne; [done|]. apply (nseg_upd_ne _ _ _ bq c0) in L3; [|done].
    rw HW2 in L3 *. by eapply nseg_rebase.
  - do 2 (apply nseg_upd_ne; [done|]). rw HB2 in L2 *. by eapply nseg_rebase.
  - by repeat apply nseg_upd_ne.
Qed.

(** With these links in the heap [h], [list_splice b0 s0 c0] does the move. *)
Lemma runs_splice_blocks h (Q : unit → heap → Prop) :
  links h f g → (∀ x, x ∈ P ++ B ++ W ++ C → x ≠ NULL) →
  (∀ x, x ∈ P ++ B ++ W ++ C → x ∈ dom h) →
  (∀ h', links h' (upd (upd (upd f c0 bq) s0 p) b0 sk)
                  (upd (upd (upd g bq c0) sk b0) p s0) → dom h' = dom h → Q tt h') →
  runs (list_splice b0 s0 c0) h Q.
Proof.
  intros L Hnn Hdom HQ.
  destruct blocks_out as ([_ ((Hb0W & Hc0W) & (Hc0B & _) & _)] & _).
  destruct blocks_ends as (Ep & Eb0 & Ebq & Es0 & Esk & Ec0 & _).
  destruct blocks_links as ((_ & L2 & L3 & L4) & (_ & N2 & N3 & N4)).
  assert (∀ x, x ∈ P ∨ x ∈ B ∨ x ∈ W ∨ x ∈ C → x ≠ NULL) as Hnn'.
  { intros x Hx. apply Hnn. by rw !elem_of_app. }
  assert (∀ x, x ∈ P ∨ x ∈ B ∨ x ∈ W ∨ x ∈ C → x ∈ dom h) as Hdom'.
  { intros x Hx. apply Hdom. by rw !elem_of_app. }
  destruct (nseg_value _ _ _ _ N2 Eb0) as (bn & Hbn & _).
  destruct (nseg_value _ _ _ _ N3 Es0) as (sn & Hsn & Hsn').
  destruct (pseg_value _ _ _ _ L3 Esk) as (q & Hq & Hq').
  destruct (nseg_value _ _ _ _ N4 Ec0) as (cn & Hcn & _).
  rw elem_of_app list_elem_of_singleton in Hsn'. rw elem_of_cons in Hq'.
  assert (f b0 = Some p ∧ f s0 = Some bq ∧ f c0 = Some sk ∧ g sk = Some c0) as (? & ? & ? & ?).
  { destruct HB as [EB _], HW as [EW EW']. rw EW' nseg_app /= in N3.
    rw EB in L2. rw EW in L3. rw HC in L4. simpl in *. tauto. }
  assert (s0 ≠ c0 ∧ b0 ≠ s0 ∧ b0 ≠ c0) as (? & ? & ?) by naive_solver.
  eapply (runs_splice_links _ _ _ b0 s0 sk c0 bq p); eauto 8.
  - exists sn. split; [done|]. destruct Hsn' as [?| ->]; auto.
  - exists q. split; [done|]. destruct Hq' as [->|?]; auto.
  - by rw upd_ne.
Qed.
End Blocks.

(** ** list_splice: moving a block leftwards within its list *)

Lemma links_changes ns h h' f g :
  links h' f g → dom h' = dom h →
  (∀ x, x ∉ ns → f x = pv h x ∧ g x = nx h x) → changes ns h h'.
Proof.
  intros L D H. split; [|done]. intros x Hx.
  destruct (L x) as [E1 E2], (H x Hx) as [F1 F2]. rw F1 F2 /pv /nx in E1 E2.
  destruct (h !! x) as [[]|], (h' !! x) as [[]|]; naive_solver.
Qed.

Lemma list_ends (xs : list Z) d e :
  xs ≠ [] → ∃ xs' xs'', xs = hd d xs :: xs'' ∧ xs = xs' ++ [lastd e xs].
Proof.
  intros Hne. induction xs as [|x xs _] using rev_ind; [done|].
  destruct xs as [|y ys]; [by exists [], []|].
  exists (y :: ys), (ys ++ [x]). by rw /= lastd_app.
Qed.

Lemma upd3_out (f : Z → option Z) a b c u v w x :
  x ≠ a → x ≠ b → x ≠ c → upd (upd (upd f a u) b v) c w x = f x.
Proof. intros. by rw !upd_ne. Qed.

Lemma runs_list_splice_left l h a b s c (Q : unit → heap → Prop) :
  b ≠ [] → s ≠ [] → list_repr h l (a ++ b ++ s ++ c) →
  (∀ h', list_repr h' l (a ++ s ++ b ++ c) →
         changes (nodes l (a ++ b ++ s ++ c)) h h' → Q tt h') →
  runs (list_splice (hd (tail_of l) b) (hd (tail_of l) s) (hd (tail_of l) c)) h Q.
Proof.
  intros Hb Hs R HQ.
  destruct (list_ends b (tail_of l) NULL Hb) as (B' & B'' & HB).
  destruct (list_ends s (tail_of l) NULL Hs) as (W' & W'' & HW).
  destruct (list_ends (head_of l :: a) NULL NULL ltac:(done)) as (P' & _ & _ & HP).
  destruct (list_ends (c ++ [tail_of l]) NULL NULL ltac:(by destruct c))
    as (_ & C'' & HC & _). rw hd_app_cons in HC.
  assert (∀ u v, nodes l (a ++ u ++ v ++ c) = (head_of l :: a) ++ u ++ v ++ c ++ [tail_of l]) as HN.
  { intros u v. by rw /nodes -!app_assoc. }
  pose proof R as [Hnull Hnd Hseg]. rw HN in Hnull Hnd Hseg HQ.
  apply dseg_links in Hseg as [Hps Hns].
  eapply (runs_splice_blocks _ _ _ _ _ _ _ _ _ _ _ _ _ _ _ _ _ _ HP HB HW HC Hnd Hps Hns).
  - apply links_self.
  - intros x Hx ->. done.
  - intros x Hx. rw -HN in Hx. by eapply repr_node_dom.
  - intros h' L D.
    destruct (blocks_ends _ _ _ _ _ _ _ _ _ _ _ _ _ _ _ _ HP HB HW HC Hnd)
      as (Ep & Eb0 & Ebq & Es0 & Esk & Ec0 & _).
    apply HQ; [split; rw HN|].
    + rw !elem_of_app in Hnull *. tauto.
    + by rw (app_assoc s) (Permutation_app_comm s) -app_assoc.
    + eapply links_dseg; [done|]. split;
        [by eapply blocks_swap_prev|by eapply blocks_swap_next].
    + eapply links_changes; [done..|]. intros x Hx. rw !elem_of_app in Ec0 Hx.
      split; apply upd3_out; try done; intros ->; tauto.
Qed.

(** ** list_reverse *)

(** [f], with the values of [g] at the cells [xs]. *)
Definition over (f g : Z → option Z) (xs : list Z) : Z → option Z :=
  λ x, if decide (x ∈ xs) then g x else f x.

Lemma over_in f g xs x : x ∈ xs → over f g xs x = g x.
Proof. intros. by rw /over decide_True. Qed.

Lemma over_out f g xs x : x ∉ xs → over f g xs x = f x.
Proof. intros. by rw /over decide_False. Qed.

Lemma links_ext h f g f' g' :
  links h f g → (∀ x, f x = f' x) → (∀ x, g x = g' x) → links h f' g'.
Proof. intros L Hf Hg x. rw -Hf -Hg. apply L. Qed.

(** Exchanging the two links of one cell. *)
Lemma links_swap_cell h f g a u v (Q : unit → heap → Prop) :
  links h f g → f a = Some u → g a = Some v →
  (∀ h', links h' (upd f a v) (upd g a u) → dom h' = dom h → Q tt h') →
  runs (swap (a, FPrev) (a, FNext)) h Q.
Proof.
  intros L Hu Hv HQ. assert (a ∈ dom h) by by eapply links_dom.
  rw /swap /get_field /set_field /=. step.
  eapply links_get_prev; [done..|]. step. eapply links_get_next; [done..|]. step.
  eapply links_set_prev; [done..|]. intros h1 L1 D1.
  eapply links_set_next; [done|by rw D1|]. intros h2 L2 D2. apply HQ; [done|congruence].
Qed.

Lemma over_upd f g y ys u v x :
  y ∉ ys → g y = Some v → over (upd f y v) (upd g y u) ys x = over f g (y :: ys) x.
Proof.
  intros Hy Hv. rw /over /upd. repeat case_decide; set_solver.
Qed.

Lemma runs_list_reverse_loop l fuel ys h f g (Q : unit → heap → Prop) :
  l ≠ NULL → links h f g → NoDup ys → tail_of l ∉ ys → length ys < fuel →
  nseg g ys (tail_of l) → (∀ x, x ∈ ys → is_Some (f x)) →
  (∀ h', links h' (over f g ys) (over g f ys) → dom h' = dom h → Q tt h') →
  runs (list_reverse_loop fuel l (hd (tail_of l) ys)) h Q.
Proof.
  revert fuel h f g. induction ys as [|y ys IH]; intros [|fuel] h f g Hl L Hnd Ht Hf Hs Hv HQ;
    simpl in *; try lia; (step; rw /list_end; steps; apply runs_not_null; [done|]; step).
  - rw bool_decide_eq_true_2 //. step. apply HQ; [|done]. by eapply links_ext.
  - apply NoDup_cons in Hnd as [Hy Hnd]. destruct Hs as [Hgy Hs].
    destruct (Hv y) as [u Hu]; [set_solver|].
    rw bool_decide_eq_false_2; [set_solver|]. step.
    eapply links_swap_cell; [done..|]. intros h1 L1 D1. step.
    eapply (links_get_prev _ _ _ L1); [apply upd_eq|].
    eapply (IH _ _ _ _ Hl L1); [done|set_solver|lia|by apply nseg_upd_ne|..].
    + intros x Hx. rw upd_ne; [by intros ->|]. apply Hv. set_solver.
    + intros h2 L2 D2. apply HQ; [|congruence].
      eapply links_ext; [done|..]; intros x; by apply over_upd.
Qed.

(** The links after the loop and the two final swaps. *)
Section Reversed.
Context (f g : Z → option Z) (l : Z) (xs : list Z).
Hypothesis Hne : xs ≠ [].
Hypothesis Hnd : NoDup (nodes l xs).
Hypothesis Hps : pseg f NULL (nodes l xs).
Hypothesis Hns : nseg g (nodes l xs) NULL.

Let hd' := head_of l.
Let tl := tail_of l.
Let fst' := hd tl xs.
Let lst := lastd hd' xs.
Definition rev_prev := upd (upd (over f g xs) tl fst') lst hd'.
Definition rev_next := upd (upd (over g f xs) hd' lst) fst' tl.

Lemma rev_facts :
  (hd' ∉ xs ∧ tl ∉ xs ∧ hd' ≠ tl) ∧ (hd' ≠ lst ∧ tl ≠ lst ∧ hd' ≠ fst' ∧ tl ≠ fst') ∧
  (f hd' = Some NULL ∧ pseg f hd' xs ∧ f tl = Some lst) ∧
  (g hd' = Some fst' ∧ nseg g xs tl ∧ g tl = Some NULL).
Proof.
  move: Hnd Hps Hns. rw /nodes /= pseg_app nseg_app NoDup_cons NoDup_app /=.
  intros (H1 & _ & H2 & _) (P1 & P2 & P3 & _) (N1 & N2 & N3 & _).
  rw hd_app_cons in N1. rw elem_of_app list_elem_of_singleton in H1.
  assert (tl ∉ xs) as Ht.
  { intros Ht. apply (H2 tl Ht). by apply list_elem_of_singleton. }
  pose proof (hd_in tl xs Hne). pose proof (lastd_in hd' xs Hne).
  split_and!; try done; try tauto; intros E; [apply H1; left|apply Ht|apply H1; left|apply Ht];
    by rw -/hd' E.
Qed.

Lemma rev_pseg : pseg rev_prev NULL (nodes l (reverse xs)).
Proof.
  destruct rev_facts as ((Hh & Ht & Hht) & (? & ? & ? & ?) & (F1 & F2 & F3) & (G1 & G2 & G3)).
  rw /nodes /= pseg_app lastd_rev /= -/hd' -/tl /rev_prev. split_and!; [..|done].
  - by rw !upd_ne ?over_out.
  - destruct (list_ends (reverse xs) hd' NULL) as (_ & ys & E & _).
    { intros E. apply Hne. by rw -(reverse_involutive xs) E. }
    rw hd_rev -/lst in E. apply nseg_reverse in G2.
    apply (pseg_ext _ (over f g xs)) in G2.
    2: { intros x Hx. rw elem_of_reverse in Hx. by rw over_in. }
    apply (pseg_upd_ne _ _ _ tl fst') in G2; [|by rw elem_of_reverse].
    rw E in G2 *. eapply pseg_rebase; [|done].
    assert (NoDup (reverse xs)) as N.
    { rw reverse_Permutation. move: Hnd. rw /nodes NoDup_cons NoDup_app. tauto. }
    rw E NoDup_cons in N. tauto.
  - rw upd_ne // upd_eq. by destruct xs.
Qed.

Lemma rev_nseg : nseg rev_next (nodes l (reverse xs)) NULL.
Proof.
  destruct rev_facts as ((Hh & Ht & Hht) & (? & ? & ? & ?) & (F1 & F2 & F3) & (G1 & G2 & G3)).
  rw /nodes /= nseg_app hd_app_cons hd_rev /= -/hd' -/tl /rev_next. split_and!; [..|done].
  - rw upd_ne // upd_eq. by destruct xs.
  - destruct (list_ends (reverse xs) hd' tl) as (ys & _ & _ & E).
    { intros E. apply Hne. by rw -(reverse_involutive xs) E. }
    rw lastd_rev -/fst' in E. apply pseg_reverse in F2.
    apply (nseg_ext _ (over g f xs)) in F2.
    2: { intros x Hx. rw elem_of_reverse in Hx. by rw over_in. }
    apply (nseg_upd_ne _ _ _ hd' lst) in F2; [|by rw elem_of_reverse].
    rw E in F2 *. eapply nseg_rebase; [|done].
    assert (NoDup (reverse xs)) as N.
    { rw reverse_Permutation. move: Hnd. rw /nodes NoDup_cons NoDup_app. tauto. }
    rw E in N. by apply NoDup_snoc.
  - by rw !upd_ne ?over_out.
Qed.
End Reversed.

Lemma runs_list_reverse l h xs (Q : unit → heap → Prop) :
  list_repr h l xs →
  (∀ h', list_repr h' l (reverse xs) → changes (nodes l xs) h h' → Q tt h') →
  runs (list_reverse l) h Q.
Proof.
  intros R HQ. rw /list_reverse. step. eapply runs_list_empty; [done|].
  case_bool_decide as Hxs.
  { step. subst xs. apply HQ; [done|apply changes_refl]. }
  pose proof R as [Hnull Hnd Hseg]. apply dseg_links in Hseg as [Hps Hns].
  destruct (rev_facts (pv h) (nx h) l xs Hxs Hnd Hps Hns)
    as ((Hh & Ht & Hht) & (? & ? & ? & ?) & (F1 & F2 & F3) & (G1 & G2 & G3)).
  pose proof (lastd_in (head_of l) xs Hxs) as Hlst. pose proof (hd_in (tail_of l) xs Hxs) as Hfst.
  assert (l ≠ NULL) by (eapply (repr_node_nonnull _ _ _ R (head_of l)), in_nodes; by left).
  assert (∀ x, x ∈ nodes l xs → x ∈ dom h) as Hdom by (intros; by eapply repr_node_dom).
  step. eapply runs_list_begin; [done|]. step. apply runs_with_fuel.
  eapply runs_list_reverse_loop; [done|apply links_self|..].
  { move: Hnd. rw /nodes NoDup_cons NoDup_app. tauto. } { done. }
  { apply repr_fuel in R. lia. } { done. }
  { intros x Hx. destruct (pseg_value _ _ _ _ F2 Hx) as (q & -> & _). done. }
  intros h1 L1 D1. rw /swap /get_field /set_field /=. steps.
  eapply links_get_next; [done|by rw over_out|]. steps.
  eapply links_get_prev; [done|by rw over_out|]. steps.
  eapply links_set_next; [done|rw D1; apply Hdom, in_nodes; auto|]. intros h2 L2 D2. steps.
  eapply links_set_prev; [done|rw D2 D1; apply Hdom, in_nodes; auto|]. intros h3 L3 D3. steps.
  eapply links_get_next; [done|apply upd_eq|]. steps.
  eapply links_get_prev; [done|apply upd_eq|]. steps.
  assert (nx h (lastd (head_of l) xs) = Some (tail_of l)) as Elst.
  { destruct (list_ends xs NULL (head_of l) Hxs) as (ys & _ & _ & E).
    rw {1}E nseg_app /= in G2. tauto. }
  assert (pv h (hd (tail_of l) xs) = Some (head_of l)) as Efst.
  { destruct (list_ends xs (tail_of l) NULL Hxs) as (_ & ys & E & _).
    rw {1}E /= in F2. tauto. }
  eapply links_get_prev; [done|by rw upd_ne // over_in|]. step.
  eapply links_get_next; [done|by rw upd_ne // over_in|]. step.
  eapply links_set_prev; [done|rw D3 D2 D1; apply Hdom, in_nodes; auto|]. intros h4 L4 D4.
  eapply links_set_next; [done|rw D4 D3 D2 D1; apply Hdom, in_nodes; auto|].
  intros h5 L5 D5. apply HQ.
  - split.
    + move: Hnull. by rw !in_nodes elem_of_reverse.
    + move: Hnd. by rw /nodes reverse_Permutation.
    + eapply links_dseg; [done|]. split; [by apply rev_pseg|by apply rev_nseg].
  - eapply links_changes; [done|congruence|]. intros x Hx. rw in_nodes in Hx.
    split; (rw !upd_ne; [intros ->; tauto..|]); by rw over_out; [tauto|].
Qed.
