(* ===== verification/CListSplice.v ===== *)
(** * list_splice between two lists

    The elements [FIRST] up to [LAST] of one list moved in front of [BEFORE] in another,
    the use list.h documents.  [CListMove] has the move within one list. *)

From S2P Require Import Prelude CList CListRepr CListSpec CListMove.

(** The nodes [P ++ B] and [S ++ W ++ C] of two lists become [P ++ W ++ B] and [S ++ C]. *)
Section TwoLists.
Context (f g : Z → option Z).
Context (P B S W C : list Z) (p b0 q s0 sk c0 : Z).
Context (P' B'' S' W' W'' C'' : list Z).
Hypothesis HP : P = P' ++ [p].
Hypothesis HB : B = b0 :: B''.
Hypothesis HS : S = S' ++ [q].
Hypothesis HW : W = s0 :: W'' ∧ W = W' ++ [sk].
Hypothesis HC : C = c0 :: C''.
Hypothesis Hnd : NoDup ((P ++ B) ++ S ++ W ++ C).
Hypothesis Hp1 : pseg f NULL (P ++ B).
Hypothesis Hn1 : nseg g (P ++ B) NULL.
Hypothesis Hp2 : pseg f NULL (S ++ W ++ C).
Hypothesis Hn2 : nseg g (S ++ W ++ C) NULL.

Definition moved_prev := upd (upd (upd f c0 q) s0 p) b0 sk.
Definition moved_next := upd (upd (upd g q c0) sk b0) p s0.

Lemma two_ends :
  p ∈ P ∧ b0 ∈ B ∧ q ∈ S ∧ s0 ∈ W ∧ sk ∈ W ∧ c0 ∈ C ∧
  p ∉ P' ∧ b0 ∉ B'' ∧ q ∉ S' ∧ s0 ∉ W'' ∧ sk ∉ W' ∧ c0 ∉ C''.
Proof.
  destruct HW as [HW1 HW2].
  assert (NoDup P ∧ NoDup B ∧ NoDup S ∧ NoDup W ∧ NoDup C) as (NP & NB & NS & NW & NC).
  { move: Hnd. rw !NoDup_app. tauto. }
  split_and!.
  - rw HP. clear; set_solver.
  - rw HB. clear; set_solver.
  - rw HS. clear; set_solver.
  - rw HW1. clear; set_solver.
  - rw HW2. clear; set_solver.
  - rw HC. clear; set_solver.
  - rw HP in NP. by apply NoDup_snoc.
  - rw HB NoDup_cons in NB. tauto.
  - rw HS in NS. by apply NoDup_snoc.
  - rw HW1 NoDup_cons in NW. tauto.
  - rw HW2 in NW. by apply NoDup_snoc.
  - rw HC NoDup_cons in NC. tauto.
Qed.

Lemma two_disjoint x :
  (x ∈ P → x ∉ B ∧ x ∉ S ∧ x ∉ W ∧ x ∉ C) ∧ (x ∈ B → x ∉ P ∧ x ∉ S ∧ x ∉ W ∧ x ∉ C) ∧
  (x ∈ S → x ∉ P ∧ x ∉ B ∧ x ∉ W ∧ x ∉ C) ∧ (x ∈ W → x ∉ P ∧ x ∉ B ∧ x ∉ S ∧ x ∉ C) ∧
  (x ∈ C → x ∉ P ∧ x ∉ B ∧ x ∉ S ∧ x ∉ W).
Proof.
  move: Hnd. rw !NoDup_app. intros ((_ & H1 & _) & H2 & _ & H3 & _ & H4 & _).
  specialize (H1 x). specialize (H2 x). specialize (H3 x). specialize (H4 x).
  rw !elem_of_app in H2 H3. tauto.
Qed.

Lemma two_links :
  (pseg f NULL P ∧ pseg f p B ∧ pseg f NULL S ∧ pseg f q W ∧ pseg f sk C) ∧
  (nseg g P b0 ∧ nseg g B NULL ∧ nseg g S s0 ∧ nseg g W c0 ∧ nseg g C NULL).
Proof.
  destruct HW as [HW1 HW2]. move: Hp1 Hn1 Hp2 Hn2. rw !pseg_app !nseg_app.
  assert (lastd NULL P = p) as -> by by rw HP lastd_app.
  assert (lastd NULL S = q) as -> by by rw HS lastd_app.
  assert (lastd q W = sk) as -> by by rw HW2 lastd_app.
  assert (hd NULL B = b0) as -> by by rw HB.
  assert (hd NULL C = c0) as -> by by rw HC.
  assert (hd NULL (W ++ C) = s0) as -> by by rw HW1. tauto.
Qed.

Ltac two_facts :=
  destruct two_ends as (Ep & Eb & Eq & Es & Ek & Ec & Np & Nb & Nq & Ns & Nk & Nc);
  destruct (two_disjoint p) as (Dp & _); destruct (two_disjoint b0) as (_ & Db & _);
  destruct (two_disjoint q) as (_ & _ & Dq & _); destruct (two_disjoint s0) as (_ & _ & _ & Ds & _);
  destruct (two_disjoint sk) as (_ & _ & _ & Dk & _); destruct (two_disjoint c0) as (_ & _ & _ & _ & Dc);
  specialize (Dp Ep); specialize (Db Eb); specialize (Dq Eq); specialize (Ds Es);
  specialize (Dk Ek); specialize (Dc Ec);
  destruct two_links as ((P1 & P2 & P3 & P4 & P5) & (N1 & N2 & N3 & N4 & N5)).

Lemma two_prev :
  pseg moved_prev NULL (P ++ W ++ B) ∧ pseg moved_prev NULL (S ++ C).
Proof.
  two_facts. destruct HW as [HW1 HW2]. rw /moved_prev !pseg_app.
  assert (lastd NULL P = p) as -> by by rw HP lastd_app.
  assert (lastd NULL S = q) as -> by by rw HS lastd_app.
  assert (lastd p W = sk) as -> by by rw HW2 lastd_app.
  split_and!.
  - by repeat (apply pseg_upd_ne; [tauto|]).
  - apply pseg_upd_ne; [tauto|]. apply (pseg_upd_ne _ _ _ c0 q) in P4; [|tauto].
    rw HW1 in P4 *. by eapply pseg_rebase.
  - apply (pseg_upd_ne _ _ _ c0 q), (pseg_upd_ne _ _ _ s0 p) in P2; [|tauto..].
    rw HB in P2 *. by eapply pseg_rebase.
  - by repeat (apply pseg_upd_ne; [tauto|]).
  - do 2 (apply pseg_upd_ne; [tauto|]). rw HC in P5 *. by eapply pseg_rebase.
Qed.

Lemma two_next :
  nseg moved_next (P ++ W ++ B) NULL ∧ nseg moved_next (S ++ C) NULL.
Proof.
  two_facts. destruct HW as [HW1 HW2]. rw /moved_next !nseg_app.
  assert (hd NULL B = b0) as -> by by rw HB.
  assert (hd NULL C = c0) as -> by by rw HC.
  assert (hd NULL (W ++ B) = s0) as -> by by rw HW1.
  split_and!.
  - apply (nseg_upd_ne _ _ _ q c0), (nseg_upd_ne _ _ _ sk b0) in N1; [|tauto..].
    rw HP in N1 *. by eapply nseg_rebase.
  - apply nseg_upd_ne; [tauto|]. apply (nseg_upd_ne _ _ _ q c0) in N4; [|tauto].
    rw HW2 in N4 *. by eapply nseg_rebase.
  - by repeat (apply nseg_upd_ne; [tauto|]).
  - do 2 (apply nseg_upd_ne; [tauto|]). rw HS in N3 *. by eapply nseg_rebase.
  - by repeat (apply nseg_upd_ne; [tauto|]).
Qed.

Lemma runs_splice_two h (Q : unit → heap → Prop) :
  links h f g → (∀ x, x ∈ P ++ B ++ S ++ W ++ C → x ≠ NULL ∧ x ∈ dom h) →
  (∀ h', links h' moved_prev moved_next → dom h' = dom h → Q tt h') →
  runs (list_splice b0 s0 c0) h Q.
Proof.
  intros L Hn HQ. two_facts.
  assert (∀ x, x ∈ P ∨ x ∈ B ∨ x ∈ S ∨ x ∈ W ∨ x ∈ C → x ≠ NULL ∧ x ∈ dom h) as Hn'.
  { intros x Hx. apply Hn. by rw !elem_of_app. }
  destruct (Hn' p) as [??], (Hn' b0) as [??], (Hn' q) as [??], (Hn' s0) as [??],
    (Hn' sk) as [??], (Hn' c0) as [??]; [by auto 6..|].
  destruct (nseg_value _ _ _ _ N2 Eb) as (bn & Hbn & _).
  destruct (nseg_value _ _ _ _ N4 Es) as (sn & Hsn & Hsn').
  destruct (pseg_value _ _ _ _ P4 Ek) as (r & Hr & Hr').
  destruct (nseg_value _ _ _ _ N5 Ec) as (cn & Hcn & _).
  rw elem_of_app list_elem_of_singleton in Hsn'. rw elem_of_cons in Hr'.
  assert (f b0 = Some p ∧ f s0 = Some q ∧ f c0 = Some sk ∧ g sk = Some c0) as (? & ? & ? & ?).
  { destruct HW as [EW EW']. rw EW' nseg_app /= in N4.
    rw HB in P2. rw EW in P4. rw HC in P5. simpl in *. tauto. }
  assert (s0 ≠ c0 ∧ b0 ≠ s0 ∧ b0 ≠ c0) as (? & ? & ?).
  { split_and!; intros E; [rw E in Es|rw E in Eb..]; tauto. }
  eapply (runs_splice_links _ _ _ b0 s0 sk c0 q p); eauto 8.
  - exists sn. split; [done|]. destruct Hsn' as [?| ->]; [by apply Hn'; tauto|done].
  - exists r. split; [done|]. destruct Hr' as [->|?]; [done|by apply Hn'; tauto].
  - by rw upd_ne.
Qed.

(** Only the six cells at the seams are written. *)
Lemma two_out x :
  x ∉ P ++ B ++ S ++ W ++ C → moved_prev x = f x ∧ moved_next x = g x.
Proof.
  two_facts. rw !elem_of_app. intros Hx. split; apply upd3_out; intros ->; tauto.
Qed.
End TwoLists.

Arguments two_prev {f g P B S W C p b0 q s0 sk c0 P' B'' S' W' W'' C''} _ _ _ _ _ _ _ _ _ _.
Arguments two_next {f g P B S W C p b0 q s0 sk c0 P' B'' S' W' W'' C''} _ _ _ _ _ _ _ _ _ _.
Arguments runs_splice_two {f g P B S W C p b0 q s0 sk c0 P' B'' S' W' W'' C''} _ _ _ _ _ _ _ _ _ _ {h Q}.
Arguments two_out {f g P B S W C p b0 q s0 sk c0 P' B'' S' W' W'' C''} _ _ _ _ _ _ _ _ _ _ x _.

Lemma runs_list_splice_between l1 l2 h a1 b1 a2 s c2 (Q : unit → heap → Prop) :
  s ≠ [] → list_repr h l1 (a1 ++ b1) → list_repr h l2 (a2 ++ s ++ c2) →
  (∀ x, x ∈ nodes l1 (a1 ++ b1) → x ∉ nodes l2 (a2 ++ s ++ c2)) →
  (∀ h', list_repr h' l1 (a1 ++ s ++ b1) → list_repr h' l2 (a2 ++ c2) →
         changes (nodes l1 (a1 ++ b1) ++ nodes l2 (a2 ++ s ++ c2)) h h' → Q tt h') →
  runs (list_splice (hd (tail_of l1) b1) (hd (tail_of l2) s) (hd (tail_of l2) c2)) h Q.
Proof.
  intros Hs R1 R2 Hd HQ.
  destruct (list_ends (head_of l1 :: a1) NULL NULL ltac:(done)) as (P' & _ & _ & HP).
  destruct (list_ends (b1 ++ [tail_of l1]) NULL NULL ltac:(by destruct b1)) as (_ & B'' & HB & _).
  destruct (list_ends (head_of l2 :: a2) NULL NULL ltac:(done)) as (S' & _ & _ & HS).
  destruct (list_ends s (tail_of l2) NULL Hs) as (W' & W'' & HW).
  destruct (list_ends (c2 ++ [tail_of l2]) NULL NULL ltac:(by destruct c2)) as (_ & C'' & HC & _).
  rw hd_app_cons in HB. rw hd_app_cons in HC.
  assert (∀ l a u, nodes l (a ++ u) = (head_of l :: a) ++ u ++ [tail_of l]) as HN.
  { intros l a u. by rw /nodes -!app_assoc. }
  pose proof R1 as [Hz1 Hnd1 [Hp1 Hn1]%dseg_links].
  pose proof R2 as [Hz2 Hnd2 [Hp2 Hn2]%dseg_links].
  rw !HN in Hz1 Hnd1 Hp1 Hn1. rw !HN -!app_assoc in Hz2 Hnd2 Hp2 Hn2.
  assert (NoDup (((head_of l1 :: a1) ++ b1 ++ [tail_of l1]) ++
                 (head_of l2 :: a2) ++ s ++ c2 ++ [tail_of l2])) as Hnd.
  { apply NoDup_app. split_and!; [done| |done]. intros x Hx.
    move: (Hd x). rw !HN -!app_assoc. by apply. }
  eapply (runs_splice_two HP HB HS HW HC Hnd Hp1 Hn1 Hp2 Hn2).
  - apply links_self.
  - intros x Hx.
    assert (x ∈ nodes l1 (a1 ++ b1) ∨ x ∈ nodes l2 (a2 ++ s ++ c2)) as [Hi|Hi].
    { rw !HN !elem_of_app. rw !elem_of_app in Hx. tauto. }
    + split; [exact (repr_node_nonnull _ _ _ R1 x Hi)|exact (repr_node_dom _ _ _ R1 x Hi)].
    + split; [exact (repr_node_nonnull _ _ _ R2 x Hi)|exact (repr_node_dom _ _ _ R2 x Hi)].
  - intros h' L D.
    destruct (two_prev HP HB HS HW HC Hnd Hp1 Hn1 Hp2 Hn2) as [Pv1 Pv2].
    destruct (two_next HP HB HS HW HC Hnd Hp1 Hn1 Hp2 Hn2) as [Nx1 Nx2].
    pose proof Hnd as Hnd'.
    assert (∀ P B S W C : list Z, (P ++ B) ++ S ++ W ++ C ≡ₚ (P ++ W ++ B) ++ S ++ C) as Hperm.
    { intros. solve_Permutation. }
    rw Hperm NoDup_app in Hnd'. destruct Hnd' as (Hnd1' & _ & Hnd2').
    rw !elem_of_app in Hz1 Hz2.
    apply HQ.
    + split; rw HN -?app_assoc; [rw !elem_of_app; tauto|done|by eapply links_dseg].
    + split; rw HN -?app_assoc; [rw !elem_of_app; tauto|done|by eapply links_dseg].
    + eapply links_changes; [done..|]. intros x Hx.
      apply (two_out HP HB HS HW HC Hnd Hp1 Hn1 Hp2 Hn2). rw !HN in Hx.
      rw !elem_of_app in Hx *. tauto.
Qed.
