(* ===== verification/COrderSpec.v ===== *)
(** * Correctness of list.c's ordered operations

    [list_sort] is shown to return on every list and every strict weak order, and
    to leave the same elements, sorted, with equivalent elements in their old
    order (a stable sort).  The mathematical side works on the list of element
    addresses; [less] is the comparison of the caller. *)

From stdpp Require Import sorting.
From S2P Require Import Prelude CList CListRepr CListSpec CListMove COrder.

(** ** The comparison *)

(** What list.h asks of a [list_less_func]: "true if A is less than B, or false
    if A is greater than or equal to B", that is a strict weak order. *)
Class StrictWeak (less : list_less_func) (aux : Z) : Prop := {
  less_asym a b : less a b aux = true → less b a aux = false;
  less_negtrans a b c :
    less b a aux = false → less c b aux = false → less c a aux = false;
}.

Section Order.
Context (less : list_less_func) (aux : Z).

(** [a] may come before [b] in a sorted list. *)
Definition lesseq (a b : Z) : Prop := less b a aux = false.
(** Neither is less than the other. *)
Definition tied (a b : Z) : Prop := less a b aux = false ∧ less b a aux = false.

#[global] Instance lesseq_dec : RelDecision lesseq.
Proof. intros a b. rw /lesseq. apply _. Defined.
#[global] Instance tied_dec a b : Decision (tied a b).
Proof. rw /tied. apply _. Defined.

(** The longest non-decreasing run that continues [x] into [zs], and the rest. *)
Fixpoint run (x : Z) (zs : list Z) : list Z * list Z :=
  match zs with
  | [] => ([], [])
  | z :: zs' =>
      if less z x aux then ([], z :: zs')
      else let '(r, k) := run z zs' in (z :: r, k)
  end.

(** The number of descents: adjacent pairs out of order. *)
Fixpoint descents_from (x : Z) (zs : list Z) : nat :=
  match zs with
  | [] => 0
  | z :: zs' => (if less z x aux then 1 else 0) + descents_from z zs'
  end.
Definition descents (xs : list Z) : nat :=
  match xs with [] => 0 | x :: xs => descents_from x xs end.

(** Same elements, and equivalent ones in the same order. *)
Definition stable_perm (xs ys : list Z) : Prop :=
  xs ≡ₚ ys ∧ ∀ x, filter (tied x) xs = filter (tied x) ys.

(** ** Runs and descents *)

Lemma run_app x zs : zs = (run x zs).1 ++ (run x zs).2.
Proof.
  revert x. induction zs as [|z zs IH]; intros x; simpl; [done|].
  destruct (less z x aux); [done|]. specialize (IH z).
  destruct (run z zs) as [r k]; simpl in *. congruence.
Qed.

Lemma run_descents x zs : descents_from x (run x zs).1 = 0.
Proof.
  revert x. induction zs as [|z zs IH]; intros x; simpl; [done|].
  destruct (less z x aux) eqn:E; [done|]. specialize (IH z).
  destruct (run z zs) as [r k]; simpl in *. by rw E.
Qed.

Lemma run_rest x zs :
  descents_from x zs = match (run x zs).2 with [] => 0 | k => S (descents k) end.
Proof.
  revert x. induction zs as [|z zs IH]; intros x; simpl; [done|].
  destruct (less z x aux) eqn:E; simpl; [done|]. specialize (IH z).
  destruct (run z zs) as [r k]; simpl in *. done.
Qed.

Lemma run_split x zs :
  ∃ r k, run x zs = (r, k) ∧ zs = r ++ k ∧ descents (x :: r) = 0 ∧
    descents (x :: zs) = match k with [] => 0 | _ => S (descents k) end.
Proof.
  exists (run x zs).1, (run x zs).2. split_and!; [by destruct (run x zs)|apply run_app|..].
  - apply run_descents.
  - rw /= run_rest. by destruct (run x zs).2.
Qed.

Lemma descents_from_app x xs ys :
  descents_from x (xs ++ ys) ≤ S (descents_from x xs + descents ys).
Proof.
  revert x. induction xs as [|z xs IH]; intros x; simpl.
  - destruct ys as [|y ys]; simpl; [lia|]. destruct (less y x aux); lia.
  - specialize (IH z). lia.
Qed.

Lemma descents_app xs ys : descents (xs ++ ys) ≤ S (descents xs + descents ys).
Proof. destruct xs as [|x xs]; simpl; [lia|]. apply descents_from_app. Qed.

Lemma descents_length xs : descents xs ≤ length xs.
Proof.
  destruct xs as [|x xs]; simpl; [lia|].
  cut (descents_from x xs ≤ length xs); [lia|].
  revert x. induction xs as [|z xs IH]; intros x; simpl; [lia|].
  specialize (IH z). destruct (less z x aux); lia.
Qed.

Lemma descents_Sorted xs : descents xs = 0 ↔ Sorted lesseq xs.
Proof.
  destruct xs as [|x xs]; [by split; constructor|]. simpl. revert x.
  induction xs as [|z xs IH]; intros x; simpl; [by repeat constructor|].
  split.
  - intros E. constructor; [apply IH; lia|]. constructor. rw /lesseq.
    by destruct (less z x aux).
  - inversion_clear 1 as [|?? Hs Hr]. inversion_clear Hr as [|?? Hz].
    rw /lesseq in Hz. rw Hz. by apply IH in Hs.
Qed.

(** ** Stable permutations *)

Lemma stable_refl xs : stable_perm xs xs.
Proof. done. Qed.

Lemma stable_trans xs ys zs : stable_perm xs ys → stable_perm ys zs → stable_perm xs zs.
Proof. intros [P1 S1] [P2 S2]. split; [by etrans|]. intros x. by rw S1. Qed.

Lemma stable_app xs xs' ys ys' :
  stable_perm xs xs' → stable_perm ys ys' → stable_perm (xs ++ ys) (xs' ++ ys').
Proof.
  intros [P1 S1] [P2 S2]. split; [by rw P1 P2|]. intros x. by rw !filter_app S1 S2.
Qed.

Lemma stable_Permutation xs ys : stable_perm xs ys → xs ≡ₚ ys.
Proof. by intros []. Qed.

(** ** Merging *)

Section StrictWeakOrder.
Context `{!StrictWeak less aux}.

#[local] Instance lesseq_total : Total lesseq.
Proof.
  intros a b. rw /lesseq. destruct (less b a aux) eqn:E; [|by left].
  right. by apply less_asym.
Qed.

#[local] Instance lesseq_trans : Transitive lesseq.
Proof. intros a b c. rw /lesseq. apply less_negtrans. Qed.

(** Nothing tied with [b] is tied with an element above [b]. *)
Lemma tied_above x a b : less b a aux = true → tied x b → ¬ tied x a.
Proof.
  intros Hba [Hxb Hbx] [Hxa Hax].
  assert (less b a aux = false); [|congruence].
  by apply (less_negtrans a x b).
Qed.

Lemma filter_above x b xs :
  tied x b → Forall (λ a, less b a aux = true) xs → filter (tied x) xs = [].
Proof.
  intros Hb. induction 1 as [|a xs Ha _ IH]; [done|].
  rw filter_cons_False //. by eapply tied_above.
Qed.

Lemma sorted_above a xs b :
  StronglySorted lesseq (a :: xs) → less b a aux = true →
  Forall (λ y, less b y aux = true) (a :: xs).
Proof.
  intros Hs Hb. apply StronglySorted_inv in Hs as [_ Ha].
  constructor; [done|]. eapply Forall_impl; [done|].
  simpl. intros y Hy. destruct (less b y aux) eqn:E; [done|].
  assert (less b a aux = false); [|congruence]. by apply (less_negtrans a y b).
Qed.

Lemma merge_filter x xs ys :
  Sorted lesseq xs →
  filter (tied x) (list_merge lesseq xs ys) = filter (tied x) xs ++ filter (tied x) ys.
Proof.
  intros Hs%Sorted_StronglySorted; [|apply _]. revert ys.
  induction xs as [|a xs IHx]; intros ys; [by destruct ys|].
  induction ys as [|b ys IHy]; [by rw list_merge_nil_r app_nil_r|].
  rw list_merge_cons. case_decide as Hab.
  - rw !(filter_cons (tied x) a) IHx; [by apply StronglySorted_inv in Hs as []|].
    by case_decide.
  - rw /lesseq in Hab. apply not_false_is_true in Hab.
    rw !(filter_cons (tied x) b) IHy. case_decide as Hb; [|done].
    rw (filter_above x b (a :: xs)) //. by apply sorted_above.
Qed.

Lemma merge_stable xs ys :
  Sorted lesseq xs → stable_perm (list_merge lesseq xs ys) (xs ++ ys).
Proof.
  intros Hs. split; [apply merge_Permutation|]. intros x. by rw merge_filter // filter_app.
Qed.

Lemma merge_descents xs ys :
  descents xs = 0 → descents ys = 0 → descents (list_merge lesseq xs ys) = 0.
Proof. rw !descents_Sorted. apply Sorted_list_merge, _. Qed.
End StrictWeakOrder.
End Order.

(** ** is_sorted and find_end_of_run *)

Section Program.
Context (less : list_less_func) (aux : Z) (l : Z).
Implicit Types (h : heap).

(** Distinct positions of a list have distinct addresses. *)
Lemma repr_pos_ne h pre x mid post :
  list_repr h l (pre ++ x :: mid ++ post) → x ≠ hd (tail_of l) post.
Proof.
  intros [_ Hnd _] ->. move: Hnd. rw /nodes NoDup_cons NoDup_app NoDup_app NoDup_cons.
  intros (_ & (_ & _ & Hin & _) & Hout & _). destruct post as [|y post]; simpl in *.
  - eapply (Hout (tail_of l)); [|by apply list_elem_of_singleton].
    rw elem_of_app elem_of_cons. auto.
  - apply Hin. rw elem_of_app elem_of_cons. auto.
Qed.

Lemma runs_is_sorted_loop h pre x ys post fuel (Q : bool → heap → Prop) :
  list_repr h l (pre ++ x :: ys ++ post) → length ys < fuel →
  Q (bool_decide (descents_from less aux x ys = 0)) h →
  runs (is_sorted_loop less aux fuel x (hd (tail_of l) post)) h Q.
Proof.
  revert pre x fuel. induction ys as [|y ys IH]; intros pre x [|fuel] R Hf HQ;
    simpl in *; try lia; (step; eapply runs_list_next_elem; [done|]).
  - by rw bool_decide_eq_true_2.
  - rw cons_middle app_assoc in R.
    rw bool_decide_eq_false_2; [by eapply repr_pos_ne|].
    step. eapply runs_list_prev_elem; [done|]. rw lastd_app /=.
    destruct (less y x aux); simpl in HQ; [done|]. eapply IH; [done|lia|done].
Qed.

Lemma runs_is_sorted h pre xs post (Q : bool → heap → Prop) :
  list_repr h l (pre ++ xs ++ post) → Q (bool_decide (descents less aux xs = 0)) h →
  runs (is_sorted less aux (hd (tail_of l) (xs ++ post)) (hd (tail_of l) post)) h Q.
Proof.
  intros R HQ. rw /is_sorted. destruct xs as [|x xs]; simpl.
  { by rw bool_decide_eq_true_2. }
  rw bool_decide_eq_false_2; [by eapply repr_pos_ne|]. apply runs_with_fuel.
  eapply runs_is_sorted_loop; [done| |done].
  apply repr_fuel in R. rw !length_app /= in R. lia.
Qed.

Lemma runs_find_end_loop h pre x zs fuel (Q : Z → heap → Prop) :
  list_repr h l (pre ++ x :: zs) → length zs < fuel →
  Q (hd (tail_of l) (run less aux x zs).2) h →
  runs (find_end_of_run_loop less aux fuel x (tail_of l)) h Q.
Proof.
  revert pre x fuel. induction zs as [|z zs IH]; intros pre x [|fuel] R Hf HQ;
    simpl in *; try lia; (step; eapply runs_list_next_elem; [done|]); simpl.
  - by rw bool_decide_eq_true_2.
  - rw cons_middle app_assoc in R.
    rw bool_decide_eq_false_2.
    { rw -(app_nil_r zs) in R. by eapply repr_pos_ne in R. }
    step. eapply runs_list_prev_elem; [done|]. rw lastd_app /=.
    destruct (less z x aux); [done|]. eapply IH; [done|lia|]. by destruct (run _ _ z zs).
Qed.

Lemma runs_find_end_of_run h pre x zs (Q : Z → heap → Prop) :
  list_repr h l (pre ++ x :: zs) → Q (hd (tail_of l) (run less aux x zs).2) h →
  runs (find_end_of_run less aux x (tail_of l)) h Q.
Proof.
  intros R HQ. destruct (repr_neighbours _ _ _ _ _ R) as (Hx & _).
  rw /find_end_of_run. step. apply runs_not_null; [done|].
  step. apply runs_not_null.
  { eapply (repr_node_nonnull _ _ _ R), in_nodes. auto. }
  step. step.
  { apply negb_true_iff, bool_decide_eq_false_2.
    rw -(app_nil_r zs) in R. by eapply repr_pos_ne in R. }
  apply runs_with_fuel. eapply runs_find_end_loop; [done| |done].
  apply repr_fuel in R. rw length_app /= in R. lia.
Qed.

(** ** inplace_merge *)

Lemma runs_inplace_merge_loop h fuel pre A B post (Q : unit → heap → Prop) :
  list_repr h l (pre ++ A ++ B ++ post) → length A + length B < fuel →
  (∀ h', list_repr h' l (pre ++ list_merge (lesseq less aux) A B ++ post) →
         changes (nodes l (pre ++ A ++ B ++ post)) h h' → Q tt h') →
  runs (inplace_merge_loop less aux fuel (hd (tail_of l) (A ++ B ++ post))
          (hd (tail_of l) (B ++ post)) (hd (tail_of l) post)) h Q.
Proof.
  revert h pre A B. induction fuel as [|fuel IH]; intros h pre A B R Hf HQ; [lia|]. simpl.
  destruct A as [|a A].
  { rw bool_decide_eq_true_2 //. step. apply HQ; [|apply changes_refl]. by destruct B. }
  rw bool_decide_eq_false_2; [by eapply repr_pos_ne in R|].
  destruct B as [|b B].
  { rw bool_decide_eq_true_2 //. step. rw list_merge_nil_r in HQ.
    apply HQ; [done|apply changes_refl]. }
  rw bool_decide_eq_false_2.
  { rw (app_assoc pre) in R. by eapply repr_pos_ne in R. }
  rw list_merge_cons in HQ. simpl in *. destruct (less b a aux) eqn:E; simpl.
  - rw decide_False in HQ; [by rw /lesseq E|].
    step. rw app_comm_cons (app_assoc pre) in R. eapply runs_list_next_elem; [done|].
    step. rw cons_middle app_assoc in R. eapply runs_list_prev_pos; [done|].
    rw lastd_app /=. step. rw -!app_assoc in R.
    eapply (runs_list_splice_left l h pre (a :: A) [b] (B ++ post)); [done..|].
    intros h1 R1 C1. rw (app_assoc pre) in R1.
    eapply (IH _ _ (a :: A) B R1); [simpl in *; lia|].
    intros h2 R2 C2. rw -app_assoc in R2. apply HQ; [done|].
    eapply changes_trans; [exact C1|]. move: C2.
    by rw -app_assoc (app_assoc [b]) (Permutation_app_comm [b]) -!app_assoc.
  - rw decide_True in HQ; [by rw /lesseq E|].
    step. eapply runs_list_next_elem; [done|].
    rw cons_middle app_assoc in R.
    eapply (IH _ _ A (b :: B) R); [simpl in *; lia|].
    intros h1 R1 C1. rw -app_assoc in R1. rw -app_assoc in C1. by apply HQ.
Qed.

Lemma runs_inplace_merge h pre A B post (Q : unit → heap → Prop) :
  A ≠ [] → B ≠ [] → list_repr h l (pre ++ A ++ B ++ post) →
  descents less aux A = 0 → descents less aux B = 0 →
  (∀ h', list_repr h' l (pre ++ list_merge (lesseq less aux) A B ++ post) →
         changes (nodes l (pre ++ A ++ B ++ post)) h h' → Q tt h') →
  runs (inplace_merge less aux (hd (tail_of l) (A ++ B ++ post))
          (hd (tail_of l) (B ++ post)) (hd (tail_of l) post)) h Q.
Proof.
  intros HA HB R DA DB HQ.
  assert (∀ ys zs, pre ++ A ++ B ++ post = ys ++ zs → hd (tail_of l) zs ≠ NULL) as Hnn.
  { intros ys zs E. eapply (repr_node_nonnull _ _ _ R). rw E in_nodes.
    destruct zs as [|z zs]; simpl; [auto|]. set_solver. }
  rw /inplace_merge.
  step. apply runs_not_null; [by eapply Hnn|].
  step. apply runs_not_null; [apply (Hnn (pre ++ A)); by rw app_assoc|].
  step. apply runs_not_null; [apply (Hnn (pre ++ A ++ B)); by rw -!app_assoc|].
  step. eapply runs_is_sorted; [done|]. rw DA. step. step; [done|].
  step. eapply (runs_is_sorted _ (pre ++ A)); [by rw -app_assoc|]. rw DB. step. step; [done|].
  apply runs_with_fuel. eapply runs_inplace_merge_loop; [done| |done].
  apply repr_fuel in R. rw !length_app in R. lia.
Qed.

(** ** list_sort: one pass, then the loop *)

Context `{!StrictWeak less aux}.

(** A pass over [xs] produces [n] sorted blocks, at most half as many (rounded
    up) as there were runs, and is a stable permutation. *)
Lemma runs_sort_pass_loop h fuel pre xs cnt (Q : Z → heap → Prop) :
  list_repr h l (pre ++ xs) → length xs < fuel →
  (0 ≤ cnt)%Z → (cnt + Z.of_nat (length xs) < 2 ^ 32)%Z →
  (∀ h' ys n, list_repr h' l (pre ++ ys) → changes (nodes l (pre ++ xs)) h h' →
     stable_perm less aux ys xs →
     (n = 0 ↔ xs = []) → descents less aux ys ≤ n - 1 →
     2 * n ≤ descents less aux xs + 2 →
     Q (cnt + Z.of_nat n)%Z h') →
  runs (sort_pass_loop less aux fuel l (hd (tail_of l) xs) cnt) h Q.
Proof.
  revert h pre xs cnt Q. induction fuel as [|fuel IH]; intros h pre xs cnt Q R Hf H0 Hc HQ; [lia|].
  simpl. step. eapply runs_list_end; [done|]. destruct xs as [|x xs].
  { rw bool_decide_eq_true_2 //. step. rw -(Z.add_0_r cnt).
    eapply (HQ h [] 0); [done|apply changes_refl|apply stable_refl|done|simpl; lia..]. }
  rw bool_decide_eq_false_2.
  { rw -(app_nil_r xs) in R. by eapply repr_pos_ne in R. }
  rw uint32_id; [simpl in *; lia|].
  step. eapply runs_list_end; [done|]. step. eapply runs_find_end_of_run; [done|].
  change (hd (tail_of l) (x :: xs)) with x.
  destruct (run_split less aux x xs) as (r & k & -> & -> & Dr & Dx). simpl snd.
  step. eapply runs_list_end; [done|]. destruct k as [|y k].
  { rw bool_decide_eq_true_2 //. step.
    eapply (HQ h _ 1); [done|apply changes_refl|apply stable_refl|done|..]; rw Dx; simpl; lia. }
  rw bool_decide_eq_false_2.
  { rw app_comm_cons app_assoc -(app_nil_r k) in R. by eapply repr_pos_ne in R. }
  step. eapply runs_list_end; [done|]. step.
  eapply (runs_find_end_of_run _ (pre ++ x :: r)); [by rw -app_assoc|].
  change (hd (tail_of l) (y :: k)) with y.
  destruct (run_split less aux y k) as (r2 & k2 & -> & -> & Dr2 & Dy). simpl snd.
  step. eapply (runs_inplace_merge _ pre (x :: r) (y :: r2) k2); [done..|].
  intros h1 R1 C1. rw app_assoc in R1.
  eapply (IH _ _ _ _ _ R1); [|lia|..].
  { rw /= length_app /= length_app in Hf. lia. }
  { rw /= length_app /= length_app in Hc. lia. }
  intros h2 ys n R2 C2 St Hn Dys H2n.
  set (m := list_merge (lesseq less aux) (x :: r) (y :: r2)) in *.
  assert (stable_perm less aux m ((x :: r) ++ y :: r2)) as Stm.
  { by apply merge_stable, descents_Sorted. }
  assert (descents less aux m = 0) as Dm by by apply merge_descents.
  rw -Z.add_assoc -(Nat2Z.inj_add 1 n) /=. rw -app_assoc in R2.
  eapply (HQ h2 (m ++ ys) (S n)); [done|..|done| |].
  - eapply changes_trans; [done|]. move: C2. by rw (stable_Permutation _ _ _ _ Stm) -!app_assoc.
  - replace (x :: r ++ y :: r2 ++ k2) with (((x :: r) ++ y :: r2) ++ k2) by by rw -app_assoc.
    by apply stable_app.
  - destruct n as [|n]; [|pose proof (descents_app less aux m ys); lia].
    assert (k2 = []) as -> by by apply Hn. apply stable_Permutation in St.
    apply Permutation_nil_r in St as ->. rw app_nil_r. lia.
  - rw Dx Dy. destruct k2; [|lia]. assert (n = 0) as -> by by apply Hn. lia.
Qed.

Lemma runs_sort_loop h fuel xs (Q : unit → heap → Prop) :
  list_repr h l xs → (Z.of_nat (length xs) < 2 ^ 32)%Z → descents less aux xs < fuel →
  (∀ h' ys, list_repr h' l ys → changes (nodes l xs) h h' →
     stable_perm less aux ys xs → descents less aux ys = 0 → Q tt h') →
  runs (sort_loop less aux fuel l) h Q.
Proof.
  revert h xs. induction fuel as [|fuel IH]; intros h xs R Hlen Hf HQ; [lia|].
  simpl. step. eapply runs_list_begin; [done|]. step. apply runs_with_fuel.
  eapply (runs_sort_pass_loop h _ []); [done|apply repr_fuel in R; lia|lia..|].
  intros h1 ys n R1 C1 St Hn Dys H2n. rw Z.add_0_l. case_bool_decide as Hn1.
  - pose proof (Permutation_length (stable_Permutation _ _ _ _ St)) as Hl.
    eapply (IH _ ys); [done|by rw Hl|lia|].
    intros h2 zs R2 C2 St2 D2. apply (HQ h2 zs); [done| |by eapply stable_trans|done].
    eapply changes_trans; [done|]. move: C2. by rw (stable_Permutation _ _ _ _ St).
  - step. apply (HQ h1 ys); [done..|lia].
Qed.

Lemma runs_list_sort h xs (Q : unit → heap → Prop) :
  list_repr h l xs → (Z.of_nat (length xs) < 2 ^ 32)%Z →
  (∀ h' ys, list_repr h' l ys → changes (nodes l xs) h h' →
     stable_perm less aux ys xs → StronglySorted (lesseq less aux) ys → Q tt h') →
  runs (list_sort less aux l) h Q.
Proof.
  intros R Hlen HQ. rw /list_sort. step. apply runs_not_null.
  { eapply (repr_node_nonnull _ _ _ R (head_of l)), in_nodes; by left. }
  step. apply runs_with_fuel. eapply runs_sort_loop; [done..| |].
  { apply repr_fuel in R. pose proof (descents_length less aux xs). lia. }
  intros h1 ys R1 C1 St D1.
  step. eapply runs_list_begin; [done|]. step. eapply runs_list_end; [done|].
  step. rw -{1}(app_nil_r ys).
  eapply (runs_is_sorted h1 [] ys []); [by rw app_nil_r|]. rw D1.
  step; [done|]. eapply HQ; [done..|].
  apply descents_Sorted, Sorted_StronglySorted in D1; [done|by apply lesseq_trans].
Qed.

(** ** list_insert_ordered *)

(** Where [elem] goes: before the first element it is less than. *)
Fixpoint ordered_split (elem : Z) (xs : list Z) : list Z * list Z :=
  match xs with
  | [] => ([], [])
  | x :: xs' =>
      if less elem x aux then ([], x :: xs')
      else let '(a, b) := ordered_split elem xs' in (x :: a, b)
  end.
Definition insert_ordered (elem : Z) (xs : list Z) : list Z :=
  (ordered_split elem xs).1 ++ elem :: (ordered_split elem xs).2.

Lemma ordered_split_app elem xs :
  xs = (ordered_split elem xs).1 ++ (ordered_split elem xs).2.
Proof.
  induction xs as [|x xs IH]; simpl; [done|]. destruct (less elem x aux); [done|].
  destruct (ordered_split elem xs); simpl in *. congruence.
Qed.

Lemma ordered_split_before elem xs x :
  x ∈ (ordered_split elem xs).1 → less elem x aux = false.
Proof.
  induction xs as [|y xs IH]; simpl; [by intros []%elem_of_nil|].
  destruct (less elem y aux) eqn:E; [by intros []%elem_of_nil|].
  destruct (ordered_split elem xs); simpl in *. by intros [->|Hx]%elem_of_cons; auto.
Qed.

Lemma ordered_split_after elem xs :
  match (ordered_split elem xs).2 with [] => True | x :: _ => less elem x aux = true end.
Proof.
  induction xs as [|y xs IH]; simpl; [done|]. destruct (less elem y aux) eqn:E; [done|].
  by destruct (ordered_split elem xs).
Qed.

Lemma runs_insert_ordered_loop h fuel pre xs elem (Q : Z → heap → Prop) :
  list_repr h l (pre ++ xs) → length xs < fuel →
  Q (hd (tail_of l) (ordered_split elem xs).2) h →
  runs (insert_ordered_loop less aux fuel l elem (hd (tail_of l) xs)) h Q.
Proof.
  revert pre fuel. induction xs as [|x xs IH]; intros pre [|fuel] R Hf HQ; simpl in *;
    try lia; (step; eapply runs_list_end; [done|]).
  - by rw bool_decide_eq_true_2.
  - rw bool_decide_eq_false_2.
    { rw -(app_nil_r xs) in R. by eapply repr_pos_ne in R. }
    destruct (less elem x aux); [done|]. step. eapply runs_list_next_elem; [done|].
    rw cons_middle app_assoc in R. eapply IH; [done|lia|].
    by destruct (ordered_split elem xs).
Qed.

Lemma runs_list_insert_ordered h xs elem (Q : unit → heap → Prop) :
  list_repr h l xs → elem ∈ dom h → elem ≠ NULL → elem ∉ nodes l xs →
  (∀ h', list_repr h' l (insert_ordered elem xs) →
         changes (elem :: nodes l xs) h h' → Q tt h') →
  runs (list_insert_ordered less aux l elem) h Q.
Proof.
  intros R He Hnn Hin HQ. rw /list_insert_ordered. step. apply runs_not_null.
  { eapply (repr_node_nonnull _ _ _ R (head_of l)), in_nodes; by left. }
  step. apply runs_not_null; [done|]. step. eapply runs_list_begin; [done|]. step.
  apply runs_with_fuel. eapply (runs_insert_ordered_loop _ _ []); [done|apply repr_fuel in R; lia|].
  pose proof (ordered_split_app elem xs) as E. rw E in R Hin.
  eapply runs_list_insert; [done..|]. intros h' R' C'. rw -E in C'. by apply HQ.
Qed.

Lemma insert_ordered_Permutation elem xs : insert_ordered elem xs ≡ₚ elem :: xs.
Proof.
  rw /insert_ordered -Permutation_middle. by rw -ordered_split_app.
Qed.

Lemma insert_ordered_sorted elem xs :
  StronglySorted (lesseq less aux) xs → StronglySorted (lesseq less aux) (insert_ordered elem xs).
Proof.
  rw /insert_ordered. induction xs as [|x xs IH]; simpl; [by repeat constructor|].
  intros Hs. destruct (less elem x aux) eqn:E; simpl.
  - constructor; [done|]. pose proof Hs as [_ Hx]%StronglySorted_inv.
    constructor; [by apply less_asym|]. eapply Forall_impl; [done|]. simpl.
    intros y Hy. rw /lesseq in Hy *. eapply less_negtrans; [|done]. by apply less_asym.
  - apply StronglySorted_inv in Hs as [Hs Hx]. specialize (IH Hs).
    pose proof (insert_ordered_Permutation elem xs) as HP. rw /insert_ordered in HP.
    destruct (ordered_split elem xs) as [a b]; simpl in *. constructor; [done|].
    rw HP. by constructor.
Qed.

(** ** list_max and list_min *)

Definition max_from (m : Z) (xs : list Z) : Z :=
  foldl (λ m e, if less m e aux then e else m) m xs.
Definition min_from (m : Z) (xs : list Z) : Z :=
  foldl (λ m e, if less e m aux then e else m) m xs.

Lemma runs_list_max_loop h fuel pre xs m (Q : Z → heap → Prop) :
  list_repr h l (pre ++ xs) → length xs < fuel → Q (max_from m xs) h →
  runs (list_max_loop less aux fuel l (hd (tail_of l) xs) m) h Q.
Proof.
  revert pre fuel m. induction xs as [|x xs IH]; intros pre [|fuel] m R Hf HQ; simpl in *;
    try lia; (step; eapply runs_list_end; [done|]).
  - by rw bool_decide_eq_true_2.
  - rw bool_decide_eq_false_2.
    { rw -(app_nil_r xs) in R. by eapply repr_pos_ne in R. }
    step. eapply runs_list_next_elem; [done|].
    rw cons_middle app_assoc in R. eapply IH; [done|lia|done].
Qed.

Lemma runs_list_min_loop h fuel pre xs m (Q : Z → heap → Prop) :
  list_repr h l (pre ++ xs) → length xs < fuel → Q (min_from m xs) h →
  runs (list_min_loop less aux fuel l (hd (tail_of l) xs) m) h Q.
Proof.
  revert pre fuel m. induction xs as [|x xs IH]; intros pre [|fuel] m R Hf HQ; simpl in *;
    try lia; (step; eapply runs_list_end; [done|]).
  - by rw bool_decide_eq_true_2.
  - rw bool_decide_eq_false_2.
    { rw -(app_nil_r xs) in R. by eapply repr_pos_ne in R. }
    step. eapply runs_list_next_elem; [done|].
    rw cons_middle app_assoc in R. eapply IH; [done|lia|done].
Qed.

Lemma runs_list_max h xs (Q : Z → heap → Prop) :
  list_repr h l xs →
  Q (match xs with [] => tail_of l | x :: xs' => max_from x xs' end) h →
  runs (list_max less aux l) h Q.
Proof.
  intros R HQ. rw /list_max. step. eapply runs_list_begin; [done|].
  step. eapply runs_list_end; [done|]. destruct xs as [|x xs]; simpl.
  - by rw bool_decide_eq_true_2.
  - rw bool_decide_eq_false_2.
    { rw -(app_nil_r xs) in R. by eapply (repr_pos_ne _ []) in R. }
    step. eapply (runs_list_next_elem _ _ []); [done|]. apply runs_with_fuel.
    eapply (runs_list_max_loop _ _ [x]); [done| |done]. apply repr_fuel in R. simpl in R. lia.
Qed.

Lemma runs_list_min h xs (Q : Z → heap → Prop) :
  list_repr h l xs →
  Q (match xs with [] => tail_of l | x :: xs' => min_from x xs' end) h →
  runs (list_min less aux l) h Q.
Proof.
  intros R HQ. rw /list_min. step. eapply runs_list_begin; [done|].
  step. eapply runs_list_end; [done|]. destruct xs as [|x xs]; simpl.
  - by rw bool_decide_eq_true_2.
  - rw bool_decide_eq_false_2.
    { rw -(app_nil_r xs) in R. by eapply (repr_pos_ne _ []) in R. }
    step. eapply (runs_list_next_elem _ _ []); [done|]. apply runs_with_fuel.
    eapply (runs_list_min_loop _ _ [x]); [done| |done]. apply repr_fuel in R. simpl in R. lia.
Qed.

Lemma less_trans a b c : less a b aux = true → less b c aux = true → less a c aux = true.
Proof.
  intros Hab Hbc. apply not_false_is_true. intros E.
  assert (less a b aux = false); [|congruence].
  eapply less_negtrans; [|exact E]. by apply less_asym.
Qed.

Lemma less_above a b c : less b a aux = false → less b c aux = true → less a c aux = true.
Proof.
  intros Hba Hbc. apply not_false_is_true. intros E.
  assert (less b c aux = false); [|congruence]. by eapply less_negtrans.
Qed.

Lemma less_below a b c : less a b aux = false → less c b aux = true → less c a aux = true.
Proof.
  intros Hab Hcb. apply not_false_is_true. intros E.
  assert (less c b aux = false); [|congruence]. by eapply (less_negtrans b a c).
Qed.

(** [max_from] is the first of the largest elements. *)
Lemma max_from_first pre m mid xs :
  (∀ y, y ∈ pre → less y m aux = true) → (∀ y, y ∈ mid → less m y aux = false) →
  ∃ a b, pre ++ m :: mid ++ xs = a ++ max_from m xs :: b ∧
    (∀ y, y ∈ a → less y (max_from m xs) aux = true) ∧
    (∀ y, y ∈ b → less (max_from m xs) y aux = false).
Proof.
  revert pre m mid. induction xs as [|e xs IH]; intros pre m mid Hpre Hmid; simpl.
  { exists pre, mid. by rw app_nil_r. }
  destruct (less m e aux) eqn:E.
  - destruct (IH (pre ++ m :: mid) e []) as (a & b & Eq & Ha & Hb); [|set_solver|].
    + intros y. rw elem_of_app elem_of_cons. intros [Hy|[->|Hy]]; [|done|].
      * eapply less_trans; [by apply Hpre|done].
      * by eapply less_above; [apply Hmid|].
    + exists a, b. split; [|done]. rw -Eq -app_assoc //.
  - destruct (IH pre m (mid ++ [e])) as (a & b & Eq & Ha & Hb); [done|set_solver|].
    exists a, b. split; [|done]. rw -Eq -app_assoc //.
Qed.

Lemma min_from_first pre m mid xs :
  (∀ y, y ∈ pre → less m y aux = true) → (∀ y, y ∈ mid → less y m aux = false) →
  ∃ a b, pre ++ m :: mid ++ xs = a ++ min_from m xs :: b ∧
    (∀ y, y ∈ a → less (min_from m xs) y aux = true) ∧
    (∀ y, y ∈ b → less y (min_from m xs) aux = false).
Proof.
  revert pre m mid. induction xs as [|e xs IH]; intros pre m mid Hpre Hmid; simpl.
  { exists pre, mid. by rw app_nil_r. }
  destruct (less e m aux) eqn:E.
  - destruct (IH (pre ++ m :: mid) e []) as (a & b & Eq & Ha & Hb); [|set_solver|].
    + intros y. rw elem_of_app elem_of_cons. intros [Hy|[->|Hy]]; [|done|].
      * eapply less_trans; [done|by apply Hpre].
      * by eapply less_below; [apply Hmid|].
    + exists a, b. split; [|done]. rw -Eq -app_assoc //.
  - destruct (IH pre m (mid ++ [e])) as (a & b & Eq & Ha & Hb); [done|set_solver|].
    exists a, b. split; [|done]. rw -Eq -app_assoc //.
Qed.
End Program.

(** ** list_unique *)

Section Unique.
Context (less : list_less_func) (aux l d : Z).
Implicit Types (h : heap).

(** What is kept after [x], and what is dropped, scanning [ys]. *)
Fixpoint unique_from (x : Z) (ys : list Z) : list Z * list Z :=
  match ys with
  | [] => ([], [])
  | y :: ys' =>
      if decide (tied less aux x y)
      then ((unique_from x ys').1, y :: (unique_from x ys').2)
      else (y :: (unique_from y ys').1, (unique_from y ys').2)
  end.

Lemma unique_from_perm x ys : (unique_from x ys).1 ++ (unique_from x ys).2 ≡ₚ ys.
Proof.
  revert x. induction ys as [|y ys IH]; intros x; simpl; [done|]. case_decide; simpl.
  - by rw -Permutation_middle IH.
  - by rw IH.
Qed.

Lemma unique_from_adjacent x ys a y z b :
  x :: (unique_from x ys).1 = a ++ y :: z :: b → ¬ tied less aux y z.
Proof.
  revert x a. induction ys as [|w ys IH]; intros x a; simpl.
  { by destruct a as [|? [|??]]. }
  case_decide as E; simpl; [apply IH|]. destruct a as [|? a]; simpl.
  - by intros [= -> -> _].
  - intros [= _ E']. by eapply IH.
Qed.

Lemma tied_test x y :
  negb (less x y aux) && negb (less y x aux) = bool_decide (tied less aux x y).
Proof.
  case_bool_decide as E; rw /tied in E;
    destruct (less x y aux), (less y x aux); naive_solver.
Qed.

Lemma runs_list_unique_loop h fuel pre x ys ds (Q : unit → heap → Prop) :
  d ≠ NULL → list_repr h l (pre ++ x :: ys) → list_repr h d ds →
  (∀ z, z ∈ nodes l (pre ++ x :: ys) → z ∉ nodes d ds) → length ys < fuel →
  (∀ h', list_repr h' l (pre ++ x :: (unique_from x ys).1) →
         list_repr h' d (ds ++ (unique_from x ys).2) → dom h' = dom h → Q tt h') →
  runs (list_unique_loop less aux fuel l d x) h Q.
Proof.
  intros Hd. revert h pre x ds fuel.
  induction ys as [|y ys IH]; intros h pre x ds [|fuel] R D Hdis Hf HQ; simpl in *; try lia;
    (step; eapply runs_list_next_elem; [done|]; step; eapply runs_list_end; [done|]).
  { rw bool_decide_eq_true_2 //. step. rw app_nil_r in HQ. by apply HQ. }
  pose proof R as R'. rw cons_middle app_assoc in R'.
  rw bool_decide_eq_false_2.
  { rw -(app_nil_r ys) in R'. by eapply repr_pos_ne in R'. }
  rw tied_test. case_bool_decide as E; [rw decide_True in HQ|rw decide_False in HQ]; try done.
  2: { rw cons_middle app_assoc in R Hdis. eapply IH; [done..|lia|].
       intros h' R1 D1 Dom. rw -app_assoc in R1. by apply HQ. }
  pose proof (repr_removed_out _ _ _ _ _ R') as Hout.
  step. eapply (runs_list_remove _ _ (pre ++ [x])); [done|]. intros h1 R1 C1.
  rw -app_assoc /= in R1. rw -app_assoc /= in C1. rw -app_assoc /= in Hout.
  assert (∀ z, z ∈ nodes l (pre ++ x :: y :: ys) ↔ z = y ∨ z ∈ nodes l (pre ++ x :: ys)) as Hin.
  { intros z. rw /nodes. set_solver. }
  assert (y ≠ NULL) by (eapply (repr_node_nonnull _ _ _ R), Hin; by left).
  assert (y ∈ dom h1).
  { destruct C1 as [_ ->]. eapply (repr_node_dom _ _ _ R), Hin; by left. }
  assert (list_repr h1 d ds) as D1.
  { eapply repr_frame; [done| |done]. intros z Hz Hz'. eapply Hdis; [|done]. apply Hin; auto. }
  rw bool_decide_eq_false_2 //. step.
  eapply (runs_list_push_back d h1 ds y); [done..|by apply Hdis, Hin; left|].
  intros h2 D2 C2.
  eapply (IH _ _ _ (ds ++ [y])); [|done| |lia|].
  - eapply repr_frame; [done| |done]. intros z Hz. rw elem_of_cons.
    intros [->|Hz']; [done|]. eapply Hdis; [|done]. apply Hin; auto.
  - intros z Hz Hz'. assert (z = y ∨ z ∈ nodes d ds) as [->|Hz''].
    { move: Hz'. rw nodes_middle app_nil_r elem_of_cons. done. }
    + done.
    + eapply Hdis; [|done]. apply Hin; auto.
  - intros h3 R3 D3 Dom. rw -app_assoc in D3.
    apply HQ; [done..|]. destruct C1, C2. congruence.
Qed.

Lemma runs_list_unique h xs ds (Q : unit → heap → Prop) :
  d ≠ NULL → list_repr h l xs → list_repr h d ds →
  (∀ z, z ∈ nodes l xs → z ∉ nodes d ds) →
  (∀ h', list_repr h' l (match xs with [] => [] | x :: xs' => x :: (unique_from x xs').1 end) →
         list_repr h' d (ds ++ match xs with [] => [] | x :: xs' => (unique_from x xs').2 end) →
         dom h' = dom h → Q tt h') →
  runs (list_unique less aux l d) h Q.
Proof.
  intros Hd R D Hdis HQ. rw /list_unique. step. apply runs_not_null.
  { eapply (repr_node_nonnull _ _ _ R (head_of l)), in_nodes; by left. }
  step. eapply runs_list_empty; [done|]. destruct xs as [|x xs].
  { rw bool_decide_eq_true_2 //. step. rw app_nil_r in HQ. by apply HQ. }
  rw bool_decide_eq_false_2 //. step. eapply runs_list_begin; [done|].
  apply runs_with_fuel. eapply (runs_list_unique_loop _ _ []); [done..| |done].
  apply repr_fuel in R. simpl in R. lia.
Qed.
End Unique.
