(* ===== verification/ListProps.v ===== *)
(** * Properties of misc/list.c

    The theorems about the doubly linked list, each about the C operation on a heap
    that represents an abstract list, with a concrete heap for each in the witnesses.
    "Leaves every other cell alone" is [changes]. *)

From stdpp Require Import sorting.
From S2P Require Import Prelude CList COrder CListRepr CListSpec CListMove CListSplice COrderSpec.

(** ** A concrete list, for witnesses *)

#[global] Instance dseg_dec h p xs n : Decision (dseg h p xs n).
Proof. revert p. induction xs as [|x xs IH]; intros p; simpl; apply _. Defined.

Lemma list_repr_iff h l xs :
  list_repr h l xs ↔ NULL ∉ nodes l xs ∧ NoDup (nodes l xs) ∧ dseg h NULL (nodes l xs) NULL.
Proof. split; [by intros []|]. by intros (? & ? & ?). Qed.

#[global] Instance list_repr_dec h l xs : Decision (list_repr h l xs).
Proof.
  destruct (decide (NULL ∉ nodes l xs ∧ NoDup (nodes l xs) ∧ dseg h NULL (nodes l xs) NULL))
    as [H|H]; [left|right]; by rw list_repr_iff.
Defined.

(** The cells of the list at [l] that holds [xs]. *)
Fixpoint link (p : Z) (ns : list Z) (h : heap) : heap :=
  match ns with
  | [] => h
  | n :: ns => <[n := Elem p (hd NULL ns)]> (link n ns h)
  end.
Definition mk_list (l : Z) (xs : list Z) (h : heap) : heap := link NULL (nodes l xs) h.

(** A list of four elements at 0x100, a spare cell at 0x400, an empty list at 0x500. *)
Definition sample : list Z := [0x230; 0x210; 0x220; 0x218]%Z.
Definition sample_heap : heap :=
  mk_list 0x100 sample (mk_list 0x500 [] {[ 0x400%Z := Elem NULL NULL ]}).

(** Elements are compared by their address in units of 16. *)
Definition unit_less : list_less_func := λ a b _, Z.ltb (a / 16)%Z (b / 16)%Z.
#[global] Instance unit_less_strict aux : StrictWeak unit_less aux.
Proof.
  split; rw /unit_less; intros a b; [|intros c];
    rewrite ?Z.ltb_lt ?Z.ltb_ge; lia.
Qed.

Ltac by_eval := by apply (bool_decide_unpack _); vm_compute.

Section Lists.
Context (l : Z).

(** C10.  [list_sort] sorts: it returns with the same elements in non-decreasing order,
    keeps the order of elements that compare equal, and writes to no cell outside the
    list, for every comparison function that is a strict weak order. *)
Theorem list_sort_correct less aux `{!StrictWeak less aux} h xs :
  list_repr h l xs → (Z.of_nat (length xs) < 2 ^ 32)%Z →
  runs (list_sort less aux l) h (λ _ h', ∃ ys,
    list_repr h' l ys ∧ ys ≡ₚ xs ∧ StronglySorted (lesseq less aux) ys ∧
    (∀ x, filter (tied less aux x) ys = filter (tied less aux x) xs) ∧
    changes (nodes l xs) h h').
Proof.
  intros R Hlen. eapply runs_list_sort; [done..|]. intros h' ys R' C [HP HF] HS. eauto 10.
Qed.

(** [list_insert_ordered] puts the element into a sorted list so that it stays
    sorted, after the elements equal to it. *)
Theorem list_insert_ordered_correct less aux `{!StrictWeak less aux} h xs e :
  list_repr h l xs → StronglySorted (lesseq less aux) xs →
  e ∈ dom h → e ≠ NULL → e ∉ nodes l xs →
  runs (list_insert_ordered less aux l e) h (λ _ h', ∃ a b,
    xs = a ++ b ∧ list_repr h' l (a ++ e :: b) ∧
    StronglySorted (lesseq less aux) (a ++ e :: b) ∧
    (∀ x, x ∈ a → less e x aux = false) ∧
    match b with [] => True | x :: _ => less e x aux = true end ∧
    changes (e :: nodes l xs) h h').
Proof.
  intros R Hs He Hn Hin. eapply runs_list_insert_ordered; [done..|]. intros h' R' C.
  exists (ordered_split less aux e xs).1, (ordered_split less aux e xs).2.
  split_and!; [apply ordered_split_app|done|by apply insert_ordered_sorted| | |done].
  - apply ordered_split_before.
  - apply ordered_split_after.
Qed.

(** [list_splice] within a list moves the block [s] to before the block [b] and
    changes nothing else. *)
Theorem list_splice_correct h a b s c :
  b ≠ [] → s ≠ [] → list_repr h l (a ++ b ++ s ++ c) →
  runs (list_splice (hd (tail_of l) b) (hd (tail_of l) s) (hd (tail_of l) c)) h (λ _ h',
    list_repr h' l (a ++ s ++ b ++ c) ∧ changes (nodes l (a ++ b ++ s ++ c)) h h').
Proof. intros Hb Hs R. by eapply runs_list_splice_left. Qed.

(** C31.  [list_splice] between two lists takes the block [s] out of the one and puts it
    before the block [b1] of the other (or at its end); the lists keep everything else,
    and no cell outside them is written. *)
Theorem list_splice_between l2 h a1 b1 a2 s c2 :
  s ≠ [] → list_repr h l (a1 ++ b1) → list_repr h l2 (a2 ++ s ++ c2) →
  (∀ x, x ∈ nodes l (a1 ++ b1) → x ∉ nodes l2 (a2 ++ s ++ c2)) →
  runs (list_splice (hd (tail_of l) b1) (hd (tail_of l2) s) (hd (tail_of l2) c2)) h (λ _ h',
    list_repr h' l (a1 ++ s ++ b1) ∧ list_repr h' l2 (a2 ++ c2) ∧
    changes (nodes l (a1 ++ b1) ++ nodes l2 (a2 ++ s ++ c2)) h h').
Proof. intros Hs R1 R2 Hd. by eapply runs_list_splice_between. Qed.

(** [list_reverse] reverses; twice, it gives the list back. *)
Theorem list_reverse_correct h xs :
  list_repr h l xs →
  runs (list_reverse l) h (λ _ h1, list_repr h1 l (reverse xs) ∧ changes (nodes l xs) h h1 ∧
    runs (list_reverse l) h1 (λ _ h2, list_repr h2 l xs ∧ changes (nodes l xs) h h2)).
Proof.
  intros R. eapply runs_list_reverse; [done|]. intros h1 R1 C1. split_and!; [done..|].
  eapply runs_list_reverse; [done|]. intros h2 R2 C2. rw reverse_involutive in R2.
  split; [done|]. eapply changes_trans; [done|]. by rw (reverse_Permutation xs) in C2.
Qed.

(** [list_unique] keeps the first of each group of adjacent equal elements and
    appends the others, in order, to the list of duplicates; what is kept has no two
    adjacent equal elements, and nothing is lost. *)
Theorem list_unique_correct less aux d h x xs ds :
  d ≠ NULL → list_repr h l (x :: xs) → list_repr h d ds →
  (∀ z, z ∈ nodes l (x :: xs) → z ∉ nodes d ds) →
  runs (list_unique less aux l d) h (λ _ h', ∃ kept dups,
    list_repr h' l (x :: kept) ∧ list_repr h' d (ds ++ dups) ∧ kept ++ dups ≡ₚ xs ∧
    ∀ a y z b, x :: kept = a ++ y :: z :: b → ¬ tied less aux y z).
Proof.
  intros Hd R D Hdis. eapply runs_list_unique; [done..|]. intros h' R' D' _.
  exists (unique_from less aux x xs).1, (unique_from less aux x xs).2.
  split_and!; [done..|apply unique_from_perm|apply unique_from_adjacent].
Qed.

(** [list_max] returns the first of the greatest elements of a list that is not
    empty; [list_min] the first of the least ones. *)
Theorem list_max_min_correct less aux `{!StrictWeak less aux} h x xs :
  list_repr h l (x :: xs) →
  runs (list_max less aux l) h (λ m h', h' = h ∧ ∃ a b, x :: xs = a ++ m :: b ∧
    (∀ y, y ∈ a → less y m aux = true) ∧ (∀ y, y ∈ b → less m y aux = false)) ∧
  runs (list_min less aux l) h (λ m h', h' = h ∧ ∃ a b, x :: xs = a ++ m :: b ∧
    (∀ y, y ∈ a → less m y aux = true) ∧ (∀ y, y ∈ b → less y m aux = false)).
Proof.
  intros R. split.
  - eapply runs_list_max; [done|]. split; [done|].
    by apply (max_from_first less aux [] x [] xs); intros y []%elem_of_nil.
  - eapply runs_list_min; [done|]. split; [done|].
    by apply (min_from_first less aux [] x [] xs); intros y []%elem_of_nil.
Qed.

(** [list_insert] before any position and then [list_remove] of the inserted
    element restore the list, and [list_remove] returns the position inserted before. *)
Theorem insert_remove_roundtrip h a b e :
  list_repr h l (a ++ b) → e ∈ dom h → e ≠ NULL → e ∉ nodes l (a ++ b) →
  runs (list_insert (hd (tail_of l) b) e;; list_remove e) h (λ r h',
    r = hd (tail_of l) b ∧ list_repr h' l (a ++ b) ∧ changes (e :: nodes l (a ++ b)) h h').
Proof.
  intros R He Hn Hin. step. eapply runs_list_insert; [done..|]. intros h1 R1 C1.
  eapply runs_list_remove; [done|]. intros h2 R2 C2. split_and!; [done..|].
  eapply changes_trans; [done|]. eapply changes_mono; [|done]. set_solver.
Qed.

(** [list_size] counts the elements and [list_empty] tells whether there are none. *)
Theorem list_size_correct h xs :
  list_repr h l xs → (Z.of_nat (length xs) < 2 ^ 32)%Z →
  list_size l h = Ok (Z.of_nat (length xs), h) ∧
  list_empty l h = Ok (bool_decide (length xs = 0), h).
Proof.
  intros R Hlen. split.
  - assert (runs (list_size l) h (λ n h', n = Z.of_nat (length xs) ∧ h' = h))
      as (? & ? & -> & -> & ->)%runs_inv by (by eapply runs_list_size). done.
  - assert (runs (list_empty l) h (λ b h', b = bool_decide (length xs = 0) ∧ h' = h))
      as (? & ? & -> & -> & ->)%runs_inv; [|done].
    eapply runs_list_empty; [done|]. split; [|done]. by destruct xs.
Qed.
End Lists.

(** ** The list as a deque *)

(** What the kernel does with its lists. *)
Inductive lop := PushBack (e : Z) | PushFront (e : Z) | PopFront | PopBack | Remove (e : Z).

Definition lop_run (l : Z) (o : lop) : M heap (option Z) :=
  match o with
  | PushBack e => list_push_back l e;; mret None
  | PushFront e => list_push_front l e;; mret None
  | PopFront => e ← list_pop_front l; mret (Some e)
  | PopBack => e ← list_pop_back l; mret (Some e)
  | Remove e => e' ← list_remove e; mret (Some e')
  end.

Fixpoint lops_run (l : Z) (os : list lop) : M heap (list (option Z)) :=
  match os with
  | [] => mret []
  | o :: os => r ← lop_run l o; rs ← lops_run l os; mret (r :: rs)
  end.

(** The same on a list of addresses; [None] where the operation is not allowed: a pop
    of the empty list, a push of a cell that is already in the list or is not a cell,
    the removal of something that is not in the list. *)
Definition lop_spec (cells : gset Z) (l : Z) (o : lop) (xs : list Z) : option (option Z * list Z) :=
  let fresh e := bool_decide (e ∈ cells ∧ e ≠ NULL ∧ e ∉ nodes l xs) in
  match o with
  | PushBack e => if fresh e then Some (None, xs ++ [e]) else None
  | PushFront e => if fresh e then Some (None, e :: xs) else None
  | PopFront => match xs with [] => None | x :: xs => Some (Some x, xs) end
  | PopBack => match last xs with None => None | Some x => Some (Some x, take (length xs - 1) xs) end
  | Remove e =>
      match list_find (λ x, x = e) xs with
      | None => None
      | Some (i, _) => Some (Some (hd (tail_of l) (drop (S i) xs)), take i xs ++ drop (S i) xs)
      end
  end.

Fixpoint lops_spec (cells : gset Z) (l : Z) (os : list lop) (xs : list Z)
    : option (list (option Z) * list Z) :=
  match os with
  | [] => Some ([], xs)
  | o :: os =>
      match lop_spec cells l o xs with
      | None => None
      | Some (r, ys) =>
          match lops_spec cells l os ys with
          | None => None
          | Some (rs, zs) => Some (r :: rs, zs)
          end
      end
  end.

Lemma last_split (xs : list Z) x : last xs = Some x → xs = take (length xs - 1) xs ++ [x].
Proof.
  intros [ys ->]%last_Some. rw length_app /= Nat.add_sub take_app_length //.
Qed.

Lemma lop_refines l o h xs r ys :
  list_repr h l xs → lop_spec (dom h) l o xs = Some (r, ys) →
  runs (lop_run l o) h (λ r' h', r' = r ∧ list_repr h' l ys ∧ dom h' = dom h).
Proof.
  intros R. destruct o as [e|e| | |e]; simpl; try case_bool_decide as Hf; try done.
  - intros [= <- <-]. destruct Hf as (? & ? & ?). step.
    eapply runs_list_push_back; [done..|]. intros h' R' [_ D]. by step.
  - intros [= <- <-]. destruct Hf as (? & ? & ?). step.
    eapply runs_list_push_front; [done..|]. intros h' R' [_ D]. by step.
  - destruct xs as [|x xs]; [done|]. intros [= <- <-]. step.
    eapply runs_list_pop_front; [done|]. intros h' R' [_ D]. by step.
  - destruct (last xs) as [x|] eqn:E; [|done]. intros [= <- <-]. apply last_split in E.
    rw E in R. step. eapply runs_list_pop_back; [done|]. intros h' R' [_ D]. by step.
  - destruct (list_find (λ x, x = e) xs) as [[i x]|] eqn:E; [|done]. intros [= <- <-].
    apply list_find_Some in E as (Hi & -> & _). rw -(take_drop_middle _ _ _ Hi) in R.
    step. eapply runs_list_remove; [done|]. intros h' R' [_ D]. by step.
Qed.

(** C17.  A list is a deque: every sequence of pushes, pops and removals that the
    abstract deque allows runs without a panic, returns the deque's answers and leaves
    a list with the deque's contents. *)
Theorem deque_refines l os h xs rs ys :
  list_repr h l xs → lops_spec (dom h) l os xs = Some (rs, ys) →
  runs (lops_run l os) h (λ rs' h', rs' = rs ∧ list_repr h' l ys).
Proof.
  revert h xs rs. induction os as [|o os IH]; intros h xs rs R; simpl.
  { intros [= <- <-]. by step. }
  destruct (lop_spec (dom h) l o xs) as [[r1 ys1]|] eqn:E1; [|done].
  destruct (lops_spec (dom h) l os ys1) as [[rs2 zs]|] eqn:E2; [|done]. intros [= <- <-].
  step. eapply runs_mono; [by eapply lop_refines|]. intros r h' (-> & R' & D). step.
  rw -D in E2. eapply runs_mono; [by eapply IH|]. intros rs' h2 [-> R2]. by step.
Qed.

(** Popping an empty list, from either end, panics in the assertion of
    [list_front] or [list_back]. *)
Theorem pop_empty_panics l h :
  list_repr h l [] →
  list_pop_front l h = Err (Panic list_c 282) ∧ list_pop_back l h = Err (Panic list_c 291).
Proof. intros R. split; [by apply list_pop_front_empty|by apply list_pop_back_empty]. Qed.

(** ** Witnesses: the theorems on the sample list *)

Lemma sample_repr : list_repr sample_heap 0x100 sample.
Proof. by_eval. Qed.

Lemma list_sort_correct_witness :
  runs (list_sort unit_less 0 0x100) sample_heap (λ _ h', ∃ ys,
    list_repr h' 0x100 ys ∧ ys ≡ₚ sample ∧ StronglySorted (lesseq unit_less 0) ys ∧
    (∀ x, filter (tied unit_less 0 x) ys = filter (tied unit_less 0 x) sample) ∧
    changes (nodes 0x100 sample) sample_heap h').
Proof. apply (list_sort_correct 0x100 unit_less 0); [exact sample_repr|by vm_compute]. Defined.

Lemma sample_sorted : StronglySorted (lesseq unit_less 0) [0x210; 0x220; 0x230]%Z.
Proof. repeat constructor. Qed.

Lemma list_insert_ordered_correct_witness :
  let h := mk_list 0x100 [0x210; 0x220; 0x230]%Z {[ 0x228%Z := Elem NULL NULL ]} in
  runs (list_insert_ordered unit_less 0 0x100 0x228) h (λ _ h', ∃ a b,
    [0x210; 0x220; 0x230]%Z = a ++ b ∧ list_repr h' 0x100 (a ++ 0x228%Z :: b) ∧
    StronglySorted (lesseq unit_less 0) (a ++ 0x228%Z :: b) ∧
    (∀ x, x ∈ a → unit_less 0x228%Z x 0%Z = false) ∧
    match b with [] => True | x :: _ => unit_less 0x228%Z x 0%Z = true end ∧
    changes (0x228%Z :: nodes 0x100 [0x210; 0x220; 0x230]%Z) h h').
Proof.
  apply (list_insert_ordered_correct 0x100 unit_less 0);
    [by_eval|exact sample_sorted|by_eval|done|by_eval].
Defined.

Lemma list_splice_correct_witness :
  runs (list_splice 0x230 0x220 (tail_of 0x100)) sample_heap (λ _ h',
    list_repr h' 0x100 [0x220; 0x218; 0x230; 0x210]%Z ∧ changes (nodes 0x100 sample) sample_heap h').
Proof.
  apply (list_splice_correct 0x100 sample_heap [] [0x230; 0x210]%Z [0x220; 0x218]%Z []);
    [done..|exact sample_repr].
Defined.

Lemma list_splice_between_witness :
  runs (list_splice (tail_of 0x500) 0x210 0x218) sample_heap (λ _ h',
    list_repr h' 0x500 [0x210; 0x220]%Z ∧ list_repr h' 0x100 [0x230; 0x218]%Z ∧
    changes (nodes 0x500 [] ++ nodes 0x100 sample) sample_heap h').
Proof.
  apply (list_splice_between 0x500 0x100 sample_heap [] [] [0x230] [0x210; 0x220] [0x218])%Z;
    [done|by_eval|exact sample_repr|apply Forall_forall; by_eval].
Defined.

Lemma list_reverse_correct_witness :
  runs (list_reverse 0x100) sample_heap (λ _ h1,
    list_repr h1 0x100 (reverse sample) ∧ changes (nodes 0x100 sample) sample_heap h1 ∧
    runs (list_reverse 0x100) h1 (λ _ h2,
      list_repr h2 0x100 sample ∧ changes (nodes 0x100 sample) sample_heap h2)).
Proof. apply list_reverse_correct. exact sample_repr. Defined.

Lemma list_unique_correct_witness :
  let h := mk_list 0x100 [0x210; 0x218; 0x220]%Z (mk_list 0x500 [] ∅) in
  runs (list_unique unit_less 0 0x100 0x500) h (λ _ h', ∃ kept dups,
    list_repr h' 0x100 (0x210%Z :: kept) ∧ list_repr h' 0x500 ([] ++ dups) ∧
    kept ++ dups ≡ₚ [0x218; 0x220]%Z ∧
    ∀ a y z b, 0x210%Z :: kept = a ++ y :: z :: b → ¬ tied unit_less 0 y z).
Proof.
  apply (list_unique_correct 0x100 unit_less 0 0x500); [done|by_eval|by_eval|].
  apply Forall_forall. by_eval.
Defined.

Lemma list_max_min_correct_witness :
  runs (list_max unit_less 0 0x100) sample_heap (λ m h', h' = sample_heap ∧
    ∃ a b, sample = a ++ m :: b ∧ (∀ y, y ∈ a → unit_less y m 0%Z = true) ∧
           (∀ y, y ∈ b → unit_less m y 0%Z = false)) ∧
  runs (list_min unit_less 0 0x100) sample_heap (λ m h', h' = sample_heap ∧
    ∃ a b, sample = a ++ m :: b ∧ (∀ y, y ∈ a → unit_less m y 0%Z = true) ∧
           (∀ y, y ∈ b → unit_less y m 0%Z = false)).
Proof. apply (list_max_min_correct 0x100 unit_less 0). exact sample_repr. Defined.

Lemma insert_remove_roundtrip_witness :
  runs (list_insert 0x220 0x400;; list_remove 0x400) sample_heap (λ r h',
    r = 0x220%Z ∧ list_repr h' 0x100 sample ∧
    changes (0x400%Z :: nodes 0x100 sample) sample_heap h').
Proof.
  apply (insert_remove_roundtrip 0x100 sample_heap [0x230; 0x210]%Z [0x220; 0x218]%Z);
    [exact sample_repr|by_eval|done|by_eval].
Defined.

Lemma list_size_correct_witness :
  list_size 0x100 sample_heap = Ok (4%Z, sample_heap) ∧
  list_empty 0x100 sample_heap = Ok (false, sample_heap).
Proof. apply (list_size_correct 0x100 sample_heap sample sample_repr). by vm_compute. Defined.

Lemma deque_refines_witness :
  runs (lops_run 0x100 [PopFront; PushBack 0x400; Remove 0x220; PopBack; PushFront 0x230])
    sample_heap (λ rs' h',
      rs' = [Some 0x230; None; Some 0x218; Some 0x400; None]%Z ∧
      list_repr h' 0x100 [0x230; 0x210; 0x218]%Z).
Proof. eapply deque_refines; [exact sample_repr|]. by vm_compute. Defined.

Lemma pop_empty_panics_witness :
  list_pop_front 0x500 sample_heap = Err (Panic list_c 282) ∧
  list_pop_back 0x500 sample_heap = Err (Panic list_c 291).
Proof. apply pop_empty_panics. by_eval. Defined.
