(* ===== verification/SortEquiv.v ===== *)
(** * list_sort and list_insert_ordered agree

    A sorted arrangement that keeps equivalent elements in their order is unique, so the
    merge sort of [list_sort] and the insertion of the elements one by one, with
    [list_insert_ordered], arrive at the same list. *)

From stdpp Require Import sorting.
From S2P Require Import Prelude CList COrder CListRepr CListSpec CListMove COrderSpec ListProps.

(** Moving every element of [src] to its place in [dst]. *)
Fixpoint move_ordered (less : list_less_func) (aux src dst : Z) (n : nat) : M heap unit :=
  match n with
  | O => mret tt
  | S n =>
      e ← list_pop_front src;
      list_insert_ordered less aux dst e;;
      move_ordered less aux src dst n
  end.

Section Equiv.
Context (less : list_less_func) (aux : Z) `{!StrictWeak less aux}.
Abbreviation sorted := (StronglySorted (lesseq less aux)).
Abbreviation insert_ordered := (insert_ordered less aux).
Abbreviation stable_perm := (stable_perm less aux).

Definition insert_all (acc xs : list Z) : list Z := foldl (λ acc x, insert_ordered x acc) acc xs.

(** ** One arrangement *)

Lemma tied_refl x : tied less aux x x.
Proof.
  rw /tied. destruct (less x x aux) eqn:E; [|done].
  pose proof (less_asym _ _ E). congruence.
Qed.

Lemma stable_cons_inv x xs ys : stable_perm (x :: xs) (x :: ys) → stable_perm xs ys.
Proof.
  intros [P F]. split; [by apply Permutation_cons_inv in P|]. intros z.
  specialize (F z). rw !(filter_cons _ x) in F. case_decide; by simplify_eq.
Qed.

(** The first elements of two sorted arrangements are tied. *)
Lemma sorted_heads x xs y ys : x :: xs ≡ₚ y :: ys → sorted (y :: ys) → lesseq less aux y x.
Proof.
  intros P [_ Hy]%StronglySorted_inv. assert (x ∈ y :: ys) as Hx by (rw -P; by left).
  apply elem_of_cons in Hx as [->|Hx]; [apply tied_refl|].
  by apply (proj1 (Forall_forall _ _) Hy).
Qed.

Lemma stable_sorted_unique xs : ∀ ys, stable_perm xs ys → sorted xs → sorted ys → xs = ys.
Proof.
  induction xs as [|x xs IH]; intros ys St Hx Hy.
  { by apply stable_Permutation, Permutation_nil_l in St. }
  destruct ys as [|y ys]; [by apply stable_Permutation, Permutation_nil_r in St|].
  assert (tied less aux x y) as Ht.
  { pose proof (stable_Permutation _ _ _ _ St) as P.
    split; [by eapply sorted_heads|by eapply (sorted_heads y ys x xs)]. }
  assert (x = y) as ->.
  { destruct St as [_ F]. specialize (F x). rw !filter_cons_True in F; [apply tied_refl|done|].
    by simplify_eq. }
  f_equal. apply StronglySorted_inv in Hx as [Hx _]. apply StronglySorted_inv in Hy as [Hy _].
  apply IH; [by apply stable_cons_inv in St|done..].
Qed.

(** ** Inserting is stable *)

Lemma insert_ordered_stable e xs : sorted xs → stable_perm (insert_ordered e xs) (xs ++ [e]).
Proof.
  intros Hs. split; [rw insert_ordered_Permutation; by rw (Permutation_app_comm xs)|].
  intros x. pose proof (ordered_split_app less aux e xs) as E.
  pose proof (ordered_split_after less aux e xs) as Ha.
  rw /insert_ordered {3}E !filter_app filter_cons -app_assoc. f_equal.
  destruct (ordered_split less aux e xs) as [a b]; simpl in *. subst xs.
  destruct (decide (tied less aux x e)) as [Ht|Ht].
  - rw (filter_cons_True _ e []) //. destruct b as [|y b]; [done|].
    rw (filter_above less aux x e (y :: b)) //. apply sorted_above; [done| |done].
    by apply StronglySorted_app in Hs as (? & ? & ?).
  - rw (filter_cons_False _ e []) //. by rw filter_nil app_nil_r.
Qed.

Lemma insert_all_spec xs : ∀ acc, sorted acc →
  sorted (insert_all acc xs) ∧ stable_perm (insert_all acc xs) (acc ++ xs).
Proof.
  induction xs as [|x xs IH]; intros acc Hs; simpl; [by rw app_nil_r|].
  destruct (IH (insert_ordered x acc)) as [H1 H2]; [by apply insert_ordered_sorted|].
  split; [done|]. eapply stable_trans; [done|].
  replace (acc ++ x :: xs) with ((acc ++ [x]) ++ xs) by by rw -app_assoc.
  apply stable_app; [by apply insert_ordered_stable|done].
Qed.

(** ** The program *)

Lemma runs_move_ordered src dst xs : ∀ h acc (Q : unit → heap → Prop),
  list_repr h src xs → list_repr h dst acc →
  (∀ z, z ∈ nodes src xs → z ∉ nodes dst acc) →
  (∀ h', list_repr h' src [] → list_repr h' dst (insert_all acc xs) → Q tt h') →
  runs (move_ordered less aux src dst (length xs)) h Q.
Proof.
  induction xs as [|x xs IH]; intros h acc Q R D Hd HQ; simpl; [by step; apply HQ|].
  pose proof (nodes_middle src [] x xs) as Hp. simpl in Hp.
  assert (x ∈ nodes src (x :: xs)) as Hx by (rw Hp; by left).
  pose proof (repr_node_nonnull _ _ _ R x Hx) as Hn.
  pose proof (repr_node_dom _ _ _ R x Hx) as Hdom.
  pose proof (repr_removed_out src h [] x xs R) as Hout. simpl in Hout.
  assert (∀ z, z ∈ nodes src xs → z ∉ nodes dst acc) as Hd'.
  { intros z Hz. apply Hd. rw Hp. by right. }
  pose proof (Hd x Hx) as Hxd.
  step. eapply runs_list_pop_front; [done|]. intros h1 R1 C1.
  assert (list_repr h1 dst acc) as D1.
  { eapply repr_frame; [done| |done]. intros z Hz Hz'. by apply (Hd' z). }
  step. eapply runs_list_insert_ordered; [done|by destruct C1 as [_ ->]|done..|].
  intros h2 D2 C2. eapply (IH h2 (insert_ordered x acc)); [|done| |done].
  - eapply repr_frame; [done| |done]. intros z Hz [->|Hz']%elem_of_cons; [done|].
    by apply (Hd' z).
  - intros z Hz. rw (insert_ordered_Permutation less aux x acc) (nodes_middle dst [] x acc).
    intros [->|Hz']%elem_of_cons; [done|]. by apply (Hd' z).
Qed.

(** C11.  Sorting in place and inserting in order are equivalent: [list_sort] leaves, in
    the same sequence, the elements that popping them one after another and putting each
    into another, empty list with [list_insert_ordered] leaves there. *)
Theorem sort_insert_equivalent l d h xs :
  list_repr h l xs → list_repr h d [] → (∀ z, z ∈ nodes l xs → z ∉ nodes d []) →
  (Z.of_nat (length xs) < 2 ^ 32)%Z →
  ∃ ys, runs (list_sort less aux l) h (λ _ h1, list_repr h1 l ys) ∧
        runs (move_ordered less aux l d (length xs)) h (λ _ h2,
          list_repr h2 l [] ∧ list_repr h2 d ys).
Proof.
  intros R D Hd Hlen. destruct (insert_all_spec xs []) as [Hs St]; [constructor|].
  exists (insert_all [] xs). split; [|by eapply runs_move_ordered].
  eapply runs_list_sort; [done..|]. intros h' ys R' _ St' Hs'.
  replace (insert_all [] xs) with ys; [done|]. apply stable_sorted_unique; [|done..].
  destruct St as [P F], St' as [P' F']. split; [by rw P P'|]. intros x. by rw F F'.
Qed.
End Equiv.

Lemma sort_insert_equivalent_witness :
  ∃ ys, runs (list_sort unit_less 0 0x100) sample_heap (λ _ h1, list_repr h1 0x100 ys) ∧
        runs (move_ordered unit_less 0 0x100 0x500 4) sample_heap (λ _ h2,
          list_repr h2 0x100 [] ∧ list_repr h2 0x500 ys).
Proof.
  apply (sort_insert_equivalent unit_less 0 0x100 0x500 sample_heap sample);
    [exact sample_repr|by_eval|apply Forall_forall; by_eval|done].
Defined.
