(* ===== verification/Machine.v ===== *)
(** * The kernel's memory and globals

    The objects the kernel code works on: the [struct thread]s, the list cells
    embedded in them and in the static lists, the global variables of thread.c,
    timer.c, main.c and tests.c, and the console.  What the code calls outside
    the repository (the allocator, the SDK's interrupt mask) is the class
    [Platform]. *)

From Stdlib Require Import Ascii.
From S2P Require Import Prelude CList.

(** ** threads/thread.h: constants and data *)

Definition TID_ERROR : Z := -1.
Definition THREAD_MAGIC : Z := 0xcd6abf4b.
Definition PGBITS : Z := 12.
Definition PGSIZE : Z := Z.shiftl 1 PGBITS.
(** [BITMASK (PGSHIFT, PGBITS)], an [unsigned long]. *)
Definition PGMASK : Z := uint32 (Z.shiftl (Z.shiftl 1 PGBITS - 1) 0).

Inductive thread_status :=
| THREAD_RUNNING | THREAD_READY | THREAD_BLOCKED | THREAD_DYING.

#[global] Instance thread_status_eq_dec : EqDecision thread_status.
Proof. solve_decision. Defined.

(** The registers switch.c saves and restores ([struct thread_register_save] has
    a slot for each ARM register; the others are never written). *)
Record registers := Regs { r3 : Z; r5 : Z; r6 : Z; r7 : Z; sp : Z }.

(** [struct thread], less its list cells, which live in the heap: [allelem],
    [elem] and the two sentinels of [donations_received_list]. *)
Record thread := Thread {
  tid : Z;
  status : thread_status;
  name : list ascii;
  stack : Z;
  priority : Z;
  true_priority : Z;
  sleep_time : Z;
  register_save : registers;
  duration_ticks : Z;
  magic : Z;
}.

(** Layout of [struct thread] (ILP32, 8-byte aligned [uint64_t]). *)
Definition off_allelem : Z := 36.
Definition off_elem : Z := 44.
Definition off_donations : Z := 64.
Definition sizeof_thread : Z := 152.

Definition allelem_ptr (t : Z) : Z := (t + off_allelem)%Z.
Definition elem_ptr (t : Z) : Z := (t + off_elem)%Z.

(** [list_entry (e, struct thread, elem)] and the same for [allelem]: the pointer
    to [next] inside the cell, less the offset of that member in the thread. *)
Definition list_entry_elem (e : Z) : Z := ((e + 4) - (off_elem + 4))%Z.
Definition list_entry_allelem (e : Z) : Z := ((e + 4) - (off_allelem + 4))%Z.

(** The cells inside the thread at [t]. *)
Definition cells_of (t : Z) : list Z :=
  [(t + off_allelem)%Z; (t + off_elem)%Z; (t + off_donations)%Z; (t + off_donations + 8)%Z].

(** The static lists of thread.c, where this build's linker placed them. *)
Definition all_list : Z := 0x20000e54.
Definition lista_espera : Z := 0x20000efc.
Definition ready_list : Z := 0x20000f1c.
Definition static_lists : list Z := [all_list; lista_espera; ready_list].

(** A C string: its address (compared by [name == "idle"]) and its characters. *)
Record cstring := CStr { c_addr : Z; c_chars : string }.
(** The literal "idle", shared by [thread_start] and [thread_create]. *)
Definition idle_literal : cstring := CStr 0x1000c1fc "idle".
Definition main_literal : cstring := CStr 0x1000c084 "main".

(** What the program asks of the board: a call to printf, with the format as written in
    the source and its arguments, and the SDK's calls on pins and on the timer. *)
Inductive parg := PInt (z : Z) | PStr (s : string).
Inductive output :=
| Printf (fmt : string) (args : list parg)
| StdioInitAll
| GpioInit (pin : Z)
| GpioSetDir (pin : Z) (out : bool)
| GpioPut (pin : Z) (value : Z)
| AddRepeatingTimerMs (ms : Z).

(** The alarm callbacks of the tests: create a thread, or force an exit. *)
Inductive alarm := AlarmCreate | AlarmForceExit.

Inductive heap_event := EvAlloc (a : Z) | EvFree (a : Z).

(** Blocks allocated and not freed since, given the allocator's history (most
    recent event first). *)
Fixpoint live (ev : list heap_event) : list Z :=
  match ev with
  | [] => []
  | EvAlloc a :: ev => a :: live ev
  | EvFree a :: ev => filter (λ b, b ≠ a) (live ev)
  end.

(** ** The state *)

Record kstate := KState {
  k_heap : heap;                      (* list cells *)
  k_threads : gmap Z thread;          (* struct thread objects *)
  k_raw : gmap Z Z;                   (* words stored elsewhere *)
  k_events : list heap_event;         (* calls to calloc and free *)
  k_out : list output;                (* console and board, most recent first *)
  k_regs : registers;                 (* CPU registers *)
  k_primask : Z;                      (* interrupt mask *)
  thread_running_var : Z;
  idle_thread : Z;
  initial_thread : Z;
  idle_ticks : Z;
  kernel_ticks : Z;
  thread_ticks : Z;                   (* unsigned *)
  next_tid : Z;
  ticks : Z;
  round_robin_mode : Z;
  round_robin_ticks : Z;              (* unsigned *)
  thread_exit_on_return : Z;
  yield_on_return : bool;
  k_alarms : list (Z * alarm);        (* alarms asked for: delay in ms, callback *)
  k_count : Z;                        (* [count] of the running test *)
}.

Section Setters.
Context (s : kstate).
Definition set_heap v : kstate :=
  KState v (k_threads s) (k_raw s) (k_events s) (k_out s) (k_regs s) (k_primask s)
    (thread_running_var s) (idle_thread s) (initial_thread s) (idle_ticks s)
    (kernel_ticks s) (thread_ticks s) (next_tid s) (ticks s) (round_robin_mode s)
    (round_robin_ticks s) (thread_exit_on_return s) (yield_on_return s) (k_alarms s)
    (k_count s).
Definition set_threads v : kstate :=
  KState (k_heap s) v (k_raw s) (k_events s) (k_out s) (k_regs s) (k_primask s)
    (thread_running_var s) (idle_thread s) (initial_thread s) (idle_ticks s)
    (kernel_ticks s) (thread_ticks s) (next_tid s) (ticks s) (round_robin_mode s)
    (round_robin_ticks s) (thread_exit_on_return s) (yield_on_return s) (k_alarms s)
    (k_count s).
Definition set_raw v : kstate :=
  KState (k_heap s) (k_threads s) v (k_events s) (k_out s) (k_regs s) (k_primask s)
    (thread_running_var s) (idle_thread s) (initial_thread s) (idle_ticks s)
    (kernel_ticks s) (thread_ticks s) (next_tid s) (ticks s) (round_robin_mode s)
    (round_robin_ticks s) (thread_exit_on_return s) (yield_on_return s) (k_alarms s)
    (k_count s).
Definition set_events v : kstate :=
  KState (k_heap s) (k_threads s) (k_raw s) v (k_out s) (k_regs s) (k_primask s)
    (thread_running_var s) (idle_thread s) (initial_thread s) (idle_ticks s)
    (kernel_ticks s) (thread_ticks s) (next_tid s) (ticks s) (round_robin_mode s)
    (round_robin_ticks s) (thread_exit_on_return s) (yield_on_return s) (k_alarms s)
    (k_count s).
Definition set_out v : kstate :=
  KState (k_heap s) (k_threads s) (k_raw s) (k_events s) v (k_regs s) (k_primask s)
    (thread_running_var s) (idle_thread s) (initial_thread s) (idle_ticks s)
    (kernel_ticks s) (thread_ticks s) (next_tid s) (ticks s) (round_robin_mode s)
    (round_robin_ticks s) (thread_exit_on_return s) (yield_on_return s) (k_alarms s)
    (k_count s).
Definition set_regs v : kstate :=
  KState (k_heap s) (k_threads s) (k_raw s) (k_events s) (k_out s) v (k_primask s)
    (thread_running_var s) (idle_thread s) (initial_thread s) (idle_ticks s)
    (kernel_ticks s) (thread_ticks s) (next_tid s) (ticks s) (round_robin_mode s)
    (round_robin_ticks s) (thread_exit_on_return s) (yield_on_return s) (k_alarms s)
    (k_count s).
Definition set_primask v : kstate :=
  KState (k_heap s) (k_threads s) (k_raw s) (k_events s) (k_out s) (k_regs s) v
    (thread_running_var s) (idle_thread s) (initial_thread s) (idle_ticks s)
    (kernel_ticks s) (thread_ticks s) (next_tid s) (ticks s) (round_robin_mode s)
    (round_robin_ticks s) (thread_exit_on_return s) (yield_on_return s) (k_alarms s)
    (k_count s).
Definition set_thread_running_var v : kstate :=
  KState (k_heap s) (k_threads s) (k_raw s) (k_events s) (k_out s) (k_regs s) (k_primask
    s) v (idle_thread s) (initial_thread s) (idle_ticks s) (kernel_ticks s)
    (thread_ticks s) (next_tid s) (ticks s) (round_robin_mode s) (round_robin_ticks s)
    (thread_exit_on_return s) (yield_on_return s) (k_alarms s) (k_count s).
Definition set_idle_thread v : kstate :=
  KState (k_heap s) (k_threads s) (k_raw s) (k_events s) (k_out s) (k_regs s) (k_primask
    s) (thread_running_var s) v (initial_thread s) (idle_ticks s) (kernel_ticks s)
    (thread_ticks s) (next_tid s) (ticks s) (round_robin_mode s) (round_robin_ticks s)
    (thread_exit_on_return s) (yield_on_return s) (k_alarms s) (k_count s).
Definition set_initial_thread v : kstate :=
  KState (k_heap s) (k_threads s) (k_raw s) (k_events s) (k_out s) (k_regs s) (k_primask
    s) (thread_running_var s) (idle_thread s) v (idle_ticks s) (kernel_ticks s)
    (thread_ticks s) (next_tid s) (ticks s) (round_robin_mode s) (round_robin_ticks s)
    (thread_exit_on_return s) (yield_on_return s) (k_alarms s) (k_count s).
Definition set_idle_ticks v : kstate :=
  KState (k_heap s) (k_threads s) (k_raw s) (k_events s) (k_out s) (k_regs s) (k_primask
    s) (thread_running_var s) (idle_thread s) (initial_thread s) v (kernel_ticks s)
    (thread_ticks s) (next_tid s) (ticks s) (round_robin_mode s) (round_robin_ticks s)
    (thread_exit_on_return s) (yield_on_return s) (k_alarms s) (k_count s).
Definition set_kernel_ticks v : kstate :=
  KState (k_heap s) (k_threads s) (k_raw s) (k_events s) (k_out s) (k_regs s) (k_primask
    s) (thread_running_var s) (idle_thread s) (initial_thread s) (idle_ticks s) v
    (thread_ticks s) (next_tid s) (ticks s) (round_robin_mode s) (round_robin_ticks s)
    (thread_exit_on_return s) (yield_on_return s) (k_alarms s) (k_count s).
Definition set_thread_ticks v : kstate :=
  KState (k_heap s) (k_threads s) (k_raw s) (k_events s) (k_out s) (k_regs s) (k_primask
    s) (thread_running_var s) (idle_thread s) (initial_thread s) (idle_ticks s)
    (kernel_ticks s) v (next_tid s) (ticks s) (round_robin_mode s) (round_robin_ticks s)
    (thread_exit_on_return s) (yield_on_return s) (k_alarms s) (k_count s).
Definition set_next_tid v : kstate :=
  KState (k_heap s) (k_threads s) (k_raw s) (k_events s) (k_out s) (k_regs s) (k_primask
    s) (thread_running_var s) (idle_thread s) (initial_thread s) (idle_ticks s)
    (kernel_ticks s) (thread_ticks s) v (ticks s) (round_robin_mode s)
    (round_robin_ticks s) (thread_exit_on_return s) (yield_on_return s) (k_alarms s)
    (k_count s).
Definition set_ticks v : kstate :=
  KState (k_heap s) (k_threads s) (k_raw s) (k_events s) (k_out s) (k_regs s) (k_primask
    s) (thread_running_var s) (idle_thread s) (initial_thread s) (idle_ticks s)
    (kernel_ticks s) (thread_ticks s) (next_tid s) v (round_robin_mode s)
    (round_robin_ticks s) (thread_exit_on_return s) (yield_on_return s) (k_alarms s)
    (k_count s).
Definition set_round_robin_mode v : kstate :=
  KState (k_heap s) (k_threads s) (k_raw s) (k_events s) (k_out s) (k_regs s) (k_primask
    s) (thread_running_var s) (idle_thread s) (initial_thread s) (idle_ticks s)
    (kernel_ticks s) (thread_ticks s) (next_tid s) (ticks s) v (round_robin_ticks s)
    (thread_exit_on_return s) (yield_on_return s) (k_alarms s) (k_count s).
Definition set_round_robin_ticks v : kstate :=
  KState (k_heap s) (k_threads s) (k_raw s) (k_events s) (k_out s) (k_regs s) (k_primask
    s) (thread_running_var s) (idle_thread s) (initial_thread s) (idle_ticks s)
    (kernel_ticks s) (thread_ticks s) (next_tid s) (ticks s) (round_robin_mode s) v
    (thread_exit_on_return s) (yield_on_return s) (k_alarms s) (k_count s).
Definition set_thread_exit_on_return v : kstate :=
  KState (k_heap s) (k_threads s) (k_raw s) (k_events s) (k_out s) (k_regs s) (k_primask
    s) (thread_running_var s) (idle_thread s) (initial_thread s) (idle_ticks s)
    (kernel_ticks s) (thread_ticks s) (next_tid s) (ticks s) (round_robin_mode s)
    (round_robin_ticks s) v (yield_on_return s) (k_alarms s) (k_count s).
Definition set_yield_on_return v : kstate :=
  KState (k_heap s) (k_threads s) (k_raw s) (k_events s) (k_out s) (k_regs s) (k_primask
    s) (thread_running_var s) (idle_thread s) (initial_thread s) (idle_ticks s)
    (kernel_ticks s) (thread_ticks s) (next_tid s) (ticks s) (round_robin_mode s)
    (round_robin_ticks s) (thread_exit_on_return s) v (k_alarms s) (k_count s).
Definition set_alarms v : kstate :=
  KState (k_heap s) (k_threads s) (k_raw s) (k_events s) (k_out s) (k_regs s) (k_primask
    s) (thread_running_var s) (idle_thread s) (initial_thread s) (idle_ticks s)
    (kernel_ticks s) (thread_ticks s) (next_tid s) (ticks s) (round_robin_mode s)
    (round_robin_ticks s) (thread_exit_on_return s) (yield_on_return s) v (k_count s).
Definition set_count v : kstate :=
  KState (k_heap s) (k_threads s) (k_raw s) (k_events s) (k_out s) (k_regs s) (k_primask
    s) (thread_running_var s) (idle_thread s) (initial_thread s) (idle_ticks s)
    (kernel_ticks s) (thread_ticks s) (next_tid s) (ticks s) (round_robin_mode s)
    (round_robin_ticks s) (thread_exit_on_return s) (yield_on_return s) (k_alarms s) v.
End Setters.

(** ** What the code uses from outside the repository *)

(** A block for a [struct thread] that does not overlap the live ones, the static
    data or the page of the boot stack. *)
Definition blocks_apart (a b : Z) : Prop :=
  (a + sizeof_thread ≤ b ∨ b + sizeof_thread ≤ a)%Z.
(** The RAM the linker leaves to the heap: [__end__] up to [__StackLimit]. *)
Definition heap_start : Z := 0x20001168.
Definition heap_end : Z := 0x20040000.

Class Platform := {
  (** [calloc (1, sizeof (struct thread))], as a function of the allocator's
      history: NULL, or a block in the heap apart from the live blocks. *)
  calloc : list heap_event → Z;
  calloc_fresh ev :
    calloc ev ≠ NULL →
    (heap_start ≤ calloc ev)%Z ∧ (calloc ev + sizeof_thread ≤ heap_end)%Z ∧
    ∀ b, b ∈ live ev → blocks_apart (calloc ev) b;
  (** hardware/sync.h: [save_and_disable_interrupts] returns the old PRIMASK and
      sets the mask; [restore_interrupts] writes the mask back. *)
  save_and_disable_interrupts : Z → Z * Z;
  restore_interrupts : Z → Z → Z;
  interrupts_enabled : Z → bool;
  save_disables p : interrupts_enabled (save_and_disable_interrupts p).2 = false;
  restore_saved p q : restore_interrupts (save_and_disable_interrupts p).1 q = p;
}.

(** ** Memory accesses of the kernel code *)

Definition on_heap {A} (m : M heap A) : M kstate A :=
  zoom k_heap (λ h s, set_heap s h) m.

Definition load_thread (t : Z) : M kstate thread := λ s,
  match k_threads s !! t with
  | Some th => Ok (th, s)
  | None => Err (Fault t)
  end.

Definition store_thread (t : Z) (th : thread) : M kstate unit := λ s,
  match k_threads s !! t with
  | Some _ => Ok (tt, set_threads s (<[t := th]> (k_threads s)))
  | None => Err (Fault t)
  end.

Definition with_status (th : thread) (v : thread_status) : thread :=
  Thread (tid th) v (name th) (stack th) (priority th) (true_priority th)
    (sleep_time th) (register_save th) (duration_ticks th) (magic th).
Definition with_tid (th : thread) (v : Z) : thread :=
  Thread v (status th) (name th) (stack th) (priority th) (true_priority th)
    (sleep_time th) (register_save th) (duration_ticks th) (magic th).
Definition with_name (th : thread) (v : list ascii) : thread :=
  Thread (tid th) (status th) v (stack th) (priority th) (true_priority th)
    (sleep_time th) (register_save th) (duration_ticks th) (magic th).
Definition with_stack (th : thread) (v : Z) : thread :=
  Thread (tid th) (status th) (name th) v (priority th) (true_priority th)
    (sleep_time th) (register_save th) (duration_ticks th) (magic th).
Definition with_sleep_time (th : thread) (v : Z) : thread :=
  Thread (tid th) (status th) (name th) (stack th) (priority th) (true_priority th)
    v (register_save th) (duration_ticks th) (magic th).
Definition with_register_save (th : thread) (v : registers) : thread :=
  Thread (tid th) (status th) (name th) (stack th) (priority th) (true_priority th)
    (sleep_time th) v (duration_ticks th) (magic th).
Definition with_duration (th : thread) (v : Z) : thread :=
  Thread (tid th) (status th) (name th) (stack th) (priority th) (true_priority th)
    (sleep_time th) (register_save th) v (magic th).
Definition with_magic (th : thread) (v : Z) : thread :=
  Thread (tid th) (status th) (name th) (stack th) (priority th) (true_priority th)
    (sleep_time th) (register_save th) (duration_ticks th) v.

(** [t->field = v]. *)
Definition update_thread (t : Z) (f : thread → thread) : M kstate unit :=
  th ← load_thread t; store_thread t (f th).

(** A word store through a pointer that is not known to point into an object:
    inside a live thread or a static list it would corrupt it. *)
Definition overlaps (a b size : Z) : bool :=
  bool_decide (b ≤ a + 3 ∧ a < b + size)%Z.
Definition store_word (a v : Z) : M kstate unit := λ s,
  if existsb (λ t, overlaps a t sizeof_thread) (elements (dom (k_threads s)))
     || existsb (λ l, overlaps a l 16) static_lists
  then Err (Clobber a)
  else Ok (tt, set_raw s (<[a := v]> (k_raw s))).

Definition emit (o : output) : M kstate unit := modify (λ s, set_out s (o :: k_out s)).
Definition printf (f : string) (l : list parg) : M kstate unit := emit (Printf f l).
Definition stdio_init_all : M kstate unit := emit StdioInitAll.
Definition gpio_init (pin : Z) : M kstate unit := emit (GpioInit pin).
Definition gpio_set_dir (pin : Z) (out : bool) : M kstate unit := emit (GpioSetDir pin out).
Definition gpio_put (pin value : Z) : M kstate unit := emit (GpioPut pin value).
Definition add_repeating_timer_ms (ms : Z) : M kstate unit := emit (AddRepeatingTimerMs ms).

(** The characters of a NUL-terminated buffer. *)
Fixpoint chars_to_nul (b : list ascii) : string :=
  match b with
  | [] => ""
  | c :: b => if Ascii.eqb c Ascii.zero then "" else String c (chars_to_nul b)
  end.

(** [strlcpy (dst, src, size)] for [size] the length of the buffer: at most
    [size - 1] characters and a NUL, the rest of the buffer unchanged. *)
Definition strlcpy (dst : list ascii) (src : string) : list ascii :=
  match length dst with
  | O => dst
  | S n =>
      let c := take n (String.list_ascii_of_string src) in
      c ++ [Ascii.zero] ++ drop (S (length c)) dst
  end.

(** [memset (t, 0, sizeof *t)] on a [struct thread], its cells included. *)
Definition zero_thread : thread :=
  Thread 0 THREAD_RUNNING (replicate 16 Ascii.zero) 0 0 0 0 (Regs 0 0 0 0 0) 0 0.
Definition zero_cells (t : Z) (h : heap) : heap :=
  foldr (λ a h, <[a := Elem NULL NULL]> h) h (cells_of t).
Definition memset_thread (t : Z) : M kstate unit :=
  store_thread t zero_thread;;
  modify (λ s, set_heap s (zero_cells t (k_heap s))).

(** The fresh block of [calloc]: the zeroed object and its cells. *)
Definition new_thread `{Platform} : M kstate Z :=
  s ← get;
  let a := calloc (k_events s) in
  if bool_decide (a = NULL) then mret NULL
  else
    modify (λ s, set_events s (EvAlloc a :: k_events s));;
    modify (λ s, set_threads s (<[a := zero_thread]> (k_threads s)));;
    modify (λ s, set_heap s (zero_cells a (k_heap s)));;
    mret a.

(** [free (t)]: the object and its cells are gone. *)
Definition free_thread (t : Z) : M kstate unit :=
  load_thread t;;
  modify (λ s, set_events s (EvFree t :: k_events s));;
  modify (λ s, set_threads s (delete t (k_threads s)));;
  modify (λ s, set_heap s (foldr (λ a h, delete a h) (k_heap s) (cells_of t))).
