(* ===== verification/Thread.v ===== *)
(** * threads/thread.c, lib/switch.c and misc/timer.c: the thread system

    One definition per function, in the order they call each other.  A "context
    switch" of this kernel only changes [thread_running_var] and a few registers
    ([switch_threads_c] does not load the stack pointer or the program counter),
    so [schedule] returns to its caller and the whole kernel is a sequential
    state transformer, interleaved with the timer interrupt. *)

From S2P Require Import Prelude CList Machine.

Definition thread_c : string := "threads/thread.c".

(** ** misc/timer.c *)

Definition timer_ticks : M kstate Z := s ← get; mret (ticks s).

Definition timer_elapsed (then' : Z) : M kstate Z :=
  t ← timer_ticks;
  int_op (t - then').

Definition timer_print_stats : M kstate unit :=
  t ← timer_ticks;
  printf "Timer: %PRId64 ticks\n" [PInt t].

Definition intr_yield_on_return : M kstate unit :=
  modify (λ s, set_yield_on_return s true).

(** ** Validation and the running thread *)

Definition is_thread (t : Z) : M kstate bool :=
  if bool_decide (t = NULL) then mret false
  else th ← load_thread t; mret (bool_decide (magic th = THREAD_MAGIC)).

Definition running_thread : M kstate Z := s ← get; mret (thread_running_var s).

Definition thread_current : M kstate Z :=
  t ← running_thread;
  b ← is_thread t;
  ASSERT thread_c 617 b;;
  th ← load_thread t;
  ASSERT thread_c 618 (bool_decide (status th = THREAD_RUNNING));;
  mret t.

Definition set_thread_running (t : Z) : M kstate unit :=
  update_thread t (λ th, with_status th THREAD_RUNNING);;
  modify (λ s, set_thread_running_var s t).

Definition allocate_tid : M kstate Z :=
  s ← get;
  n ← int_op (next_tid s + 1);
  modify (λ s, set_next_tid s n);;
  mret (next_tid s).

(** [pg_round_down]: clear the page offset bits of a 32-bit address. *)
Definition pg_round_down (va : Z) : Z := Z.land va (uint32 (Z.lnot PGMASK)).

Definition running_thread_init : M kstate Z :=
  s ← get;
  mret (pg_round_down (sp (k_regs s))).

(** ** lib/switch.c *)

Definition switch_threads_c (cur next : Z) : M kstate Z :=
  s ← get;
  update_thread cur (λ th, with_register_save th (k_regs s));;
  nx ← load_thread next;
  let r := register_save nx in
  modify (λ s, set_regs s (Regs (r3 r) (r5 r) (r6 r) (r7 r) (sp (k_regs s))));;
  set_thread_running next;;
  mret cur.

(** ** Scheduling *)

Definition next_thread_to_run : M kstate Z :=
  b ← on_heap (list_empty ready_list);
  if (b : bool) then s ← get; mret (idle_thread s)
  else e ← on_heap (list_pop_front ready_list); mret (list_entry_elem e).

Definition thread_schedule_tail (prev : Z) : M kstate unit :=
  cur ← running_thread;
  update_thread cur (λ th, with_status th THREAD_RUNNING);;
  modify (λ s, set_thread_ticks s 0);;
  if bool_decide (prev = NULL) then mret tt
  else
    th ← load_thread prev;
    s ← get;
    if bool_decide (status th = THREAD_DYING) && negb (bool_decide (prev = initial_thread s))
    then
      ASSERT thread_c 494 (negb (bool_decide (prev = cur)));;
      free_thread prev
    else mret tt.

Definition schedule : M kstate unit :=
  cur ← running_thread;
  next ← next_thread_to_run;
  th ← load_thread cur;
  ASSERT thread_c 380 (negb (bool_decide (status th = THREAD_RUNNING)));;
  b ← is_thread next;
  ASSERT thread_c 381 b;;
  prev ← (if bool_decide (cur = next) then mret NULL else switch_threads_c cur next);
  thread_schedule_tail prev.

Section Threads.
Context `{Platform}.

(** hardware/sync.h, on the interrupt mask of the state. *)
Definition irq_save : M kstate Z :=
  s ← get;
  let '(old, new) := save_and_disable_interrupts (k_primask s) in
  modify (λ s, set_primask s new);;
  mret old.

Definition irq_restore (old : Z) : M kstate unit :=
  modify (λ s, set_primask s (restore_interrupts old (k_primask s))).

Definition thread_unblock (t : Z) : M kstate unit :=
  b ← is_thread t;
  ASSERT thread_c 313 b;;
  th ← load_thread t;
  ASSERT thread_c 316 (bool_decide (status th = THREAD_BLOCKED));;
  on_heap (list_push_back ready_list (elem_ptr t));;
  update_thread t (λ th, with_status th THREAD_READY).

Definition thread_block : M kstate unit :=
  old_level ← irq_save;
  cur ← thread_current;
  update_thread cur (λ th, with_status th THREAD_BLOCKED);;
  schedule;;
  irq_restore old_level.

Definition thread_yield : M kstate unit :=
  cur ← thread_current;
  old_level ← irq_save;
  b ← on_heap (list_empty ready_list);
  (if (b : bool) then mret tt
   else
     s ← get;
     (if bool_decide (cur = idle_thread s) || bool_decide (cur = initial_thread s)
      then mret tt
      else
        c ← thread_current;
        th ← load_thread c;
        printf "--YIELD! thread_ticks: %d ; duration left %d\n\n"
          [PInt (thread_ticks s); PInt (duration_ticks th)];;
        on_heap (list_push_back ready_list (elem_ptr cur)));;
     update_thread cur (λ th, with_status th THREAD_READY);;
     schedule);;
  irq_restore old_level.

(** [thread_exit] of an ordinary thread, up to the call of [schedule]. *)
Definition thread_exit_begin : M kstate unit :=
  c ← thread_current;
  on_heap (list_remove (allelem_ptr c));;
  c ← thread_current;
  th ← load_thread c;
  printf "\n===EXIT thread %s\n\n" [PStr (chars_to_nul (name th))];;
  c ← thread_current;
  update_thread c (λ th, with_status th THREAD_DYING).

Definition thread_exit : M kstate unit :=
  c ← thread_current;
  s ← get;
  (* the second test is evaluated only when the first holds *)
  if bool_decide (c = initial_thread s) then thread_yield
  else
    c ← thread_current;
    if bool_decide (c = idle_thread s) then thread_yield
    else thread_exit_begin;; schedule.

Definition thread_tick : M kstate unit :=
  t ← thread_current;
  s ← get;
  (if bool_decide (t = idle_thread s)
   then n ← llong_op (idle_ticks s + 1); modify (λ s, set_idle_ticks s n)
   else n ← llong_op (kernel_ticks s + 1); modify (λ s, set_kernel_ticks s n));;
  modify (λ s, set_thread_ticks s (uint32 (thread_ticks s + 1)));;
  th ← load_thread t;
  d ← int_op (duration_ticks th - 1);
  update_thread t (λ th, with_duration th d).

Definition block_if_idle_thread : M kstate unit :=
  c ← thread_current;
  s ← get;
  if bool_decide (c = idle_thread s) then thread_block else mret tt.

Definition is_ready_list_empty : M kstate bool := on_heap (list_empty ready_list).

(** ** Sleeping *)

(** [insertar_en_lista_espera], up to the call of [thread_block]. *)
Definition insertar_begin (n : Z) : M kstate unit :=
  thread_actual ← thread_current;
  now ← timer_ticks;
  wake ← int_op (now + n);
  update_thread thread_actual (λ th, with_sleep_time th (uint64 wake));;
  on_heap (list_push_back lista_espera (elem_ptr thread_actual)).

Definition insertar_en_lista_espera (n : Z) : M kstate unit :=
  insertar_begin n;;
  thread_block.

Definition thread_sleep (n : Z) : M kstate unit :=
  start ← timer_ticks;
  if bool_decide (0 < n)%Z then
    c ← thread_current;
    th ← load_thread c;
    printf "SLEEP thread %s - %d ticks.\n" [PStr (chars_to_nul (name th)); PInt n];;
    insertar_en_lista_espera n
  else printf "Sleep negativo! No se va a dormir.\n" [].

(** misc/timer.c *)
Definition timer_sleep (n : Z) : M kstate unit :=
  start ← timer_ticks;
  if bool_decide (0 < n)%Z then insertar_en_lista_espera n else mret tt.

Fixpoint remover_loop (fuel : nat) (n iter : Z) : M kstate unit :=
  match fuel with
  | O => fail Diverge
  | S fuel =>
      e ← on_heap (list_end lista_espera);
      if bool_decide (iter = e) then mret tt
      else
        let t := list_entry_elem iter in
        th ← load_thread t;
        (* [ticks >= sleep_time] compares as uint64_t *)
        if bool_decide (sleep_time th ≤ uint64 n)%Z then
          printf "--Wake Up! Thread %s\n" [PStr (chars_to_nul (name th))];;
          iter ← on_heap (list_remove iter);
          thread_unblock t;;
          remover_loop fuel n iter
        else
          iter ← on_heap (list_next iter);
          remover_loop fuel n iter
  end.

Definition remover_thread_durmiente (n : Z) : M kstate unit :=
  iter ← on_heap (list_begin lista_espera);
  s ← get;
  remover_loop (S (size (k_heap s))) n iter.

(** ** Creation *)

Definition init_thread (t : Z) (nm : cstring) : M kstate unit :=
  ASSERT thread_c 220 (negb (bool_decide (t = NULL)));;
  ASSERT thread_c 221 (negb (bool_decide (c_addr nm = NULL)));;
  memset_thread t;;
  update_thread t (λ th, with_status th THREAD_BLOCKED);;
  update_thread t (λ th, with_name th (strlcpy (name th) (c_chars nm)));;
  update_thread t (λ th, with_stack th (uint32 (t + PGSIZE)));;
  update_thread t (λ th, with_magic th THREAD_MAGIC);;
  update_thread t (λ th, with_duration th 9999999);;
  on_heap (list_push_back all_list (allelem_ptr t)).

(** [struct kernel_thread_frame]: three words. *)
Definition sizeof_kernel_thread_frame : Z := 12.

Definition alloc_frame (t size : Z) : M kstate Z :=
  b ← is_thread t;
  ASSERT thread_c 179 b;;
  ASSERT thread_c 180 (bool_decide (size `mod` 4 = 0)%Z);;
  update_thread t (λ th, with_stack th (uint32 (stack th - size)));;
  th ← load_thread t;
  mret (stack th).

(** The double quote, for the formats that hold one. *)
Definition dquote : string := String (Ascii.ascii_of_nat 34) EmptyString.

Definition thread_create (nm : cstring) (function aux duration : Z) : M kstate Z :=
  t ← new_thread;
  if bool_decide (t = NULL) then mret TID_ERROR
  else
    init_thread t nm;;
    tid ← allocate_tid;
    update_thread t (λ th, with_tid th tid);;
    update_thread t (λ th, with_duration th duration);;
    printf ("Se creó el thread \" ++ dquote ++ "%s\" ++ dquote ++ " con duración %d\n")
      [PStr (c_chars nm); PInt duration];;
    kf ← alloc_frame t sizeof_kernel_thread_frame;
    store_word kf NULL;;
    store_word (kf + 4) function;;
    store_word (kf + 8) aux;;
    thread_unblock t;;
    (if bool_decide (c_addr nm = c_addr idle_literal) && bool_decide (tid = 2)%Z
     then modify (λ s, set_idle_thread s t) else mret tt);;
    block_if_idle_thread;;
    mret tid.

(** ** Start-up *)

Definition status_code (st : thread_status) : Z :=
  match st with
  | THREAD_RUNNING => 0 | THREAD_READY => 1 | THREAD_BLOCKED => 2 | THREAD_DYING => 3
  end.

Definition thread_init : M kstate unit :=
  on_heap (list_init ready_list);;
  on_heap (list_init all_list);;
  on_heap (list_init lista_espera);;
  t ← running_thread_init;
  modify (λ s, set_initial_thread s t);;
  init_thread t main_literal;;
  update_thread t (λ th, with_status th THREAD_RUNNING);;
  tid ← allocate_tid;
  update_thread t (λ th, with_tid th tid);;
  modify (λ s, set_thread_running_var s t);;
  th ← load_thread t;
  printf "Se termino de configurar el thread inicial. info: name %s , status %d, tid %d\n"
    [PStr (chars_to_nul (name th)); PInt (status_code (status th)); PInt (Machine.tid th)].

(** The address of the function [idle]. *)
Definition idle_function : Z := 0x10000b55.

Definition thread_start : M kstate unit :=
  thread_create idle_literal idle_function NULL 999;;
  mret tt.

(** The body of the idle thread, for [n] rounds of its endless loop. *)
Fixpoint idle_loop (n : nat) : M kstate unit :=
  match n with
  | O => mret tt
  | S n => thread_block;; idle_loop n
  end.

Definition idle (n : nat) : M kstate unit :=
  printf "Ejecutando función IDLE!\n" [];;
  c ← thread_current;
  modify (λ s, set_idle_thread s c);;
  idle_loop n.

(** [function] is [None] for a NULL function pointer. *)
Definition kernel_thread (function : option (Z → M kstate unit)) (aux : Z) : M kstate unit :=
  match function with
  | None => ASSERT thread_c 151 false
  | Some f => ASSERT thread_c 151 true;; f aux
  end.

(** ** Printing *)

Fixpoint print_loop (entry : Z → Z) (fuel : nat) (list e : Z) : M kstate unit :=
  match fuel with
  | O => fail Diverge
  | S fuel =>
      t ← on_heap (list_end list);
      if bool_decide (e = t) then mret tt
      else
        th ← load_thread (entry e);
        printf "[%s] -> " [PStr (chars_to_nul (name th))];;
        e ← on_heap (list_next e);
        print_loop entry fuel list e
  end.

Definition print_thread_list (list : Z) : M kstate unit :=
  ASSERT thread_c 646 (negb (bool_decide (list = NULL)));;
  printf "LISTA: " [];;
  e ← on_heap (list_begin list);
  s ← get;
  print_loop list_entry_elem (S (size (k_heap s))) list e;;
  printf "\n" [].

Definition print_all_list : M kstate unit :=
  ASSERT thread_c 659 (negb (bool_decide (all_list = NULL)));;
  e ← on_heap (list_begin all_list);
  s ← get;
  print_loop list_entry_allelem (S (size (k_heap s))) all_list e;;
  printf "\n" [].

Definition print_ready_list : M kstate unit := print_thread_list ready_list.
Definition print_blocked_list : M kstate unit := print_thread_list lista_espera.

Definition print_lists : M kstate unit :=
  printf "\n" [];;
  printf "READY: " [];;
  print_ready_list;;
  printf "BLOCKED: " [];;
  print_blocked_list;;
  printf "\n" [].
End Threads.
