(* ===== verification/Main.v ===== *)
(** * main.c: the timer interrupt, the scheduling loop and start-up *)

From S2P Require Import Prelude CList Machine Thread.

Definition main_c : string := "main.c".

(** ** The scheduling mode *)

Definition schedule_set_quantum (mode rrticks : Z) : M kstate unit :=
  if bool_decide (mode = 0)%Z then modify (λ s, set_round_robin_mode s 0)
  else if bool_decide (mode = 1)%Z && bool_decide (0 < rrticks)%Z then
    modify (λ s, set_round_robin_mode s 1);;
    modify (λ s, set_round_robin_ticks s (uint32 rrticks))
  else mret tt.

Section Main.
Context `{Platform}.

(** ** The body of the endless loop *)

Definition after_interrupt : M kstate unit :=
  block_if_idle_thread;;
  c ← thread_current;
  th ← load_thread c;
  (if bool_decide (duration_ticks th ≤ 0)%Z then
     s ← get;
     c ← thread_current;
     th ← load_thread c;
     printf "thread_ticks: %d ; duration left %d\n"
       [PInt (thread_ticks s); PInt (duration_ticks th)];;
     thread_exit
   else
     s ← get;
     if bool_decide (round_robin_mode s = 0)%Z then mret tt
     else
       b ← is_ready_list_empty;
       if (b : bool) then mret tt
       else if bool_decide (round_robin_ticks s ≤ thread_ticks s)%Z then thread_yield
       else mret tt);;
  s ← get;
  if bool_decide (thread_exit_on_return s = 0)%Z then mret tt
  else
    c ← thread_current;
    th ← load_thread c;
    if bool_decide (duration_ticks th = 0)%Z then mret tt
    else
      c ← thread_current;
      th ← load_thread c;
      printf "FORCED EXIT thread %s, duration left: %d"
        [PStr (chars_to_nul (name th)); PInt (duration_ticks th)];;
      thread_exit;;
      modify (λ s, set_thread_exit_on_return s 0).

(** ** The timer interrupt handler *)

Definition timer_interrupt : M kstate bool :=
  s ← get;
  n ← int_op (ticks s + 1);
  modify (λ s, set_ticks s n);;
  thread_tick;;
  c ← thread_current;
  th ← load_thread c;
  s ← get;
  printf "Se está ejecutando thread %s, ticks %d\n"
    [PStr (chars_to_nul (name th)); PInt (ticks s)];;
  remover_thread_durmiente (ticks s);;
  mret true.

(** ** Start-up *)

(** From [thread_init] to the first [thread_yield], which leaves the idle thread
    running (main.c:133-151).  The timer is armed here; its interrupts, 500 ms apart,
    are the [timer_interrupt]s of the sequences that follow. *)
Definition boot : M kstate unit :=
  thread_init;;
  thread_start;;
  add_repeating_timer_ms 500;;
  current ← thread_current;
  th ← load_thread current;
  printf "current thread: %s\n" [PStr (chars_to_nul (name th))];;
  print_all_list;;
  thread_yield;;
  ASSERT main_c 151 (bool_decide (1 < 2)%Z).
End Main.

(** The memory before [main] runs: zeroed static lists, the page of the boot
    stack (whatever it holds, [stack_page]), globals at their initializers. *)
Definition boot_state (stack_pointer primask : Z) (stack_page : thread) : kstate :=
  KState
    (list_to_map ((λ a, (a, Elem NULL NULL)) <$>
       [head_of all_list; tail_of all_list; head_of lista_espera; tail_of lista_espera;
        head_of ready_list; tail_of ready_list] ++ cells_of (pg_round_down stack_pointer)))
    {[ pg_round_down stack_pointer := stack_page ]}
    ∅ [] [] (Regs 0 0 0 0 stack_pointer) primask
    NULL NULL NULL 0 0 0 1 0 0 5 0 false [] 0.
