(* ===== verification/Tests.v ===== *)
(** * tests/: the test programs the kernel runs

    The table of tests.c, its functions, the fifteen test programs and their alarm
    callbacks.  A test creates threads and may ask for an alarm; it runs on the boot
    stack, before the endless loop of [main].  [Board] stands for the C library, the
    SDK and the compiler: [rand], the timer interrupts that fire during [sleep_ms], the
    address of the name buffer and the number of bytes up to the next object. *)

From stdpp Require Import pretty.
From S2P Require Import Prelude CList Machine Thread Main.

Definition tests_c : string := "tests/tests.c".

(** [char nombre[] = "thread"]. *)
Definition sizeof_nombre : Z := 7.

Class Board := {
  (** The value of the [k]-th call of [rand]: between 0 and RAND_MAX. *)
  rand : nat → Z;
  rand_nonneg k : (0 ≤ rand k ≤ INT_MAX)%Z;
  (** Timer interrupts during [sleep_ms (ms)]. *)
  ticks_in : Z → nat;
  (** [nombre], the buffer for thread names. *)
  nombre : Z;
  nombre_nonnull : nombre ≠ NULL;
  nombre_not_idle : nombre ≠ c_addr idle_literal;
  (** The bytes from [nombre] to the next object: the array, and the padding that the
      compiler leaves behind it. *)
  nombre_room : Z;
  nombre_room_array : (sizeof_nombre ≤ nombre_room)%Z;
}.

Definition thread_name (i : Z) : string := "thread" +:+ pretty i.

Section Tests.
Context `{Platform, Board}.

Fixpoint timer_interrupts (n : nat) : M kstate unit :=
  match n with
  | O => mret tt
  | S n => timer_interrupt;; timer_interrupts n
  end.

Definition sleep_ms (ms : Z) : M kstate unit := timer_interrupts (ticks_in ms).

(** [sprintf (nombre, "thread%d", i)], which stores the text and its NUL.  They are longer
    than the array (see [name_overruns]): they fit only into the padding. *)
Definition sprintf_nombre (i : Z) : M kstate string :=
  let nm := thread_name i in
  if bool_decide (Z.of_nat (String.length nm) + 1 ≤ nombre_room)%Z then mret nm
  else fail Overrun.

(** [count++]. *)
Definition count_up : M kstate unit :=
  s ← get;
  n ← int_op (k_count s + 1);
  modify (λ s, set_count s n).

Definition create_named (nm : string) (duration : Z) : M kstate unit :=
  thread_create (CStr nombre nm) NULL NULL duration;; mret tt.

(** [for (int i = 0; i < n; i++) { sprintf; count++; thread_create; body }] from [i]. *)
Fixpoint create_loop (n : nat) (i : Z) (duration : Z → Z) (body : Z → M kstate unit)
    : M kstate unit :=
  match n with
  | O => mret tt
  | S n =>
      nm ← sprintf_nombre i;
      count_up;;
      create_named nm (duration i);;
      body i;;
      create_loop n (i + 1) duration body
  end.

Definition nothing (i : Z) : M kstate unit := mret tt.

(** [count] starts at zero in every test. *)
Definition reset_count : M kstate unit := modify (λ s, set_count s 0).

(** ** tests.c *)

Definition set_thread_exit_on_return : M kstate unit :=
  modify (λ s, Machine.set_thread_exit_on_return s 1).

Definition add_alarm_in_ms (ms : Z) (a : alarm) : M kstate unit :=
  modify (λ s, set_alarms s ((ms, a) :: k_alarms s)).

(** [test_name], which [run_test] sets before it calls the test, is an argument here. *)
Definition msg (test_name f : string) (l : list parg) : M kstate unit :=
  printf "(%s) " [PStr test_name];;
  printf f l;;
  printf "\n" [].

Definition fail_test (test_name f : string) (l : list parg) : M kstate unit :=
  printf "(%s) FAIL: " [PStr test_name];;
  printf f l;;
  printf "\n" [];;
  PANIC tests_c 97.

Definition pass (test_name : string) : M kstate unit :=
  printf "(%s) PASS\n" [PStr test_name].

(** ** The test programs *)

Definition test_hello_world (test_name : string) : M kstate unit :=
  msg test_name "Hello world from test!!\n" [].

Definition test_fifo_simple : M kstate unit :=
  gpio_put 25 1;;
  sleep_ms 1000;;
  schedule_set_quantum 0 NULL;;
  reset_count;;
  create_loop 5 0 (λ _, 10%Z) nothing;;
  print_lists.

Definition test_round_robin_simple : M kstate unit :=
  gpio_put 25 1;;
  sleep_ms 1000;;
  schedule_set_quantum 1 5;;
  reset_count;;
  create_loop 5 0 (λ _, 10%Z) nothing;;
  print_lists.

Definition test_round_robin_1tick : M kstate unit :=
  gpio_put 25 1;;
  sleep_ms 1000;;
  schedule_set_quantum 1 1;;
  reset_count;;
  create_loop 5 0 (λ _, 10%Z) nothing;;
  print_lists.

(** [rand () % 25 + 5], the [i]-th call. *)
Definition random_duration (i : Z) : Z := (Z.rem (rand (Z.to_nat i)) 25 + 5)%Z.

Definition test_fifo_random_duration : M kstate unit :=
  gpio_put 25 1;;
  sleep_ms 1000;;
  schedule_set_quantum 0 NULL;;
  reset_count;;
  create_loop 5 0 random_duration nothing;;
  print_lists.

Definition test_round_robin_random_duration : M kstate unit :=
  gpio_put 25 1;;
  sleep_ms 1000;;
  schedule_set_quantum 1 5;;
  reset_count;;
  create_loop 5 0 random_duration nothing;;
  print_lists.

Definition test_fifo_delayed_create : M kstate unit :=
  gpio_put 25 1;;
  sleep_ms 1000;;
  schedule_set_quantum 0 4;;
  reset_count;;
  create_loop 3 0 (λ _, 10%Z) nothing;;
  add_alarm_in_ms 9876 AlarmCreate;;
  print_lists.

Definition test_round_robin_delayed_create : M kstate unit :=
  gpio_put 25 1;;
  sleep_ms 1000;;
  schedule_set_quantum 1 4;;
  reset_count;;
  create_loop 3 0 (λ _, 10%Z) nothing;;
  add_alarm_in_ms 9876 AlarmCreate;;
  print_lists.

Definition test_sleep_single : M kstate unit :=
  gpio_put 25 1;;
  sleep_ms 1000;;
  schedule_set_quantum 0 5;;
  reset_count;;
  create_named "thread1" 15;;
  print_lists;;
  thread_sleep 25;;
  print_lists.

Definition test_sleep_multiple_fifo : M kstate unit :=
  gpio_put 25 1;;
  sleep_ms 1000;;
  schedule_set_quantum 0 5;;
  reset_count;;
  create_loop 5 0 (λ i, 3 * (i + 1))%Z (λ i, thread_sleep (5 * (i + 1)));;
  print_lists.

Definition test_sleep_multiple_rr : M kstate unit :=
  gpio_put 25 1;;
  sleep_ms 1000;;
  schedule_set_quantum 1 4;;
  reset_count;;
  create_loop 5 0 (λ i, 3 * (i + 1))%Z (λ i, thread_sleep (5 * (i + 1)));;
  print_lists.

Definition test_sleep_negative : M kstate unit :=
  gpio_put 25 1;;
  sleep_ms 1000;;
  schedule_set_quantum 0 5;;
  reset_count;;
  create_named "thread1" 15;;
  print_lists;;
  thread_sleep (-10);;
  print_lists.

Definition test_fifo_force_exit : M kstate unit :=
  gpio_put 25 1;;
  sleep_ms 1000;;
  schedule_set_quantum 0 4;;
  reset_count;;
  create_loop 5 0 (λ _, 5%Z) nothing;;
  add_alarm_in_ms 8000 AlarmForceExit;;
  print_lists.

Definition test_round_robin_force_exit : M kstate unit :=
  gpio_put 25 1;;
  sleep_ms 1000;;
  schedule_set_quantum 1 6;;
  reset_count;;
  create_loop 5 0 (λ _, 15%Z) nothing;;
  add_alarm_in_ms 8000 AlarmForceExit;;
  print_lists.

Definition test_manual_set_round_robin : M kstate unit :=
  gpio_put 25 1;;
  sleep_ms 1000;;
  reset_count;;
  create_loop 5 0 (λ _, 15%Z) nothing;;
  print_lists.

(** ** Alarm callbacks; the result is the delay to the next call, in microseconds *)

Definition thread_create_alarm_callback : M kstate Z :=
  s ← get;
  printf "\n====================================\n\nINTERRUPT! Create thread %d\n"
    [PInt (k_count s)];;
  nm ← sprintf_nombre (k_count s);
  create_named nm 10;;
  print_lists;;
  count_up;;
  printf "\n====================================\n" [];;
  mret (98765 * 100)%Z.

Definition force_thread_exit_callback : M kstate Z :=
  s ← get;
  printf "\n====================================\n\nInterrupt! thread exit \n" [PInt (k_count s)];;
  set_thread_exit_on_return;;
  printf "\n====================================\n" [];;
  mret 0%Z.

Definition fire (a : alarm) : M kstate Z :=
  match a with
  | AlarmCreate => thread_create_alarm_callback
  | AlarmForceExit => force_thread_exit_callback
  end.

(** ** The table *)

Definition tests : list (string * (string → M kstate unit)) :=
  [("hello-world", test_hello_world);
   ("fifo-simple", λ _, test_fifo_simple);
   ("round-robin-simple", λ _, test_round_robin_simple);
   ("round-robin-1tick", λ _, test_round_robin_1tick);
   ("fifo-random-duration", λ _, test_fifo_random_duration);
   ("round-robin-random-duration", λ _, test_round_robin_random_duration);
   ("fifo-delayed-create", λ _, test_fifo_delayed_create);
   ("round-robin-delayed-create", λ _, test_round_robin_delayed_create);
   ("sleep-single", λ _, test_sleep_single);
   ("sleep-multiple-fifo", λ _, test_sleep_multiple_fifo);
   ("sleep-multiple-rr", λ _, test_sleep_multiple_rr);
   ("sleep-negative", λ _, test_sleep_negative);
   ("fifo-force-exit", λ _, test_fifo_force_exit);
   ("round-robin-force-exit", λ _, test_round_robin_force_exit);
   ("manual-set-round-robin", λ _, test_manual_set_round_robin)].

Definition getNumberOfTests : Z := Z.of_nat (length tests).

(** [tests[testN].name]; outside the table the address is not that of a name. *)
Definition getTestName (testN : Z) : M kstate string :=
  if bool_decide (0 ≤ testN)%Z then
    match tests !! Z.to_nat testN with
    | Some (nm, _) => mret nm
    | None => fail (Fault testN)
    end
  else fail (Fault testN).

Fixpoint run_test_loop (table : list (string * (string → M kstate unit))) (nm : string)
    : M kstate unit :=
  match table with
  | [] => PANIC tests_c 64
  | (name, function) :: table =>
      if bool_decide (nm = name) then
        msg nm "INICIANDO TEST %s" [PStr nm];;
        function nm
      else run_test_loop table nm
  end.

Definition run_test (nm : string) : M kstate unit := run_test_loop tests nm.

Fixpoint print_test_names_loop (table : list (string * (string → M kstate unit))) (i : Z)
    : M kstate unit :=
  match table with
  | [] => mret tt
  | (name, _) :: table =>
      printf "Test %d: %s\n" [PInt (i + 1); PStr name];;
      print_test_names_loop table (i + 1)
  end.

Definition print_test_names : M kstate unit := print_test_names_loop tests 0.
End Tests.
