(* ===== verification/App.v ===== *)
(** * main.c: the function [main]

    The choice of the test by the user, start-up, the test, and the endless loop.  What
    the user types is a list of words, one for each [scanf]; [main] waits for ever when
    it runs out ([None]). *)

From Stdlib Require Import Ascii.
From S2P Require Import Prelude CList Machine Thread Main Tests.

(** ** Reading numbers *)

(** [atoi]: an optional sign and the digits that follow. *)
Fixpoint digits (s : string) (acc : Z) : Z :=
  match s with
  | EmptyString => acc
  | String c s =>
      let d := (Z.of_nat (nat_of_ascii c) - 48)%Z in
      if bool_decide (0 ≤ d ≤ 9)%Z then digits s (10 * acc + d) else acc
  end.

Definition atoi (s : string) : Z :=
  match s with
  | String c s' =>
      if Ascii.eqb c (ascii_of_nat 45) then (- digits s' 0)%Z
      else if Ascii.eqb c (ascii_of_nat 43) then digits s' 0
      else digits s 0
  | EmptyString => 0%Z
  end.

(** [char userInput[5]] and [scanf ("%s", &userInput)]: a longer word overruns it. *)
Definition sizeof_userInput : nat := 5.

Definition scanf_number (input : list string) : M kstate (option (Z * list string)) :=
  match input with
  | [] => mret None
  | w :: input =>
      if bool_decide (String.length w < sizeof_userInput) then mret (Some (atoi w, input))
      else fail Overrun
  end.

Inductive event := Round | TimerFires | AlarmFires (a : alarm).

Section App.
Context `{Platform, Board}.

(** [while ((testSelected > numberOfTests) || testSelected <= 0)]. *)
Fixpoint choose_loop (testSelected : Z) (input : list string)
    : M kstate (option (Z * list string)) :=
  if bool_decide (getNumberOfTests < testSelected)%Z || bool_decide (testSelected ≤ 0)%Z then
    printf "VALOR INCORRECTO. Seleccione test: " [];;
    match input with
    | [] => mret None
    | w :: input' =>
        if bool_decide (String.length w < sizeof_userInput)
        then choose_loop (atoi w) input'
        else fail Overrun
    end
  else mret (Some (testSelected, input)).

(** The round-robin prompt.  The loop that should ask again tests [testSelected], which
    is 14 here, so it never runs. *)
Fixpoint quantum_loop (testSelected rrCountSelected : Z) (input : list string)
    : M kstate (option (Z * list string)) :=
  if bool_decide (testSelected ≤ 0)%Z then
    printf "Debe ser mayor a 0. Ingrese ciclos para round robin: " [];;
    match input with
    | [] => mret None
    | w :: input' =>
        if bool_decide (String.length w < sizeof_userInput)
        then quantum_loop testSelected (atoi w) input'
        else fail Overrun
    end
  else mret (Some (rrCountSelected, input)).

Definition ask_quantum (testSelected : Z) (input : list string) : M kstate (option (list string)) :=
  printf "Ingrese ciclos para round robin (>0): " [];;
  r ← scanf_number input;
  match r with
  | None => mret None
  | Some (rr, input) =>
      r ← quantum_loop testSelected rr input;
      match r with
      | None => mret None
      | Some (rr, input) =>
          printf "--------------------Configurando round robin para %d ciclos.\n--------------------\n"
            [PInt rr];;
          schedule_set_quantum 1 rr;;
          mret (Some input)
      end
  end.

(** [while (1) { after_interrupt (); }], interrupted by the timer and by alarms: what
    happens, in order.  The list is as long as one cares to look. *)
Fixpoint main_loop (evs : list event) : M kstate unit :=
  match evs with
  | [] => mret tt
  | Round :: evs => after_interrupt;; main_loop evs
  | TimerFires :: evs => timer_interrupt;; main_loop evs
  | AlarmFires a :: evs => fire a;; main_loop evs
  end.

Definition main (input : list string) (evs : list event) : M kstate (option unit) :=
  stdio_init_all;;
  gpio_init 25;;
  gpio_set_dir 25 true;;
  printf "=================INICIANDO=================\n" [];;
  printf "Elija un test a ejecutar:\n" [];;
  print_test_names;;
  printf "test: " [];;
  r ← scanf_number input;
  match r with
  | None => mret None
  | Some (testSelected, input) =>
      r ← choose_loop testSelected input;
      match r with
      | None => mret None
      | Some (testSelected, input) =>
          printf "Se seleccionó el test %d\n\n" [PInt testSelected];;
          if bool_decide (testSelected ≤ getNumberOfTests)%Z && bool_decide (0 < testSelected)%Z
          then
            testSelected ← int_op (testSelected - 1);
            r ← (if bool_decide (testSelected = 14)%Z then ask_quantum testSelected input
                 else mret (Some input));
            match r with
            | None => mret None
            | Some _ =>
                boot;;
                test_name ← getTestName testSelected;
                run_test test_name;;
                main_loop evs;;
                mret (Some tt)
            end
          else
            printf "Test no válido. Saliendo..." [];;
            mret (Some tt)
      end
  end.
End App.
