(* ===== verification/Sim.v ===== *)
(** * A concrete platform

    A bump allocator over the heap the linker leaves, and the single-bit PRIMASK
    of the Cortex-M0+.  It shows that the laws of [Platform] can hold, and makes
    every kernel definition executable for the examples and witnesses. *)

From S2P Require Import Prelude CList Machine Thread Main Tests.

Definition event_addr (e : heap_event) : Z :=
  match e with EvAlloc a => a | EvFree a => a end.

(** The next block: 160 bytes above every block handed out so far. *)
Definition bump_calloc (ev : list heap_event) : Z :=
  let a := (foldr (λ e m, Z.max (event_addr e) m) (heap_start - 160) ev + 160)%Z in
  if bool_decide (a + sizeof_thread ≤ heap_end)%Z then a else NULL.

Lemma live_events b ev : b ∈ live ev → ∃ e, e ∈ ev ∧ event_addr e = b.
Proof.
  induction ev as [|[a|a] ev IH]; simpl; [set_solver| |].
  - intros [->|Hb]%elem_of_cons; [exists (EvAlloc a); set_solver|].
    destruct (IH Hb) as (e & He & <-). exists e. set_solver.
  - intros [_ Hb]%list_elem_of_filter.
    destruct (IH Hb) as (e & He & <-). exists e. set_solver.
Qed.

Lemma bump_bound ev :
  (heap_start - 160 ≤ foldr (λ e m, Z.max (event_addr e) m) (heap_start - 160) ev)%Z ∧
  ∀ e, e ∈ ev → (event_addr e ≤ foldr (λ e m, Z.max (event_addr e) m) (heap_start - 160) ev)%Z.
Proof.
  induction ev as [|e ev [IH1 IH2]]; simpl; [split; [lia|set_solver]|]. split; [lia|].
  intros e' [->|He]%elem_of_cons; [lia|]. specialize (IH2 e' He). lia.
Qed.

Lemma bump_calloc_fresh ev :
  bump_calloc ev ≠ NULL →
  (heap_start ≤ bump_calloc ev)%Z ∧ (bump_calloc ev + sizeof_thread ≤ heap_end)%Z ∧
  ∀ b, b ∈ live ev → blocks_apart (bump_calloc ev) b.
Proof.
  destruct (bump_bound ev) as [H1 H2]. rw /bump_calloc. case_bool_decide as Hf; [|done].
  intros _. split_and!; [lia|done|]. intros b (e & He & <-)%live_events.
  specialize (H2 e He). rw /blocks_apart /sizeof_thread. lia.
Qed.

#[global] Instance pico_sim : Platform := {|
  calloc := bump_calloc;
  calloc_fresh := bump_calloc_fresh;
  save_and_disable_interrupts p := (p, 1%Z);
  restore_interrupts old _ := old;
  interrupts_enabled p := bool_decide (p = 0%Z);
  save_disables _ := eq_refl;
  restore_saved _ _ := eq_refl;
|}.

(** A first-fit allocator: the lowest slot of 160 bytes apart from the live blocks,
    so that freed blocks are used again. *)
Definition slot (i : nat) : Z := (heap_start + 160 * Z.of_nat i)%Z.
#[global] Instance blocks_apart_dec a b : Decision (blocks_apart a b).
Proof. rw /blocks_apart. apply _. Defined.
Definition slot_free (ev : list heap_event) (i : nat) : Prop :=
  (slot i + sizeof_thread ≤ heap_end)%Z ∧ Forall (blocks_apart (slot i)) (live ev).
#[global] Instance slot_free_dec ev i : Decision (slot_free ev i).
Proof. rw /slot_free. apply _. Defined.
Definition fit_calloc (ev : list heap_event) : Z :=
  match filter (slot_free ev) (seq 0 64) with
  | i :: _ => slot i
  | [] => NULL
  end.

Lemma fit_calloc_fresh ev :
  fit_calloc ev ≠ NULL →
  (heap_start ≤ fit_calloc ev)%Z ∧ (fit_calloc ev + sizeof_thread ≤ heap_end)%Z ∧
  ∀ b, b ∈ live ev → blocks_apart (fit_calloc ev) b.
Proof.
  rw /fit_calloc. destruct (filter (slot_free ev) (seq 0 64)) as [|i l] eqn:E; [done|].
  intros _. assert (i ∈ filter (slot_free ev) (seq 0 64)) as Hi by (rw E; by left).
  apply list_elem_of_filter in Hi as [[H1 H2] _]. split_and!; [|done|].
  - rw /slot. lia.
  - by apply Forall_forall.
Qed.

Definition pico_fit : Platform := {|
  calloc := fit_calloc;
  calloc_fresh := fit_calloc_fresh;
  save_and_disable_interrupts p := (p, 1%Z);
  restore_interrupts old _ := old;
  interrupts_enabled p := bool_decide (p = 0%Z);
  save_disables _ := eq_refl;
  restore_saved _ _ := eq_refl;
|}.

(** A board on which [rand] counts, two timer interrupts fire per second of [sleep_ms],
    and the name buffer is on the boot stack, in a slot of eight bytes. *)
#[global] Instance pico_board : Board.
Proof.
  refine {| rand k := (Z.of_nat k mod 32768)%Z; ticks_in ms := Z.to_nat (ms / 500);
            nombre := 0x20041f80; nombre_room := 8 |}; try done.
  intros k. pose proof (Z.mod_pos_bound (Z.of_nat k) 32768 eq_refl). unfold INT_MAX. lia.
Defined.
