(* ===== verification/Sched.v ===== *)
(** * An abstract scheduler: what the thread system promises

    The scheduler without pointers: queues are lists of threads, and each thread
    has a status, a remaining duration and a wake-up time.  Each kernel operation
    is a pure function on this state.  ThreadSpec.v shows that thread.c and main.c
    implement these functions; the scheduling theorems are proved here. *)

From S2P Require Import Prelude Machine.

(** ** State *)

Record tinfo := TInfo { t_status : thread_status; t_dur : Z; t_wake : Z }.

Record sched := Sched {
  a_thr : gmap Z tinfo;      (* the live threads *)
  a_ready : list Z;          (* ready_list, front first *)
  a_wait : list Z;           (* lista_espera *)
  a_all : list Z;            (* all_list *)
  a_run : Z;                 (* the running thread *)
  a_idle : Z;
  a_main : Z;                (* initial_thread *)
  a_slice : Z;               (* ticks since the last switch *)
  a_now : Z;                 (* ticks since boot *)
  a_idle_ticks : Z;
  a_kernel_ticks : Z;
  a_next_tid : Z;
  a_mode : Z;                (* 0 for FIFO *)
  a_quantum : Z;
  a_force : Z;               (* an exit was asked for from an interrupt *)
  a_mask : Z;                (* interrupt mask *)
}.

Section Updates.
Context (A : sched).
Definition w_thr v : sched :=
  Sched v (a_ready A) (a_wait A) (a_all A) (a_run A) (a_idle A) (a_main A) (a_slice A)
    (a_now A) (a_idle_ticks A) (a_kernel_ticks A) (a_next_tid A) (a_mode A) (a_quantum
    A) (a_force A) (a_mask A).
Definition w_ready v : sched :=
  Sched (a_thr A) v (a_wait A) (a_all A) (a_run A) (a_idle A) (a_main A) (a_slice A)
    (a_now A) (a_idle_ticks A) (a_kernel_ticks A) (a_next_tid A) (a_mode A) (a_quantum
    A) (a_force A) (a_mask A).
Definition w_wait v : sched :=
  Sched (a_thr A) (a_ready A) v (a_all A) (a_run A) (a_idle A) (a_main A) (a_slice A)
    (a_now A) (a_idle_ticks A) (a_kernel_ticks A) (a_next_tid A) (a_mode A) (a_quantum
    A) (a_force A) (a_mask A).
Definition w_all v : sched :=
  Sched (a_thr A) (a_ready A) (a_wait A) v (a_run A) (a_idle A) (a_main A) (a_slice A)
    (a_now A) (a_idle_ticks A) (a_kernel_ticks A) (a_next_tid A) (a_mode A) (a_quantum
    A) (a_force A) (a_mask A).
Definition w_run v : sched :=
  Sched (a_thr A) (a_ready A) (a_wait A) (a_all A) v (a_idle A) (a_main A) (a_slice A)
    (a_now A) (a_idle_ticks A) (a_kernel_ticks A) (a_next_tid A) (a_mode A) (a_quantum
    A) (a_force A) (a_mask A).
Definition w_idle v : sched :=
  Sched (a_thr A) (a_ready A) (a_wait A) (a_all A) (a_run A) v (a_main A) (a_slice A)
    (a_now A) (a_idle_ticks A) (a_kernel_ticks A) (a_next_tid A) (a_mode A) (a_quantum
    A) (a_force A) (a_mask A).
Definition w_main v : sched :=
  Sched (a_thr A) (a_ready A) (a_wait A) (a_all A) (a_run A) (a_idle A) v (a_slice A)
    (a_now A) (a_idle_ticks A) (a_kernel_ticks A) (a_next_tid A) (a_mode A) (a_quantum
    A) (a_force A) (a_mask A).
Definition w_slice v : sched :=
  Sched (a_thr A) (a_ready A) (a_wait A) (a_all A) (a_run A) (a_idle A) (a_main A) v
    (a_now A) (a_idle_ticks A) (a_kernel_ticks A) (a_next_tid A) (a_mode A) (a_quantum
    A) (a_force A) (a_mask A).
Definition w_now v : sched :=
  Sched (a_thr A) (a_ready A) (a_wait A) (a_all A) (a_run A) (a_idle A) (a_main A)
    (a_slice A) v (a_idle_ticks A) (a_kernel_ticks A) (a_next_tid A) (a_mode A)
    (a_quantum A) (a_force A) (a_mask A).
Definition w_idle_ticks v : sched :=
  Sched (a_thr A) (a_ready A) (a_wait A) (a_all A) (a_run A) (a_idle A) (a_main A)
    (a_slice A) (a_now A) v (a_kernel_ticks A) (a_next_tid A) (a_mode A) (a_quantum A)
    (a_force A) (a_mask A).
Definition w_kernel_ticks v : sched :=
  Sched (a_thr A) (a_ready A) (a_wait A) (a_all A) (a_run A) (a_idle A) (a_main A)
    (a_slice A) (a_now A) (a_idle_ticks A) v (a_next_tid A) (a_mode A) (a_quantum A)
    (a_force A) (a_mask A).
Definition w_next_tid v : sched :=
  Sched (a_thr A) (a_ready A) (a_wait A) (a_all A) (a_run A) (a_idle A) (a_main A)
    (a_slice A) (a_now A) (a_idle_ticks A) (a_kernel_ticks A) v (a_mode A) (a_quantum A)
    (a_force A) (a_mask A).
Definition w_mode v : sched :=
  Sched (a_thr A) (a_ready A) (a_wait A) (a_all A) (a_run A) (a_idle A) (a_main A)
    (a_slice A) (a_now A) (a_idle_ticks A) (a_kernel_ticks A) (a_next_tid A) v
    (a_quantum A) (a_force A) (a_mask A).
Definition w_quantum v : sched :=
  Sched (a_thr A) (a_ready A) (a_wait A) (a_all A) (a_run A) (a_idle A) (a_main A)
    (a_slice A) (a_now A) (a_idle_ticks A) (a_kernel_ticks A) (a_next_tid A) (a_mode A)
    v (a_force A) (a_mask A).
Definition w_force v : sched :=
  Sched (a_thr A) (a_ready A) (a_wait A) (a_all A) (a_run A) (a_idle A) (a_main A)
    (a_slice A) (a_now A) (a_idle_ticks A) (a_kernel_ticks A) (a_next_tid A) (a_mode A)
    (a_quantum A) v (a_mask A).
Definition w_mask v : sched :=
  Sched (a_thr A) (a_ready A) (a_wait A) (a_all A) (a_run A) (a_idle A) (a_main A)
    (a_slice A) (a_now A) (a_idle_ticks A) (a_kernel_ticks A) (a_next_tid A) (a_mode A)
    (a_quantum A) (a_force A) v.

Definition status_of (t : Z) : option thread_status := t_status <$> a_thr A !! t.
Definition dur_of (t : Z) : Z := default 0%Z (t_dur <$> a_thr A !! t).
Definition wake_of (t : Z) : Z := default 0%Z (t_wake <$> a_thr A !! t).

Definition set_info_status (v : thread_status) (i : tinfo) : tinfo :=
  TInfo v (t_dur i) (t_wake i).
Definition set_info_dur (v : Z) (i : tinfo) : tinfo := TInfo (t_status i) v (t_wake i).
Definition set_info_wake (v : Z) (i : tinfo) : tinfo := TInfo (t_status i) (t_dur i) v.

Definition set_status (t : Z) (v : thread_status) : sched :=
  w_thr (alter (set_info_status v) t (a_thr A)).
End Updates.

(** ** Operations *)

(** Switch to the head of the ready queue, or to the idle thread; a thread left
    behind in state DYING is destroyed. *)
Definition a_next (A : sched) : Z := hd (a_idle A) (a_ready A).

Definition a_schedule (A : sched) : sched :=
  let next := a_next A in
  let dies := bool_decide (status_of A (a_run A) = Some THREAD_DYING)
              && negb (bool_decide (a_run A = a_main A))
              && negb (bool_decide (a_run A = next)) in
  let A1 := w_slice (w_run (w_ready A (tail (a_ready A))) next) 0 in
  let A2 := set_status A1 next THREAD_RUNNING in
  if dies then w_thr A2 (delete (a_run A) (a_thr A2)) else A2.

Definition a_block (A : sched) : sched :=
  a_schedule (set_status A (a_run A) THREAD_BLOCKED).

Definition a_yield (A : sched) : sched :=
  match a_ready A with
  | [] => A
  | _ =>
      let A1 := if bool_decide (a_run A = a_idle A) || bool_decide (a_run A = a_main A)
                then A else w_ready A (a_ready A ++ [a_run A]) in
      a_schedule (set_status A1 (a_run A) THREAD_READY)
  end.

Definition a_exit (A : sched) : sched :=
  if bool_decide (a_run A = a_main A) || bool_decide (a_run A = a_idle A) then a_yield A
  else
    a_schedule (set_status (w_all A (filter (λ t, t ≠ a_run A) (a_all A)))
                  (a_run A) THREAD_DYING).

Definition a_block_if_idle (A : sched) : sched :=
  if bool_decide (a_run A = a_idle A) then a_block A else A.

Definition a_tick (A : sched) : sched :=
  let A1 := if bool_decide (a_run A = a_idle A)
            then w_idle_ticks A (a_idle_ticks A + 1)
            else w_kernel_ticks A (a_kernel_ticks A + 1) in
  let A2 := w_slice A1 (uint32 (a_slice A + 1)) in
  w_thr A2 (alter (λ i, set_info_dur (t_dur i - 1) i) (a_run A) (a_thr A)).

(** Sleep for [n] ticks: to the back of the waiting list. *)
Definition a_sleep_for (n : Z) (A : sched) : sched :=
  let A1 := w_thr A (alter (set_info_wake (uint64 (a_now A + n))) (a_run A) (a_thr A)) in
  a_block (w_wait A1 (a_wait A ++ [a_run A])).

Definition a_sleep (n : Z) (A : sched) : sched :=
  if bool_decide (0 < n)%Z then a_sleep_for n A else A.

Definition a_unblock (t : Z) (A : sched) : sched :=
  set_status (w_ready A (a_ready A ++ [t])) t THREAD_READY.

(** Is the sleeper [t] due at time [n]? *)
Definition due (A : sched) (n t : Z) : Prop := (wake_of A t ≤ uint64 n)%Z.
#[global] Instance due_dec A n t : Decision (due A n t).
Proof. rw /due. apply _. Defined.

(** Wake every due sleeper, in the order of the waiting list. *)
Fixpoint a_wake_loop (n : Z) (ws : list Z) (A : sched) : sched :=
  match ws with
  | [] => A
  | t :: ws =>
      if decide (due A n t)
      then a_wake_loop n ws (a_unblock t (w_wait A (filter (λ u, u ≠ t) (a_wait A))))
      else a_wake_loop n ws A
  end.
Definition a_wake_up (n : Z) (A : sched) : sched := a_wake_loop n (a_wait A) A.

(** Add a new thread at address [t], living [dur] ticks, to the ready queue. *)
Definition a_add (t dur : Z) (A : sched) : sched :=
  let A1 := w_thr A (<[t := TInfo THREAD_BLOCKED dur 0]> (a_thr A)) in
  let A2 := w_all A1 (a_all A ++ [t]) in
  a_unblock t (w_next_tid A2 (a_next_tid A + 1)).

(** The idle thread gives way to a new thread at once. *)
Definition a_create (t dur : Z) (A : sched) : sched := a_block_if_idle (a_add t dur A).

(** The first thread created becomes the idle thread. *)
Definition a_start (t dur : Z) (A : sched) : sched := a_block_if_idle (w_idle (a_add t dur A) t).

(** ** The two handlers of main.c *)

Definition a_timer_interrupt (A : sched) : sched :=
  let A1 := a_tick (w_now A (a_now A + 1)) in
  a_wake_up (a_now A1) A1.

(** The preemption decision of [after_interrupt]. *)
Definition a_dispatch (A : sched) : sched :=
  if bool_decide (dur_of A (a_run A) ≤ 0)%Z then a_exit A
  else if bool_decide (a_mode A = 0)%Z then A
  else match a_ready A with
       | [] => A
       | _ => if bool_decide (a_quantum A ≤ a_slice A)%Z then a_yield A else A
       end.

Definition a_forced (A : sched) : sched :=
  if bool_decide (a_force A = 0)%Z then A
  else if bool_decide (dur_of A (a_run A) = 0)%Z then A
  else w_force (a_exit A) 0.

Definition a_after_interrupt (A : sched) : sched :=
  a_forced (a_dispatch (a_block_if_idle A)).
