(* ===== verification/SchedInv.v ===== *)
(** * The invariant of the scheduler

    [sched_ok] is what holds between two kernel operations: the queues and the
    running thread partition the live threads (the idle and the initial thread
    apart), every status agrees with the queue a thread is in, the tick counters
    add up, and every sleeper is asleep until a tick still to come.  The file shows
    that each operation of the abstract scheduler preserves it. *)

From S2P Require Import Prelude Machine Sched.

(** Counters, durations and wake-up times. *)
Record clock_ok (A : sched) : Prop := {
  ck_idle : (0 ≤ a_idle_ticks A)%Z;
  ck_kernel : (0 ≤ a_kernel_ticks A)%Z;
  ck_sum : (a_idle_ticks A + a_kernel_ticks A = a_now A)%Z;
  ck_now : (a_now A ≤ INT_MAX)%Z;
  ck_dur : ∀ t i, a_thr A !! t = Some i → (- a_now A ≤ t_dur i ≤ INT_MAX)%Z;
  ck_tid : (3 ≤ a_next_tid A ≤ INT_MAX)%Z;
  ck_page : (heap_end + PGSIZE ≤ a_main A)%Z;
  ck_slice : (0 ≤ a_slice A ≤ a_now A)%Z;
}.

(** Every sleeper is due in the future. *)
Definition asleep_ok (A : sched) : Prop :=
  ∀ t, t ∈ a_wait A → (a_now A < wake_of A t ≤ INT_MAX)%Z.

(** The queues. *)
Record queues_ok (A : sched) : Prop := {
  qo_all : NoDup (a_all A);
  qo_ready : ∀ t, t ∈ a_ready A → status_of A t = Some THREAD_READY;
  qo_wait : ∀ t, t ∈ a_wait A → status_of A t = Some THREAD_BLOCKED;
  qo_nodup : NoDup (a_ready A ++ a_wait A);
  qo_idle : a_idle A ∈ a_all A ∧ a_idle A ∉ a_ready A ∧ a_idle A ∉ a_wait A;
  qo_main : a_main A ∈ a_all A ∧ a_main A ∉ a_ready A ∧ a_main A ∉ a_wait A ∧
            a_main A ≠ a_run A ∧ a_main A ≠ a_idle A;
}.

Record sched_ok (A : sched) : Prop := {
  so_clock : clock_ok A;
  so_asleep : asleep_ok A;
  so_queues : queues_ok A;
  so_live : ∀ t, is_Some (a_thr A !! t) ↔ t ∈ a_all A;
  so_run : status_of A (a_run A) = Some THREAD_RUNNING;
  so_complete : ∀ t, t ∈ a_all A →
    t = a_run A ∨ t ∈ a_ready A ∨ t ∈ a_wait A ∨ t = a_idle A ∨ t = a_main A;
}.

(** The states in which [schedule] is called: the running thread has left the
    processor, to a queue, as the idle thread, or dying. *)
Record switch_ok (A : sched) : Prop := {
  sw_clock : clock_ok A;
  sw_asleep : asleep_ok A;
  sw_queues : queues_ok A;
  sw_live : ∀ t, is_Some (a_thr A !! t) ↔
    t ∈ a_all A ∨ (t = a_run A ∧ status_of A t = Some THREAD_DYING);
  sw_dying : status_of A (a_run A) = Some THREAD_DYING → a_run A ∉ a_all A;
  sw_run : status_of A (a_run A) ≠ Some THREAD_RUNNING;
  sw_complete : ∀ t, t ∈ a_all A →
    t ∈ a_ready A ∨ t ∈ a_wait A ∨ t = a_idle A ∨ t = a_main A;
}.

(** ** How the updates show in the observers *)

Lemma lookup_set_status A t u v :
  a_thr (set_status A t v) !! u =
    if decide (t = u) then set_info_status v <$> a_thr A !! u else a_thr A !! u.
Proof. rw /set_status /= lookup_alter. case_decide; [by subst|done]. Qed.

Lemma status_set_status A t u v :
  status_of (set_status A t v) u =
    if decide (t = u) then (λ _, v) <$> a_thr A !! u else status_of A u.
Proof.
  rw /status_of lookup_set_status. case_decide; [|done]. by destruct (a_thr A !! u).
Qed.

Lemma wake_set_status A t u v : wake_of (set_status A t v) u = wake_of A u.
Proof.
  rw /wake_of lookup_set_status. case_decide; [|done]. by destruct (a_thr A !! u).
Qed.

Lemma dur_set_status A t u v : dur_of (set_status A t v) u = dur_of A u.
Proof.
  rw /dur_of lookup_set_status. case_decide; [|done]. by destruct (a_thr A !! u).
Qed.

Definition dies (A : sched) : bool :=
  bool_decide (status_of A (a_run A) = Some THREAD_DYING)
  && negb (bool_decide (a_run A = a_main A))
  && negb (bool_decide (a_run A = a_next A)).

Lemma lookup_schedule A u :
  a_thr (a_schedule A) !! u =
    if dies A && bool_decide (a_run A = u) then None
    else a_thr (set_status A (a_next A) THREAD_RUNNING) !! u.
Proof.
  rw /a_schedule -/(dies A). destruct (dies A); simpl; [|done].
  rw lookup_delete. case_bool_decide; by case_decide.
Qed.

Lemma schedule_fields A :
  a_ready (a_schedule A) = tail (a_ready A) ∧ a_wait (a_schedule A) = a_wait A ∧
  a_all (a_schedule A) = a_all A ∧ a_run (a_schedule A) = a_next A ∧
  a_idle (a_schedule A) = a_idle A ∧ a_main (a_schedule A) = a_main A ∧
  a_slice (a_schedule A) = 0%Z ∧ a_now (a_schedule A) = a_now A ∧
  a_idle_ticks (a_schedule A) = a_idle_ticks A ∧
  a_kernel_ticks (a_schedule A) = a_kernel_ticks A ∧
  a_next_tid (a_schedule A) = a_next_tid A ∧ a_mode (a_schedule A) = a_mode A ∧
  a_quantum (a_schedule A) = a_quantum A ∧ a_force (a_schedule A) = a_force A ∧
  a_mask (a_schedule A) = a_mask A.
Proof. rw /a_schedule. by case_match. Qed.

(** ** Preservation of the clock *)

(** Updates that leave the clock's fields and the durations alone. *)
Lemma clock_ok_ext A A' :
  clock_ok A →
  (a_idle_ticks A', a_kernel_ticks A', a_now A', a_next_tid A', a_main A')
    = (a_idle_ticks A, a_kernel_ticks A, a_now A, a_next_tid A, a_main A) →
  a_slice A' = a_slice A ∨ a_slice A' = 0%Z →
  (∀ t i, a_thr A' !! t = Some i → ∃ i', a_thr A !! t = Some i' ∧ t_dur i' = t_dur i) →
  clock_ok A'.
Proof.
  intros [] [= E1 E2 E3 E4 E5] Es Ht. split; rewrite ?E1 ?E2 ?E3 ?E4 ?E5; try done.
  - intros t i Hi. apply Ht in Hi as (i' & Hi' & <-). eauto.
  - destruct Es as [-> | ->]; lia.
Qed.

Lemma set_status_dur A t v u i :
  a_thr (set_status A t v) !! u = Some i → ∃ i', a_thr A !! u = Some i' ∧ t_dur i' = t_dur i.
Proof.
  rw lookup_set_status. case_decide; [|eauto]. intros (i' & ? & ->)%fmap_Some. eauto.
Qed.

Lemma clock_set_status A t v : clock_ok A → clock_ok (set_status A t v).
Proof. intros C. eapply clock_ok_ext; [done..|by left|]. apply set_status_dur. Qed.

Lemma clock_schedule A : clock_ok A → clock_ok (a_schedule A).
Proof.
  intros C. pose proof (schedule_fields A) as F. destruct_and!.
  eapply clock_ok_ext; [done|by congruence|by right|].
  intros t i. rw lookup_schedule. case_match; [done|]. apply set_status_dur.
Qed.

Lemma asleep_ext A A' :
  asleep_ok A → a_now A' = a_now A →
  (∀ t, t ∈ a_wait A' → t ∈ a_wait A ∧ wake_of A' t = wake_of A t) → asleep_ok A'.
Proof. intros HA E Hw t Ht. destruct (Hw t Ht) as [Ht' ->]. rw E. by apply HA. Qed.

(** ** schedule *)

Section Schedule.
Context (A : sched) (W : switch_ok A).

Lemma next_live : is_Some (a_thr A !! a_next A).
Proof.
  destruct W as [_ _ Q L _ _ _]. apply L. rw /a_next.
  destruct (a_ready A) as [|t r] eqn:Hr; [left; apply Q|]. simpl.
  apply L. assert (status_of A t = Some THREAD_READY) as Ht by (apply Q; rw Hr; set_solver).
  rw /status_of in Ht. destruct (a_thr A !! t); [eauto|done].
Qed.

Lemma next_not_run_dying :
  status_of A (a_run A) = Some THREAD_DYING → a_run A ≠ a_next A.
Proof.
  destruct W as [_ _ Q _ D _ _]. intros Hd E. apply D in Hd as Ha. apply Ha. rw E /a_next.
  destruct (a_ready A) as [|t r] eqn:Hr; [apply Q|]. simpl. exfalso.
  rw /a_next Hr /= in E. rw E (qo_ready _ Q) // in Hd. rw Hr. set_solver.
Qed.

Lemma dies_spec : dies A = bool_decide (status_of A (a_run A) = Some THREAD_DYING).
Proof.
  rw /dies. case_bool_decide as Hd; [|done]. simpl.
  rw !bool_decide_eq_false_2 //.
  - destruct W as [_ _ Q _ _ _ _]. intros E. pose proof (qo_main _ Q) as Hm.
    rw E in Hm. tauto.
  - by apply next_not_run_dying.
Qed.

Lemma schedule_live t : is_Some (a_thr (a_schedule A) !! t) ↔ t ∈ a_all A.
Proof.
  pose proof (sw_live _ W t) as L. pose proof (sw_dying _ W) as D.
  rw lookup_schedule dies_spec.
  destruct (decide (status_of A (a_run A) = Some THREAD_DYING ∧ a_run A = t)) as [[Hd <-]|Hn].
  - rw !bool_decide_eq_true_2 //=. split; [by intros [? [=]]|]. intros Ha. by destruct (D Hd).
  - assert (bool_decide (status_of A (a_run A) = Some THREAD_DYING)
      && bool_decide (a_run A = t) = false) as ->.
    { apply not_true_is_false. by rw andb_true_iff !bool_decide_eq_true. }
    assert (is_Some (a_thr (set_status A (a_next A) THREAD_RUNNING) !! t)
      ↔ is_Some (a_thr A !! t)) as ->.
    { rw lookup_set_status. case_decide; [by rw fmap_is_Some|done]. }
    rw L. split; [|by left]. intros [Ha|[-> Hd]]; [done|]. by exfalso; apply Hn.
Qed.

Lemma schedule_status t :
  t ∈ a_all A → t ≠ a_next A → status_of (a_schedule A) t = status_of A t.
Proof.
  intros Ha Hne. rw /status_of lookup_schedule dies_spec.
  assert (bool_decide (status_of A (a_run A) = Some THREAD_DYING)
      && bool_decide (a_run A = t) = false) as ->.
  { apply andb_false_iff. rw !bool_decide_eq_false.
    destruct (decide (a_run A = t)) as [<-|]; [left|by right].
    intros Hd. by apply (sw_dying _ W). }
  rw lookup_set_status decide_False //.
Qed.

Lemma schedule_wake t : t ∈ a_all A → wake_of (a_schedule A) t = wake_of A t.
Proof.
  intros Ha. rw -(wake_set_status A (a_next A) t THREAD_RUNNING) /wake_of lookup_schedule.
  case_match eqn:E; [|done]. exfalso. apply andb_true_iff in E as [Hd E].
  apply bool_decide_eq_true in E as <-. rw dies_spec in Hd.
  apply bool_decide_eq_true in Hd. by destruct (sw_dying _ W Hd).
Qed.

Lemma status_in_all t v :
  status_of A t = Some v → t ≠ a_run A ∨ v ≠ THREAD_DYING → t ∈ a_all A.
Proof.
  intros Hs Hne. assert (is_Some (a_thr A !! t)) as Hl.
  { rw /status_of in Hs. destruct (a_thr A !! t); [eauto|done]. }
  apply (sw_live _ W) in Hl as [?|[-> Hd]]; [done|]. naive_solver.
Qed.

Lemma schedule_ok : sched_ok (a_schedule A).
Proof.
  destruct (schedule_fields A) as (Fr & Fw & Fa & Fn & Fi & Fm & Fs & Ft & _).
  pose proof (sw_queues _ W) as Q. pose proof (sw_complete _ W) as Hcmp.
  assert (∀ t, t ∈ a_ready A → t ∈ a_all A) as Hra.
  { intros t Ht. eapply status_in_all; [by apply (qo_ready _ Q)|by right]. }
  assert (∀ t, t ∈ a_wait A → t ∈ a_all A) as Hwa.
  { intros t Ht. eapply status_in_all; [by apply (qo_wait _ Q)|by right]. }
  assert (NoDup (a_next A :: tail (a_ready A) ++ a_wait A)) as Hnd.
  { pose proof (qo_nodup _ Q) as Hn. pose proof (qo_idle _ Q) as Hi. rw /a_next.
    destruct (a_ready A); [|done]. simpl in *. apply NoDup_cons. tauto. }
  assert (a_next A ∈ a_all A) as Hna.
  { rw /a_next. destruct (a_ready A) as [|t r] eqn:E; [apply Q|]. apply Hra. set_solver. }
  apply NoDup_cons in Hnd as [Hnx Hnd]. rw elem_of_app in Hnx.
  assert (∀ t, t ∈ tail (a_ready A) → t ∈ a_ready A) as Htl.
  { intros t. destruct (a_ready A); set_solver. }
  split.
  - apply clock_schedule, W.
  - eapply asleep_ext; [apply W|done|]. intros t Ht. rewrite Fw in Ht.
    split; [done|]. apply schedule_wake. by apply Hwa.
  - split; rewrite ?Fr ?Fw ?Fa ?Fn ?Fi ?Fm.
    + apply Q.
    + intros t Ht. rw schedule_status; [by apply Hra, Htl|by intros ->; tauto|]. by apply Q, Htl.
    + intros t Ht. rw schedule_status; [by apply Hwa|by intros ->; tauto|]. by apply Q.
    + done.
    + destruct (qo_idle _ Q) as (? & ? & ?). split_and!; auto.
    + destruct (qo_main _ Q) as (? & ? & ? & ? & ?). split_and!; auto.
      rw /a_next. destruct (a_ready A) as [|t r]; [done|]. simpl. set_solver.
  - intros t. rw schedule_live. by rewrite Fa.
  - rewrite Fn. rw /status_of lookup_schedule.
    assert (dies A && bool_decide (a_run A = a_next A) = false) as ->.
    { rw /dies. by destruct (bool_decide (a_run A = a_next A)); rewrite ?andb_false_r. }
    rw lookup_set_status decide_True //. destruct next_live as [i ->]. done.
  - intros t Ht. rewrite Fa in Ht. rewrite Fr Fw Fn Fi Fm. rw /a_next.
    destruct (Hcmp t Ht) as [Hr|[?|[?|?]]]; [|tauto..].
    destruct (a_ready A) as [|u r]; [set_solver|]. apply elem_of_cons in Hr. simpl. tauto.
Qed.
End Schedule.

(** ** Leaving the processor *)

Section Leave.
Context (A : sched) (O : sched_ok A).
#[local] Abbreviation r := (a_run A).

Lemma run_live : is_Some (a_thr A !! r).
Proof. pose proof (so_run _ O) as H. rw /status_of in H. destruct (a_thr A !! r); [eauto|done]. Qed.

Lemma run_in_all : r ∈ a_all A.
Proof. apply (so_live _ O), run_live. Qed.

Lemma run_not_ready : r ∉ a_ready A.
Proof. intros H%(qo_ready _ (so_queues _ O)). by rw (so_run _ O) in H. Qed.

Lemma run_not_wait : r ∉ a_wait A.
Proof. intros H%(qo_wait _ (so_queues _ O)). by rw (so_run _ O) in H. Qed.

Lemma run_not_main : r ≠ a_main A.
Proof. destruct (qo_main _ (so_queues _ O)) as (_ & _ & _ & H & _). done. Qed.

Lemma idle_live : is_Some (a_thr A !! a_idle A).
Proof. apply (so_live _ O), (so_queues _ O). Qed.

Lemma ready_wait_disj t : t ∈ a_ready A → t ∉ a_wait A.
Proof.
  pose proof (qo_nodup _ (so_queues _ O)) as H. apply NoDup_app in H as (_ & H & _). auto.
Qed.

Lemma status_leave v t : t ≠ r → status_of (set_status A r v) t = status_of A t.
Proof. intros Hne. rw status_set_status decide_False //. Qed.

Lemma live_leave v t : is_Some (a_thr (set_status A r v) !! t) ↔ t ∈ a_all A.
Proof.
  rw -(so_live _ O) lookup_set_status. case_decide; [|done]. by rw fmap_is_Some.
Qed.

Lemma status_leave_run v : status_of (set_status A r v) r = Some v.
Proof. rw status_set_status decide_True //. by destruct run_live as [i ->]. Qed.

(** The idle thread blocks. *)
Lemma leave_idle v :
  r = a_idle A → v ≠ THREAD_RUNNING → v ≠ THREAD_DYING → switch_ok (set_status A r v).
Proof.
  intros Hi Hv Hd. pose proof (so_queues _ O) as Q. split.
  - apply clock_set_status, O.
  - eapply asleep_ext; [apply O|done|]. intros t Ht. split; [done|]. apply wake_set_status.
  - split; simpl; try apply Q.
    + intros t Ht. rw status_leave; [|by apply Q]. intros ->. by apply run_not_ready.
    + intros t Ht. rw status_leave; [|by apply Q]. intros ->. by apply run_not_wait.
  - intros t. rw live_leave. split; [by left|]. intros [?|[-> H]]; [done|].
    rw status_leave_run in H. congruence.
  - simpl. rw status_leave_run. congruence.
  - simpl. rw status_leave_run. congruence.
  - intros t Ht. destruct (so_complete _ O t Ht) as [->|?]; [|done]. simpl. tauto.
Qed.

(** The running thread goes to the back of the ready queue. *)
Lemma leave_ready :
  r ≠ a_idle A → switch_ok (set_status (w_ready A (a_ready A ++ [r])) r THREAD_READY).
Proof.
  intros Hi. pose proof (so_queues _ O) as Q. pose proof run_not_main as Hm.
  pose proof run_not_ready as Hr. pose proof run_not_wait as Hw.
  assert (∀ t v, status_of (set_status (w_ready A (a_ready A ++ [r])) r v) t
    = status_of (set_status A r v) t) as Es by done.
  split.
  - apply clock_set_status. eapply clock_ok_ext; [apply O|done|by left|]. eauto.
  - eapply asleep_ext; [apply O|done|]. intros t Ht. split; [done|].
    by rw (wake_set_status (w_ready A _)).
  - split; simpl.
    + apply Q.
    + intros t [Ht| ->%list_elem_of_singleton]%elem_of_app; rw Es; [|by rw status_leave_run].
      rw status_leave; [|by apply Q]. by intros ->.
    + intros t Ht. rw Es status_leave; [|by apply Q]. by intros ->.
    + pose proof (qo_nodup _ Q) as Hn. rw -app_assoc /=.
      rw -(Permutation_middle (a_ready A) (a_wait A) r). apply NoDup_cons.
      by rw elem_of_app; split; [tauto|].
    + destruct (qo_idle _ Q) as (? & ? & ?). split_and!; set_solver.
    + destruct (qo_main _ Q) as (? & ? & ? & ? & ?). split_and!; set_solver.
  - intros t. rw (live_leave THREAD_READY t) /= Es. split; [by left|].
    intros [?|[-> H]]; [done|]. by rw status_leave_run in H.
  - rw Es /= status_leave_run. done.
  - rw Es /= status_leave_run. done.
  - intros t Ht. simpl. destruct (so_complete _ O t Ht) as [->|?]; set_solver.
Qed.

(** The running thread falls asleep for [n] ticks. *)
Lemma leave_wait n (A1 := w_thr A (alter (set_info_wake (uint64 (a_now A + n))) r (a_thr A)))
    (A2 := set_status (w_wait A1 (a_wait A ++ [r])) r THREAD_BLOCKED) :
  r ≠ a_idle A → (0 < n)%Z → (a_now A + n ≤ INT_MAX)%Z → switch_ok A2.
Proof.
  intros Hi Hn Hmax. pose proof (so_queues _ O) as Q. pose proof run_not_main as Hm.
  pose proof run_not_ready as Hr. pose proof run_not_wait as Hw.
  destruct run_live as [i Hli]. pose proof (so_clock _ O) as C.
  assert (a_thr A2 !! r = Some (TInfo THREAD_BLOCKED (t_dur i) (uint64 (a_now A + n)))) as Er.
  { rw /A2 lookup_set_status decide_True //= lookup_alter_eq Hli //. }
  assert (∀ t, t ≠ r → a_thr A2 !! t = a_thr A !! t) as Eo.
  { intros t Hne. rw /A2 lookup_set_status decide_False //= lookup_alter_ne //. }
  assert (∀ t, t ≠ r → status_of A2 t = status_of A t) as Es.
  { intros t Hne. by rw /status_of Eo. }
  assert (∀ t, is_Some (a_thr A2 !! t) ↔ t ∈ a_all A) as El.
  { intros t. rw -(so_live _ O). destruct (decide (t = r)) as [->|Hne]; [|by rw Eo].
    rw Er Hli. split; eauto. }
  assert (status_of A2 r = Some THREAD_BLOCKED) as Est by (by rw /status_of Er).
  split; simpl.
  - eapply clock_ok_ext; [done..|by left|]. intros t j Hj.
    destruct (decide (t = r)) as [->|Hne]; [|rw Eo // in Hj; eauto].
    rw Er in Hj. simplify_eq. eauto.
  - intros t [Ht| ->%list_elem_of_singleton]%elem_of_app; simpl.
    + rw /wake_of Eo; [by intros ->|]. by apply (so_asleep _ O).
    + rw /wake_of Er /=. destruct C. unfold INT_MAX in *. rw uint64_id; lia.
  - split; simpl.
    + apply Q.
    + intros t Ht. rw Es; [by intros ->|]. by apply Q.
    + intros t [Ht| ->%list_elem_of_singleton]%elem_of_app; [|done].
      rw Es; [by intros ->|]. by apply Q.
    + rw app_assoc. apply NoDup_app. split_and!; [apply Q| |apply NoDup_singleton].
      intros t Ht. rw list_elem_of_singleton. intros ->. set_solver.
    + destruct (qo_idle _ Q) as (? & ? & ?). split_and!; set_solver.
    + destruct (qo_main _ Q) as (? & ? & ? & ? & ?). split_and!; set_solver.
  - intros t. rw El. split; [by left|]. intros [?|[-> H]]; [done|]. by rw Est in H.
  - by rw Est.
  - by rw Est.
  - intros t Ht. destruct (so_complete _ O t Ht) as [->|?]; set_solver.
Qed.

(** The running thread exits. *)
Lemma leave_dying (A1 := w_all A (filter (λ t, t ≠ r) (a_all A)))
    (A2 := set_status A1 r THREAD_DYING) :
  r ≠ a_idle A → switch_ok A2.
Proof.
  intros Hi. pose proof (so_queues _ O) as Q. pose proof run_not_main as Hm.
  pose proof run_not_ready as Hr. pose proof run_not_wait as Hw.
  assert (∀ t, t ≠ r → status_of A2 t = status_of A t) as Es by apply (status_leave THREAD_DYING).
  assert (status_of A2 r = Some THREAD_DYING) as Est by apply (status_leave_run THREAD_DYING).
  assert (∀ t, t ∈ a_all A2 ↔ t ≠ r ∧ t ∈ a_all A) as Ea.
  { intros t. simpl. by rw list_elem_of_filter. }
  split.
  - apply clock_set_status. eapply clock_ok_ext; [apply O|done|by left|]. eauto.
  - eapply asleep_ext; [apply O|done|]. intros t Ht. split; [done|].
    by rw (wake_set_status A1).
  - split.
    + apply NoDup_filter, Q.
    + intros t Ht. rw Es; [by intros ->|]. by apply Q.
    + intros t Ht. rw Es; [by intros ->|]. by apply Q.
    + apply Q.
    + rw Ea. destruct (qo_idle _ Q) as (? & ? & ?). split_and!; auto.
    + rw Ea. destruct (qo_main _ Q) as (? & ? & ? & ? & ?). split_and!; auto.
  - intros t. rw (live_leave THREAD_DYING t) Ea /=.
    destruct (decide (t = r)) as [->|Hne]; [|tauto].
    split; [by right|]. intros _. apply run_in_all.
  - intros _. rw Ea /=. tauto.
  - by rw Est.
  - intros t [Hne Ht]%Ea. destruct (so_complete _ O t Ht) as [->|?]; [done|]. by simpl.
Qed.
End Leave.

(** ** The operations preserve the invariant *)

Lemma block_if_idle_ok A : sched_ok A → sched_ok (a_block_if_idle A).
Proof.
  intros O. rw /a_block_if_idle. case_bool_decide; [|done].
  by apply schedule_ok, leave_idle.
Qed.

Lemma yield_ok A : sched_ok A → sched_ok (a_yield A).
Proof.
  intros O. rw /a_yield. destruct (a_ready A) as [|t q] eqn:Hr; [done|]. rewrite -Hr.
  apply schedule_ok. case_bool_decide as Hi; simpl; [by apply leave_idle|].
  case_bool_decide as Hm; [by destruct (run_not_main A O)|]. by apply leave_ready.
Qed.

Lemma exit_ok A : sched_ok A → sched_ok (a_exit A).
Proof.
  intros O. rw /a_exit. case_bool_decide as Hm; [by destruct (run_not_main A O)|].
  case_bool_decide as Hi; simpl; [by apply yield_ok|]. by apply schedule_ok, leave_dying.
Qed.

Lemma sleep_ok n A :
  sched_ok A → a_run A ≠ a_idle A → (a_now A + n ≤ INT_MAX)%Z → sched_ok (a_sleep n A).
Proof.
  intros O Hi Hn. rw /a_sleep. case_bool_decide; [|done].
  apply schedule_ok. exact (leave_wait A O n Hi ltac:(done) Hn).
Qed.

Lemma force_ok v A : sched_ok A → sched_ok (w_force A v).
Proof. by intros [[] ? [] ???]. Qed.

Lemma mode_ok v w A : sched_ok A → sched_ok (w_quantum (w_mode A v) w).
Proof. by intros [[] ? [] ???]. Qed.

Lemma dispatch_ok A : sched_ok A → sched_ok (a_dispatch A).
Proof.
  intros O. rw /a_dispatch. case_bool_decide; [by apply exit_ok|].
  case_bool_decide; [done|]. destruct (a_ready A); [done|].
  case_bool_decide; [by apply yield_ok|done].
Qed.

Lemma forced_ok A : sched_ok A → sched_ok (a_forced A).
Proof.
  intros O. rw /a_forced. do 2 (case_bool_decide; [done|]). by apply force_ok, exit_ok.
Qed.

Lemma after_interrupt_ok A : sched_ok A → sched_ok (a_after_interrupt A).
Proof. intros O. by apply forced_ok, dispatch_ok, block_if_idle_ok. Qed.

(** ** The timer tick *)

(** The state between [thread_tick] and the wake-ups: sleepers may be due now. *)
Record tick_ok (A : sched) : Prop := {
  tk_clock : clock_ok A;
  tk_asleep : ∀ t, t ∈ a_wait A → (a_now A ≤ wake_of A t ≤ INT_MAX)%Z;
  tk_queues : queues_ok A;
  tk_live : ∀ t, is_Some (a_thr A !! t) ↔ t ∈ a_all A;
  tk_run : status_of A (a_run A) = Some THREAD_RUNNING;
  tk_complete : ∀ t, t ∈ a_all A →
    t = a_run A ∨ t ∈ a_ready A ∨ t ∈ a_wait A ∨ t = a_idle A ∨ t = a_main A;
}.

Section Tick.
Context (A : sched).
#[local] Abbreviation A1 := (a_tick (w_now A (a_now A + 1))).

Lemma lookup_tick t :
  a_thr A1 !! t = (if decide (a_run A = t) then (λ i, set_info_dur (t_dur i - 1) i) <$> a_thr A !! t
                   else a_thr A !! t).
Proof. rw /a_tick /= lookup_alter. case_decide; [by subst|]. done. Qed.

Lemma status_tick t : status_of A1 t = status_of A t.
Proof. rw /status_of lookup_tick. case_decide; [|done]. by destruct (a_thr A !! t). Qed.

Lemma wake_tick t : wake_of A1 t = wake_of A t.
Proof. rw /wake_of lookup_tick. case_decide; [|done]. by destruct (a_thr A !! t). Qed.

Lemma tick_fields :
  a_ready A1 = a_ready A ∧ a_wait A1 = a_wait A ∧ a_all A1 = a_all A ∧ a_run A1 = a_run A ∧
  a_idle A1 = a_idle A ∧ a_main A1 = a_main A ∧ a_now A1 = (a_now A + 1)%Z ∧
  a_next_tid A1 = a_next_tid A ∧ a_mode A1 = a_mode A ∧ a_quantum A1 = a_quantum A ∧
  a_force A1 = a_force A ∧ a_mask A1 = a_mask A ∧ a_slice A1 = uint32 (a_slice A + 1).
Proof. rw /a_tick. by case_match. Qed.

Lemma tick_counters :
  (a_idle_ticks A1 + a_kernel_ticks A1 = a_idle_ticks A + a_kernel_ticks A + 1)%Z ∧
  (a_idle_ticks A ≤ a_idle_ticks A1)%Z ∧ (a_kernel_ticks A ≤ a_kernel_ticks A1)%Z.
Proof. rw /a_tick. case_match; simpl; lia. Qed.

Lemma tick_tick_ok : sched_ok A → (a_now A < INT_MAX)%Z → tick_ok A1.
Proof.
  intros O Hmax. destruct tick_fields as (Fr & Fw & Fa & Fn & Fi & Fm & Ft & Fd & _ & _ & _ & _ & Fs).
  destruct tick_counters as (C1 & C2 & C3). pose proof (so_queues _ O) as Q.
  pose proof (ck_dur _ (so_clock _ O)) as Hdur. destruct (so_clock _ O). split.
  - assert (a_slice A1 = a_slice A + 1)%Z as Fs'.
    { rw Fs uint32_id //. unfold INT_MAX in *. lia. }
    split; rewrite ?Ft ?Fd ?Fm; try lia.
    intros t i. rw lookup_tick. case_decide; [|intros H'%Hdur; lia].
    intros (j & Hj%Hdur & ->)%fmap_Some. simpl. lia.
  - intros t. rw Fw wake_tick Ft. intros Ht. apply (so_asleep _ O) in Ht. lia.
  - split; rewrite ?Fr ?Fw ?Fa ?Fn ?Fi ?Fm; try apply Q.
    + intros t Ht. rw status_tick. by apply Q.
    + intros t Ht. rw status_tick. by apply Q.
  - intros t. rw Fa -(so_live _ O) lookup_tick. case_decide; [by rw fmap_is_Some|done].
  - rw Fn status_tick. apply O.
  - intros t. rewrite Fa Fr Fw Fn Fi Fm. apply O.
Qed.
End Tick.

(** ** Waking up *)

Lemma lookup_unblock A t u :
  a_thr (a_unblock t A) !! u =
    if decide (t = u) then set_info_status THREAD_READY <$> a_thr A !! u else a_thr A !! u.
Proof. apply (lookup_set_status (w_ready A _)). Qed.

Section Wake.
Context (n : Z).

(** One woken sleeper. *)
#[local] Abbreviation wake1 A t := (a_unblock t (w_wait A (filter (λ u, u ≠ t) (a_wait A)))).

Lemma due_wake1 A t u : due (wake1 A t) n u ↔ due A n u.
Proof. rw /due. by rw (wake_set_status (w_ready (w_wait A _) _) t u). Qed.

Lemma wake_loop_spec ws A :
  NoDup ws →
  a_ready (a_wake_loop n ws A) = a_ready A ++ filter (due A n) ws ∧
  a_wait (a_wake_loop n ws A) = filter (λ t, ¬ (t ∈ ws ∧ due A n t)) (a_wait A) ∧
  (∀ t, a_thr (a_wake_loop n ws A) !! t =
     if decide (t ∈ ws ∧ due A n t) then set_info_status THREAD_READY <$> a_thr A !! t
     else a_thr A !! t) ∧
  (∀ {B} (f : sched → B), (∀ A q, f (w_ready A q) = f A) → (∀ A q, f (w_wait A q) = f A) →
     (∀ A q, f (w_thr A q) = f A) → f (a_wake_loop n ws A) = f A).
Proof.
  revert A. induction ws as [|t ws IH]; intros A Hnd; cbn [a_wake_loop].
  { split_and!.
    - by rw /= app_nil_r.
    - rw filter_all //. set_solver.
    - intros t. case_decide as Hin; [|done]. by destruct Hin as [[]%elem_of_nil _].
    - done. }
  apply NoDup_cons in Hnd as [Ht Hnd].
  assert (∀ u, u ∈ ws → u ≠ t) as Hne by set_solver.
  destruct (decide (due A n t)) as [Hd|Hd].
  - destruct (IH (wake1 A t) Hnd) as (E1 & E2 & E3 & E4). split_and!.
    + rw E1 /= filter_cons_True // -app_assoc. f_equal. simpl. f_equal.
      apply list_filter_iff. apply due_wake1.
    + rw E2 /= list_filter_filter. apply list_filter_iff. intros u.
      rw due_wake1 elem_of_cons. destruct (decide (u = t)) as [->|]; tauto.
    + intros u. rw E3 lookup_unblock /=.
      destruct (decide (t = u)) as [<-|Hu].
      * rw decide_False; [tauto|]. rw decide_True //. set_solver.
      * assert ((u ∈ ws ∧ due (wake1 A t) n u) ↔ (u ∈ t :: ws ∧ due A n u)) as Hiff.
        { rw due_wake1 elem_of_cons. naive_solver. }
        case_decide as H1; case_decide as H2; tauto.
    + intros B f F1 F2 F3. rw E4 //. rw /a_unblock /set_status. by rw F3 F1 F2.
  - destruct (IH A Hnd) as (E1 & E2 & E3 & E4). split_and!; [| | |done].
    + rw E1 filter_cons_False //.
    + rw E2. apply list_filter_iff. intros u. rw elem_of_cons.
      destruct (decide (u = t)) as [->|]; tauto.
    + intros u. rw E3.
      assert ((u ∈ ws ∧ due A n u) ↔ (u ∈ t :: ws ∧ due A n u)) as Hiff.
      { rw elem_of_cons. destruct (decide (u = t)) as [->|]; tauto. }
      case_decide as H1; case_decide as H2; tauto.
Qed.
End Wake.

(** The whole walk: due sleepers go to the ready queue in order, the others stay. *)
Lemma wake_up_spec n A :
  NoDup (a_wait A) →
  a_ready (a_wake_up n A) = a_ready A ++ filter (due A n) (a_wait A) ∧
  a_wait (a_wake_up n A) = filter (λ t, ¬ due A n t) (a_wait A) ∧
  (∀ t, a_thr (a_wake_up n A) !! t =
     if decide (t ∈ a_wait A ∧ due A n t)
     then set_info_status THREAD_READY <$> a_thr A !! t else a_thr A !! t) ∧
  (∀ {B} (f : sched → B), (∀ A q, f (w_ready A q) = f A) → (∀ A q, f (w_wait A q) = f A) →
     (∀ A q, f (w_thr A q) = f A) → f (a_wake_up n A) = f A).
Proof.
  intros Hnd. destruct (wake_loop_spec n (a_wait A) A Hnd) as (E1 & E2 & E3 & E4).
  split_and!; [done| |done..]. rw /a_wake_up E2. apply filter_ext_in. tauto.
Qed.

Section WakeOk.
Context (A : sched) (K : tick_ok A).
#[local] Abbreviation A1 := (a_wake_up (a_now A) A).

Lemma tick_wait_nodup : NoDup (a_wait A).
Proof. pose proof (qo_nodup _ (tk_queues _ K)) as H. by apply NoDup_app in H as (_ & _ & H). Qed.

Lemma due_now t : t ∈ a_wait A → due A (a_now A) t ↔ wake_of A t = a_now A.
Proof.
  intros Ht. pose proof (tk_asleep _ K t Ht). destruct (tk_clock _ K).
  rw /due uint64_id; unfold INT_MAX in *; lia.
Qed.

Lemma wake_up_ok : sched_ok A1.
Proof.
  pose proof tick_wait_nodup as Hnd.
  destruct (wake_up_spec (a_now A) A Hnd) as (Er & Ew & Et & Ef).
  pose proof (Ef _ a_run ltac:(done) ltac:(done) ltac:(done)) as Fn.
  pose proof (Ef _ a_all ltac:(done) ltac:(done) ltac:(done)) as Fa.
  pose proof (Ef _ a_idle ltac:(done) ltac:(done) ltac:(done)) as Fi.
  pose proof (Ef _ a_main ltac:(done) ltac:(done) ltac:(done)) as Fm.
  pose proof (Ef _ a_now ltac:(done) ltac:(done) ltac:(done)) as Ft.
  pose proof (tk_queues _ K) as Q. pose proof (qo_nodup _ Q) as Hq.
  apply NoDup_app in Hq as (Hq1 & Hq2 & _).
  assert (∀ t, status_of A1 t = if decide (t ∈ a_wait A ∧ due A (a_now A) t)
    then Some THREAD_READY else status_of A t) as Es.
  { intros t. rw /status_of Et. case_decide as Hd; [|done].
    destruct Hd as [Hd%(qo_wait _ Q) _]. rw /status_of in Hd.
    by destruct (a_thr A !! t). }
  assert (∀ t, t ∉ a_wait A → status_of A1 t = status_of A t) as Es'.
  { intros t Ht. rw Es. case_decide as Hd; [|done]. by destruct Hd. }
  split.
  - eapply clock_ok_ext; [apply K|by apply (Ef _ (λ A, (a_idle_ticks A, a_kernel_ticks A,
      a_now A, a_next_tid A, a_main A)))|left; by apply (Ef _ a_slice)|].
    intros t i. rw Et. case_decide; [|eauto]. intros (j & ? & ->)%fmap_Some. eauto.
  - intros t. rw Ew list_elem_of_filter Ft. intros [Hd Ht].
    assert (wake_of A1 t = wake_of A t) as ->.
    { rw /wake_of Et. case_decide; [|done]. by destruct (a_thr A !! t). }
    pose proof (tk_asleep _ K t Ht). rw due_now // in Hd. lia.
  - split; rewrite ?Er ?Ew ?Fa ?Fi ?Fm ?Fn.
    + apply Q.
    + intros t [Ht|[Hd Ht]%list_elem_of_filter]%elem_of_app; rw Es.
      * case_decide as Hd; [by destruct Hd|]. by apply Q.
      * by rw decide_True.
    + intros t [Hd Ht]%list_elem_of_filter. rw Es decide_False; [tauto|]. by apply Q.
    + rw -app_assoc. apply NoDup_app. split_and!; [done| |].
      * intros t Ht. rw elem_of_app !list_elem_of_filter. apply Hq2 in Ht. tauto.
      * apply NoDup_app. split_and!; [by apply NoDup_filter| |by apply NoDup_filter].
        intros t. rw !list_elem_of_filter. tauto.
    + destruct (qo_idle _ Q) as (? & ? & ?). rw elem_of_app !list_elem_of_filter. tauto.
    + destruct (qo_main _ Q) as (? & ? & ? & ? & ?). rw elem_of_app !list_elem_of_filter.
      tauto.
  - intros t. rw Fa -(tk_live _ K) Et. case_decide; [by rw fmap_is_Some|done].
  - rw Fn Es'; [|apply K]. intros Hin%(qo_wait _ Q). by rw (tk_run _ K) in Hin.
  - intros t. rewrite Fa Er Ew Fn Fi Fm. intros Ht.
    rw elem_of_app !list_elem_of_filter.
    destruct (decide (due A (a_now A) t)); destruct (tk_complete _ K t Ht); tauto.
Qed.
End WakeOk.

Lemma timer_interrupt_ok A :
  sched_ok A → (a_now A < INT_MAX)%Z → sched_ok (a_timer_interrupt A).
Proof. intros O Hn. by apply wake_up_ok, tick_tick_ok. Qed.

(** ** Creation *)

Lemma add_ok t dur A :
  sched_ok A → a_thr A !! t = None → (0 ≤ dur ≤ INT_MAX)%Z → (a_next_tid A < INT_MAX)%Z →
  sched_ok (a_add t dur A).
Proof.
  intros O Hn Hd Hid. pose proof (so_queues _ O) as Q. destruct (so_clock _ O).
  assert (t ∉ a_all A) as Ha.
  { rw -(so_live _ O) Hn. by intros []. }
  assert (∀ u, u ∈ a_ready A ∨ u ∈ a_wait A ∨ u = a_run A ∨ u = a_idle A ∨ u = a_main A →
    u ≠ t) as Hne.
  { intros u Hu ->. apply Ha, (so_live _ O).
    assert (is_Some (status_of A t) → is_Some (a_thr A !! t)) as Hs by (by rw fmap_is_Some).
    destruct Hu as [H|[H|[->|[->| ->]]]].
    - apply Hs. rw (qo_ready _ Q) //.
    - apply Hs. rw (qo_wait _ Q) //.
    - apply Hs. rw (so_run _ O) //.
    - apply (so_live _ O), Q.
    - apply (so_live _ O), Q. }
  set (B := a_add t dur A).
  assert (a_thr B !! t = Some (TInfo THREAD_READY dur 0)) as Et.
  { rw /B /a_add lookup_unblock decide_True //= lookup_insert_eq //. }
  assert (∀ u, u ≠ t → a_thr B !! u = a_thr A !! u) as Eo.
  { intros u Hu. rw /B /a_add lookup_unblock decide_False //= lookup_insert_ne //. }
  assert (∀ u, u ≠ t → status_of B u = status_of A u) as Es.
  { intros u Hu. by rw /status_of Eo. }
  split; simpl.
  - split; simpl; try done; [|lia]. intros u i. destruct (decide (u = t)) as [->|Hu].
    + rw Et. intros [= <-]. simpl. lia.
    + rw Eo //. eauto.
  - intros u Hu. simpl in Hu. rw /wake_of Eo; [auto|]. by apply (so_asleep _ O).
  - split; simpl.
    + apply NoDup_app. split_and!; [apply Q| |apply NoDup_singleton]. set_solver.
    + intros u [Hu| ->%list_elem_of_singleton]%elem_of_app; [|by rw /status_of Et].
      rw Es; [auto|]. by apply Q.
    + intros u Hu. rw Es; [auto|]. by apply Q.
    + pose proof (qo_nodup _ Q) as Hq. rw -app_assoc /=.
      rw -(Permutation_middle (a_ready A) (a_wait A) t). apply NoDup_cons. split; [|done].
      rw elem_of_app. intros [Hin|Hin]; destruct (Hne t); auto.
    + pose proof (qo_idle _ Q). assert (a_idle A ≠ t) by (apply Hne; tauto).
      rw !elem_of_app !list_elem_of_singleton. tauto.
    + pose proof (qo_main _ Q). assert (a_main A ≠ t) by (apply Hne; tauto).
      rw !elem_of_app !list_elem_of_singleton. tauto.
  - intros u. rw elem_of_app list_elem_of_singleton -(so_live _ O).
    destruct (decide (u = t)) as [->|Hu]; [|rw Eo //; tauto]. rw Et. split; eauto.
  - rw Es; [auto|]. apply O.
  - intros u. rw !elem_of_app list_elem_of_singleton. intros [Hu|?]; [|tauto].
    destruct (so_complete _ O u Hu); tauto.
Qed.

Lemma create_ok t dur A :
  sched_ok A → a_thr A !! t = None → (0 ≤ dur ≤ INT_MAX)%Z → (a_next_tid A < INT_MAX)%Z →
  sched_ok (a_create t dur A).
Proof. intros. by apply block_if_idle_ok, add_ok. Qed.
