(* ===== verification/SchedFacts.v ===== *)
(** * What the scheduler guarantees over time

    Facts about sequences of operations of the abstract scheduler: round-robin
    rotation, bounded waiting, FIFO runs to completion, sleepers stay asleep until
    their tick, and the processor is not left idle while a thread is ready. *)

From S2P Require Import Prelude Machine Sched SchedInv.

(** ** Fields that an operation leaves alone *)

(** Observers that do not look at the queues, the statuses, the running thread, the
    slice or [a_all]: scheduling decisions do not change them. *)
Class Stable {B} (f : sched → B) : Prop := {
  st_thr A q : f (w_thr A q) = f A;
  st_ready A q : f (w_ready A q) = f A;
  st_wait A q : f (w_wait A q) = f A;
  st_all A q : f (w_all A q) = f A;
  st_run A q : f (w_run A q) = f A;
  st_slice A q : f (w_slice A q) = f A;
}.

#[global] Instance stable_idle : Stable a_idle. Proof. by split. Qed.
#[global] Instance stable_main : Stable a_main. Proof. by split. Qed.
#[global] Instance stable_now : Stable a_now. Proof. by split. Qed.
#[global] Instance stable_mode : Stable a_mode. Proof. by split. Qed.
#[global] Instance stable_quantum : Stable a_quantum. Proof. by split. Qed.
#[global] Instance stable_force : Stable a_force. Proof. by split. Qed.
#[global] Instance stable_mask : Stable a_mask. Proof. by split. Qed.
#[global] Instance stable_idle_ticks : Stable a_idle_ticks. Proof. by split. Qed.
#[global] Instance stable_kernel_ticks : Stable a_kernel_ticks. Proof. by split. Qed.
#[global] Instance stable_next_tid : Stable a_next_tid. Proof. by split. Qed.

Section StableOps.
Context {B} (f : sched → B) `{!Stable f}.

Lemma stable_set_status A t v : f (set_status A t v) = f A.
Proof. apply st_thr. Qed.

Lemma stable_schedule A : f (a_schedule A) = f A.
Proof.
  rw /a_schedule. case_match; [rw st_thr|];
    by rw stable_set_status st_slice st_run st_ready.
Qed.

Lemma stable_block A : f (a_block A) = f A.
Proof. rw /a_block stable_schedule stable_set_status //. Qed.

Lemma stable_block_if_idle A : f (a_block_if_idle A) = f A.
Proof. rw /a_block_if_idle. case_match; [apply stable_block|done]. Qed.

Lemma stable_yield A : f (a_yield A) = f A.
Proof.
  rw /a_yield. case_match; [done|]. rw stable_schedule stable_set_status.
  case_match; [done|apply st_ready].
Qed.

Lemma stable_exit A : f (a_exit A) = f A.
Proof.
  rw /a_exit. case_match; [apply stable_yield|].
  rw stable_schedule stable_set_status st_all //.
Qed.

Lemma stable_dispatch A : f (a_dispatch A) = f A.
Proof.
  rw /a_dispatch. repeat case_match; auto using stable_exit, stable_yield.
Qed.

Lemma stable_sleep n A : f (a_sleep n A) = f A.
Proof.
  rw /a_sleep. case_match; [|done]. rw /a_sleep_for stable_block st_wait st_thr //.
Qed.

Lemma stable_wake_loop n ws A : f (a_wake_loop n ws A) = f A.
Proof.
  revert A. induction ws as [|t ws IH]; intros A; simpl; [done|].
  case_decide; [|done]. rw IH /a_unblock stable_set_status st_ready st_wait //.
Qed.

Lemma stable_after_interrupt A :
  (∀ A v, f (w_force A v) = f A) → f (a_after_interrupt A) = f A.
Proof.
  intros Hf. assert (f (a_dispatch (a_block_if_idle A)) = f A) as E.
  { by rw stable_dispatch stable_block_if_idle. }
  rw /a_after_interrupt /a_forced. case_bool_decide; [done|]. case_bool_decide; [done|].
  by rw Hf stable_exit.
Qed.
End StableOps.

Lemma mask_timer_interrupt A : a_mask (a_timer_interrupt A) = a_mask A.
Proof.
  rw /a_timer_interrupt /a_wake_up (stable_wake_loop a_mask).
  destruct (tick_fields A) as (_ & _ & _ & _ & _ & _ & _ & _ & _ & _ & _ & E & _). done.
Qed.

Lemma mask_create t dur A : a_mask (a_create t dur A) = a_mask A.
Proof. rw /a_create (stable_block_if_idle a_mask) //. Qed.

(** ** The waiting list under scheduling *)

(** Only the clock wakes a sleeper: the scheduling operations keep it in the waiting
    list with its wake-up time. *)
Definition waits (A : sched) (t w : Z) : Prop := t ∈ a_wait A ∧ wake_of A t = w.

Lemma waits_set_status A t w u v : waits A t w → waits (set_status A u v) t w.
Proof. intros [H1 H2]. split; [done|]. by rw wake_set_status. Qed.

Lemma waits_schedule A t w : switch_ok A → waits A t w → waits (a_schedule A) t w.
Proof.
  intros W [H1 H2]. destruct (schedule_fields A) as (_ & Fw & _). split; [by rw Fw|].
  rw schedule_wake //. apply (status_in_all _ W _ _ (qo_wait _ (sw_queues _ W) _ H1)). by right.
Qed.

Section Waits.
Context (A : sched) (O : sched_ok A) (t w : Z) (Hw : waits A t w).

Lemma waits_block_if_idle : waits (a_block_if_idle A) t w.
Proof.
  rw /a_block_if_idle. case_bool_decide; [|done].
  apply waits_schedule; [by apply leave_idle|by apply waits_set_status].
Qed.

Lemma waits_yield : waits (a_yield A) t w.
Proof.
  rw /a_yield. destruct (a_ready A) as [|x q] eqn:Hr; [done|]. rewrite -Hr.
  case_bool_decide as Hi; simpl; [|case_bool_decide as Hm].
  - apply waits_schedule; [by apply leave_idle|by apply waits_set_status].
  - by destruct (run_not_main A O).
  - apply waits_schedule; [by apply leave_ready|by apply waits_set_status].
Qed.

Lemma waits_exit : waits (a_exit A) t w.
Proof.
  rw /a_exit. case_bool_decide as Hm; [by destruct (run_not_main A O)|].
  case_bool_decide as Hi; simpl; [by apply waits_yield|].
  apply waits_schedule; [by apply leave_dying|by apply waits_set_status].
Qed.

Lemma waits_sleep n :
  a_run A ≠ a_idle A → (a_now A + n ≤ INT_MAX)%Z → waits (a_sleep n A) t w.
Proof.
  intros Hi Hn. rw /a_sleep. case_bool_decide; [|done].
  apply waits_schedule; [exact (leave_wait A O n Hi ltac:(done) Hn)|].
  apply waits_set_status. destruct Hw as [H1 H2]. split; simpl; [set_solver|].
  rw -H2 /wake_of /= lookup_alter_ne //. intros <-. by apply (run_not_wait A O).
Qed.

Lemma waits_add u dur : a_thr A !! u = None → waits (a_add u dur A) t w.
Proof.
  intros Hu. destruct Hw as [H1 H2]. split; [done|].
  assert (u ≠ t) as Hne.
  { intros <-. apply (qo_wait _ (so_queues _ O)) in H1. by rw /status_of Hu in H1. }
  rw -H2 /wake_of lookup_unblock decide_False //= lookup_insert_ne //.
Qed.

(** The tick wakes those whose time has come, and no other. *)
Lemma waits_timer :
  (a_now A < INT_MAX)%Z → (a_now A + 1 < w)%Z → waits (a_timer_interrupt A) t w.
Proof.
  intros Hn Hlt. destruct Hw as [H1 H2]. pose proof (tick_tick_ok A O Hn) as K.
  destruct (tick_fields A) as (_ & Fw & _ & _ & _ & _ & Ft & _).
  pose proof (wake_tick A t) as Ewt. rw /a_timer_interrupt.
  set (A1 := a_tick (w_now A (a_now A + 1))) in *. clearbody A1.
  destruct (wake_up_spec (a_now A1) A1 (tick_wait_nodup _ K)) as (_ & Ew & Et & _).
  split.
  - rw Ew list_elem_of_filter Fw. split; [|done]. rw due_now ?Fw //. lia.
  - rw -H2 -Ewt /wake_of Et. case_decide; [|done]. by destruct (a_thr A1 !! t).
Qed.

Lemma wakes_timer :
  (a_now A < INT_MAX)%Z → (a_now A + 1 = w)%Z →
  t ∈ a_ready (a_timer_interrupt A) ∧ t ∉ a_wait (a_timer_interrupt A).
Proof.
  intros Hn Hlt. destruct Hw as [H1 H2]. pose proof (tick_tick_ok A O Hn) as K.
  destruct (tick_fields A) as (_ & Fw & _ & _ & _ & _ & Ft & _).
  pose proof (wake_tick A t) as Ewt. rw /a_timer_interrupt.
  set (A1 := a_tick (w_now A (a_now A + 1))) in *. clearbody A1.
  destruct (wake_up_spec (a_now A1) A1 (tick_wait_nodup _ K)) as (Er & Ew & Et & _).
  assert (due A1 (a_now A1) t) as Hd by (rw due_now ?Fw //; lia).
  rw Er Ew elem_of_app !list_elem_of_filter Fw. tauto.
Qed.
End Waits.

(** ** Round-robin rotation *)

(** The threads in the order they will run: the running one, then the queue. *)
Definition cycle (A : sched) : list Z := a_run A :: a_ready A.

Definition rotate1 (l : list Z) : list Z :=
  match l with
  | [] => []
  | x :: l => l ++ [x]
  end.

Lemma yield_rotates A :
  sched_ok A → a_run A ≠ a_idle A →
  cycle (a_yield A) = rotate1 (cycle A) ∧ a_run (a_yield A) ≠ a_idle (a_yield A).
Proof.
  intros O Hi. rw (stable_yield a_idle). rw /a_yield. destruct (a_ready A) as [|t q] eqn:Hr.
  { rw /cycle Hr //. }
  rw bool_decide_eq_false_2 // bool_decide_eq_false_2 /=; [by apply run_not_main|].
  match goal with |- context [a_schedule ?B] => pose proof (schedule_fields B) as F end.
  destruct F as (Fr & _ & _ & Fn & _). rw /cycle Fr Fn /a_next /= Hr. split; [done|].
  intros E. destruct (qo_idle _ (so_queues _ O)) as (_ & H & _). apply H. rw Hr -E. set_solver.
Qed.

Lemma iter_yield_rotates n A :
  sched_ok A → a_run A ≠ a_idle A →
  cycle (Nat.iter n a_yield A) = Nat.iter n rotate1 (cycle A) ∧
  sched_ok (Nat.iter n a_yield A) ∧ a_run (Nat.iter n a_yield A) ≠ a_idle (Nat.iter n a_yield A).
Proof.
  intros O Hi. induction n as [|n (E & O' & Hi')]; [done|]. simpl.
  destruct (yield_rotates _ O' Hi') as [E1 Hi1]. rw E1 E. split_and!; [done| |done].
  by apply yield_ok.
Qed.

Lemma iter_rotate1 n l : n ≤ length l → Nat.iter n rotate1 l = drop n l ++ take n l.
Proof.
  induction n as [|n IH]; intros Hn; [by rw /= app_nil_r|]. simpl. rw IH; [lia|].
  destruct (lookup_lt_is_Some_2 l n) as [x Hx]; [lia|].
  rw (drop_S l x n) //= (take_S_r l n x) // app_assoc //.
Qed.

(** ** Rounds of the scheduling loop *)

Definition a_round (A : sched) : sched := a_after_interrupt (a_timer_interrupt A).

(** [a_round] on a state that asks for no forced exit. *)
Lemma a_forced_0 A : a_force A = 0%Z → a_forced A = A.
Proof. intros E. by rw /a_forced bool_decide_eq_true_2. Qed.

Section Timer.
Context (A : sched) (O : sched_ok A) (Hn : (a_now A < INT_MAX)%Z).
#[local] Abbreviation A1 := (a_timer_interrupt A).

Lemma timer_fields :
  a_run A1 = a_run A ∧ a_idle A1 = a_idle A ∧ a_main A1 = a_main A ∧
  a_now A1 = (a_now A + 1)%Z ∧ a_mode A1 = a_mode A ∧ a_quantum A1 = a_quantum A ∧
  a_force A1 = a_force A ∧ a_slice A1 = uint32 (a_slice A + 1) ∧ a_all A1 = a_all A.
Proof.
  destruct (tick_fields A) as (_ & _ & Ga & Gn & Gi & Gm & Gt & _ & Gd & Gq & Gf & _ & Gs).
  destruct (wake_up_spec (a_now (a_tick (w_now A (a_now A + 1)))) (a_tick (w_now A (a_now A + 1)))
    (tick_wait_nodup _ (tick_tick_ok A O Hn))) as (_ & _ & _ & Ef).
  rw /a_timer_interrupt.
  split_and!; (rewrite Ef; [done..|]); congruence.
Qed.

(** The ready queue only grows at the back. *)
Lemma timer_ready : ∃ l, a_ready A1 = a_ready A ++ l.
Proof.
  destruct (tick_fields A) as (Gr & _).
  destruct (wake_up_spec (a_now (a_tick (w_now A (a_now A + 1)))) (a_tick (w_now A (a_now A + 1)))
    (tick_wait_nodup _ (tick_tick_ok A O Hn))) as (Er & _).
  rw /a_timer_interrupt Er Gr. eauto.
Qed.

(** The sleepers due at the new time, in order, and the others. *)
Lemma timer_queues :
  a_ready A1 = a_ready A ++ filter (λ t, wake_of A t = a_now A + 1)%Z (a_wait A) ∧
  a_wait A1 = filter (λ t, wake_of A t ≠ a_now A + 1)%Z (a_wait A).
Proof.
  pose proof (tick_tick_ok A O Hn) as K. pose proof (wake_tick A) as Ewt.
  destruct (tick_fields A) as (Gr & Gw & _ & _ & _ & _ & Gt & _).
  rw /a_timer_interrupt. set (T := a_tick (w_now A (a_now A + 1))) in *. clearbody T.
  destruct (wake_up_spec (a_now T) T (tick_wait_nodup _ K)) as (Er & Ew & _).
  rw Er Ew Gr Gw. split; [f_equal|]; apply filter_ext_in; intros t Ht;
    by rw (due_now _ K) ?Gw // Ewt Gt.
Qed.

Lemma timer_dur t : dur_of A1 t = (if decide (t = a_run A) then dur_of A t - 1 else dur_of A t)%Z.
Proof.
  destruct (wake_up_spec (a_now (a_tick (w_now A (a_now A + 1)))) (a_tick (w_now A (a_now A + 1)))
    (tick_wait_nodup _ (tick_tick_ok A O Hn))) as (_ & _ & Et & _).
  rw /a_timer_interrupt /dur_of Et. destruct (run_live A O) as [i Hi].
  assert (∀ o : option tinfo, t_dur <$> (set_info_status THREAD_READY <$> o) = t_dur <$> o) as Es
    by (by intros []).
  case_decide; rewrite ?Es lookup_tick; repeat case_decide; subst; try done; by rw Hi.
Qed.
End Timer.

(** ** The processor is never left idle, and the quantum is respected *)

Definition busy (A : sched) : Prop := a_run A = a_idle A → a_ready A = [].

Lemma schedule_busy A : switch_ok A → busy (a_schedule A).
Proof.
  intros W. rw /busy. destruct (schedule_fields A) as (Fr & _ & _ & Fn & Fi & _). rw Fr Fn Fi /a_next.
  destruct (a_ready A) as [|t q] eqn:Hr; [done|]. simpl. intros E.
  destruct (qo_idle _ (sw_queues _ W)) as (_ & H & _). destruct H. rw Hr E. set_solver.
Qed.

Lemma yield_busy A : sched_ok A → busy (a_yield A) ∧ (a_ready (a_yield A) = [] ∨ a_slice (a_yield A) = 0%Z).
Proof.
  intros O. rw /a_yield. destruct (a_ready A) as [|t q] eqn:Hr; [by rw /busy Hr; auto|].
  rewrite -Hr.
  match goal with |- context [a_schedule ?B] =>
    pose proof (schedule_fields B) as (_ & _ & _ & _ & _ & _ & Fs & _);
    assert (switch_ok B) as W end.
  { case_bool_decide as Hi; simpl; [by apply leave_idle|].
    case_bool_decide as Hm; [by destruct (run_not_main A O)|]. by apply leave_ready. }
  split; [by apply schedule_busy|by right].
Qed.

Lemma exit_busy A : sched_ok A → busy (a_exit A) ∧ (a_ready (a_exit A) = [] ∨ a_slice (a_exit A) = 0%Z).
Proof.
  intros O. rw /a_exit. case_bool_decide as Hm; [by destruct (run_not_main A O)|].
  case_bool_decide as Hi; simpl; [by apply yield_busy|].
  match goal with |- context [a_schedule ?B] =>
    pose proof (schedule_fields B) as (_ & _ & _ & _ & _ & _ & Fs & _);
    assert (switch_ok B) as W by (by apply leave_dying) end.
  split; [by apply schedule_busy|by right].
Qed.

Lemma block_if_idle_busy A : sched_ok A → busy (a_block_if_idle A).
Proof.
  intros O. rw /a_block_if_idle. case_bool_decide; [|by intros ?].
  apply schedule_busy. by apply leave_idle.
Qed.

Lemma dispatch_busy A : sched_ok A → busy A → busy (a_dispatch A).
Proof.
  intros O Hb. rw /a_dispatch. case_bool_decide; [by apply exit_busy|].
  case_bool_decide; [done|]. destruct (a_ready A); [done|].
  case_bool_decide; [by apply yield_busy|done].
Qed.

Lemma after_interrupt_busy A : sched_ok A → busy (a_after_interrupt A).
Proof.
  intros O. rw /a_after_interrupt.
  assert (busy (a_dispatch (a_block_if_idle A))) as Hb.
  { apply dispatch_busy; [by apply block_if_idle_ok|by apply block_if_idle_busy]. }
  rw /a_forced. do 2 (case_bool_decide; [done|]).
  apply (exit_busy (a_dispatch (a_block_if_idle A))). by apply dispatch_ok, block_if_idle_ok.
Qed.

(** In round-robin mode, after a round, either nobody waits for the processor or the
    running thread has quantum left. *)
Lemma after_interrupt_quantum A :
  sched_ok A → a_mode A ≠ 0%Z → (0 < a_quantum A)%Z →
  let B := a_after_interrupt A in a_ready B = [] ∨ (a_slice B < a_quantum A)%Z.
Proof.
  intros O Hm Hq. simpl. rw /a_after_interrupt.
  pose proof (block_if_idle_ok A O) as O1.
  pose proof (stable_block_if_idle a_mode A) as Em.
  pose proof (stable_block_if_idle a_quantum A) as Eq.
  set (A1 := a_block_if_idle A) in *. clearbody A1.
  assert (a_ready (a_dispatch A1) = [] ∨ (a_slice (a_dispatch A1) < a_quantum A)%Z) as H1.
  { rw /a_dispatch. case_bool_decide.
    { destruct (exit_busy A1 O1) as [_ [?|E]]; [by left|right; lia]. }
    rw (bool_decide_eq_false_2 (a_mode A1 = 0%Z)); [congruence|].
    destruct (a_ready A1) eqn:Hr; [by left|]. case_bool_decide; [|right; lia].
    destruct (yield_busy A1 O1) as [_ [?|E]]; [by left|right; lia]. }
  pose proof (dispatch_ok A1 O1) as O2. set (A2 := a_dispatch A1) in *. clearbody A2.
  rw /a_forced. do 2 (case_bool_decide; [done|]).
  destruct (exit_busy A2 O2) as [_ [?|E]]; [by left|right; simpl; lia].
Qed.

(** ** FIFO: a thread runs until its time is over *)

Lemma round_no_force A :
  sched_ok A → (a_now A < INT_MAX)%Z → a_force A = 0%Z →
  a_round A = a_dispatch (a_block_if_idle (a_timer_interrupt A)).
Proof.
  intros O Hn Hf. destruct (timer_fields A O Hn) as (_ & _ & _ & _ & _ & _ & Ef & _).
  rw /a_round /a_after_interrupt a_forced_0 //.
  rw (stable_dispatch a_force) (stable_block_if_idle a_force). congruence.
Qed.

Lemma round_ok A : sched_ok A → (a_now A < INT_MAX)%Z → sched_ok (a_round A).
Proof. intros O Hn. by apply after_interrupt_ok, timer_interrupt_ok. Qed.

Section Fifo.
Context (A : sched) (O : sched_ok A) (Hn : (a_now A < INT_MAX)%Z).
Context (Hrun : a_run A ≠ a_idle A) (Hmode : a_mode A = 0%Z) (Hforce : a_force A = 0%Z).

Lemma fifo_continue :
  (1 < dur_of A (a_run A))%Z → a_round A = a_timer_interrupt A.
Proof.
  intros Hd. rw round_no_force //.
  destruct (timer_fields A O Hn) as (En & Ei & _ & _ & Em & _).
  rw /a_block_if_idle En Ei bool_decide_eq_false_2 //.
  rw /a_dispatch En timer_dur // decide_True // bool_decide_eq_false_2; [lia|].
  by rw bool_decide_eq_true_2; [congruence|].
Qed.

Lemma fifo_exit : (dur_of A (a_run A) ≤ 1)%Z → a_run A ∉ a_all (a_round A).
Proof.
  intros Hd. rw round_no_force //.
  destruct (timer_fields A O Hn) as (En & Ei & Ema & _ & Em & _ & _ & _ & Ea).
  rw /a_block_if_idle En Ei bool_decide_eq_false_2 //.
  rw /a_dispatch En timer_dur // decide_True // bool_decide_eq_true_2; [lia|].
  rw /a_exit En Ei Ema (bool_decide_eq_false_2 (_ = a_main A)); [by apply run_not_main|].
  rw bool_decide_eq_false_2 //=.
  match goal with |- context [a_schedule ?B] =>
    pose proof (schedule_fields B) as (_ & _ & Fa & _) end.
  rw Fa /= list_elem_of_filter. tauto.
Qed.
End Fifo.

(** [k] rounds leave the thread running while it has time left. *)
Lemma fifo_runs k A :
  sched_ok A → a_run A ≠ a_idle A → a_mode A = 0%Z → a_force A = 0%Z →
  (a_now A + Z.of_nat k ≤ INT_MAX)%Z → (Z.of_nat k < dur_of A (a_run A))%Z →
  let B := Nat.iter k a_round A in
  sched_ok B ∧ a_run B = a_run A ∧ a_idle B = a_idle A ∧ a_mode B = 0%Z ∧ a_force B = 0%Z ∧
  a_now B = (a_now A + Z.of_nat k)%Z ∧ dur_of B (a_run A) = (dur_of A (a_run A) - Z.of_nat k)%Z.
Proof.
  intros O Hi Hm Hf. induction k as [|k IH]; intros Hn Hd; cbv zeta.
  { change (Nat.iter 0 a_round A) with A. split_and!; try done; lia. }
  rewrite Nat.iter_succ.
  destruct IH as (O' & Er & Ei & Em & Ef & En & Ed); [lia..|].
  set (B := Nat.iter k a_round A) in *. clearbody B.
  assert (a_now B < INT_MAX)%Z as Hb by lia.
  assert (a_round B = a_timer_interrupt B) as ->.
  { apply fifo_continue; try done; [congruence|]. rw Er. lia. }
  destruct (timer_fields B O' Hb) as (Fr & Fi & _ & Fn & Fm & _ & Ff & _).
  split; [exact (timer_interrupt_ok B O' Hb)|]. split_and!; try congruence.
  - rewrite Fn. lia.
  - rewrite timer_dur // decide_True //. lia.
Qed.

(** ** Bounded waiting in round-robin mode *)

(** An upper bound on the rounds before [t], behind [l] in the ready queue, runs. *)
Definition wait_bound (A : sched) (l : list Z) : Z :=
  (Z.of_nat (length l) * a_quantum A + Z.max 1 (a_quantum A - a_slice A))%Z.

(** [t] is in the queue at a place from which it runs within [n] rounds. *)
Definition soon (A : sched) (t n : Z) : Prop :=
  ∃ l1 l2, a_ready A = l1 ++ t :: l2 ∧ (wait_bound A l1 ≤ n)%Z.

Record rr_ok (A : sched) (t : Z) : Prop := {
  rr_sched : sched_ok A;
  rr_mode : a_mode A ≠ 0%Z;
  rr_quantum : (0 < a_quantum A)%Z;
  rr_dur : (0 < dur_of A t)%Z;
}.

Lemma schedule_dur A t : switch_ok A → t ∈ a_all A → dur_of (a_schedule A) t = dur_of A t.
Proof.
  intros W Ha. rw -(dur_set_status A (a_next A) t THREAD_RUNNING) /dur_of lookup_schedule.
  case_match eqn:E; [|done]. exfalso. apply andb_true_iff in E as [Hd E].
  apply bool_decide_eq_true in E as <-. rw dies_spec // in Hd.
  apply bool_decide_eq_true in Hd. by destruct (sw_dying _ W Hd).
Qed.

(** The processor passes to the head of the queue. *)
Definition passes (A B : sched) : Prop :=
  ∃ l, a_run B = a_next A ∧ a_ready B = tail (a_ready A) ++ l ∧ a_slice B = 0%Z ∧
       ∀ t, t ∈ a_ready A → dur_of B t = dur_of A t.

Lemma schedule_passes A B l :
  sched_ok A → switch_ok B → a_ready A ≠ [] → a_ready B = a_ready A ++ l →
  (∀ t, dur_of B t = dur_of A t) → passes A (a_schedule B).
Proof.
  intros O W Hne Hr Hd. destruct (schedule_fields B) as (Fr & _ & _ & Fn & _ & _ & Fs & _).
  exists l. rw Fr Fn Fs /a_next Hr. destruct (a_ready A) as [|t q] eqn:E; [done|].
  split_and!; [done..|]. intros u Hu. rw schedule_dur // ?Hd //.
  assert (status_of B u = Some THREAD_READY) as Hs.
  { apply (qo_ready _ (sw_queues _ W)). rw Hr. set_solver. }
  apply (status_in_all _ W _ _ Hs). by right.
Qed.

Lemma yield_passes A : sched_ok A → a_ready A ≠ [] → passes A (a_yield A).
Proof.
  intros O Hne. rw /a_yield. destruct (a_ready A) as [|t q] eqn:Hr; [done|]. rewrite -Hr.
  case_bool_decide as Hi; simpl; [|case_bool_decide as Hm].
  - eapply (schedule_passes A _ []); [done|by apply leave_idle|by rw Hr|by rw app_nil_r|].
    intros u. apply dur_set_status.
  - by destruct (run_not_main A O).
  - eapply schedule_passes; [done|by apply leave_ready|by rw Hr|done|].
    intros u. apply (dur_set_status (w_ready A (a_ready A ++ [a_run A]))).
Qed.

Lemma exit_passes A : sched_ok A → a_ready A ≠ [] → passes A (a_exit A).
Proof.
  intros O Hne. rw /a_exit. case_bool_decide as Hm; [by destruct (run_not_main A O)|].
  case_bool_decide as Hi; simpl; [by apply yield_passes|].
  eapply (schedule_passes A _ []); [done|by apply leave_dying|done|by rw app_nil_r|].
  intros u. by rw dur_set_status.
Qed.

(** A pass brings [t] to the processor or nearer to it. *)
Lemma passes_soon A B t n :
  passes A B → (0 < a_quantum A)%Z → a_quantum B = a_quantum A → soon A t n →
  a_run B = t ∨ soon B t (n - 1).
Proof.
  intros (l & Er & Eq & Es & _) Hq Hqq (l1 & l2 & Hr & Hb). rw Hr in Eq.
  destruct l1 as [|u l1]; [left; by rw Er /a_next Hr|right].
  exists l1, (l2 ++ l). split; [by rw Eq /= -app_assoc|].
  rw /wait_bound /= in Hb. rw /wait_bound Es Hqq. lia.
Qed.

Lemma soon_in_ready A t n : soon A t n → t ∈ a_ready A.
Proof. intros (l1 & l2 & -> & _). set_solver. Qed.

Lemma passes_dur A B t : passes A B → t ∈ a_ready A → dur_of B t = dur_of A t.
Proof. intros (l & _ & _ & _ & H) Ht. by apply H. Qed.

Lemma soon_mono A t n m : soon A t n → (n ≤ m)%Z → soon A t m.
Proof. intros (l1 & l2 & Hr & Hb) Hle. exists l1, l2. split; [done|lia]. Qed.

Lemma dispatch_soon C t n :
  rr_ok C t → soon C t n →
  let D := a_dispatch C in
  dur_of D t = dur_of C t ∧
  (a_run D = t ∨ soon D t (n - 1) ∨ (D = C ∧ (a_slice C < a_quantum C)%Z)).
Proof.
  intros [O Hm Hq Hd] Hs. simpl. pose proof (soon_in_ready _ _ _ Hs) as Hin.
  assert (a_ready C ≠ []) as Hne by (intros E; rw E in Hin; by apply elem_of_nil in Hin).
  assert (∀ D, passes C D → a_quantum D = a_quantum C →
    dur_of D t = dur_of C t ∧ (a_run D = t ∨ soon D t (n - 1) ∨
      (D = C ∧ (a_slice C < a_quantum C)%Z))) as Hp.
  { intros D P E. split; [by eapply passes_dur|]. destruct (passes_soon C D t n P); auto. }
  rw /a_dispatch. case_bool_decide.
  { apply Hp; [by apply exit_passes|apply (stable_exit a_quantum)]. }
  rw bool_decide_eq_false_2 //. destruct (a_ready C) eqn:E; [done|]. rewrite -E in Hne.
  case_bool_decide.
  - apply Hp; [by apply yield_passes|apply (stable_yield a_quantum)].
  - split; [done|]. right; right. split; [done|lia].
Qed.

Lemma dispatch_run C :
  sched_ok C → a_mode C ≠ 0%Z → (0 < a_quantum C)%Z → a_slice C = 0%Z →
  (0 < dur_of C (a_run C))%Z → a_dispatch C = C.
Proof.
  intros O Hm Hq Hs Hd. rw /a_dispatch bool_decide_eq_false_2; [lia|].
  rw bool_decide_eq_false_2 //. destruct (a_ready C); [done|].
  by rw bool_decide_eq_false_2; [lia|].
Qed.

(** One round: [t] runs, or is one round nearer. *)
Lemma round_soon A t n :
  rr_ok A t → (a_now A < INT_MAX)%Z → a_force A = 0%Z → soon A t n →
  dur_of (a_round A) t = dur_of A t ∧
  (a_run (a_round A) = t ∨ soon (a_round A) t (n - 1)).
Proof.
  intros [O Hm Hq Hd] Hn Hf Hs. rw round_no_force //.
  destruct (timer_fields A O Hn) as (En & Ei & _ & _ & Em & Eq & Ef & Es & _).
  destruct (timer_ready A O Hn) as [l Hl].
  pose proof (timer_interrupt_ok A O Hn) as OB.
  assert (a_run A ≠ t) as Hrt.
  { intros <-. apply (run_not_ready A O). by eapply soon_in_ready. }
  pose proof (timer_dur A O Hn t) as Ed. rw decide_False // in Ed.
  pose proof (ck_slice _ (so_clock _ O)) as Hsl. pose proof (ck_now _ (so_clock _ O)) as Hnw.
  rw uint32_id in Es; [unfold INT_MAX in *; lia|].
  set (B := a_timer_interrupt A) in *. clearbody B.
  assert (soon B t n ∧ ((a_slice B < a_quantum B)%Z → soon B t (n - 1))) as [HsB HsB'].
  { destruct Hs as (l1 & l2 & Hr & Hb). rw /wait_bound in Hb.
    split; [|intros Hlt]; exists l1, (l2 ++ l);
      (split; [by rw Hl Hr -app_assoc|]); rw /wait_bound Eq Es; lia. }
  assert (rr_ok B t) as RB by (split; [done|congruence|lia|lia]).
  rw -Ed. rw /a_block_if_idle. case_bool_decide as Hidle.
  - pose proof (soon_in_ready _ _ _ HsB) as Hin.
    assert (a_ready B ≠ []) as Hne by (intros E; rw E in Hin; by apply elem_of_nil in Hin).
    pose proof (block_if_idle_ok B OB) as OC. rw /a_block_if_idle bool_decide_eq_true_2 // in OC.
    assert (passes B (a_block B)) as P.
    { eapply (schedule_passes B _ []); [done|by apply leave_idle|done|by rw app_nil_r|].
      intros u. apply dur_set_status. }
    pose proof (stable_block a_mode B) as Fm. pose proof (stable_block a_quantum B) as Fq.
    pose proof (passes_dur _ _ _ P Hin) as Fd.
    pose proof (passes_soon B (a_block B) t n P ltac:(lia) Fq HsB) as Hor.
    destruct P as (_ & _ & _ & Fs & _). set (C := a_block B) in *. clearbody C.
    assert (rr_ok C t) as RC by (split; [done|congruence|lia|lia]).
    destruct Hor as [Hrun|Hsoon].
    + rw dispatch_run //; [congruence|lia|rw Hrun; lia|]. split; [done|by left].
    + destruct (dispatch_soon C t (n - 1) RC Hsoon) as [E1 Hor]. rw E1. split; [done|].
      destruct Hor as [?|[?|[-> _]]]; [by left|right|by right].
      eapply soon_mono; [done|lia].
  - destruct (dispatch_soon B t n RB HsB) as [E1 Hor]. rw E1. split; [done|].
    destruct Hor as [?|[?|[E Hlt]]]; [by left|by right|]. rewrite E. right. auto.
Qed.

(** [t] runs within [n] rounds. *)
Lemma rounds_soon n A t :
  rr_ok A t → a_force A = 0%Z → (a_now A + Z.of_nat n ≤ INT_MAX)%Z → soon A t (Z.of_nat n) →
  ∃ k, (0 < k ≤ n)%nat ∧ a_run (Nat.iter k a_round A) = t.
Proof.
  revert A. induction n as [|n IH]; intros A [O Hm Hq Hd] Hf Hn Hs.
  { destruct Hs as (l1 & l2 & _ & Hb). rw /wait_bound in Hb. lia. }
  assert (a_now A < INT_MAX)%Z as Hlt by lia.
  destruct (round_soon A t _ (Build_rr_ok _ _ O Hm Hq Hd) Hlt Hf Hs) as [Ed [Hr|Hs']].
  { exists 1. split; [lia|done]. }
  pose proof (round_ok A O Hlt) as O'.
  destruct (timer_fields A O Hlt) as (_ & _ & _ & En & Em & Eq & Ef & _).
  assert (∀ {X} (f : sched → X), Stable f → f (a_round A) = f (a_timer_interrupt A)) as Fst.
  { intros X f Hst. rw round_no_force // (stable_dispatch f) (stable_block_if_idle f) //. }
  destruct (IH (a_round A)) as (k & Hk & E).
  - split; [done|rw (Fst _ a_mode _); congruence|rw (Fst _ a_quantum _); lia|lia].
  - rw (Fst _ a_force _). congruence.
  - rw (Fst _ a_now _). lia.
  - eapply soon_mono; [done|lia].
  - exists (S k). split; [lia|]. by rw Nat.iter_succ_r.
Qed.

(** ** Blocking the idle thread *)

Lemma block_if_idle_all A : a_all (a_block_if_idle A) = a_all A.
Proof.
  rw /a_block_if_idle. case_match; [|done].
  by destruct (schedule_fields (set_status A (a_run A) THREAD_BLOCKED)) as (_ & _ & Fa & _).
Qed.

Lemma dur_block_if_idle A t :
  sched_ok A → t ∈ a_all A → dur_of (a_block_if_idle A) t = dur_of A t.
Proof.
  intros O Ht. rw /a_block_if_idle. case_bool_decide; [|done].
  rw /a_block schedule_dur ?dur_set_status //. by apply leave_idle.
Qed.
