(* ===== verification/Drain.v ===== *)
(** * Every thread completes

    The work left in a scheduler, and that rounds of the timer and the loop use it up:
    with no new calls, after a number of rounds given by the durations and the wake-up
    times, only the idle thread and the initial thread are left. *)

From S2P Require Import Prelude Machine Sched SchedInv SchedFacts.

(** ** Sums over lists *)

Definition sum_of (f : Z → Z) (l : list Z) : Z := foldr (λ t n, f t + n)%Z 0%Z l.

Lemma sum_nonneg f l : (∀ t, 0 ≤ f t)%Z → (0 ≤ sum_of f l)%Z.
Proof. intros Hf. induction l as [|t l IH]; simpl; [lia|]. specialize (Hf t). lia. Qed.

Lemma sum_bound f l b : (∀ t, t ∈ l → f t ≤ b)%Z → (sum_of f l ≤ Z.of_nat (length l) * b)%Z.
Proof.
  induction l as [|t l IH]; intros Hf; simpl; [lia|].
  pose proof (Hf t ltac:(by left)). specialize (IH ltac:(intros u Hu; apply Hf; by right)). lia.
Qed.

Lemma sum_pos f l t : (∀ u, 0 ≤ f u)%Z → t ∈ l → (0 < f t)%Z → (0 < sum_of f l)%Z.
Proof.
  intros Hf. induction l as [|u l IH]; [by intros []%elem_of_nil|].
  intros [->|Hin]%elem_of_cons Ht; simpl.
  - pose proof (sum_nonneg f l Hf). lia.
  - specialize (IH Hin Ht). specialize (Hf u). lia.
Qed.

Section Sums.
Context (f g : Z → Z) (Hf : ∀ t, (0 ≤ f t)%Z).

Lemma sum_le l' l : l' `sublist_of` l → (∀ t, t ∈ l' → (g t ≤ f t)%Z) → (sum_of g l' ≤ sum_of f l)%Z.
Proof.
  induction 1 as [|t l' l _ IH|t l' l _ IH]; intros Hg; simpl; [lia|..].
  - pose proof (Hg t ltac:(by left)). specialize (IH ltac:(intros u Hu; apply Hg; by right)). lia.
  - specialize (IH Hg). specialize (Hf t). lia.
Qed.

(** An element that is gone, or has become lighter, makes the sum smaller. *)
Lemma sum_lt l' l r :
  l' `sublist_of` l → (∀ t, t ∈ l' → (g t ≤ f t)%Z) → r ∈ l →
  (r ∈ l' → (g r < f r)%Z) → (0 < f r)%Z → (sum_of g l' < sum_of f l)%Z.
Proof.
  intros Hs Hg Hr Hlt Hpos. revert Hg Hr Hlt.
  induction Hs as [|t l' l Hs IH|t l' l Hs IH]; intros Hg Hr Hlt; simpl.
  - by apply elem_of_nil in Hr.
  - pose proof (Hg t ltac:(by left)) as Ht.
    assert (∀ u, u ∈ l' → (g u ≤ f u)%Z) as Hg' by (intros u Hu; apply Hg; by right).
    destruct (decide (t = r)) as [->|Hne].
    + pose proof (sum_le l' l Hs Hg'). specialize (Hlt ltac:(by left)). lia.
    + assert (r ∈ l) as Hrl by set_solver.
      specialize (IH Hg' Hrl ltac:(intros H; apply Hlt; by right)). lia.
  - destruct (decide (t = r)) as [->|Hne].
    + pose proof (sum_le l' l Hs Hg). lia.
    + assert (r ∈ l) as Hrl by set_solver. specialize (IH Hg Hrl Hlt). specialize (Hf t). lia.
Qed.
End Sums.

(** ** The work that is left *)

(** The ticks a thread still wants, and one round to leave; the idle and the initial
    thread never leave. *)
Definition cost (A : sched) (t : Z) : Z :=
  if bool_decide (t = a_idle A) || bool_decide (t = a_main A) then 0%Z
  else (Z.max 0 (dur_of A t) + 1)%Z.
Definition work (A : sched) : Z := sum_of (cost A) (a_all A).

Lemma cost_nonneg A t : (0 ≤ cost A t)%Z.
Proof. rw /cost. case_match; lia. Qed.

Lemma cost_ordinary A t :
  t ≠ a_idle A → t ≠ a_main A → cost A t = (Z.max 0 (dur_of A t) + 1)%Z.
Proof. intros H1 H2. by rw /cost !bool_decide_eq_false_2. Qed.

Lemma work_nonneg A : (0 ≤ work A)%Z.
Proof. apply sum_nonneg, cost_nonneg. Qed.

(** No work is left exactly when only the idle and the initial thread are. *)
Lemma work_0 A t : (work A ≤ 0)%Z → t ∈ a_all A → t = a_idle A ∨ t = a_main A.
Proof.
  intros Hw Ht. destruct (decide (t = a_idle A)) as [->|H1]; [by left|].
  destruct (decide (t = a_main A)) as [->|H2]; [by right|].
  assert (0 < work A)%Z; [|lia]. apply (sum_pos _ _ t); [apply cost_nonneg|done|].
  rw cost_ordinary //. lia.
Qed.

(** [B] has no more threads, no longer durations and no more sleepers than [A]. *)
Record lighter (A B : sched) : Prop := {
  li_idle : a_idle B = a_idle A;
  li_main : a_main B = a_main A;
  li_all : a_all B `sublist_of` a_all A;
  li_dur : ∀ t, t ∈ a_all B → (dur_of B t ≤ dur_of A t)%Z;
  li_wait : ∀ t, t ∈ a_wait B → t ∈ a_wait A ∧ wake_of B t = wake_of A t;
}.

#[global] Instance lighter_preorder : PreOrder lighter.
Proof.
  split.
  - intros A. by split.
  - intros A B C [I1 M1 L1 D1 W1] [I2 M2 L2 D2 W2]. split; [congruence..|by etrans| |].
    + intros t Ht. specialize (D2 t Ht). specialize (D1 t ltac:(by eapply elem_of_sublist)). lia.
    + intros t [Ht E]%W2. destruct (W1 t Ht) as [Ht' E']. split; [done|congruence].
Qed.

Lemma lighter_cost A B t : lighter A B → t ∈ a_all B → (cost B t ≤ cost A t)%Z.
Proof.
  intros L Ht. pose proof (li_dur _ _ L t Ht). rw /cost (li_idle _ _ L) (li_main _ _ L).
  case_match; lia.
Qed.

Lemma lighter_work A B : lighter A B → (work B ≤ work A)%Z.
Proof.
  intros L. apply sum_le; [apply cost_nonneg|apply L|]. intros t. by apply lighter_cost.
Qed.

Section Ops.
Context (A : sched) (O : sched_ok A).

Lemma wait_in_all t : t ∈ a_wait A → t ∈ a_all A.
Proof.
  intros Ht. apply (so_live _ O). pose proof (qo_wait _ (so_queues _ O) t Ht) as Hs.
  rw /status_of in Hs. by destruct (a_thr A !! t).
Qed.

(** A switch, from a scheduler that differs from [A] in the status of the running
    thread, the ready queue and the list of all threads. *)
Lemma lighter_schedule B :
  switch_ok B → a_idle B = a_idle A → a_main B = a_main A → a_all B `sublist_of` a_all A →
  a_wait B = a_wait A → (∀ t, dur_of B t = dur_of A t) → (∀ t, wake_of B t = wake_of A t) →
  lighter A (a_schedule B).
Proof.
  intros W Hi Hm Ha Hw Hd Hk.
  destruct (schedule_fields B) as (_ & Fw & Fa & _ & Fi & Fm & _).
  split; rewrite ?Fi ?Fm ?Fa ?Fw //.
  - intros t Ht. rw schedule_dur // Hd //.
  - intros t Ht. rw -Hw. split; [done|]. rw schedule_wake ?Hk //.
    apply (status_in_all _ W _ _ (qo_wait _ (sw_queues _ W) _ Ht)). by right.
Qed.

Lemma lighter_block_if_idle : lighter A (a_block_if_idle A).
Proof.
  rw /a_block_if_idle. case_bool_decide; [|done].
  apply lighter_schedule; [by apply leave_idle|done..| |].
  - intros t. apply dur_set_status.
  - intros t. apply wake_set_status.
Qed.

Lemma lighter_yield : lighter A (a_yield A).
Proof.
  rw /a_yield. destruct (a_ready A) as [|t q] eqn:Hr; [done|]. rewrite -Hr.
  case_bool_decide as Hi; simpl; [|case_bool_decide as Hm; [by destruct (run_not_main A O)|]].
  - apply lighter_schedule; [by apply leave_idle|done..| |].
    + intros u. apply dur_set_status.
    + intros u. apply wake_set_status.
  - apply lighter_schedule; [by apply leave_ready|done..| |].
    + intros u. apply (dur_set_status (w_ready A (a_ready A ++ [a_run A]))).
    + intros u. apply (wake_set_status (w_ready A (a_ready A ++ [a_run A]))).
Qed.

Lemma lighter_exit : lighter A (a_exit A).
Proof.
  rw /a_exit. case_bool_decide as Hm; [by destruct (run_not_main A O)|].
  case_bool_decide as Hi; simpl; [apply lighter_yield|].
  apply lighter_schedule; [by apply leave_dying|done|done|apply sublist_filter|done|..].
  - intros u. by rw dur_set_status.
  - intros u. by rw wake_set_status.
Qed.

Lemma lighter_dispatch : lighter A (a_dispatch A).
Proof.
  rw /a_dispatch. case_bool_decide; [apply lighter_exit|]. case_bool_decide; [done|].
  destruct (a_ready A); [done|]. case_bool_decide; [apply lighter_yield|done].
Qed.

(** A thread whose time is over leaves. *)
Lemma dispatch_leaves :
  a_run A ≠ a_idle A → (dur_of A (a_run A) ≤ 0)%Z → a_run A ∉ a_all (a_dispatch A).
Proof.
  intros Hi Hd. rw /a_dispatch bool_decide_eq_true_2 // /a_exit.
  rw (bool_decide_eq_false_2 (_ = a_main A)); [by apply run_not_main|].
  rw bool_decide_eq_false_2 //=. set (B := set_status _ _ _).
  destruct (schedule_fields B) as (_ & _ & -> & _). simpl. rw list_elem_of_filter. tauto.
Qed.
End Ops.

Lemma lighter_forced A : sched_ok A → lighter A (a_forced A).
Proof.
  intros O. rw /a_forced. do 2 (case_bool_decide; [done|]). destruct (lighter_exit A O). by split.
Qed.

Lemma lighter_after A : sched_ok A → lighter A (a_after_interrupt A).
Proof.
  intros O. pose proof (block_if_idle_ok A O) as O1. pose proof (dispatch_ok _ O1) as O2.
  rw /a_after_interrupt. etrans; [by apply lighter_block_if_idle|].
  etrans; [by apply lighter_dispatch|]. by apply lighter_forced.
Qed.

Lemma after_leaves A :
  sched_ok A → a_run A ≠ a_idle A → (dur_of A (a_run A) ≤ 0)%Z →
  a_run A ∉ a_all (a_after_interrupt A).
Proof.
  intros O Hi Hd Hin. apply (dispatch_leaves A O Hi Hd). rw /a_after_interrupt in Hin.
  rw /a_block_if_idle bool_decide_eq_false_2 // in Hin.
  eapply elem_of_sublist; [exact Hin|]. by apply lighter_forced, dispatch_ok.
Qed.

Section Round.
Context (A : sched) (O : sched_ok A) (Hn : (a_now A < INT_MAX)%Z).

Lemma timer_wake t : wake_of (a_timer_interrupt A) t = wake_of A t.
Proof.
  destruct (wake_up_spec (a_now (a_tick (w_now A (a_now A + 1)))) (a_tick (w_now A (a_now A + 1)))
    (tick_wait_nodup _ (tick_tick_ok A O Hn))) as (_ & _ & Et & _).
  rw -(wake_tick A t) /a_timer_interrupt /wake_of Et. case_decide; [|done].
  by destruct (a_thr _ !! t).
Qed.

Lemma lighter_timer : lighter A (a_timer_interrupt A).
Proof.
  destruct (timer_fields A O Hn) as (_ & Ei & Em & _ & _ & _ & _ & _ & Ea).
  destruct (timer_queues A O Hn) as [_ Ew]. split; [done|done|by rw Ea| |].
  - intros t _. rw timer_dur //. case_decide; lia.
  - intros t. rw Ew. intros [_ Ht]%list_elem_of_filter. split; [done|]. apply timer_wake.
Qed.

Lemma lighter_round : lighter A (a_round A).
Proof.
  rw /a_round. etrans; [apply lighter_timer|]. by apply lighter_after, timer_interrupt_ok.
Qed.

(** A round in which an ordinary thread runs uses up work. *)
Lemma round_works : a_run A ≠ a_idle A → (work (a_round A) < work A)%Z.
Proof.
  intros Hi. pose proof (run_not_main A O) as Hm. pose proof (run_in_all A O) as Hin.
  destruct (timer_fields A O Hn) as (Er & Ei & Em & _).
  pose proof (timer_interrupt_ok A O Hn) as O1. pose proof (timer_dur A O Hn (a_run A)) as Ed.
  rw decide_True // in Ed. pose proof lighter_timer as L. rw /a_round.
  revert Er Ei Em O1 Ed L. generalize (a_timer_interrupt A) as B. intros B Er Ei Em O1 Ed L.
  pose proof (lighter_after B O1) as L1. pose proof (after_leaves B O1) as Hl. rw Er Ei in Hl.
  revert L1 Hl. generalize (a_after_interrupt B) as C. intros C L1 Hl.
  assert (lighter A C) as L2 by (by etrans).
  apply (sum_lt _ _ (cost_nonneg A) _ _ (a_run A)); [apply L2| |done| |].
  - intros t. by apply lighter_cost.
  - intros Hin'. pose proof (li_dur _ _ L1 _ Hin') as Hd.
    rw !cost_ordinary ?(li_idle _ _ L2) ?(li_main _ _ L2) //.
    destruct (decide (0 < dur_of A (a_run A))%Z) as [Hp|Hp]; [lia|]. exfalso.
    apply Hl; [done|lia|done].
  - rw cost_ordinary //. lia.
Qed.

Lemma round_clock : a_now (a_round A) = (a_now A + 1)%Z.
Proof.
  destruct (timer_fields A O Hn) as (_ & _ & _ & En & _).
  rw -En /a_round. by apply (stable_after_interrupt a_now).
Qed.
End Round.

(** ** Completion *)

(** Rounds until nothing is left: the longest sleep and the work. *)
Definition rounds_left (A : sched) (W : Z) : Z := (Z.max 0 (W - a_now A) + work A)%Z.

Lemma rounds_left_decreases A W :
  sched_ok A → (a_now A < INT_MAX)%Z → busy A → (∀ t, t ∈ a_wait A → (wake_of A t ≤ W)%Z) →
  (0 < work A)%Z → (rounds_left (a_round A) W < rounds_left A W)%Z.
Proof.
  intros O Hn Hb Hw Hp. rw /rounds_left round_clock //.
  pose proof (lighter_work _ _ (lighter_round A O Hn)) as Hle.
  destruct (decide (a_run A = a_idle A)) as [Hi|Hi].
  - destruct (decide (Forall (λ t, t = a_idle A ∨ t = a_main A) (a_all A))) as [Hall|Hall].
    + exfalso. rw Forall_forall in Hall. assert (work A ≤ 0)%Z; [|lia].
      etrans; [apply (sum_bound _ _ 0)|lia]. intros t Ht. rw /cost. case_match eqn:E; [lia|].
      apply orb_false_iff in E as [?%bool_decide_eq_false ?%bool_decide_eq_false].
      by destruct (Hall t Ht).
    + apply not_Forall_Exists, Exists_exists in Hall as (t & Ht & Hne); [|apply _].
      assert (t ∈ a_wait A) as Hin.
      { destruct (so_complete _ O t Ht) as [E|[Hr|[?|[E|E]]]];
          [by destruct Hne; left; congruence| |done|by destruct Hne; left|by destruct Hne; right].
        rw (Hb Hi) in Hr. by apply elem_of_nil in Hr. }
      pose proof (so_asleep _ O t Hin) as Ha. specialize (Hw t Hin). lia.
  - pose proof (round_works A O Hn Hi). lia.
Qed.

Lemma rounds_drain n A W :
  sched_ok A → busy A → (∀ t, t ∈ a_wait A → (wake_of A t ≤ W)%Z) →
  (rounds_left A W ≤ Z.of_nat n)%Z → (a_now A + Z.of_nat n ≤ INT_MAX)%Z →
  (work (Nat.iter n a_round A) ≤ 0)%Z.
Proof.
  revert A. induction n as [|n IH]; intros A O Hb Hw Hl Hn.
  { rw /rounds_left in Hl. change (Nat.iter 0 a_round A) with A. lia. }
  rw Nat.iter_succ_r. assert (a_now A < INT_MAX)%Z as Hlt by lia.
  pose proof (lighter_round A O Hlt) as L.
  apply IH; [by apply round_ok|by apply after_interrupt_busy, timer_interrupt_ok| | |].
  - intros t [Ht ->]%(li_wait _ _ L). auto.
  - destruct (decide (0 < work A)%Z) as [Hp|Hp].
    + pose proof (rounds_left_decreases A W O Hlt Hb Hw Hp). lia.
    + rw /rounds_left round_clock //. pose proof (lighter_work _ _ L).
      pose proof (work_nonneg (a_round A)). rw /rounds_left in Hl. lia.
  - rw round_clock //. lia.
Qed.

(** One more round, to put a thread on the processor first. *)
Lemma rounds_complete n A W :
  sched_ok A → (∀ t, t ∈ a_wait A → (wake_of A t ≤ W)%Z) →
  (rounds_left A W < Z.of_nat n)%Z → (a_now A + Z.of_nat n ≤ INT_MAX)%Z →
  (work (Nat.iter n a_round A) ≤ 0)%Z.
Proof.
  intros O Hw Hl Hn. assert (0 ≤ rounds_left A W)%Z as H0.
  { rw /rounds_left. pose proof (work_nonneg A). lia. }
  destruct n as [|n]; [lia|]. rw Nat.iter_succ_r. assert (a_now A < INT_MAX)%Z as Hlt by lia.
  pose proof (lighter_round A O Hlt) as L. apply (rounds_drain _ _ W).
  - by apply round_ok.
  - by apply after_interrupt_busy, timer_interrupt_ok.
  - intros t [Ht ->]%(li_wait _ _ L). auto.
  - rw /rounds_left round_clock //. pose proof (lighter_work _ _ L). rw /rounds_left in Hl. lia.
  - rw round_clock //. lia.
Qed.

(** With no work left, the idle thread runs and the queues are empty. *)
Lemma done_view A :
  sched_ok A → (work A ≤ 0)%Z → a_run A = a_idle A ∧ a_ready A = [] ∧ a_wait A = [].
Proof.
  intros O Hw. pose proof (so_queues _ O) as Q.
  destruct (qo_idle _ Q) as (_ & I1 & I2), (qo_main _ Q) as (_ & M1 & M2 & M3 & _).
  assert (∀ t (l : list Z), t ∈ l → (∀ u, u ∈ l → u ∈ a_all A) → a_idle A ∉ l → a_main A ∉ l → False) as Hno.
  { intros t l Ht Hl H1 H2. by destruct (work_0 A t Hw (Hl t Ht)) as [-> | ->]. }
  split_and!.
  - destruct (work_0 A _ Hw (run_in_all A O)) as [|E]; [done|]. by rw E in M3.
  - destruct (a_ready A) as [|t l] eqn:E; [done|]. exfalso. rw -E in I1 M1.
    apply (Hno t (a_ready A)); [rw E; by left| |done|done]. intros u Hu.
    apply (so_live _ O). pose proof (qo_ready _ Q u Hu) as Hs. rw /status_of in Hs.
    by destruct (a_thr A !! u).
  - destruct (a_wait A) as [|t l] eqn:E; [done|]. exfalso. rw -E in I2 M2.
    apply (Hno t (a_wait A)); [rw E; by left|apply (wait_in_all A O)|done|done].
Qed.
