(* ===== verification/ThreadRep.v ===== *)
(** * The simulation relation between the kernel's memory and the scheduler

    [krep s A]: the memory [s] represents the abstract scheduler [A].  The file
    proves, for each access the kernel code makes (fields, lists, globals), the
    rule that relates it to an update of [A]. *)

From S2P Require Import Prelude CList CListRepr CListSpec Machine Thread Sched.

Definition abs_thread (th : thread) : tinfo :=
  TInfo (status th) (duration_ticks th) (sleep_time th).

(** Thread objects lie above the static data, in the address space, apart. *)
Definition layout (T : gset Z) : Prop :=
  (∀ t, t ∈ T → heap_start ≤ t ∧ t + PGSIZE ≤ 2 ^ 32)%Z ∧
  (∀ t u, t ∈ T → u ∈ T → t ≠ u → blocks_apart t u).

Definition globals (s : kstate) :=
  (thread_running_var s, idle_thread s, initial_thread s, thread_ticks s, ticks s,
   idle_ticks s, kernel_ticks s, next_tid s, round_robin_mode s, round_robin_ticks s,
   thread_exit_on_return s, k_primask s).
Definition a_globals (A : sched) :=
  (a_run A, a_idle A, a_main A, a_slice A, a_now A,
   a_idle_ticks A, a_kernel_ticks A, a_next_tid A, a_mode A, a_quantum A,
   a_force A, a_mask A).

Record krep (s : kstate) (A : sched) : Prop := {
  kr_thr : a_thr A = abs_thread <$> k_threads s;
  kr_magic : ∀ t th, k_threads s !! t = Some th → magic th = THREAD_MAGIC;
  kr_layout : layout (dom (k_threads s));
  kr_cells : ∀ t c, t ∈ dom (k_threads s) → c ∈ cells_of t → c ∈ dom (k_heap s);
  kr_ready : list_repr (k_heap s) ready_list (elem_ptr <$> a_ready A);
  kr_wait : list_repr (k_heap s) lista_espera (elem_ptr <$> a_wait A);
  kr_all : list_repr (k_heap s) all_list (allelem_ptr <$> a_all A);
  kr_live : ∀ t, t ∈ a_ready A ∨ t ∈ a_wait A ∨ t ∈ a_all A → t ∈ dom (k_threads s);
  kr_disj : ∀ t, t ∈ a_ready A → t ∉ a_wait A;
  kr_events : ∀ t, t ∈ dom (k_threads s) → t = a_main A ∨ t ∈ live (k_events s);
  kr_noleak : ∀ t, t ∈ live (k_events s) → t ∈ dom (k_threads s);
  kr_globals : globals s = a_globals A;
}.

(** ** Addresses *)

Ltac unfold_addr :=
  unfold elem_ptr, allelem_ptr, off_elem, off_allelem, head_of, tail_of, ready_list,
    lista_espera, all_list, heap_start, blocks_apart, sizeof_thread, NULL in *.

Lemma list_entry_elem_ptr t : list_entry_elem (elem_ptr t) = t.
Proof. rw /list_entry_elem /elem_ptr. lia. Qed.

Lemma list_entry_allelem_ptr t : list_entry_allelem (allelem_ptr t) = t.
Proof. rw /list_entry_allelem /allelem_ptr. lia. Qed.

#[global] Instance elem_ptr_inj : Inj (=) (=) elem_ptr.
Proof. intros t u. rw /elem_ptr. lia. Qed.
#[global] Instance allelem_ptr_inj : Inj (=) (=) allelem_ptr.
Proof. intros t u. rw /allelem_ptr. lia. Qed.

Lemma in_nodes_fmap l (f : Z → Z) xs z :
  z ∈ nodes l (f <$> xs) ↔ z = head_of l ∨ z = tail_of l ∨ ∃ t, z = f t ∧ t ∈ xs.
Proof. rw in_nodes list_elem_of_fmap. tauto. Qed.

Section Apart.
Context (T : gset Z) (L : layout T).

Lemma layout_range t : t ∈ T → (0x20001168 ≤ t)%Z.
Proof. destruct L as [H _]. intros Ht. by apply H. Qed.

Lemma elem_not_allelem t u : t ∈ T → u ∈ T → elem_ptr t ≠ allelem_ptr u.
Proof.
  intros Ht Hu E. destruct (decide (t = u)) as [->|Hne].
  - unfold_addr. lia.
  - destruct L as [_ H]. specialize (H t u Ht Hu Hne). unfold_addr. lia.
Qed.

(** The node sets of the three lists do not meet. *)
Lemma ready_wait_apart rs ws z :
  (∀ t, t ∈ rs → t ∈ T) → (∀ t, t ∈ ws → t ∈ T) → (∀ t, t ∈ rs → t ∉ ws) →
  z ∈ nodes ready_list (elem_ptr <$> rs) → z ∉ nodes lista_espera (elem_ptr <$> ws).
Proof.
  intros Hr Hw Hd. rw !in_nodes_fmap.
  intros [->|[->|(t & -> & Ht)]] [E|[E|(u & E & Hu)]];
    try (by unfold_addr; lia);
    try (apply Hr, layout_range in Ht; unfold_addr; lia);
    try (apply Hw, layout_range in Hu; unfold_addr; lia).
  apply (inj elem_ptr) in E as ->. by eapply Hd.
Qed.

Lemma elem_all_apart l rs xs z :
  l = ready_list ∨ l = lista_espera →
  (∀ t, t ∈ rs → t ∈ T) → (∀ t, t ∈ xs → t ∈ T) →
  z ∈ nodes l (elem_ptr <$> rs) → z ∉ nodes all_list (allelem_ptr <$> xs).
Proof.
  intros Hl Hr Hx. rw !in_nodes_fmap.
  intros [->|[->|(t & -> & Ht)]] [E|[E|(u & E & Hu)]];
    try (destruct Hl as [-> | ->]; unfold_addr; lia);
    try (apply Hr, layout_range in Ht; unfold_addr; lia);
    try (apply Hx, layout_range in Hu; destruct Hl as [-> | ->]; unfold_addr; lia).
  eapply elem_not_allelem; [| |done]; auto.
Qed.

Lemma elem_not_in_nodes l xs t :
  l = ready_list ∨ l = lista_espera → t ∈ T → t ∉ xs → elem_ptr t ∉ nodes l (elem_ptr <$> xs).
Proof.
  intros Hl Ht Hx. rw in_nodes_fmap. intros [E|[E|(u & E & Hu)]].
  - apply layout_range in Ht. destruct Hl as [-> | ->]; unfold_addr; lia.
  - apply layout_range in Ht. destruct Hl as [-> | ->]; unfold_addr; lia.
  - apply (inj elem_ptr) in E as ->. done.
Qed.

Lemma elem_not_in_all xs t :
  t ∈ T → (∀ u, u ∈ xs → u ∈ T) → elem_ptr t ∉ nodes all_list (allelem_ptr <$> xs).
Proof.
  intros Ht Hx. rw in_nodes_fmap. intros [E|[E|(u & E & Hu)]].
  - apply layout_range in Ht. unfold_addr; lia.
  - apply layout_range in Ht. unfold_addr; lia.
  - eapply elem_not_allelem; [| |done]; auto.
Qed.

Lemma allelem_not_in_nodes l xs t :
  l = ready_list ∨ l = lista_espera → t ∈ T → (∀ u, u ∈ xs → u ∈ T) →
  allelem_ptr t ∉ nodes l (elem_ptr <$> xs).
Proof.
  intros Hl Ht Hx. rw in_nodes_fmap. intros [E|[E|(u & E & Hu)]].
  - apply layout_range in Ht. destruct Hl as [-> | ->]; unfold_addr; lia.
  - apply layout_range in Ht. destruct Hl as [-> | ->]; unfold_addr; lia.
  - eapply elem_not_allelem; [| |by symmetry]; auto.
Qed.

Lemma allelem_not_in_all xs t :
  t ∈ T → t ∉ xs → allelem_ptr t ∉ nodes all_list (allelem_ptr <$> xs).
Proof.
  intros Ht Hx. rw in_nodes_fmap. intros [E|[E|(u & E & Hu)]].
  - apply layout_range in Ht. unfold_addr; lia.
  - apply layout_range in Ht. unfold_addr; lia.
  - apply (inj allelem_ptr) in E as ->. done.
Qed.

(** The cells of a thread are apart from those of the others and the lists. *)
Lemma cells_apart t u c : t ∈ T → u ∈ T → t ≠ u → c ∈ cells_of t → c ∉ cells_of u.
Proof.
  intros Ht Hu Hne. destruct L as [_ H]. specialize (H t u Ht Hu Hne).
  rw /cells_of !elem_of_cons. unfold_addr. unfold off_donations in *.
  intros [->|[->|[->|[->|[]%elem_of_nil]]]] [E|[E|[E|[E|[]%elem_of_nil]]]]; lia.
Qed.

Lemma cells_not_in_nodes t c l (f : Z → Z) xs :
  t ∈ T → (∀ u, u ∈ xs → u ∈ T ∧ u ≠ t) → l ∈ static_lists →
  f = elem_ptr ∨ f = allelem_ptr → c ∈ cells_of t → c ∉ nodes l (f <$> xs).
Proof.
  intros Ht Hx Hl Hf Hc. rw in_nodes_fmap.
  assert (l + 16 ≤ c)%Z as Hlc.
  { apply layout_range in Ht. rw /cells_of !elem_of_cons in Hc.
    rw /static_lists !elem_of_cons in Hl. unfold_addr. unfold off_donations in *.
    destruct Hl as [->|[->|[->|[]%elem_of_nil]]];
    destruct Hc as [->|[->|[->|[->|[]%elem_of_nil]]]]; lia. }
  intros [E|[E|(u & E & Hu)]]; [unfold_addr; lia..|].
  destruct (Hx u Hu) as [HuT Hne]. eapply (cells_apart t u); try done. subst c.
  rw /cells_of. destruct Hf as [-> | ->]; unfold elem_ptr, allelem_ptr; set_solver.
Qed.
End Apart.

(** ** Updates that the abstraction does not see, and globals *)

Section Rep.
Implicit Types (s : kstate) (A : sched).

(** The fields of a [kstate] that [krep] looks at. *)
Lemma krep_ext s s' A :
  krep s A → k_heap s' = k_heap s → k_threads s' = k_threads s →
  k_events s' = k_events s → globals s' = globals s → krep s' A.
Proof.
  intros [] Hh Ht He Hg. split; rewrite ?Hh ?Ht ?He; try done. congruence.
Qed.

(** Changing globals on both sides. *)
Lemma krep_globals s s' A A' :
  krep s A → k_heap s' = k_heap s → k_threads s' = k_threads s →
  k_events s' = k_events s →
  (a_thr A', a_ready A', a_wait A', a_all A', a_main A')
    = (a_thr A, a_ready A, a_wait A, a_all A, a_main A) →
  globals s' = a_globals A' → krep s' A'.
Proof.
  intros [] Hh Ht He [= H1 H2 H3 H4 H5] Hg.
  split; rewrite ?Hh ?Ht ?He ?H1 ?H2 ?H3 ?H4 ?H5; done.
Qed.

Ltac solve_global :=
  intros R; pose proof (kr_globals _ _ R) as E; unfold globals, a_globals in E; congruence.

Lemma kr_run s A : krep s A → thread_running_var s = a_run A.
Proof. solve_global. Qed.
Lemma kr_idle s A : krep s A → idle_thread s = a_idle A.
Proof. solve_global. Qed.
Lemma kr_main s A : krep s A → initial_thread s = a_main A.
Proof. solve_global. Qed.
Lemma kr_slice s A : krep s A → thread_ticks s = a_slice A.
Proof. solve_global. Qed.
Lemma kr_now s A : krep s A → ticks s = a_now A.
Proof. solve_global. Qed.
Lemma kr_idle_ticks s A : krep s A → idle_ticks s = a_idle_ticks A.
Proof. solve_global. Qed.
Lemma kr_kernel_ticks s A : krep s A → kernel_ticks s = a_kernel_ticks A.
Proof. solve_global. Qed.
Lemma kr_next_tid s A : krep s A → next_tid s = a_next_tid A.
Proof. solve_global. Qed.
Lemma kr_mode s A : krep s A → round_robin_mode s = a_mode A.
Proof. solve_global. Qed.
Lemma kr_quantum s A : krep s A → round_robin_ticks s = a_quantum A.
Proof. solve_global. Qed.
Lemma kr_force s A : krep s A → thread_exit_on_return s = a_force A.
Proof. solve_global. Qed.
Lemma kr_mask s A : krep s A → k_primask s = a_mask A.
Proof. solve_global. Qed.

(** ** Thread fields *)

Lemma kr_dom s A : krep s A → dom (k_threads s) = dom (a_thr A).
Proof. intros []. by rw kr_thr0 dom_fmap_L. Qed.

Lemma kr_lookup s A t i :
  krep s A → a_thr A !! t = Some i →
  ∃ th, k_threads s !! t = Some th ∧ abs_thread th = i ∧ magic th = THREAD_MAGIC.
Proof.
  intros R Hi. rw (kr_thr _ _ R) lookup_fmap_Some in Hi. destruct Hi as (th & <- & Hth).
  exists th. split_and!; [done..|]. by eapply kr_magic.
Qed.

Lemma kr_nonnull s A t : krep s A → is_Some (a_thr A !! t) → t ≠ NULL.
Proof.
  intros R Hi. apply elem_of_dom in Hi. rw -(kr_dom _ _ R) in Hi.
  destruct (kr_layout _ _ R) as [H _]. specialize (H t Hi). rw /heap_start in H.
  rw /NULL. lia.
Qed.

Lemma runs_load_thread s A t i (Q : thread → kstate → Prop) :
  krep s A → a_thr A !! t = Some i →
  (∀ th, abs_thread th = i → magic th = THREAD_MAGIC → Q th s) →
  runs (load_thread t) s Q.
Proof.
  intros R Hi HQ. destruct (kr_lookup _ _ _ _ R Hi) as (th & Hth & Hab & Hm).
  rw /runs /load_thread Hth. auto.
Qed.

(** Rewriting fields of a thread. *)
Lemma runs_update_thread s A t (f : thread → thread) (g : tinfo → tinfo)
    (Q : unit → kstate → Prop) :
  krep s A → is_Some (a_thr A !! t) →
  (∀ th, abs_thread (f th) = g (abs_thread th)) → (∀ th, magic (f th) = magic th) →
  (∀ s', krep s' (w_thr A (alter g t (a_thr A))) → Q tt s') →
  runs (update_thread t f) s Q.
Proof.
  intros R [i Hi] Hf Hm HQ. destruct (kr_lookup _ _ _ _ R Hi) as (th & Hth & Hab & Hmg).
  rw /runs /update_thread /load_thread /store_thread /mbind /M_bind Hth Hth.
  apply HQ. destruct R. split; simpl; try done.
  - apply map_eq. intros u. rw kr_thr0 lookup_fmap lookup_insert lookup_alter.
    case_decide as E; [subst u|by rw lookup_fmap].
    by rw lookup_fmap Hth /= Hf.
  - intros u th'. rw lookup_insert. case_decide as E; [|by apply kr_magic0].
    intros [= <-]. by rw Hm.
  - by rw dom_insert_lookup_L.
  - by rw dom_insert_lookup_L.
  - by rw dom_insert_lookup_L.
  - by rw dom_insert_lookup_L.
  - by rw dom_insert_lookup_L.
Qed.

Lemma runs_set_status s A t v (Q : unit → kstate → Prop) :
  krep s A → is_Some (a_thr A !! t) → (∀ s', krep s' (set_status A t v) → Q tt s') →
  runs (update_thread t (λ th, with_status th v)) s Q.
Proof. intros R Hi HQ. by eapply (runs_update_thread _ _ _ _ (set_info_status v)). Qed.

(** ** is_thread and thread_current *)

Lemma runs_is_thread s A t (Q : bool → kstate → Prop) :
  krep s A → is_Some (a_thr A !! t) → Q true s → runs (is_thread t) s Q.
Proof.
  intros R [i Hi] HQ. rw /is_thread bool_decide_eq_false_2; [by eapply kr_nonnull|].
  step. eapply runs_load_thread; [done..|]. intros th _ Hm. step. by rw bool_decide_eq_true_2.
Qed.

Lemma runs_running_thread s A (Q : Z → kstate → Prop) :
  krep s A → Q (a_run A) s → runs running_thread s Q.
Proof. intros R HQ. rw /running_thread. steps. by rw (kr_run _ _ R). Qed.

Lemma status_of_Some A t v : status_of A t = Some v → is_Some (a_thr A !! t).
Proof. rw /status_of. by destruct (a_thr A !! t). Qed.

Lemma runs_thread_current s A (Q : Z → kstate → Prop) :
  krep s A → status_of A (a_run A) = Some THREAD_RUNNING → Q (a_run A) s →
  runs thread_current s Q.
Proof.
  intros R Hs HQ. pose proof (status_of_Some _ _ _ Hs) as [i Hi].
  rw /thread_current. step. eapply runs_running_thread; [done|].
  step. eapply runs_is_thread; [done..|]. step. step; [done|]. step.
  eapply runs_load_thread; [done..|]. intros th Hab _. steps; [|done].
  apply bool_decide_eq_true_2. rw /status_of Hi -Hab /= in Hs. congruence.
Qed.

Lemma runs_emit s A o (Q : unit → kstate → Prop) :
  krep s A → (∀ s', krep s' A → Q tt s') → runs (emit o) s Q.
Proof. intros R HQ. rw /emit. step. apply HQ. by eapply krep_ext. Qed.

Lemma runs_printf s A f l (Q : unit → kstate → Prop) :
  krep s A → (∀ s', krep s' A → Q tt s') → runs (printf f l) s Q.
Proof. apply runs_emit. Qed.

(** ** The three lists *)

Lemma runs_on_heap {B} (m : M heap B) s (Q : B → kstate → Prop) :
  runs m (k_heap s) (λ a h, Q a (set_heap s h)) → runs (on_heap m) s Q.
Proof. apply (runs_zoom k_heap (λ h s, set_heap s h) m s Q). Qed.

(** A new heap with the same cells that represents the new lists. *)
Lemma krep_set_heap s A A' h :
  krep s A → dom h = dom (k_heap s) →
  list_repr h ready_list (elem_ptr <$> a_ready A') →
  list_repr h lista_espera (elem_ptr <$> a_wait A') →
  list_repr h all_list (allelem_ptr <$> a_all A') →
  (∀ t, t ∈ a_ready A' ∨ t ∈ a_wait A' ∨ t ∈ a_all A' → is_Some (a_thr A !! t)) →
  (∀ t, t ∈ a_ready A' → t ∉ a_wait A') →
  a_thr A' = a_thr A → a_globals A' = a_globals A →
  krep (set_heap s h) A'.
Proof.
  intros R D Rr Rw Ra Hl Hd Ht Hg. pose proof (kr_dom _ _ R) as Hdom. destruct R.
  assert (a_main A' = a_main A) as Hm by (unfold a_globals in Hg; congruence).
  split; simpl; rewrite ?Ht ?Hm; try done.
  - intros t c Htd Hc. rw D. by eapply kr_cells0.
  - intros t Hin. rw Hdom elem_of_dom. by apply Hl.
  - by rw Hg -kr_globals0.
Qed.

(** The disjointness facts of a represented state. *)
Lemma kr_elem_cell s A t :
  krep s A → is_Some (a_thr A !! t) →
  t ∈ dom (k_threads s) ∧ elem_ptr t ∈ dom (k_heap s) ∧ elem_ptr t ≠ NULL ∧
  allelem_ptr t ∈ dom (k_heap s) ∧ allelem_ptr t ≠ NULL.
Proof.
  intros R Hi. apply elem_of_dom in Hi. rw -(kr_dom _ _ R) in Hi.
  pose proof (layout_range _ (kr_layout _ _ R) t Hi).
  split_and!; [done|..].
  - eapply kr_cells; [done..|]. rw /cells_of /elem_ptr. set_solver.
  - unfold_addr. lia.
  - eapply kr_cells; [done..|]. rw /cells_of /allelem_ptr. set_solver.
  - unfold_addr. lia.
Qed.

Lemma kr_apart s A :
  krep s A →
  (∀ z, z ∈ nodes ready_list (elem_ptr <$> a_ready A) →
        z ∈ nodes lista_espera (elem_ptr <$> a_wait A) → False) ∧
  (∀ z, z ∈ nodes ready_list (elem_ptr <$> a_ready A) →
        z ∈ nodes all_list (allelem_ptr <$> a_all A) → False) ∧
  (∀ z, z ∈ nodes lista_espera (elem_ptr <$> a_wait A) →
        z ∈ nodes all_list (allelem_ptr <$> a_all A) → False).
Proof.
  intros R. pose proof (kr_layout _ _ R) as L. pose proof (kr_live _ _ R) as Hl.
  split_and!; intros z Hz.
  - apply (ready_wait_apart _ L (a_ready A) (a_wait A)); auto. by eapply kr_disj.
  - apply (elem_all_apart _ L ready_list (a_ready A) (a_all A)); auto.
  - apply (elem_all_apart _ L lista_espera (a_wait A) (a_all A)); auto.
Qed.

(** The cell of a live thread that is in no queue is in no queue's node set. *)
Lemma kr_elem_free s A t :
  krep s A → is_Some (a_thr A !! t) → t ∉ a_ready A → t ∉ a_wait A →
  elem_ptr t ∉ nodes ready_list (elem_ptr <$> a_ready A) ∧
  elem_ptr t ∉ nodes lista_espera (elem_ptr <$> a_wait A) ∧
  elem_ptr t ∉ nodes all_list (allelem_ptr <$> a_all A).
Proof.
  intros R Hi Hr Hw. destruct (kr_elem_cell _ _ _ R Hi) as (Hd & _).
  pose proof (kr_layout _ _ R) as L. pose proof (kr_live _ _ R) as Hl. split_and!.
  - apply (elem_not_in_nodes _ L); auto.
  - apply (elem_not_in_nodes _ L); auto.
  - apply (elem_not_in_all _ L); auto.
Qed.

Lemma kr_allelem_free s A t :
  krep s A → is_Some (a_thr A !! t) → t ∉ a_all A →
  allelem_ptr t ∉ nodes ready_list (elem_ptr <$> a_ready A) ∧
  allelem_ptr t ∉ nodes lista_espera (elem_ptr <$> a_wait A) ∧
  allelem_ptr t ∉ nodes all_list (allelem_ptr <$> a_all A).
Proof.
  intros R Hi Ha. destruct (kr_elem_cell _ _ _ R Hi) as (Hd & _).
  pose proof (kr_layout _ _ R) as L. pose proof (kr_live _ _ R) as Hl. split_and!.
  - eapply (allelem_not_in_nodes _ L); auto.
  - eapply (allelem_not_in_nodes _ L); auto.
  - eapply (allelem_not_in_all _ L); auto.
Qed.

(** Queue members stay live when the queues only lose members, or gain [t]. *)
Lemma kr_live_Some s A t :
  krep s A → t ∈ a_ready A ∨ t ∈ a_wait A ∨ t ∈ a_all A → is_Some (a_thr A !! t).
Proof. intros R Ht. rw -elem_of_dom -(kr_dom _ _ R). by eapply kr_live. Qed.

Lemma repr_notin h l (f : Z → Z) xs ys t :
  list_repr h l (f <$> xs ++ t :: ys) → Inj (=) (=) f → t ∉ xs ++ ys.
Proof.
  intros R Hf. rw fmap_app fmap_cons in R. apply repr_removed_out in R.
  rw in_nodes -fmap_app in R. intros Ht. apply R. right; left.
  by apply list_elem_of_fmap_2.
Qed.

Lemma runs_ready_empty s A (Q : bool → kstate → Prop) :
  krep s A → Q (bool_decide (a_ready A = [])) s → runs (on_heap (list_empty ready_list)) s Q.
Proof.
  intros R HQ. apply runs_on_heap. eapply runs_list_empty; [by eapply kr_ready|].
  assert (set_heap s (k_heap s) = s) as -> by (by destruct s).
  by destruct (a_ready A).
Qed.

Lemma runs_ready_push s A t (Q : unit → kstate → Prop) :
  krep s A → is_Some (a_thr A !! t) → t ∉ a_ready A → t ∉ a_wait A →
  (∀ s', krep s' (w_ready A (a_ready A ++ [t])) → Q tt s') →
  runs (on_heap (list_push_back ready_list (elem_ptr t))) s Q.
Proof.
  intros R Hi Hr Hw HQ. destruct (kr_elem_cell _ _ _ R Hi) as (Hd & Hc & Hn & _).
  destruct (kr_apart _ _ R) as (Ap1 & Ap2 & Ap3).
  destruct (kr_elem_free _ _ _ R Hi Hr Hw) as (F1 & F2 & F3).
  apply runs_on_heap. eapply runs_list_push_back; [by eapply kr_ready|done..|].
  intros h R' C. apply HQ. eapply (krep_set_heap s A); simpl; try done.
  - by destruct C.
  - by rw fmap_app.
  - eapply repr_frame; [done| |by eapply kr_wait]. intros z Hz [->|Hz']%elem_of_cons; eauto.
  - eapply repr_frame; [done| |by eapply kr_all]. intros z Hz [->|Hz']%elem_of_cons; eauto.
  - intros u Hu. rw elem_of_app list_elem_of_singleton in Hu.
    destruct (decide (u = t)) as [->|]; [done|]. eapply kr_live_Some; [done|]. tauto.
  - intros u. rw elem_of_app list_elem_of_singleton. intros [Hu| ->]; [by eapply kr_disj|done].
Qed.

Lemma runs_ready_pop s A t r (Q : Z → kstate → Prop) :
  krep s A → a_ready A = t :: r →
  (∀ s', krep s' (w_ready A r) → Q (elem_ptr t) s') →
  runs (on_heap (list_pop_front ready_list)) s Q.
Proof.
  intros R Hr HQ. destruct (kr_apart _ _ R) as (Ap1 & Ap2 & Ap3).
  pose proof (kr_ready _ _ R) as Rr. rw Hr /= in Rr.
  assert (∀ z, z ∈ nodes ready_list (elem_ptr <$> r) →
    z ∈ nodes ready_list (elem_ptr <$> a_ready A)) as Hsub.
  { intros z. rw Hr !in_nodes_fmap. setoid_rewrite elem_of_cons. naive_solver. }
  apply runs_on_heap. eapply runs_list_pop_front; [done|].
  intros h R' C. apply HQ. eapply (krep_set_heap s A); simpl; try done.
  - by destruct C.
  - eapply repr_frame; [done| |by eapply kr_wait]. intros z Hz Hz'; eauto.
  - eapply repr_frame; [done| |by eapply kr_all]. intros z Hz Hz'; eauto.
  - intros u Hu. eapply kr_live_Some; [done|].
    rw Hr elem_of_cons. tauto.
  - intros u Hu. eapply kr_disj; [done|]. rw Hr elem_of_cons. tauto.
Qed.

Lemma runs_wait_push s A t (Q : unit → kstate → Prop) :
  krep s A → is_Some (a_thr A !! t) → t ∉ a_ready A → t ∉ a_wait A →
  (∀ s', krep s' (w_wait A (a_wait A ++ [t])) → Q tt s') →
  runs (on_heap (list_push_back lista_espera (elem_ptr t))) s Q.
Proof.
  intros R Hi Hr Hw HQ. destruct (kr_elem_cell _ _ _ R Hi) as (Hd & Hc & Hn & _).
  destruct (kr_apart _ _ R) as (Ap1 & Ap2 & Ap3).
  destruct (kr_elem_free _ _ _ R Hi Hr Hw) as (F1 & F2 & F3).
  apply runs_on_heap. eapply runs_list_push_back; [by eapply kr_wait|done..|].
  intros h R' C. apply HQ. eapply (krep_set_heap s A); simpl; try done.
  - by destruct C.
  - eapply repr_frame; [done| |by eapply kr_ready]. intros z Hz [->|Hz']%elem_of_cons; eauto.
  - by rw fmap_app.
  - eapply repr_frame; [done| |by eapply kr_all]. intros z Hz [->|Hz']%elem_of_cons; eauto.
  - intros u Hu. rw elem_of_app list_elem_of_singleton in Hu.
    destruct (decide (u = t)) as [->|]; [done|]. eapply kr_live_Some; [done|]. tauto.
  - intros u Hu. rw elem_of_app list_elem_of_singleton.
    intros [Hu'| ->]; [by eapply kr_disj|done].
Qed.

Lemma runs_wait_remove s A ws1 t ws2 (Q : Z → kstate → Prop) :
  krep s A → a_wait A = ws1 ++ t :: ws2 →
  (∀ s', krep s' (w_wait A (ws1 ++ ws2)) →
         Q (hd (tail_of lista_espera) (elem_ptr <$> ws2)) s') →
  runs (on_heap (list_remove (elem_ptr t))) s Q.
Proof.
  intros R Hr HQ. destruct (kr_apart _ _ R) as (Ap1 & Ap2 & Ap3).
  pose proof (kr_wait _ _ R) as Rr. rw Hr fmap_app fmap_cons in Rr.
  assert (∀ z, z ∈ nodes lista_espera (elem_ptr <$> ws1 ++ ws2) →
    z ∈ nodes lista_espera (elem_ptr <$> a_wait A)) as Hsub.
  { intros z. rw Hr !in_nodes_fmap. setoid_rewrite elem_of_app.
    setoid_rewrite elem_of_cons. naive_solver. }
  apply runs_on_heap. eapply runs_list_remove; [done|].
  intros h R' C. rw -fmap_app in R'. rw -fmap_app in C.
  apply HQ. eapply (krep_set_heap s A); simpl; try done.
  - by destruct C.
  - eapply repr_frame; [done| |by eapply kr_ready]. intros z Hz Hz'; eauto.
  - eapply repr_frame; [done| |by eapply kr_all]. intros z Hz Hz'; eauto.
  - intros u Hu. eapply kr_live_Some; [done|].
    rw Hr !elem_of_app elem_of_cons in Hu *. tauto.
  - intros u Hu Hu'. eapply kr_disj; [done|exact Hu|].
    rw Hr !elem_of_app elem_of_cons in Hu' *. tauto.
Qed.

Lemma runs_all_remove s A xs1 t xs2 (Q : Z → kstate → Prop) :
  krep s A → a_all A = xs1 ++ t :: xs2 →
  (∀ r s', krep s' (w_all A (xs1 ++ xs2)) → Q r s') →
  runs (on_heap (list_remove (allelem_ptr t))) s Q.
Proof.
  intros R Hr HQ. destruct (kr_apart _ _ R) as (Ap1 & Ap2 & Ap3).
  pose proof (kr_all _ _ R) as Rr. rw Hr fmap_app fmap_cons in Rr.
  assert (∀ z, z ∈ nodes all_list (allelem_ptr <$> xs1 ++ xs2) →
    z ∈ nodes all_list (allelem_ptr <$> a_all A)) as Hsub.
  { intros z. rw Hr !in_nodes_fmap. setoid_rewrite elem_of_app.
    setoid_rewrite elem_of_cons. naive_solver. }
  apply runs_on_heap. eapply runs_list_remove; [done|].
  intros h R' C. rw -fmap_app in R'. rw -fmap_app in C.
  apply HQ. eapply (krep_set_heap s A); simpl; try done.
  - by destruct C.
  - eapply repr_frame; [done| |by eapply kr_ready]. intros z Hz Hz'; eauto.
  - eapply repr_frame; [done| |by eapply kr_wait]. intros z Hz Hz'; eauto.
  - intros u Hu. eapply kr_live_Some; [done|].
    rw Hr !elem_of_app elem_of_cons in Hu *. tauto.
  - by eapply kr_disj.
Qed.

Lemma runs_all_push s A t (Q : unit → kstate → Prop) :
  krep s A → is_Some (a_thr A !! t) → t ∉ a_all A →
  (∀ s', krep s' (w_all A (a_all A ++ [t])) → k_threads s' = k_threads s → Q tt s') →
  runs (on_heap (list_push_back all_list (allelem_ptr t))) s Q.
Proof.
  intros R Hi Ha HQ. destruct (kr_elem_cell _ _ _ R Hi) as (Hd & _ & _ & Hc & Hn).
  destruct (kr_apart _ _ R) as (Ap1 & Ap2 & Ap3).
  destruct (kr_allelem_free _ _ _ R Hi Ha) as (F1 & F2 & F3).
  apply runs_on_heap. eapply runs_list_push_back; [by eapply kr_all|done..|].
  intros h R' C. apply HQ; [|done]. eapply (krep_set_heap s A); simpl; try done.
  - by destruct C.
  - eapply repr_frame; [done| |by eapply kr_ready]. intros z Hz [->|Hz']%elem_of_cons; eauto.
  - eapply repr_frame; [done| |by eapply kr_wait]. intros z Hz [->|Hz']%elem_of_cons; eauto.
  - by rw fmap_app.
  - intros u Hu. rw elem_of_app list_elem_of_singleton in Hu.
    destruct (decide (u = t)) as [->|]; [done|]. eapply kr_live_Some; [done|]. tauto.
  - by eapply kr_disj.
Qed.

(** Walking the waiting list. *)
Lemma runs_wait_begin s A (Q : Z → kstate → Prop) :
  krep s A → Q (hd (tail_of lista_espera) (elem_ptr <$> a_wait A)) s →
  runs (on_heap (list_begin lista_espera)) s Q.
Proof.
  intros R HQ. apply runs_on_heap. eapply runs_list_begin; [by eapply kr_wait|].
  by destruct s.
Qed.

Lemma runs_wait_end s A (Q : Z → kstate → Prop) :
  krep s A → Q (tail_of lista_espera) s → runs (on_heap (list_end lista_espera)) s Q.
Proof.
  intros R HQ. apply runs_on_heap. eapply runs_list_end; [by eapply kr_wait|].
  by destruct s.
Qed.

Lemma runs_wait_next s A ws1 t ws2 (Q : Z → kstate → Prop) :
  krep s A → a_wait A = ws1 ++ t :: ws2 →
  Q (hd (tail_of lista_espera) (elem_ptr <$> ws2)) s →
  runs (on_heap (list_next (elem_ptr t))) s Q.
Proof.
  intros R Hw HQ. pose proof (kr_wait _ _ R) as Rw. rw Hw fmap_app fmap_cons in Rw.
  apply runs_on_heap. eapply runs_list_next_elem; [done|]. by destruct s.
Qed.

(** The position after [ws1] in the waiting list is the tail only at the end. *)
Lemma wait_pos_end s A ws1 ws2 :
  krep s A → a_wait A = ws1 ++ ws2 →
  hd (tail_of lista_espera) (elem_ptr <$> ws2) = tail_of lista_espera ↔ ws2 = [].
Proof.
  intros R Hw. split; [|by intros ->]. destruct ws2 as [|t ws2]; [done|]. simpl.
  assert (t ∈ dom (k_threads s)) as Ht.
  { eapply kr_live; [done|]. rw Hw. set_solver. }
  apply (layout_range _ (kr_layout _ _ R)) in Ht. unfold_addr. lia.
Qed.

End Rep.
