(* ===== verification/ThreadLife.v ===== *)
(** * Threads come and go

    Allocation, initialization and destruction of a [struct thread], seen through
    the simulation relation.  While [init_thread] fills a fresh block in, the block
    is not yet a thread of the scheduler: [kinit] describes those states. *)

From S2P Require Import Prelude CList CListRepr CListSpec Machine Thread Sched ThreadRep.

Lemma repr_agree h h' l xs :
  (∀ x, x ∈ nodes l xs → h' !! x = h !! x) → list_repr h l xs → list_repr h' l xs.
Proof. intros Heq [Hn Hd Hs]. split; [done..|]. by eapply dseg_frame. Qed.

Lemma layout_subset (T T' : gset Z) : T' ⊆ T → layout T → layout T'.
Proof. intros Hs [H1 H2]. split; auto. Qed.

(** [h'] is [h] with the cells of [t] written or deleted. *)
Definition outside (t : Z) (h h' : heap) : Prop := ∀ x, x ∉ cells_of t → h' !! x = h !! x.

Lemma outside_zero t h : outside t h (zero_cells t h).
Proof.
  intros x Hx. rw /zero_cells. induction (cells_of t) as [|c cs IH]; [done|]. simpl.
  rw lookup_insert_ne; [set_solver|]. apply IH. set_solver.
Qed.

Lemma outside_delete t (h : heap) : outside t h (foldr (λ a h, delete a h) h (cells_of t)).
Proof.
  intros x Hx. induction (cells_of t) as [|c cs IH]; [done|]. simpl.
  rw lookup_delete_ne; [set_solver|]. apply IH. set_solver.
Qed.

Lemma zero_cells_dom t h : ∀ c, c ∈ cells_of t ∨ c ∈ dom h → c ∈ dom (zero_cells t h).
Proof.
  intros c. rw /zero_cells. induction (cells_of t) as [|x cs IH]; simpl.
  - intros [[]%elem_of_nil|H]; done.
  - rw dom_insert_L. rw elem_of_cons elem_of_union elem_of_singleton. tauto.
Qed.

Section Life.
Implicit Types (s : kstate) (A : sched).

(** The three lists of [A] survive a change of the cells of a block that is apart
    from every live thread. *)
Lemma krep_lists_outside s A t (T : gset Z) h' :
  krep s A → layout T → t ∈ T → t ∉ a_ready A → t ∉ a_wait A → t ∉ a_all A →
  dom (k_threads s) ⊆ T → outside t (k_heap s) h' →
  list_repr h' ready_list (elem_ptr <$> a_ready A) ∧
  list_repr h' lista_espera (elem_ptr <$> a_wait A) ∧
  list_repr h' all_list (allelem_ptr <$> a_all A).
Proof.
  intros R L Ht Hr Hw Ha HT Ho. pose proof (kr_live _ _ R) as Hl.
  assert (∀ l f xs, l ∈ static_lists → f = elem_ptr ∨ f = allelem_ptr →
    (∀ u, u ∈ xs → u ∈ T ∧ u ≠ t) →
    list_repr (k_heap s) l (f <$> xs) → list_repr h' l (f <$> xs)) as Hfr.
  { intros l f xs Hs Hf Hx. apply repr_agree. intros x Hin. apply Ho. intros Hc.
    by eapply (cells_not_in_nodes T L t x l f xs). }
  assert (∀ xs : list Z, (∀ u, u ∈ xs → u ∈ a_ready A ∨ u ∈ a_wait A ∨ u ∈ a_all A) → t ∉ xs →
    ∀ u, u ∈ xs → u ∈ T ∧ u ≠ t) as Hsub.
  { intros xs Hx Hn u Hu. split; [by apply HT, Hl, Hx|by intros ->]. }
  split_and!; (apply Hfr; [rw /static_lists; set_solver|auto|apply Hsub; auto|]).
  - by eapply kr_ready.
  - by eapply kr_wait.
  - by eapply kr_all.
Qed.

(** [free (t)] of a thread that is in no list. *)
Lemma runs_free s A t (Q : unit → kstate → Prop) :
  krep s A → is_Some (a_thr A !! t) → t ≠ a_main A →
  t ∉ a_ready A → t ∉ a_wait A → t ∉ a_all A →
  (∀ s', krep s' (w_thr A (delete t (a_thr A))) →
         k_events s' = EvFree t :: k_events s → Q tt s') →
  runs (free_thread t) s Q.
Proof.
  intros R Hi Hm Hr Hw Ha HQ. destruct Hi as [i Hi].
  rw /free_thread. step. eapply runs_load_thread; [done..|]. intros th _ _. steps.
  apply HQ; [|done].
  destruct (krep_lists_outside s A t (dom (k_threads s))
    (foldr (λ a h, delete a h) (k_heap s) (cells_of t))) as (R1 & R2 & R3); try done.
  { by eapply kr_layout. } { rw (kr_dom _ _ R) elem_of_dom. eauto. }
  { apply outside_delete. }
  assert (∀ u, u ∈ dom (delete t (k_threads s)) ↔ u ≠ t ∧ u ∈ dom (k_threads s)) as Hdom.
  { intros u. rw dom_delete_L. set_solver. }
  split; simpl; try done.
  - by rw (kr_thr _ _ R) fmap_delete.
  - intros u th'. rw lookup_delete_Some. intros [_ Hu]. by eapply kr_magic.
  - eapply layout_subset; [|by eapply kr_layout]. intros u Hu. by apply Hdom.
  - intros u c [Hne Hu]%Hdom Hc. apply elem_of_dom.
    rw (outside_delete t (k_heap s)); [|by apply elem_of_dom; eapply kr_cells].
    eapply (cells_apart _ (kr_layout _ _ R) u t); try done.
    rw (kr_dom _ _ R) elem_of_dom. eauto.
  - intros u Hu. apply Hdom. split; [naive_solver|]. by eapply kr_live.
  - by eapply kr_disj.
  - intros u [Hne Hu]%Hdom. destruct (kr_events _ _ R u Hu); [by left|right].
    apply list_elem_of_filter. done.
  - intros u [Hne Hu]%list_elem_of_filter. apply Hdom. split; [done|]. by eapply kr_noleak.
  - apply (kr_globals _ _ R).
Qed.

(** ** Blocks under construction *)

Record kinit (s : kstate) (A : sched) (t : Z) (th : thread) : Prop := {
  ki_at : k_threads s !! t = Some th;
  ki_rep : ∃ ev, krep (set_events (set_threads s (delete t (k_threads s))) ev) A ∧
    ((t = a_main A ∧ live ev = live (k_events s)) ∨ live (k_events s) = t :: live ev);
  ki_layout : layout (dom (k_threads s));
  ki_cells : ∀ c, c ∈ cells_of t → c ∈ dom (k_heap s);
}.

Lemma kinit_fresh s A t th : kinit s A t th → a_thr A !! t = None.
Proof.
  intros [_ (ev & R & _) _ _]. rw (kr_thr _ _ R) /= lookup_fmap lookup_delete_eq //.
Qed.

Lemma kinit_unlisted s A t th :
  kinit s A t th → t ∉ a_ready A ∧ t ∉ a_wait A ∧ t ∉ a_all A.
Proof.
  intros K. pose proof (kinit_fresh _ _ _ _ K) as Hf. destruct K as [_ (ev & R & _) _ _].
  split_and!; intros Ht; apply eq_None_not_Some in Hf; apply Hf;
    eapply kr_live_Some; eauto.
Qed.

Lemma runs_kinit_update s A t th f (Q : unit → kstate → Prop) :
  kinit s A t th → (∀ s', kinit s' A t (f th) → Q tt s') →
  runs (update_thread t f) s Q.
Proof.
  intros [Hat (ev & R & Hev) HL Hc] HQ.
  rw /runs /update_thread /load_thread /store_thread /mbind /M_bind Hat Hat. apply HQ.
  split; simpl; [by rw lookup_insert_eq| |by rw dom_insert_lookup_L|done].
  exists ev. split; [|done]. rw delete_insert_eq. by eapply krep_ext.
Qed.

(** A completed block becomes a thread. *)
Lemma kinit_done s A t th :
  kinit s A t th → magic th = THREAD_MAGIC →
  krep s (w_thr A (<[t := abs_thread th]> (a_thr A))).
Proof.
  intros [Hat (ev & R & Hev) HL Hc] Hm.
  assert (∀ u, u ∈ dom (k_threads s) ↔ u = t ∨ u ∈ dom (delete t (k_threads s))) as Hdom.
  { intros u. rw dom_delete_L. destruct (decide (u = t)) as [->|]; [|set_solver].
    split; [by left|]. intros _. by eapply elem_of_dom_2. }
  destruct R; simpl in *. split; simpl; try done.
  - by rw kr_thr -fmap_insert insert_delete_eq insert_id.
  - intros u th' Hu. destruct (decide (u = t)) as [->|]; [congruence|].
    eapply kr_magic. by rw lookup_delete_ne.
  - intros u c [->|Hu]%Hdom Hin; eauto.
  - intros u Hu. apply Hdom. eauto.
  - intros u [->|Hu]%Hdom.
    + destruct Hev as [[? _]| ->]; [by left|right; set_solver].
    + destruct (kr_events u Hu) as [?|Hin]; [by left|right].
      destruct Hev as [[_ <-]| ->]; [done|set_solver].
  - intros u Hu. apply Hdom. destruct Hev as [[_ E]|E].
    + rw -E in Hu. eauto.
    + rw E in Hu. apply elem_of_cons in Hu as [?|Hu]; eauto.
Qed.

(** [memset] on a block under construction. *)
Lemma runs_kinit_memset s A t th (Q : unit → kstate → Prop) :
  kinit s A t th → (∀ s', kinit s' A t zero_thread → Q tt s') →
  runs (memset_thread t) s Q.
Proof.
  intros K HQ. destruct (kinit_unlisted _ _ _ _ K) as (H1 & H2 & H3).
  destruct K as [Hat (ev & R & Hev) HL Hc].
  assert (t ∈ dom (k_threads s)) as Htd by (by eapply elem_of_dom_2).
  rw /memset_thread. step. eapply runs_Ok; [by rw /store_thread Hat|]. step. apply HQ.
  destruct (krep_lists_outside _ A t _ (zero_cells t (k_heap s)) R HL Htd)
    as (R1 & R2 & R3); try done.
  { simpl. rw dom_delete_L. set_solver. } { apply outside_zero. }
  split; simpl.
  - by rw lookup_insert_eq.
  - exists ev. split; [|done]. rw delete_insert_eq.
    destruct R. split; simpl in *; try done.
    intros u c Hu Hin. apply zero_cells_dom. right. eauto.
  - by rw dom_insert_lookup_L.
  - intros c Hin. apply zero_cells_dom. by left.
Qed.

Definition init_thread_value (t : Z) (nm : cstring) : thread :=
  Thread 0 THREAD_BLOCKED (strlcpy (name zero_thread) (c_chars nm)) (uint32 (t + PGSIZE))
    0 0 0 (Regs 0 0 0 0 0) 9999999 THREAD_MAGIC.

(** [init_thread] turns a block into a blocked thread at the end of all_list. *)
Lemma runs_init_thread s A t th nm (Q : unit → kstate → Prop) :
  kinit s A t th → c_addr nm ≠ NULL →
  (∀ s', krep s' (w_all (w_thr A (<[t := TInfo THREAD_BLOCKED 9999999 0]> (a_thr A)))
                    (a_all A ++ [t])) →
         k_threads s' !! t = Some (init_thread_value t nm) → Q tt s') →
  runs (init_thread t nm) s Q.
Proof.
  intros K Hnm HQ. destruct (kinit_unlisted _ _ _ _ K) as (H1 & H2 & H3).
  assert (t ≠ NULL) as Hnn.
  { destruct K as [Hat _ HL _]. apply elem_of_dom_2 in Hat.
    apply (layout_range _ HL) in Hat. rw /NULL. lia. }
  rw /init_thread. step. step; [by rw bool_decide_eq_false_2|].
  step. step; [by rw bool_decide_eq_false_2|].
  step. eapply runs_kinit_memset; [done|]. clear dependent s. intros s K.
  do 5 (step; eapply runs_kinit_update; [done|]; clear dependent s; intros s K).
  eapply (runs_all_push s); simpl.
  - by apply (kinit_done _ _ _ _ K).
  - rw lookup_insert_eq. eauto.
  - done.
  - intros s' R' E. apply HQ; [done|]. rw E. by destruct K.
Qed.
End Life.
