(* ===== verification/ThreadSpec.v ===== *)
(** * thread.c implements the abstract scheduler

    For each operation of thread.c, a rule that says: from a memory that represents
    [A], the C code returns (no panic, fault, overflow or endless loop) in a memory
    that represents the corresponding pure function of [A]. *)

From S2P Require Import Prelude CList CListRepr CListSpec Machine Thread Sched ThreadRep.
From S2P Require Import ThreadLife.

(** ** Small rules *)

Ltac globals_eq R :=
  pose proof (kr_globals _ _ R); unfold globals, a_globals in *; simpl in *; congruence.

Section Rules.
Implicit Types (s : kstate) (A : sched).

(** A store to a field that the abstraction does not show. *)
Lemma runs_update_hidden s A t (f : thread → thread) (Q : unit → kstate → Prop) :
  krep s A → is_Some (a_thr A !! t) →
  (∀ th, abs_thread (f th) = abs_thread th) → (∀ th, magic (f th) = magic th) →
  (∀ s', krep s' A → Q tt s') →
  runs (update_thread t f) s Q.
Proof.
  intros R Hi Hf Hm HQ. eapply (runs_update_thread _ _ _ _ id); [done..|].
  intros s' R'. apply HQ. destruct A; simpl in *. by rw alter_id in R'.
Qed.

Lemma status_of_lookup A t v :
  status_of A t = Some v → ∃ i, a_thr A !! t = Some i ∧ t_status i = v.
Proof. rw /status_of fmap_Some. naive_solver. Qed.

Lemma set_status_same A t v : status_of (set_status A t v) t = (λ _, v) <$> a_thr A !! t.
Proof. rw /status_of /set_status /= lookup_alter_eq. by destruct (a_thr A !! t). Qed.

Lemma set_status_other A t u v : u ≠ t → status_of (set_status A t v) u = status_of A u.
Proof. intros Hne. by rw /status_of /set_status /= lookup_alter_ne. Qed.

Lemma set_status_live A t u v :
  is_Some (a_thr (set_status A t v) !! u) ↔ is_Some (a_thr A !! u).
Proof. rw /set_status /=. by rw lookup_alter_is_Some. Qed.

Lemma set_status_idemp A t v : set_status (set_status A t v) t v = set_status A t v.
Proof.
  rw /set_status /=. f_equal. apply map_eq. intros u. rw !lookup_alter.
  repeat case_decide; try done. by destruct (a_thr A !! t).
Qed.

Lemma runs_set_thread_running s A t (Q : unit → kstate → Prop) :
  krep s A → is_Some (a_thr A !! t) →
  (∀ s', krep s' (w_run (set_status A t THREAD_RUNNING) t) → Q tt s') →
  runs (set_thread_running t) s Q.
Proof.
  intros R Hi HQ. rw /set_thread_running. step. eapply runs_set_status; [done..|].
  intros s' R'. step. apply HQ. eapply krep_globals; [done..|].
  pose proof (kr_globals _ _ R'). unfold globals, a_globals in *. simpl in *. congruence.
Qed.

(** Changing a global of the C state and of the scheduler together. *)
Lemma runs_modify_global s A A' f (Q : unit → kstate → Prop) :
  krep s A → k_heap (f s) = k_heap s → k_threads (f s) = k_threads s →
  k_events (f s) = k_events s →
  (a_thr A', a_ready A', a_wait A', a_all A', a_main A')
    = (a_thr A, a_ready A, a_wait A, a_all A, a_main A) →
  globals (f s) = a_globals A' → (∀ s', krep s' A' → Q tt s') →
  runs (modify f) s Q.
Proof. intros R H1 H2 H3 H4 H5 HQ. step. apply HQ. by eapply krep_globals. Qed.

(** ** schedule *)

Lemma runs_next_thread_to_run s A (Q : Z → kstate → Prop) :
  krep s A → (∀ s', krep s' (w_ready A (tail (a_ready A))) → Q (a_next A) s') →
  runs next_thread_to_run s Q.
Proof.
  intros R HQ. rw /next_thread_to_run. step. eapply runs_ready_empty; [done|].
  rw /a_next in HQ. destruct (a_ready A) as [|t r] eqn:Hr.
  - rw bool_decide_eq_true_2 //. steps. rw (kr_idle _ _ R). apply HQ.
    simpl. rewrite -Hr. by destruct A.
  - rw bool_decide_eq_false_2 //. step. eapply runs_ready_pop; [done..|].
    intros s' R'. step. rw list_entry_elem_ptr. auto.
Qed.

Lemma runs_switch_threads_c s A cur next (Q : Z → kstate → Prop) :
  krep s A → is_Some (a_thr A !! cur) → is_Some (a_thr A !! next) →
  (∀ s', krep s' (w_run (set_status A next THREAD_RUNNING) next) → Q cur s') →
  runs (switch_threads_c cur next) s Q.
Proof.
  intros R Hc Hn HQ. destruct Hn as [i Hn]. rw /switch_threads_c. steps.
  eapply runs_update_hidden; [done..|]. clear dependent s. intros s R.
  step. eapply runs_load_thread; [done..|]. intros th _ _. steps.
  eapply runs_set_thread_running; [by eapply krep_ext|done|].
  intros s' R'. step. auto.
Qed.

Definition reaped (A : sched) (prev : Z) : bool :=
  bool_decide (status_of A prev = Some THREAD_DYING) && negb (bool_decide (prev = a_main A)).

Lemma runs_schedule_tail_null s A (Q : unit → kstate → Prop) :
  krep s A → is_Some (a_thr A !! a_run A) →
  (∀ s', krep s' (w_slice (set_status A (a_run A) THREAD_RUNNING) 0) → Q tt s') →
  runs (thread_schedule_tail NULL) s Q.
Proof.
  intros R Hrun HQ. rw /thread_schedule_tail. step.
  eapply runs_running_thread; [done|]. step. eapply runs_set_status; [done..|].
  intros s1 R1. step. eapply (runs_modify_global _ _ (w_slice (set_status A (a_run A)
    THREAD_RUNNING) 0)); [done..|globals_eq R1|]. intros s2 R2.
  rw bool_decide_eq_true_2 //. step. auto.
Qed.

Lemma runs_schedule_tail s A prev (Q : unit → kstate → Prop) :
  krep s A → is_Some (a_thr A !! a_run A) → is_Some (a_thr A !! prev) → prev ≠ a_run A →
  (reaped A prev = true → prev ∉ a_ready A ∧ prev ∉ a_wait A ∧ prev ∉ a_all A) →
  (∀ s', krep s'
     (let A1 := w_slice (set_status A (a_run A) THREAD_RUNNING) 0 in
      if reaped A prev then w_thr A1 (delete prev (a_thr A1)) else A1) → Q tt s') →
  runs (thread_schedule_tail prev) s Q.
Proof.
  intros R Hrun Hp Hne Hd HQ. rw /thread_schedule_tail. step.
  eapply runs_running_thread; [done|]. step. eapply runs_set_status; [done..|].
  intros s1 R1. step. eapply (runs_modify_global _ _ (w_slice (set_status A (a_run A)
    THREAD_RUNNING) 0)); [done..|globals_eq R1|]. intros s2 R2.
  rw bool_decide_eq_false_2; [by apply (kr_nonnull _ _ _ R)|]. simpl in HQ.
  destruct (proj2 (set_status_live A (a_run A) prev THREAD_RUNNING) Hp) as [i Hi].
  step. eapply runs_load_thread; [done..|]. intros th Hab _. steps.
  rw (kr_main _ _ R2) /=.
  assert (reaped A prev = bool_decide (status th = THREAD_DYING)
    && negb (bool_decide (prev = a_main A))) as Hreap.
  { rw /reaped -(set_status_other _ _ _ THREAD_RUNNING Hne) /status_of Hi -Hab /=.
    f_equal. apply bool_decide_ext. split; [by intros [= ?]|by intros ->]. }
  rewrite -Hreap. destruct (reaped A prev) eqn:Hr; [|by step; apply HQ].
  destruct (Hd eq_refl) as (H1 & H2 & H3).
  step. step; [by rw bool_decide_eq_false_2|]. eapply runs_free; [done|eauto|..|auto]; simpl.
  - intros ->. unfold reaped in Hr. rw (bool_decide_eq_true_2 (a_main A = _)) // andb_false_r // in Hr.
  - done.
  - done.
  - done.
Qed.

Lemma runs_schedule s A v (Q : unit → kstate → Prop) :
  krep s A → status_of A (a_run A) = Some v → v ≠ THREAD_RUNNING →
  is_Some (a_thr A !! a_idle A) →
  (v = THREAD_DYING → a_run A ∉ a_ready A ∧ a_run A ∉ a_wait A ∧ a_run A ∉ a_all A) →
  (∀ s', krep s' (a_schedule A) → Q tt s') →
  runs schedule s Q.
Proof.
  intros R Hst Hv Hidle Hdy HQ. rw /schedule. step. eapply runs_running_thread; [done|].
  assert (is_Some (a_thr A !! a_next A)) as Hnext.
  { rw /a_next. destruct (a_ready A) as [|t r] eqn:Hr; [done|]. simpl.
    eapply kr_live_Some; [done|]. rw Hr. set_solver. }
  pose proof (status_of_lookup _ _ _ Hst) as (i & Hi & Hiv).
  step. eapply runs_next_thread_to_run; [done|]. clear dependent s. intros s R.
  step. eapply runs_load_thread; [done|exact Hi|]. intros th Hab _.
  step. step. { rw bool_decide_eq_false_2 //. rw -Hab in Hiv. simpl in Hiv. congruence. }
  step. eapply runs_is_thread; [done|done|]. step. step; [done|]. step.
  case_bool_decide as Hcn.
  - step. eapply runs_schedule_tail_null; [done|simpl; eauto|]. intros s' R'. apply HQ.
    rw /a_schedule (bool_decide_eq_true_2 (a_run A = a_next A)) // andb_false_r.
    rw -Hcn. by destruct A.
  - eapply runs_switch_threads_c; [done|simpl; eauto|done|]. intros s' R'.
    set (A1 := w_run _ _) in R'.
    assert (reaped A1 (a_run A) = bool_decide (status_of A (a_run A) = Some THREAD_DYING)
      && negb (bool_decide (a_run A = a_main A))) as Hreap.
    { assert (status_of A1 (a_run A) = status_of A (a_run A)) as E; [|by rw /reaped E].
      by apply (set_status_other (w_ready A (tail (a_ready A))) (a_next A) (a_run A)). }
    eapply runs_schedule_tail; [done|by apply set_status_live|by apply set_status_live; eauto
      |done|..].
    + rw Hreap. intros [Hd _]%andb_true_iff. apply bool_decide_eq_true in Hd.
      destruct Hdy as (H1 & H2 & H3); [congruence|]. split_and!; [|done..].
      simpl. destruct (a_ready A); set_solver.
    + rewrite Hreap. intros s2 R2. apply HQ. rw /a_schedule.
      rw (bool_decide_eq_false_2 (a_run A = a_next A)) // andb_true_r.
      assert (set_status A1 (a_run A1) THREAD_RUNNING = A1) as E.
      { rw /A1. by apply (set_status_idemp (w_run (w_ready A (tail (a_ready A))) (a_next A))). }
      rewrite E in R2. exact R2.
Qed.
End Rules.

(** The operations of the scheduler do not look at the interrupt mask. *)
Lemma a_schedule_mask A m : a_schedule (w_mask A m) = w_mask (a_schedule A) m.
Proof. rw /a_schedule /a_next /status_of /=. by case_match. Qed.

Lemma a_mask_schedule A : a_mask (a_schedule A) = a_mask A.
Proof. rw /a_schedule. by case_match. Qed.

Section Ops.
Context `{Platform}.
Implicit Types (s : kstate) (A : sched).

Lemma runs_irq_save s A (Q : Z → kstate → Prop) :
  krep s A →
  (∀ s' old m, krep s' (w_mask A m) → (∀ q, restore_interrupts old q = a_mask A) → Q old s') →
  runs irq_save s Q.
Proof.
  intros R HQ. rw /irq_save. step. step.
  pose proof (restore_saved (k_primask s)) as Hrs.
  destruct (save_and_disable_interrupts (k_primask s)) as [old m]. simpl in Hrs.
  steps. eapply (HQ _ _ m).
  - eapply krep_globals; [done..|]. globals_eq R.
  - intros q. by rw Hrs (kr_mask _ _ R).
Qed.

Lemma runs_irq_restore s A old m (Q : unit → kstate → Prop) :
  krep s (w_mask A m) → (∀ q, restore_interrupts old q = a_mask A) →
  (∀ s', krep s' A → Q tt s') →
  runs (irq_restore old) s Q.
Proof.
  intros R Hold HQ. rw /irq_restore. step. apply HQ.
  eapply krep_globals; [exact R|done..|]. rw /globals /= Hold. globals_eq R.
Qed.

(** ** thread_unblock, thread_block, thread_yield, thread_exit *)

Lemma runs_thread_unblock s A t (Q : unit → kstate → Prop) :
  krep s A → status_of A t = Some THREAD_BLOCKED → t ∉ a_ready A → t ∉ a_wait A →
  (∀ s', krep s' (a_unblock t A) → Q tt s') →
  runs (thread_unblock t) s Q.
Proof.
  intros R Hst Hr Hw HQ. pose proof (status_of_lookup _ _ _ Hst) as (i & Hi & Hiv).
  rw /thread_unblock. step. eapply runs_is_thread; [done|eauto|].
  step. step; [done|]. step. eapply runs_load_thread; [done..|]. intros th Hab _.
  step. step. { apply bool_decide_eq_true_2. by rw -Hab in Hiv. }
  step. eapply runs_ready_push; [done|eauto|done..|]. intros s' R'.
  eapply runs_set_status; [done|simpl; eauto|auto].
Qed.

(** The idle thread is live, and the running thread runs. *)
Definition can_run (A : sched) : Prop :=
  status_of A (a_run A) = Some THREAD_RUNNING ∧ is_Some (a_thr A !! a_idle A).

Lemma runs_thread_block s A (Q : unit → kstate → Prop) :
  krep s A → can_run A → (∀ s', krep s' (a_block A) → Q tt s') → runs thread_block s Q.
Proof.
  intros R [Hst Hidle] HQ. pose proof (status_of_Some _ _ _ Hst) as Hrun.
  rw /thread_block. step. eapply runs_irq_save; [done|].
  clear dependent s. intros s old m R Hold.
  step. eapply runs_thread_current; [done..|].
  step. eapply runs_set_status; [done..|]. clear dependent s. intros s R.
  step. eapply (runs_schedule _ _ THREAD_BLOCKED); [done|..|done|].
  - rw set_status_same /=. by destruct Hrun as [i ->].
  - done.
  - by apply set_status_live.
  - clear dependent s. intros s R. eapply (runs_irq_restore _ (a_block A));
      [|by rw /a_block a_mask_schedule|done].
    rw /a_block -a_schedule_mask. exact R.
Qed.

Lemma runs_thread_yield s A (Q : unit → kstate → Prop) :
  krep s A → can_run A → a_run A ∉ a_ready A → a_run A ∉ a_wait A →
  (∀ s', krep s' (a_yield A) → Q tt s') → runs thread_yield s Q.
Proof.
  intros R [Hst Hidle] Hr Hw HQ. pose proof (status_of_lookup _ _ _ Hst) as (i & Hi & _).
  rw /thread_yield. step. eapply runs_thread_current; [done..|]. step.
  eapply runs_irq_save; [done|]. clear dependent s. intros s old m R Hold.
  step. eapply runs_ready_empty; [done|]. step. simpl. rw /a_yield in HQ.
  destruct (a_ready A) as [|t r] eqn:Hrd.
  { rw bool_decide_eq_true_2 //. step. eapply (runs_irq_restore _ A); eauto. }
  rw bool_decide_eq_false_2 //. set (A1 := if _ : bool then _ else _) in HQ.
  assert (a_run A1 = a_run A ∧ a_thr A1 = a_thr A ∧ a_idle A1 = a_idle A ∧
    a_mask A1 = a_mask A) as (Er & Et & Ei & Em) by (rw /A1; by case_match).
  steps. rw (kr_idle _ _ R) (kr_main _ _ R) /=.
  eapply (runs_mono _ _ (λ _ s', krep s' (w_mask A1 m))).
  { rw /A1. case_match; [by step|].
    step. eapply runs_thread_current; [done..|]. step. eapply runs_load_thread; [done|exact Hi|].
    intros th _ _. step. eapply runs_printf; [done|]. intros s' R'.
    eapply runs_ready_push; [done|simpl; eauto|by rw /= Hrd|done|].
    intros s2 R2. simpl in R2. by rw Hrd in R2. }
  intros _ s' R'. step. eapply runs_set_status; [done|simpl; rw Et; eauto|].
  clear dependent s s'. intros s R.
  eapply (runs_schedule _ _ THREAD_READY); [done|..|done|].
  - simpl. rw Er. rw set_status_same /= Et Hi //.
  - done.
  - apply set_status_live. by rw /= Ei Et.
  - clear dependent s. intros s R.
    eapply (runs_irq_restore _ (a_schedule (set_status A1 (a_run A) THREAD_READY)));
      [|by rw a_mask_schedule /= Em|done].
    rw -a_schedule_mask. exact R.
Qed.

Lemma filter_ne_id (t : Z) (xs : list Z) : t ∉ xs → filter (λ u, u ≠ t) xs = xs.
Proof. intros Ht. apply filter_all. by intros x Hx ->. Qed.

Lemma filter_ne_middle (t : Z) (xs1 xs2 : list Z) :
  t ∉ xs1 ++ xs2 → filter (λ u, u ≠ t) (xs1 ++ t :: xs2) = xs1 ++ xs2.
Proof.
  intros Ht. rw filter_app filter_cons_False; [naive_solver|]. rw -filter_app.
  by apply filter_ne_id.
Qed.

(** The first part of [thread_exit]: the thread leaves all_list and is DYING. *)
Lemma runs_exit_begin s A (Q : unit → kstate → Prop) :
  krep s A → can_run A → a_run A ∈ a_all A →
  (∀ s', krep s' (set_status (w_all A (filter (λ t, t ≠ a_run A) (a_all A)))
                    (a_run A) THREAD_DYING) → Q tt s') →
  runs thread_exit_begin s Q.
Proof.
  intros R [Hst Hidle] Ha HQ. pose proof (status_of_lookup _ _ _ Hst) as (i & Hi & Hiv).
  apply list_elem_of_split in Ha as (xs1 & xs2 & Ha).
  assert (a_run A ∉ xs1 ++ xs2) as Hn.
  { pose proof (kr_all _ _ R) as Ra. rw Ha in Ra. exact (repr_notin _ _ _ _ _ _ Ra _). }
  rw Ha filter_ne_middle // in HQ.
  rw /thread_exit_begin. step. eapply runs_thread_current; [done..|].
  step. eapply runs_all_remove; [done..|]. clear dependent s. intros _ s R.
  step. eapply runs_thread_current; [done..|].
  step. eapply runs_load_thread; [done..|]. intros th _ _.
  step. eapply runs_printf; [done|]. clear dependent s. intros s R.
  step. eapply runs_thread_current; [done..|].
  eapply runs_set_status; [done|simpl; eauto|done].
Qed.

Lemma runs_thread_exit s A (Q : unit → kstate → Prop) :
  krep s A → can_run A → a_run A ∉ a_ready A → a_run A ∉ a_wait A → a_run A ∈ a_all A →
  (∀ s', krep s' (a_exit A) → Q tt s') → runs thread_exit s Q.
Proof.
  intros R [Hst Hidle] Hr Hw Ha HQ. pose proof (status_of_lookup _ _ _ Hst) as (i & Hi & Hiv).
  rw /thread_exit. step. eapply runs_thread_current; [done..|]. steps.
  rw (kr_main _ _ R) (kr_idle _ _ R). rw /a_exit in HQ.
  case_bool_decide as Hm; [by eapply runs_thread_yield|].
  step. eapply runs_thread_current; [done..|].
  case_bool_decide as Hd; [by eapply runs_thread_yield|]. simpl in HQ.
  step. eapply runs_exit_begin; [done..|]. clear dependent s. intros s R.
  eapply (runs_schedule _ _ THREAD_DYING); [done|..|done].
  - rw set_status_same /= Hi //.
  - done.
  - by apply set_status_live.
  - intros _. split_and!; [done..|]. simpl. rw list_elem_of_filter. tauto.
Qed.

Lemma runs_block_if_idle s A (Q : unit → kstate → Prop) :
  krep s A → can_run A → (∀ s', krep s' (a_block_if_idle A) → Q tt s') →
  runs block_if_idle_thread s Q.
Proof.
  intros R Hc HQ. rw /block_if_idle_thread. step.
  eapply runs_thread_current; [done|apply Hc|]. steps. rw (kr_idle _ _ R).
  rw /a_block_if_idle in HQ. case_bool_decide; [by eapply runs_thread_block|]. by step; auto.
Qed.

(** ** thread_tick *)

Lemma runs_thread_tick s A (Q : unit → kstate → Prop) :
  krep s A → can_run A →
  (0 ≤ a_idle_ticks A < INT_MAX)%Z → (0 ≤ a_kernel_ticks A < INT_MAX)%Z →
  (INT_MIN < dur_of A (a_run A) ≤ INT_MAX)%Z →
  (∀ s', krep s' (a_tick A) → Q tt s') → runs thread_tick s Q.
Proof.
  intros R [Hst Hidle] Hit Hkt Hdur HQ.
  pose proof (status_of_lookup _ _ _ Hst) as (i & Hi & Hiv). rw /dur_of Hi /= in Hdur.
  rw /thread_tick. step. eapply runs_thread_current; [done..|]. steps. rw (kr_idle _ _ R).
  rw /a_tick in HQ. set (A1 := if _ : bool then _ else _) in HQ.
  assert (a_run A1 = a_run A ∧ a_thr A1 = a_thr A ∧ a_slice A1 = a_slice A) as (Er & Et & Es)
    by (rw /A1; by case_match).
  eapply (runs_mono _ _ (λ _ s', krep s' A1)).
  { rw /A1 (kr_idle_ticks _ _ R) (kr_kernel_ticks _ _ R).
    case_match; step; (apply runs_llong_op; [unfold INT_MAX in *; lia|]).
    - eapply (runs_modify_global _ _ (w_idle_ticks A (a_idle_ticks A + 1)));
        [exact R|done..|globals_eq R|done].
    - eapply (runs_modify_global _ _ (w_kernel_ticks A (a_kernel_ticks A + 1)));
        [exact R|done..|globals_eq R|done]. }
  clear dependent s. intros _ s R. step.
  eapply (runs_modify_global _ _ (w_slice A1 (uint32 (a_slice A + 1)))); [exact R|done..| |].
  { rw -Es -(kr_slice _ _ R). globals_eq R. }
  clear dependent s. intros s R. rw -Et in Hi.
  step. eapply runs_load_thread; [done|exact Hi|]. intros th Hab _.
  step. apply runs_int_op.
  { rw -Hab /= in Hdur. unfold INT_MIN, INT_MAX in *. lia. }
  eapply (runs_update_thread _ _ _ _ (set_info_dur (t_dur i - 1))); [done|simpl; eauto|..].
  - intros th'. by rw -Hab.
  - done.
  - intros s' R'. apply HQ. rw -Et. simpl in R'.
    erewrite alter_ext; [exact R'|]. intros j Hj. simpl in *. by simplify_eq.
Qed.

(** ** Sleeping *)

(** The sleeper in the waiting list, not yet blocked. *)
Definition a_sleep_begin (n : Z) (A : sched) : sched :=
  w_wait (w_thr A (alter (set_info_wake (uint64 (a_now A + n))) (a_run A) (a_thr A)))
    (a_wait A ++ [a_run A]).

Lemma can_run_sleep_begin n A : can_run A → can_run (a_sleep_begin n A).
Proof.
  intros [Hst Hidle]. pose proof (status_of_lookup _ _ _ Hst) as (i & Hi & Hiv).
  split; simpl; [by rw /status_of /= lookup_alter_eq Hi /= Hiv|by apply lookup_alter_is_Some].
Qed.

Lemma runs_insertar_begin s A n (Q : unit → kstate → Prop) :
  krep s A → can_run A → a_run A ∉ a_ready A → a_run A ∉ a_wait A →
  (INT_MIN ≤ a_now A + n ≤ INT_MAX)%Z →
  (∀ s', krep s' (a_sleep_begin n A) → Q tt s') → runs (insertar_begin n) s Q.
Proof.
  intros R [Hst Hidle] Hr Hw Hn HQ.
  pose proof (status_of_lookup _ _ _ Hst) as (i & Hi & Hiv).
  rw /insertar_begin. step. eapply runs_thread_current; [done..|].
  rw /timer_ticks. steps. rw (kr_now _ _ R). apply runs_int_op; [done|].
  step. eapply (runs_update_thread _ _ _ _ (set_info_wake (uint64 (a_now A + n))));
    [done|eauto|done..|]. clear dependent s. intros s R.
  by eapply runs_wait_push; [done|by apply lookup_alter_is_Some; eauto|done..|].
Qed.

Lemma runs_insertar s A n (Q : unit → kstate → Prop) :
  krep s A → can_run A → a_run A ∉ a_ready A → a_run A ∉ a_wait A →
  (INT_MIN ≤ a_now A + n ≤ INT_MAX)%Z →
  (∀ s', krep s' (a_sleep_for n A) → Q tt s') → runs (insertar_en_lista_espera n) s Q.
Proof.
  intros R Hc Hr Hw Hn HQ. rw /insertar_en_lista_espera. step.
  eapply runs_insertar_begin; [done..|]. clear dependent s. intros s R.
  eapply runs_thread_block; [done|by apply can_run_sleep_begin|done].
Qed.

Lemma runs_thread_sleep s A n (Q : unit → kstate → Prop) :
  krep s A → can_run A → a_run A ∉ a_ready A → a_run A ∉ a_wait A →
  (0 ≤ a_now A)%Z → (a_now A + n ≤ INT_MAX)%Z →
  (∀ s', krep s' (a_sleep n A) → Q tt s') → runs (thread_sleep n) s Q.
Proof.
  intros R Hc Hr Hw H0 Hn HQ. rw /thread_sleep /timer_ticks. steps. rw /a_sleep in HQ.
  case_bool_decide as Hpos; [|by eapply runs_printf].
  destruct Hc as [Hst Hidle]. pose proof (status_of_lookup _ _ _ Hst) as (i & Hi & Hiv).
  step. eapply runs_thread_current; [done..|]. step. eapply runs_load_thread; [done..|].
  intros th _ _. step. eapply runs_printf; [done|]. clear dependent s. intros s R.
  eapply runs_insertar; [done..| |done]. unfold INT_MIN, INT_MAX in *. lia.
Qed.

(** misc/timer.c: the same without the messages. *)
Lemma runs_timer_sleep s A n (Q : unit → kstate → Prop) :
  krep s A → can_run A → a_run A ∉ a_ready A → a_run A ∉ a_wait A →
  (0 ≤ a_now A)%Z → (a_now A + n ≤ INT_MAX)%Z →
  (∀ s', krep s' (a_sleep n A) → Q tt s') → runs (timer_sleep n) s Q.
Proof.
  intros R Hc Hr Hw H0 Hn HQ. rw /timer_sleep /timer_ticks. steps. rw /a_sleep in HQ.
  case_bool_decide as Hpos; [|by step; apply HQ].
  eapply runs_insertar; [done..| |done]. unfold INT_MIN, INT_MAX in *. lia.
Qed.

(** ** Waking up *)

(** The loop over a part [ws2] of the sleepers that are blocked, up to the rest [ws3];
    [P] is what is to be shown of the outcome. *)
Lemma remover_prefix (P : result (unit * kstate) → Prop) ws3 ws2 s A n ws1 fuel :
  krep s A → a_wait A = ws1 ++ ws2 ++ ws3 → length (ws2 ++ ws3) < fuel →
  (∀ t, t ∈ ws2 → status_of A t = Some THREAD_BLOCKED) →
  (∀ s' ws1' fuel', krep s' (a_wake_loop n ws2 A) → length ws3 < fuel' →
     a_wait (a_wake_loop n ws2 A) = ws1' ++ ws3 →
     P (remover_loop fuel' n (hd (tail_of lista_espera) (elem_ptr <$> ws3)) s')) →
  P (remover_loop fuel n (hd (tail_of lista_espera) (elem_ptr <$> ws2 ++ ws3)) s).
Proof.
  revert s A ws1 fuel. induction ws2 as [|t ws2 IH]; intros s A ws1 fuel R Hw Hf Hb HQ;
    [by eapply HQ|].
  destruct fuel as [|fuel]; [simpl in Hf; lia|]. simpl.
  apply runs_then. eapply runs_wait_end; [done|].
  rw bool_decide_eq_false_2;
    [by intros E; apply (wait_pos_end s A ws1 (t :: ws2 ++ ws3) R Hw) in E|].
  rw list_entry_elem_ptr. pose proof (Hb t ltac:(set_solver)) as Ht.
  destruct (status_of_lookup _ _ _ Ht) as (i & Hi & Hiv).
  assert (t ∉ ws1 ++ ws2 ++ ws3) as Hn.
  { pose proof (kr_wait _ _ R) as Ra. rw Hw in Ra. exact (repr_notin _ _ _ _ _ _ Ra _). }
  assert (t ∉ a_ready A) as Hnr.
  { intros Hin. eapply (kr_disj _ _ R); [exact Hin|]. rw Hw. set_solver. }
  assert (∀ u, u ∈ ws2 → u ≠ t) as Hne by (intros u Hu ->; set_solver).
  apply runs_then. eapply runs_load_thread; [done..|]. intros th Hab _.
  simpl in HQ. assert (wake_of A t = sleep_time th) as Ewk by (by rw /wake_of Hi -Hab).
  case_bool_decide as Hdue; rw -Ewk in Hdue;
    [rewrite decide_True // in HQ|rewrite decide_False // in HQ].
  - apply runs_then. eapply runs_printf; [done|]. clear dependent s. intros s R.
    apply runs_then. eapply runs_wait_remove; [done..|]. clear dependent s. intros s R.
    rewrite Hw filter_ne_middle // in HQ.
    apply runs_then. eapply runs_thread_unblock; [done..|]. clear dependent s. intros s R.
    eapply (IH _ _ ws1); [done|done|simpl in Hf; lia| |done].
    intros u Hu. rw /a_unblock set_status_other; [by apply Hne|]. apply Hb. set_solver.
  - apply runs_then. eapply runs_wait_next; [done..|].
    eapply (IH _ _ (ws1 ++ [t])); [done|by rw -app_assoc|simpl in Hf; lia| |done].
    intros u Hu. apply Hb. set_solver.
Qed.

Lemma runs_remover_loop ws2 s A n ws1 fuel (Q : unit → kstate → Prop) :
  krep s A → a_wait A = ws1 ++ ws2 → length ws2 < fuel →
  (∀ t, t ∈ ws2 → status_of A t = Some THREAD_BLOCKED) →
  (∀ s', krep s' (a_wake_loop n ws2 A) → Q tt s') →
  runs (remover_loop fuel n (hd (tail_of lista_espera) (elem_ptr <$> ws2))) s Q.
Proof.
  intros R Hw Hf Hb HQ. rw -(app_nil_r ws2).
  apply (remover_prefix (λ r, match r with Ok (b, s') => Q b s' | Err _ => False end) []
    ws2 s A n ws1); [done|by rw app_nil_r|by rw app_nil_r|done|].
  intros s' ws1' [|fuel'] R' Hf' _; [simpl in Hf'; lia|].
  change (runs (remover_loop (S fuel') n (tail_of lista_espera)) s' Q). cbn [remover_loop].
  step. eapply runs_wait_end; [done|]. rw bool_decide_eq_true_2 //. step. auto.
Qed.

Lemma runs_remover s A n (Q : unit → kstate → Prop) :
  krep s A → (∀ t, t ∈ a_wait A → status_of A t = Some THREAD_BLOCKED) →
  (∀ s', krep s' (a_wake_up n A) → Q tt s') → runs (remover_thread_durmiente n) s Q.
Proof.
  intros R Hb HQ. rw /remover_thread_durmiente. step. eapply runs_wait_begin; [done|].
  steps. eapply (runs_remover_loop _ _ _ _ []); [done..| |done|done].
  pose proof (repr_fuel _ _ _ (kr_wait _ _ R)) as Hf. rw length_fmap in Hf. lia.
Qed.
End Ops.
