(* ===== verification/ThreadCreate.v ===== *)
(** * Creating threads

    [thread_create] implements [a_create]: it allocates a block, fills it in, and
    queues it.  The code also stores a three-word frame at the end of the page that
    begins at the block, outside the 152 bytes it asked for; [frame_hit] is the first of
    these words that falls into a live thread, if one does, and then the creation stops
    there with [Clobber]. *)

From S2P Require Import Prelude CList CListRepr CListSpec Machine Thread Sched ThreadRep.
From S2P Require Import ThreadLife ThreadSpec.

(** A word at [a] falls into one of the threads [T]. *)
Definition hits (T : gset Z) (a : Z) : bool :=
  existsb (λ u, overlaps a u sizeof_thread) (elements T).

(** The words of the frame of a thread at [t], in the order they are stored. *)
Definition frame_words (t : Z) : list Z := [t + 4084; t + 4088; t + 4092]%Z.
Definition frame_hit (T : gset Z) (t : Z) : option Z := List.find (hits T) (frame_words t).

Lemma hits_false T a :
  hits T a = false → ∀ u, u ∈ T → (a + 3 < u ∨ u + sizeof_thread ≤ a)%Z.
Proof.
  intros Hh u Hu. apply not_true_iff_false in Hh. rw /hits existsb_exists in Hh.
  destruct (decide (u ≤ a + 3 ∧ a < u + sizeof_thread)%Z) as [Ho|]; [|lia]. destruct Hh.
  exists u. split; [by apply list_elem_of_In, elem_of_elements|]. by apply bool_decide_eq_true_2.
Qed.

Lemma hits_true T a :
  hits T a = true → ∃ u, u ∈ T ∧ (u ≤ a + 3 ∧ a < u + sizeof_thread)%Z.
Proof.
  rw /hits existsb_exists. intros (u & Hu & Ho). exists u. split.
  - by apply elem_of_elements, list_elem_of_In.
  - by apply bool_decide_eq_true in Ho.
Qed.

(** The words [t + 4084, t + 4096) hold no live thread. *)
Definition frame_room (T : gset Z) (t : Z) : Prop :=
  set_Forall (λ u, t + PGSIZE ≤ u ∨ u + sizeof_thread ≤ t + PGSIZE - 12)%Z T.

Lemma frame_hit_room T t : frame_hit T t = None → frame_room T t.
Proof.
  rw /frame_hit /frame_words. cbn [List.find].
  destruct (hits T (t + 4084)) eqn:H1; [done|]. destruct (hits T (t + 4088)) eqn:H2; [done|].
  destruct (hits T (t + 4092)) eqn:H3; [done|]. intros _ u Hu.
  pose proof (hits_false _ _ H1 u Hu). pose proof (hits_false _ _ H2 u Hu).
  pose proof (hits_false _ _ H3 u Hu). change PGSIZE with 4096%Z. unfold sizeof_thread in *. lia.
Qed.

Section Create.
Context `{Platform}.
Implicit Types (s : kstate) (A : sched).

Lemma runs_update_thread_at s A t th (f : thread → thread) (g : tinfo → tinfo)
    (Q : unit → kstate → Prop) :
  krep s A → k_threads s !! t = Some th →
  (∀ th, abs_thread (f th) = g (abs_thread th)) → (∀ th, magic (f th) = magic th) →
  (∀ s', krep s' (w_thr A (alter g t (a_thr A))) → k_threads s' !! t = Some (f th) → Q tt s') →
  runs (update_thread t f) s Q.
Proof.
  intros R Hat Hf Hm HQ. eapply runs_mono; [apply runs_and|].
  - eapply (runs_update_thread _ _ _ _ g (λ _ s', krep s' (w_thr A (alter g t (a_thr A)))));
      [done| |done..]. rw (kr_thr _ _ R) lookup_fmap Hat. eauto.
  - instantiate (1 := λ _ s', k_threads s' !! t = Some (f th)).
    rw /runs /update_thread /load_thread /store_thread /mbind /M_bind Hat Hat /=.
    by rw lookup_insert_eq.
  - intros [] s' [R' E]. auto.
Qed.

(** [calloc] gives a block apart from everything the scheduler knows. *)
Lemma runs_new_thread s A (Q : Z → kstate → Prop) :
  krep s A → (heap_end ≤ a_main A)%Z → calloc (k_events s) ≠ NULL →
  (∀ s', kinit s' A (calloc (k_events s)) zero_thread →
         k_events s' = EvAlloc (calloc (k_events s)) :: k_events s →
         Q (calloc (k_events s)) s') →
  runs new_thread s Q.
Proof.
  intros R Hm Hn HQ. rw /new_thread. step. step. rw bool_decide_eq_false_2 //. steps.
  apply HQ; [|done]. set (t := calloc (k_events s)) in *.
  destruct (calloc_fresh (k_events s) Hn) as (Hlo & Hhi & Hap). fold t in Hlo, Hhi, Hap.
  assert (∀ u, u ∈ dom (k_threads s) → blocks_apart t u) as Hu.
  { intros u Hu. destruct (kr_events _ _ R u Hu) as [->|Hin]; [|by apply Hap].
    left. lia. }
  assert (k_threads s !! t = None) as Hnone.
  { apply not_elem_of_dom. intros Ht. apply Hu in Ht. unfold_addr. lia. }
  assert (layout ({[t]} ∪ dom (k_threads s))) as HL.
  { pose proof (kr_layout _ _ R) as [L1 L2]. split.
    - intros u [->%elem_of_singleton|Hin]%elem_of_union; [|by apply L1].
      change PGSIZE with 4096%Z. unfold heap_end in *. unfold_addr. lia.
    - intros u v [->%elem_of_singleton|Hin]%elem_of_union
                [->%elem_of_singleton|Hin']%elem_of_union Hne; auto.
      + done.
      + apply Hu in Hin. unfold_addr. lia. }
  assert (t ∉ dom (a_thr A)) as Hna.
  { rw -(kr_dom _ _ R). by apply not_elem_of_dom. }
  destruct (krep_lists_outside s A t _ (zero_cells t (k_heap s)) R HL) as (R1 & R2 & R3).
  { set_solver. }
  1-3: intros Hin; apply Hna, elem_of_dom; eapply kr_live_Some; eauto.
  { set_solver. } { apply outside_zero. }
  split; simpl.
  - by rw lookup_insert_eq.
  - exists (k_events s). split; [|by right]. rw delete_insert_id //.
    destruct R. split; simpl in *; try done.
    intros u c Hd Hc. apply zero_cells_dom. right. eauto.
  - by rw dom_insert_L.
  - intros c Hc. apply zero_cells_dom. by left.
Qed.

(** A word stored at [a] hits nothing when it is above the static lists and apart
    from every live thread. *)
Lemma runs_store_word s A a v (Q : unit → kstate → Prop) :
  krep s A → (heap_start ≤ a)%Z →
  (∀ u, is_Some (a_thr A !! u) → a + 3 < u ∨ u + sizeof_thread ≤ a)%Z →
  (∀ s', krep s' A → k_threads s' = k_threads s → Q tt s') →
  runs (store_word a v) s Q.
Proof.
  intros R Ha Hu HQ. rw /runs /store_word.
  assert (existsb (λ t, overlaps a t sizeof_thread) (elements (dom (k_threads s))) = false)
    as ->.
  { apply not_true_is_false. rw existsb_exists. intros (u & Hin & Ho).
    apply list_elem_of_In in Hin. rw elem_of_elements (kr_dom _ _ R) elem_of_dom in Hin.
    apply Hu in Hin. rw /overlaps bool_decide_eq_true in Ho. lia. }
  assert (existsb (λ l, overlaps a l 16) static_lists = false) as ->.
  { apply not_true_is_false. rw existsb_exists. intros (l & Hin & Ho).
    rw /overlaps bool_decide_eq_true in Ho. apply list_elem_of_In in Hin.
    rw /static_lists !elem_of_cons in Hin.
    destruct Hin as [->|[->|[->|[]%elem_of_nil]]]; unfold_addr; lia. }
  apply HQ; [|done]. by eapply krep_ext.
Qed.

Lemma runs_allocate_tid s A (Q : Z → kstate → Prop) :
  krep s A → (INT_MIN ≤ a_next_tid A < INT_MAX)%Z →
  (∀ s', krep s' (w_next_tid A (a_next_tid A + 1)) → k_threads s' = k_threads s →
         Q (a_next_tid A) s') →
  runs allocate_tid s Q.
Proof.
  intros R Hn HQ. rw /allocate_tid. steps. rw (kr_next_tid _ _ R).
  apply runs_int_op; [unfold INT_MIN, INT_MAX in *; lia|]. steps. apply HQ; [|done].
  eapply krep_globals; [done..|]. globals_eq R.
Qed.

Lemma runs_alloc_frame s A t th (Q : Z → kstate → Prop) :
  krep s A → k_threads s !! t = Some th →
  (∀ s', krep s' A → k_threads s' !! t = Some (with_stack th (uint32 (stack th - 12))) →
         Q (uint32 (stack th - 12)) s') →
  runs (alloc_frame t sizeof_kernel_thread_frame) s Q.
Proof.
  intros R Hat HQ. assert (is_Some (a_thr A !! t)) as Hi.
  { rw (kr_thr _ _ R) lookup_fmap Hat. eauto. }
  rw /alloc_frame. step. eapply runs_is_thread; [done..|]. step. step; [done|].
  step. step; [done|]. step.
  eapply (runs_update_thread_at _ _ _ _ _ id); [done..|]. intros s' R' Hat'.
  step. eapply runs_Ok; [by rw /load_thread Hat'|]. step.
  apply HQ; [|done]. destruct A; simpl in *. by rw alter_id in R'.
Qed.

(** A word that falls into a thread. *)
Lemma store_word_hits s a v :
  hits (dom (k_threads s)) a = true → store_word a v s = Err (Clobber a).
Proof. intros Hh. rw /store_word. unfold hits in Hh. by rw Hh. Qed.

(** The scheduler with the new thread filled in but not queued. *)
Definition a_new (t dur : Z) A : sched :=
  w_next_tid (w_all (w_thr A (<[t := TInfo THREAD_BLOCKED dur 0]> (a_thr A))) (a_all A ++ [t]))
    (a_next_tid A + 1).

(** [thread_create] from the stores of the frame on. *)
Definition create_tail (t kf tid : Z) (nm : cstring) (function aux : Z) : M kstate Z :=
  store_word kf NULL;;
  store_word (kf + 4) function;;
  store_word (kf + 8) aux;;
  thread_unblock t;;
  (if bool_decide (c_addr nm = c_addr idle_literal) && bool_decide (tid = 2)%Z
   then modify (λ s, set_idle_thread s t) else mret tt);;
  block_if_idle_thread;;
  mret tid.

(** Up to the frame; [P] is what is to be shown of the outcome. *)
Lemma create_to_frame s A nm function aux dur t (P : result (Z * kstate) → Prop) :
  krep s A → (heap_end ≤ a_main A)%Z → c_addr nm ≠ NULL →
  calloc (k_events s) = t → t ≠ NULL → (INT_MIN ≤ a_next_tid A < INT_MAX)%Z →
  (∀ s', krep s' (a_new t dur A) → a_thr A !! t = None →
     t ∉ a_ready A ∧ t ∉ a_wait A ∧ t ∉ a_all A →
     P (create_tail t (t + 4084) (a_next_tid A) nm function aux s')) →
  P (thread_create nm function aux dur s).
Proof.
  intros R Hm Hnm Ht Hn Htid HP.
  rw /thread_create. apply runs_then. eapply runs_new_thread; [done..|by rw Ht|]. rewrite Ht.
  destruct (calloc_fresh (k_events s)) as (Hlo & Hhi & _); [by rw Ht|]. rw Ht in Hlo Hhi.
  intros s0 K _. pose proof (kinit_fresh _ _ _ _ K) as Hfresh.
  pose proof (kinit_unlisted _ _ _ _ K) as Hun.
  rw bool_decide_eq_false_2 //. apply runs_then. eapply runs_init_thread; [done..|].
  intros s1 R1 Hat1.
  apply runs_then. eapply runs_allocate_tid; [done..|]. intros s2 R2 E2. rw -E2 in Hat1.
  apply runs_then. eapply (runs_update_thread_at _ _ _ _ _ id); [done..|]. intros s3 R3 Hat3.
  apply runs_then. eapply (runs_update_thread_at _ _ _ _ _ (set_info_dur dur)); [done..|].
  intros s4 R4 Hat4. simpl in R4. rw alter_id // alter_insert_eq in R4.
  apply runs_then. apply runs_modify. set (s5 := set_out _ _).
  assert (krep s5 (a_new t dur A)) as R5 by (by eapply krep_ext).
  apply runs_then. eapply runs_alloc_frame; [exact R5|exact Hat4|]. simpl.
  assert (uint32 (uint32 (t + PGSIZE) - 12) = t + 4084)%Z as ->.
  { change PGSIZE with 4096%Z. unfold heap_start, heap_end, sizeof_thread in *.
    rw (uint32_id (t + 4096)); [lia|]. rw uint32_id; lia. }
  intros s6 R6 _. exact (HP s6 R6 Hfresh Hun).
Qed.

(** The frame falls into another thread. *)
Lemma thread_create_clobbers s A nm function aux dur t a :
  krep s A → (heap_end ≤ a_main A)%Z → c_addr nm ≠ NULL →
  calloc (k_events s) = t → t ≠ NULL → (INT_MIN ≤ a_next_tid A < INT_MAX)%Z →
  frame_hit (dom (a_thr A)) t = Some a →
  thread_create nm function aux dur s = Err (Clobber a).
Proof.
  intros R Hm Hnm Ht Hn Htid Hh.
  apply (create_to_frame s A nm function aux dur t (λ r, r = Err (Clobber a))); try done.
  destruct (calloc_fresh (k_events s)) as (Hlo & _); [by rw Ht|]. rw Ht in Hlo.
  intros s1 R1 _ _. rw /create_tail.
  assert (∀ b s', krep s' (a_new t dur A) → (t + sizeof_thread ≤ b)%Z → (heap_start ≤ b)%Z →
    ∀ v, if hits (dom (a_thr A)) b then store_word b v s' = Err (Clobber b)
         else runs (store_word b v) s' (λ _ s'', krep s'' (a_new t dur A))) as Hst.
  { intros b s' R' Hb Hb' v. destruct (hits (dom (a_thr A)) b) eqn:E.
    - apply store_word_hits. apply hits_true in E as (u & Hu & Ho).
      apply not_false_iff_true. intros Hf. pose proof (hits_false _ _ Hf u) as Hu'.
      rw (kr_dom _ _ R') /= dom_insert_L in Hu'. specialize (Hu' ltac:(set_solver)). lia.
    - eapply runs_store_word; [done|done| |done]. intros u [i Hu]. simpl in Hu.
      apply lookup_insert_Some in Hu as [[<- _]|[_ Hu]]; [lia|].
      by apply (hits_false _ _ E), elem_of_dom_2 with i. }
  assert (∀ b, b ∈ frame_words t → t + sizeof_thread ≤ b ∧ heap_start ≤ b)%Z as Hfw.
  { intros b Hb. rw /frame_words !elem_of_cons elem_of_nil in Hb. unfold sizeof_thread. lia. }
  rw /frame_hit /frame_words in Hh Hfw. cbn [List.find] in Hh.
  pose proof (Hst (t + 4084)%Z s1 R1 ltac:(apply Hfw; set_solver) ltac:(apply Hfw; set_solver) NULL) as H1.
  destruct (hits _ (t + 4084)); [injection Hh as <-; by apply bind_Err|].
  apply runs_err. use H1. intros [] s2 R2. replace (t + 4084 + 4)%Z with (t + 4088)%Z by lia.
  pose proof (Hst (t + 4088)%Z s2 R2 ltac:(apply Hfw; set_solver) ltac:(apply Hfw; set_solver) function) as H2.
  destruct (hits _ (t + 4088)); [injection Hh as <-; by apply bind_Err|].
  apply runs_err. use H2. intros [] s3 R3. replace (t + 4084 + 8)%Z with (t + 4092)%Z by lia.
  pose proof (Hst (t + 4092)%Z s3 R3 ltac:(apply Hfw; set_solver) ltac:(apply Hfw; set_solver) aux) as H3.
  destruct (hits _ (t + 4092)); [injection Hh as <-; by apply bind_Err|done].
Qed.

(** [thread_create] when the allocator has memory. *)
Lemma runs_thread_create s A nm function aux dur t (Q : Z → kstate → Prop) :
  krep s A → status_of A (a_run A) = Some THREAD_RUNNING →
  let starts := bool_decide (c_addr nm = c_addr idle_literal)
                && bool_decide (a_next_tid A = 2)%Z in
  (starts = true ∨ is_Some (a_thr A !! a_idle A)) →
  (heap_end ≤ a_main A)%Z → c_addr nm ≠ NULL →
  calloc (k_events s) = t → t ≠ NULL → frame_room (dom (a_thr A)) t →
  (INT_MIN ≤ a_next_tid A < INT_MAX)%Z →
  (∀ s', krep s' (if starts then a_start t dur A else a_create t dur A) →
         Q (a_next_tid A) s') →
  runs (thread_create nm function aux dur) s Q.
Proof.
  intros R Hst starts Hidle Hm Hnm Ht Hn Hroom Htid HQ.
  apply (create_to_frame s A nm function aux dur t (λ r, match r with
    Ok (a, s') => Q a s' | Err _ => False end)); [done..|].
  destruct (calloc_fresh (k_events s)) as (Hlo & Hhi & _); [by rw Ht|]. rw Ht in Hlo Hhi.
  intros s6 R6 Hfresh (U1 & U2 & U3).
  change (runs (create_tail t (t + 4084) (a_next_tid A) nm function aux) s6 Q).
  set (A3 := a_new t dur A) in *. rw /create_tail.
  assert (a_run A ≠ t) as Hrt.
  { intros <-. apply status_of_Some in Hst. rw Hfresh in Hst. by destruct Hst. }
  assert (∀ a, (t + 4084 ≤ a ≤ t + 4092)%Z → heap_start ≤ a ∧
    ∀ u, is_Some (a_thr A3 !! u) → a + 3 < u ∨ u + sizeof_thread ≤ a)%Z as Hfree.
  { intros a Ha. split; [lia|]. intros u [i Hu]. simpl in Hu.
    apply lookup_insert_Some in Hu as [[<- _]|[_ Hu]]; [unfold sizeof_thread; lia|].
    apply elem_of_dom_2, Hroom in Hu. change PGSIZE with 4096%Z in Hu. lia. }
  step. eapply runs_store_word; [exact R6|apply Hfree; lia..|]. intros s7 R7 _.
  step. eapply runs_store_word; [exact R7|apply Hfree; lia..|]. intros s8 R8 _.
  step. eapply runs_store_word; [exact R8|apply Hfree; lia..|]. intros s9 R9 _.
  step. eapply runs_thread_unblock; [exact R9| |done..|].
  { by rw /status_of /= lookup_insert_eq. }
  intros s10 R10. step.
  assert (status_of (a_unblock t A3) (a_run A) = Some THREAD_RUNNING) as Hst'.
  { rw /a_unblock set_status_other // /status_of /= lookup_insert_ne //. }
  assert (∀ u, u = t ∨ is_Some (a_thr A !! u) → is_Some (a_thr (a_unblock t A3) !! u)) as Hsub.
  { intros u Hu. apply set_status_live. simpl. rw lookup_insert_is_Some.
    destruct (decide (t = u)); [by left|right]. split; [done|]. by destruct Hu. }
  eapply (runs_mono _ _ (λ _ s', krep s' (if starts then w_idle (a_unblock t A3) t
                                          else a_unblock t A3))).
  { change (bool_decide (c_addr nm = c_addr idle_literal) && bool_decide (a_next_tid A = 2%Z))
      with starts. destruct starts; [|by step].
    eapply (runs_modify_global _ _ (w_idle (a_unblock t A3) t));
      [exact R10|done..|globals_eq R10|done]. }
  intros _ s11 R11. step. eapply runs_block_if_idle; [exact R11| |].
  { destruct starts; split; try done; simpl.
    - apply Hsub. by left.
    - apply Hsub. right. by destruct Hidle. }
  intros s12 R12. step. apply HQ. by destruct starts.
Qed.

(** Out of memory: nothing happens. *)
Lemma runs_thread_create_oom s nm function aux dur (Q : Z → kstate → Prop) :
  calloc (k_events s) = NULL → Q TID_ERROR s →
  runs (thread_create nm function aux dur) s Q.
Proof.
  intros Hc HQ. rw /thread_create. step. rw /new_thread. step. step.
  by rw bool_decide_eq_true_2.
Qed.
End Create.
