(* ===== verification/MainSpec.v ===== *)
(** * main.c implements the abstract scheduler

    The timer interrupt handler and the body of the scheduling loop. *)

From S2P Require Import Prelude CList CListRepr CListSpec Machine Thread Main Sched SchedInv.
From S2P Require Import ThreadRep ThreadLife ThreadSpec ThreadCreate.

(** ** The invariant gives the operations' preconditions *)

Section Handlers.
Context `{Platform}.
Implicit Types (s : kstate) (A : sched).

Lemma can_run_ok A : sched_ok A → can_run A.
Proof. intros O. split; [apply O|]. by apply idle_live. Qed.

Lemma runs_yield_ok s A (Q : unit → kstate → Prop) :
  krep s A → sched_ok A → (∀ s', krep s' (a_yield A) → Q tt s') → runs thread_yield s Q.
Proof.
  intros R O. eapply runs_thread_yield; [done|by apply can_run_ok|..].
  - by apply run_not_ready.
  - by apply run_not_wait.
Qed.

Lemma runs_exit_ok s A (Q : unit → kstate → Prop) :
  krep s A → sched_ok A → (∀ s', krep s' (a_exit A) → Q tt s') → runs thread_exit s Q.
Proof.
  intros R O. eapply runs_thread_exit; [done|by apply can_run_ok|..].
  - by apply run_not_ready.
  - by apply run_not_wait.
  - by apply run_in_all.
Qed.

(** [thread_current ()->duration_ticks] and the like, followed by more code. *)
Lemma runs_current_then {B} s A (f : thread → M kstate B) (Q : B → kstate → Prop) :
  krep s A → sched_ok A →
  (∀ th, duration_ticks th = dur_of A (a_run A) → runs (f th) s Q) →
  runs (c ← thread_current; th ← load_thread c; f th) s Q.
Proof.
  intros R O HQ. step. eapply runs_thread_current; [done|apply O|].
  destruct (run_live A O) as [i Hi]. step. eapply runs_load_thread; [done..|].
  intros th Hab _. apply HQ. by rw /dur_of Hi -Hab.
Qed.

(** ** after_interrupt *)

Lemma runs_after_interrupt s A (Q : unit → kstate → Prop) :
  krep s A → sched_ok A → (∀ s', krep s' (a_after_interrupt A) → Q tt s') →
  runs after_interrupt s Q.
Proof.
  intros R O HQ. rw /after_interrupt. step.
  eapply runs_block_if_idle; [done|by apply can_run_ok|]. clear dependent s. intros s R.
  rw /a_after_interrupt in HQ. apply block_if_idle_ok in O.
  set (A1 := a_block_if_idle A) in *. clearbody A1. clear A.
  eapply (runs_current_then _ A1); [done..|]. intros th Hth. step.
  eapply (runs_mono _ _ (λ _ s', krep s' (a_dispatch A1))).
  { rw /a_dispatch -Hth. case_bool_decide as Hd.
    - step. step. eapply (runs_current_then _ A1); [done..|]. intros th' _.
      step. eapply runs_printf; [done|]. intros s' R'. by eapply runs_exit_ok.
    - steps. rw (kr_mode _ _ R). case_bool_decide as Hm; [by step|].
      step. eapply runs_ready_empty; [done|]. rw (kr_quantum _ _ R) (kr_slice _ _ R).
      destruct (a_ready A1) as [|t q] eqn:Hq.
      + rw bool_decide_eq_true_2 //.
      + rw bool_decide_eq_false_2 //. case_bool_decide; [|by step]. by eapply runs_yield_ok. }
  clear dependent s. intros _ s R. apply dispatch_ok in O.
  set (A2 := a_dispatch A1) in *. clearbody A2. clear A1 th Hth.
  rw /a_forced in HQ. steps. rw (kr_force _ _ R). case_bool_decide as Hf; [by step; apply HQ|].
  eapply (runs_current_then _ A2); [done..|]. intros th Hth. rw -Hth in HQ.
  case_bool_decide as Hd; [by step; apply HQ|].
  eapply (runs_current_then _ A2); [done..|]. intros th' _.
  step. eapply runs_printf; [done|]. clear dependent s. intros s R.
  step. eapply runs_exit_ok; [done..|]. intros s' R'. step. apply HQ.
  eapply krep_globals; [done..|]. globals_eq R'.
Qed.

(** ** timer_interrupt *)

Lemma runs_timer_interrupt s A (Q : bool → kstate → Prop) :
  krep s A → sched_ok A → (a_now A < INT_MAX)%Z →
  (∀ s', krep s' (a_timer_interrupt A) → Q true s') → runs timer_interrupt s Q.
Proof.
  intros R O Hn HQ. rw /timer_interrupt. steps. rw (kr_now _ _ R).
  pose proof (so_clock _ O) as C.
  apply runs_int_op; [destruct C; unfold INT_MIN, INT_MAX in *; lia|]. step.
  eapply (runs_modify_global _ _ (w_now A (a_now A + 1))); [done..|globals_eq R|].
  clear dependent s. intros s R. step.
  destruct (run_live A O) as [i Hi]. pose proof (ck_dur _ C _ _ Hi) as Hd.
  eapply runs_thread_tick; [done|..].
  { split; [apply O|]. by apply (idle_live A). }
  1-2: destruct C; unfold INT_MAX in *; simpl; lia.
  { simpl. rw /dur_of Hi /=. destruct C; unfold INT_MIN, INT_MAX in *; lia. }
  clear dependent s. intros s R. rw /a_timer_interrupt in HQ.
  pose proof (tick_tick_ok A O Hn) as K.
  set (A1 := a_tick (w_now A (a_now A + 1))) in *. clearbody A1.
  step. eapply runs_thread_current; [done|apply K|].
  destruct (status_of_lookup _ _ _ (tk_run _ K)) as (j & Hj & _).
  step. eapply runs_load_thread; [done..|]. intros th _ _. steps.
  eapply runs_printf; [done|]. rw (kr_now _ _ R). clear dependent s. intros s R.
  step. eapply runs_remover; [done|apply K|]. intros s' R'. step. auto.
Qed.
End Handlers.
