(* ===== verification/Kernel.v ===== *)
(** * The kernel as a transition system

    Once started, the kernel is driven by calls: the timer interrupt, rounds of the
    scheduling loop, and what the tests and their alarm callbacks call.  [exec] runs
    the C code of a call; [kstep] is the transition relation on memories; [a_exec]
    is the same call on the abstract scheduler.  The file proves the simulation, one
    call at a time and along executions. *)

From S2P Require Import Prelude CList CListRepr CListSpec Machine Thread Main Sched SchedInv.
From S2P Require Import ThreadRep ThreadLife ThreadSpec ThreadCreate MainSpec.

Inductive call :=
| Tick                                                   (* timer_interrupt *)
| Loop                                                   (* after_interrupt *)
| Create (nm : cstring) (function aux duration : Z)      (* thread_create *)
| Sleep (n : Z)                                          (* thread_sleep *)
| TimerSleep (n : Z)                                     (* timer_sleep *)
| Yield                                                  (* thread_yield *)
| Exit                                                   (* thread_exit *)
| ForceExit                                              (* set_thread_exit_on_return *)
| SetQuantum (mode rrticks : Z).                         (* schedule_set_quantum *)

Section Kernel.
Context `{Platform}.

Definition exec (c : call) : M kstate unit :=
  match c with
  | Tick => timer_interrupt;; mret tt
  | Loop => after_interrupt
  | Create nm function aux duration => thread_create nm function aux duration;; mret tt
  | Sleep n => thread_sleep n
  | TimerSleep n => timer_sleep n
  | Yield => thread_yield
  | Exit => thread_exit
  | ForceExit => modify (λ s, set_thread_exit_on_return s 1)
  | SetQuantum mode rrticks => schedule_set_quantum mode rrticks
  end.

(** How a call is made: a thread is created with a duration that is not negative, and the
    idle thread does not sleep (what happens when it does is [idle_sleep_panics] of
    ErrorProps). *)
Definition proper (s : kstate) (c : call) : Prop :=
  match c with
  | Create _ _ _ duration => (0 ≤ duration ≤ INT_MAX)%Z
  | Sleep n | TimerSleep n => (0 < n)%Z → thread_running_var s ≠ idle_thread s
  | _ => True
  end.

(** How a call fails, and [None] when it does not.  The counters of ticks and of
    identifiers overflow; a sleep ends beyond the last tick; a thread without a name
    panics; and the frame that [thread_create] stores behind its block falls into another
    thread.  Without memory [thread_create] does nothing. *)
Definition failure (s : kstate) (c : call) : option error :=
  match c with
  | Tick => if bool_decide (ticks s = INT_MAX) then Some Overflow else None
  | Create nm _ _ _ =>
      let t := calloc (k_events s) in
      if bool_decide (t = NULL) then None
      else if bool_decide (c_addr nm = NULL) then Some (Panic thread_c 221)
      else if bool_decide (next_tid s = INT_MAX) then Some Overflow
      else Clobber <$> frame_hit (dom (k_threads s)) t
  | Sleep n | TimerSleep n =>
      if bool_decide (0 < n ∧ INT_MAX < ticks s + n)%Z then Some Overflow else None
  | _ => None
  end.

(** A call that is made properly and returns. *)
Definition kstep (c : call) (s s' : kstate) : Prop := proper s c ∧ exec c s = Ok (tt, s').

(** What the proofs need of the state; it follows when [failure] is [None]. *)
Definition enough (s : kstate) (c : call) : Prop :=
  match c with
  | Tick => (ticks s < INT_MAX)%Z
  | Create nm _ _ duration =>
      (0 ≤ duration ≤ INT_MAX)%Z ∧
      (calloc (k_events s) ≠ NULL → c_addr nm ≠ NULL ∧ (next_tid s < INT_MAX)%Z ∧
         frame_room (dom (k_threads s)) (calloc (k_events s)))
  | Sleep n | TimerSleep n =>
      (0 < n)%Z → thread_running_var s ≠ idle_thread s ∧ (ticks s + n ≤ INT_MAX)%Z
  | _ => True
  end.

(** Executions: a sequence of calls. *)
Inductive ksteps : list call → kstate → kstate → Prop :=
| ksteps_nil s : ksteps [] s s
| ksteps_cons c cs s1 s2 s3 : kstep c s1 s2 → ksteps cs s2 s3 → ksteps (c :: cs) s1 s3.

(** The call on the abstract scheduler; [t] is the block [calloc] would give. *)
Definition a_set_quantum (mode rrticks : Z) (A : sched) : sched :=
  if bool_decide (mode = 0)%Z then w_mode A 0
  else if bool_decide (mode = 1)%Z && bool_decide (0 < rrticks)%Z
  then w_quantum (w_mode A 1) (uint32 rrticks) else A.

Definition a_exec (t : Z) (c : call) (A : sched) : sched :=
  match c with
  | Tick => a_timer_interrupt A
  | Loop => a_after_interrupt A
  | Create _ _ _ duration => if bool_decide (t = NULL) then A else a_create t duration A
  | Sleep n | TimerSleep n => a_sleep n A
  | Yield => a_yield A
  | Exit => a_exit A
  | ForceExit => w_force A 1
  | SetQuantum mode rrticks => a_set_quantum mode rrticks A
  end.

(** A memory that represents a scheduler in good order. *)
Definition good (s : kstate) (A : sched) : Prop := krep s A ∧ sched_ok A.

Lemma runs_create_ok s A nm function aux dur (Q : Z → kstate → Prop) :
  good s A → enough s (Create nm function aux dur) →
  (∀ tid s', krep s' (a_exec (calloc (k_events s)) (Create nm function aux dur) A) → Q tid s') →
  runs (thread_create nm function aux dur) s Q.
Proof.
  intros [R O] (Hd & Hmem) HQ. simpl in HQ.
  destruct (decide (calloc (k_events s) = NULL)) as [E|E].
  { rw bool_decide_eq_true_2 // in HQ. eapply runs_thread_create_oom; [done|]. auto. }
  destruct (Hmem E) as (Hnm & Htid & Hroom).
  rw bool_decide_eq_false_2 // in HQ. pose proof (so_clock _ O) as C.
  rw (kr_next_tid _ _ R) in Htid. rw (kr_dom _ _ R) in Hroom.
  eapply runs_thread_create; [done|apply O|..|done|done|done|done| |].
  - right. by apply idle_live.
  - destruct C. change PGSIZE with 4096%Z in *. lia.
  - destruct C. unfold INT_MIN. lia.
  - rw (bool_decide_eq_false_2 (a_next_tid A = 2%Z)) ?andb_false_r; [destruct C; lia|]. auto.
Qed.

(** ** The simulation *)

Lemma exec_refines s A c :
  good s A → enough s c →
  runs (exec c) s (λ _ s', krep s' (a_exec (calloc (k_events s)) c A)).
Proof.
  intros [R O] Hc. destruct c; simpl in *.
  - step. eapply runs_timer_interrupt; [done..| |intros; by step]. by rw -(kr_now _ _ R).
  - by eapply runs_after_interrupt.
  - step. eapply runs_create_ok; [done..|]. intros. by step.
  - rw (kr_now _ _ R) in Hc. eapply runs_thread_sleep;
      [done|by apply can_run_ok|by apply run_not_ready|by apply run_not_wait| | |done];
      destruct (so_clock _ O); [lia|]. destruct (decide (0 < n)%Z); [by apply Hc|lia].
  - rw (kr_now _ _ R) in Hc. eapply runs_timer_sleep;
      [done|by apply can_run_ok|by apply run_not_ready|by apply run_not_wait| | |done];
      destruct (so_clock _ O); [lia|]. destruct (decide (0 < n)%Z); [by apply Hc|lia].
  - by eapply runs_yield_ok.
  - by eapply runs_exit_ok.
  - eapply (runs_modify_global _ _ (w_force A 1)); [done..|globals_eq R|done].
  - rw /schedule_set_quantum /a_set_quantum. case_bool_decide.
    { eapply (runs_modify_global _ _ (w_mode A 0)); [done..|globals_eq R|done]. }
    case_match; [|by step]. step.
    eapply (runs_modify_global _ _ (w_mode A 1)); [done..|globals_eq R|]. intros s' R'.
    eapply (runs_modify_global _ _ (w_quantum (w_mode A 1) (uint32 rrticks)));
      [done..|globals_eq R'|done].
Qed.

(** A block given by [calloc] is not a live thread. *)
Lemma calloc_unused s A :
  good s A → calloc (k_events s) ≠ NULL → a_thr A !! calloc (k_events s) = None.
Proof.
  intros [R O] E. apply not_elem_of_dom. rw -(kr_dom _ _ R). intros Hin.
  destruct (calloc_fresh _ E) as (Hlo & Hhi & Hap).
  destruct (kr_events _ _ R _ Hin) as [Em|Hl].
  - destruct (so_clock _ O). change PGSIZE with 4096%Z in *. unfold sizeof_thread in *. lia.
  - apply Hap in Hl. unfold_addr. lia.
Qed.

Lemma sleep_any_ok n A :
  sched_ok A → ((0 < n)%Z → a_run A ≠ a_idle A ∧ (a_now A + n ≤ INT_MAX)%Z) →
  sched_ok (a_sleep n A).
Proof.
  intros O Hn. destruct (decide (0 < n)%Z) as [Hp|Hp]; [|by rw /a_sleep bool_decide_eq_false_2].
  destruct (Hn Hp). by apply sleep_ok.
Qed.

Lemma a_exec_ok s A c :
  good s A → enough s c → sched_ok (a_exec (calloc (k_events s)) c A).
Proof.
  intros [R O] Hc. destruct c; simpl in *.
  - apply timer_interrupt_ok; [done|]. by rw -(kr_now _ _ R).
  - by apply after_interrupt_ok.
  - destruct Hc as (Hd & Hmem). case_bool_decide as E; [done|].
    destruct (Hmem E) as (_ & Htid & _). apply create_ok; [done| |done|by rw -(kr_next_tid _ _ R)].
    by apply calloc_unused.
  - rw (kr_run _ _ R) (kr_idle _ _ R) (kr_now _ _ R) in Hc. by apply sleep_any_ok.
  - rw (kr_run _ _ R) (kr_idle _ _ R) (kr_now _ _ R) in Hc. by apply sleep_any_ok.
  - by apply yield_ok.
  - by apply exit_ok.
  - by apply force_ok.
  - rw /a_set_quantum. case_bool_decide; [by apply (mode_ok 0 (a_quantum A))|].
    case_match; [by apply mode_ok|done].
Qed.

Lemma exec_good s A c :
  good s A → enough s c →
  ∃ s', exec c s = Ok (tt, s') ∧ good s' (a_exec (calloc (k_events s)) c A).
Proof.
  intros G Hc. destruct (runs_inv _ _ _ (exec_refines _ _ _ G Hc)) as ([] & s' & E & R).
  exists s'. split; [done|]. split; [done|]. by apply a_exec_ok.
Qed.

(** ** Failures *)

Lemma failure_enough s A c :
  good s A → proper s c → failure s c = None → enough s c.
Proof.
  intros [R O] Hp. destruct c; simpl in *; try done.
  - case_bool_decide as Ht; [done|]. intros _. rewrite (kr_now _ _ R) in Ht |- *.
    destruct (so_clock _ O). lia.
  - intros Hf. split; [done|]. intros Hn. rw bool_decide_eq_false_2 // in Hf.
    case_bool_decide; [done|]. case_bool_decide as Ht; [done|]. apply fmap_None in Hf.
    split_and!; [done| |by apply frame_hit_room].
    rewrite (kr_next_tid _ _ R) in Ht |- *. destruct (so_clock _ O). lia.
  - case_bool_decide; [done|]. intros _ Hn. split; [by apply Hp|lia].
  - case_bool_decide; [done|]. intros _ Hn. split; [by apply Hp|lia].
Qed.

Lemma sleep_overflows s A n :
  good s A → (0 < n)%Z → (INT_MAX < ticks s + n)%Z →
  thread_sleep n s = Err Overflow ∧ timer_sleep n s = Err Overflow.
Proof.
  intros [R O] Hp Hn. destruct (can_run_ok A O) as [Hst Hid].
  destruct (status_of_lookup _ _ _ Hst) as (i & Hi & _).
  assert (∀ s', krep s' A → insertar_en_lista_espera n s' = Err Overflow) as Hins.
  { intros s' R'. rw /insertar_en_lista_espera. apply bind_Err. rw /insertar_begin.
    apply runs_err. eapply runs_thread_current; [done..|]. apply runs_err. rw /timer_ticks. steps.
    apply bind_Err. rw /int_op bool_decide_eq_false_2 //.
    rewrite (kr_now _ _ R) in Hn. rewrite (kr_now _ _ R'). lia. }
  split.
  - rw /thread_sleep. apply runs_err. rw /timer_ticks. steps. rw bool_decide_eq_true_2 //.
    apply runs_err. eapply runs_thread_current; [done..|]. apply runs_err.
    eapply runs_load_thread; [done..|]. intros th _ _. apply runs_err. eapply runs_printf; [done|].
    intros s' R'. by apply Hins.
  - rw /timer_sleep. apply runs_err. rw /timer_ticks. steps. rw bool_decide_eq_true_2 //.
    by apply Hins.
Qed.

Lemma create_fails s A nm function aux dur e :
  good s A → failure s (Create nm function aux dur) = Some e →
  thread_create nm function aux dur s = Err e.
Proof.
  intros [R O]. simpl. case_bool_decide as Hn; [done|]. pose proof (so_clock _ O) as C.
  assert (heap_end ≤ a_main A)%Z as Hm by (destruct C; change PGSIZE with 4096%Z in *; lia).
  case_bool_decide as Hnm.
  { intros [= <-]. rw /thread_create. apply runs_err. eapply runs_new_thread; [done..|].
    intros s1 _ _. rw bool_decide_eq_false_2 //. apply bind_Err. rw /init_thread.
    apply runs_err. step; [by rw bool_decide_eq_false_2|]. apply bind_Err.
    by rw bool_decide_eq_true_2. }
  case_bool_decide as Ht.
  { intros [= <-]. rw /thread_create. apply runs_err. eapply runs_new_thread; [done..|].
    intros s1 K _. rw bool_decide_eq_false_2 //. apply runs_err.
    eapply runs_init_thread; [done..|]. intros s2 R2 _. apply bind_Err. rw /allocate_tid.
    apply runs_err. steps. apply bind_Err. rw (kr_next_tid _ _ R2) /=.
    rewrite (kr_next_tid _ _ R) in Ht. rewrite Ht. done. }
  intros (a & Ha & ->)%fmap_Some. rewrite (kr_dom _ _ R) in Ha.
  rewrite (kr_next_tid _ _ R) in Ht. eapply thread_create_clobbers; [done..| |done].
  destruct C. unfold INT_MIN. lia.
Qed.

Lemma failure_err s A c e : good s A → failure s c = Some e → exec c s = Err e.
Proof.
  intros G Hf. pose proof G as [R O]. destruct c; simpl in *; try done.
  - case_bool_decide as Ht; [|done]. injection Hf as <-. apply bind_Err. rw /timer_interrupt.
    apply runs_err. step. apply bind_Err. by rw Ht.
  - apply bind_Err. by eapply create_fails.
  - case_bool_decide as Hn; [|done]. injection Hf as <-. destruct Hn. by eapply sleep_overflows.
  - case_bool_decide as Hn; [|done]. injection Hf as <-. destruct Hn. by eapply sleep_overflows.
Qed.

Lemma kstep_enough s s' A c : good s A → kstep c s s' → enough s c.
Proof.
  intros G [Hp He]. eapply failure_enough; [done..|]. destruct (failure s c) eqn:Hf; [|done].
  by rw (failure_err _ _ _ _ G Hf) in He.
Qed.

Lemma kstep_good s s' A c :
  good s A → kstep c s s' → good s' (a_exec (calloc (k_events s)) c A).
Proof.
  intros G Hs. destruct (exec_good _ _ _ G (kstep_enough _ _ _ _ G Hs)) as (s2 & E & G').
  destruct Hs as [_ He]. rw He in E. by simplify_eq.
Qed.

Lemma ksteps_good cs s s' A :
  ksteps cs s s' → good s A → ∃ A', good s' A'.
Proof.
  intros Hs. revert A. induction Hs as [s|c cs s1 s2 s3 Hc _ IH]; intros A G; [eauto|].
  eapply IH. by eapply kstep_good.
Qed.
End Kernel.
