(* ===== verification/Frames.v ===== *)
(** * What the kernel code leaves alone

    [keeps f m]: a run of [m] that returns has not changed the part [f] of the state.
    The lemmas follow the structure of the code, so that [solve_keeps] proves the rest;
    they are used for the history of the allocator at start-up, for the counter of the
    test programs, and to see that the history records what the allocator answered. *)

From S2P Require Import Prelude CList Machine Thread Main.

Definition keeps {T B} (f : kstate → T) (m : M kstate B) : Prop :=
  ∀ s b s', m s = Ok (b, s') → f s' = f s.

(** Parts of the state other than the cells, the threads and the console. *)
Class Beside {T} (f : kstate → T) : Prop := {
  be_heap s v : f (set_heap s v) = f s;
  be_threads s v : f (set_threads s v) = f s;
  be_out s v : f (set_out s v) = f s;
}.
#[global] Instance beside_events : Beside k_events. Proof. by split. Qed.

Section Keeps.
Context {T} (f : kstate → T).

Lemma keeps_ret {B} (b : B) : keeps f (mret b).
Proof. by intros s b' s' [= _ <-]. Qed.
Lemma keeps_bind {B C} (m : M kstate B) (g : B → M kstate C) :
  keeps f m → (∀ b, keeps f (g b)) → keeps f (m ≫= g).
Proof.
  intros Hm Hg s c s' (b & s1 & E1 & E2)%bind_inv. rw (Hg _ _ _ _ E2). by eapply Hm.
Qed.
Lemma keeps_get : keeps f get.
Proof. by intros s b s' [= _ <-]. Qed.
Lemma keeps_modify g : (∀ s, f (g s) = f s) → keeps f (modify g).
Proof. by intros Hg s b s' [= <- <-]. Qed.
Lemma keeps_fail {B} e : keeps f (fail (A := B) e).
Proof. done. Qed.
Lemma keeps_assert file line c : keeps f (ASSERT file line c).
Proof. rw /ASSERT. destruct c; [apply keeps_ret|apply keeps_fail]. Qed.
Lemma keeps_load t : keeps f (load_thread t).
Proof. intros s b s'. rw /load_thread. destruct (k_threads s !! t); [|done]. by intros [= <- <-]. Qed.
Lemma keeps_int_op z : keeps f (int_op z).
Proof. rw /int_op. case_match; [apply keeps_ret|apply keeps_fail]. Qed.
Lemma keeps_llong_op z : keeps f (llong_op z).
Proof. rw /llong_op. case_match; [apply keeps_ret|apply keeps_fail]. Qed.

Context `{!Beside f}.

Lemma keeps_store t th : keeps f (store_thread t th).
Proof.
  intros s b s'. rw /store_thread. destruct (k_threads s !! t); [|done].
  intros [= <- <-]. apply be_threads.
Qed.
Lemma keeps_on_heap {B} (m : M heap B) : keeps f (on_heap m).
Proof.
  intros s b s'. rw /on_heap /zoom. destruct (m (k_heap s)) as [[b1 h]|]; [|done].
  intros [= <- <-]. apply be_heap.
Qed.
Lemma keeps_update t g : keeps f (update_thread t g).
Proof. apply keeps_bind; [apply keeps_load|]. intros. apply keeps_store. Qed.
Lemma keeps_emit o : keeps f (emit o).
Proof. apply keeps_modify. intros s. apply be_out. Qed.
Lemma keeps_printf fmt l : keeps f (printf fmt l).
Proof. apply keeps_emit. Qed.
End Keeps.

Create HintDb keeps.
#[export] Hint Resolve keeps_ret keeps_get keeps_fail keeps_assert keeps_load keeps_store
  keeps_on_heap keeps_int_op keeps_llong_op keeps_update keeps_printf keeps_emit : keeps.
Ltac solve_keeps :=
  repeat first [by auto 2 with keeps typeclass_instances | apply keeps_bind; intros
               | by apply keeps_modify | case_match].

Lemma runs_keeps {T B} (f : kstate → T) (m : M kstate B) s (Q : B → kstate → Prop) :
  keeps f m → runs m s Q → runs m s (λ b s', Q b s' ∧ f s' = f s).
Proof.
  intros Hq Hr. destruct (runs_inv _ _ _ Hr) as (b & s' & E & HQ).
  eapply runs_Ok; [done|]. split; [done|]. by eapply Hq.
Qed.

(** ** The counter of the test programs and the history of the allocator *)

(** Every block in the history is the answer of [calloc] to the history before it. *)
Fixpoint honest `{Platform} (ev : list heap_event) : bool :=
  match ev with
  | [] => true
  | EvAlloc a :: ev => bool_decide (a = calloc ev) && honest ev
  | EvFree _ :: ev => honest ev
  end.

Definition tally `{Platform} (s : kstate) : Z * bool := (k_count s, honest (k_events s)).

Section Count.
Context `{Platform}.

#[export] Instance beside_tally : Beside tally. Proof. by split. Qed.

Lemma tally_new_thread : keeps tally new_thread.
Proof.
  intros s b s'. rw /new_thread /mbind /M_bind /=. case_match; [by intros [= _ <-]|].
  intros [= _ <-]. rw /tally /= bool_decide_eq_true_2 //.
Qed.
#[local] Hint Resolve tally_new_thread : keeps.

Lemma count_current : keeps tally thread_current.
Proof. rw /thread_current /running_thread /is_thread. solve_keeps. Qed.
#[local] Hint Resolve count_current : keeps.

Lemma count_schedule : keeps tally schedule.
Proof.
  rw /schedule /running_thread /next_thread_to_run /is_thread /switch_threads_c
    /set_thread_running /thread_schedule_tail /free_thread. solve_keeps.
Qed.
#[local] Hint Resolve count_schedule : keeps.

Lemma count_block : keeps tally thread_block.
Proof. rw /thread_block /irq_save /irq_restore. solve_keeps. Qed.
Lemma count_yield : keeps tally thread_yield.
Proof. rw /thread_yield /irq_save /irq_restore. solve_keeps. Qed.
#[local] Hint Resolve count_block count_yield : keeps.
Lemma count_unblock t : keeps tally (thread_unblock t).
Proof. rw /thread_unblock /is_thread. solve_keeps. Qed.
Lemma count_block_if_idle : keeps tally block_if_idle_thread.
Proof. rw /block_if_idle_thread. solve_keeps. Qed.
Lemma count_exit : keeps tally thread_exit.
Proof. rw /thread_exit /thread_exit_begin. solve_keeps. Qed.
#[local] Hint Resolve count_unblock count_block_if_idle count_exit : keeps.

Lemma count_remover_loop fuel n iter : keeps tally (remover_loop fuel n iter).
Proof.
  revert iter. induction fuel as [|fuel IH]; intros iter; cbn [remover_loop]; solve_keeps.
Qed.
#[local] Hint Resolve count_remover_loop : keeps.

Lemma count_timer_interrupt : keeps tally timer_interrupt.
Proof. rw /timer_interrupt /thread_tick /remover_thread_durmiente. solve_keeps. Qed.

Lemma count_after_interrupt : keeps tally after_interrupt.
Proof. rw /after_interrupt /is_ready_list_empty. solve_keeps. Qed.

Lemma count_store_word a v : keeps tally (store_word a v).
Proof. intros s b s'. rw /store_word. case_match; [done|]. by intros [= _ <-]. Qed.
#[local] Hint Resolve count_store_word : keeps.

Lemma count_create nm function aux duration :
  keeps tally (thread_create nm function aux duration).
Proof.
  rw /thread_create /init_thread /memset_thread /allocate_tid /alloc_frame
    /is_thread. solve_keeps.
Qed.

Lemma count_sleep n : keeps tally (thread_sleep n).
Proof. rw /thread_sleep /timer_ticks /insertar_en_lista_espera. solve_keeps. Qed.

Lemma count_print_loop entry fuel l e : keeps tally (print_loop entry fuel l e).
Proof.
  revert e. induction fuel as [|fuel IH]; intros e; cbn [print_loop]; solve_keeps.
Qed.
#[local] Hint Resolve count_print_loop : keeps.
Lemma count_print_lists : keeps tally print_lists.
Proof.
  rw /print_lists /print_ready_list /print_blocked_list /print_thread_list. solve_keeps.
Qed.
End Count.
#[export] Hint Resolve count_timer_interrupt count_after_interrupt count_create count_sleep
  count_print_lists count_yield count_exit tally_new_thread count_current
  count_schedule : keeps.
