(* ===== verification/Boot.v ===== *)
(** * Start-up

    From the zeroed memory before [main] to the first round of the loop: [boot]
    establishes the simulation relation and the invariant, with the idle thread
    running and the initial thread out of every queue. *)

From S2P Require Import Prelude CList CListRepr CListSpec Machine Thread Main Sched SchedInv.
From S2P Require Import ThreadRep ThreadLife ThreadSpec ThreadCreate MainSpec Kernel Frames.

(** ** Code that calls neither calloc nor free *)

Lemma quiet_thread_init : keeps k_events thread_init.
Proof.
  rw /thread_init /running_thread_init /init_thread /allocate_tid /memset_thread.
  solve_keeps.
Qed.

(** ** Printing changes nothing *)

Lemma runs_print_loop l f s A ys zs fuel (Q : unit → kstate → Prop) :
  krep s A → list_repr (k_heap s) l (f <$> ys ++ zs) → length zs < fuel →
  (∀ t, t ∈ zs → is_Some (a_thr A !! t)) →
  ∀ entry, (∀ t, entry (f t) = t) →
  (∀ s', krep s' A → Q tt s') →
  runs (print_loop entry fuel l (hd (tail_of l) (f <$> zs))) s Q.
Proof.
  intros R Hl Hf Ht entry He HQ. revert s fuel ys R Hl Hf.
  induction zs as [|t zs IH]; intros s fuel ys R Hl Hf;
    (destruct fuel as [|fuel]; [simpl in Hf; lia|]); simpl; step; apply runs_on_heap;
    (eapply runs_list_end; [done|]); cbn beta;
    assert (set_heap s (k_heap s) = s) as -> by (by destruct s).
  { rw bool_decide_eq_true_2 //. step. auto. }
  pose proof Hl as Hl'. rw fmap_app fmap_cons in Hl'.
  rw bool_decide_eq_false_2.
  { intros E. pose proof (repr_nodup _ _ _ Hl') as Hnd. rw /nodes E in Hnd.
    apply NoDup_cons in Hnd as [_ Hnd]. apply NoDup_app in Hnd as (_ & Hnd & _).
    apply (Hnd (tail_of l)); set_solver. }
  rw He. destruct (Ht t ltac:(by left)) as [i Hi].
  step. eapply runs_load_thread; [done..|]. intros th _ _.
  step. apply runs_modify. set (s1 := set_out s _). assert (krep s1 A) as R1 by (by eapply krep_ext).
  step. apply runs_on_heap. eapply runs_list_next_elem; [exact Hl'|].
  assert (set_heap s1 (k_heap s1) = s1) as -> by (by destruct s).
  apply (IH ltac:(intros; apply Ht; by right) s1 fuel (ys ++ [t])); [done| |simpl in Hf; lia].
  by rw -app_assoc.
Qed.

Lemma runs_print_all s A (Q : unit → kstate → Prop) :
  krep s A → (∀ s', krep s' A → Q tt s') → runs print_all_list s Q.
Proof.
  intros R HQ. rw /print_all_list. step. step; [done|]. step. apply runs_on_heap.
  eapply runs_list_begin; [by eapply kr_all|]. cbn beta.
  assert (set_heap s (k_heap s) = s) as -> by (by destruct s). steps.
  eapply (runs_print_loop all_list allelem_ptr s A [] (a_all A)); [done|by eapply kr_all|..].
  - pose proof (repr_fuel _ _ _ (kr_all _ _ R)) as Hf. rw length_fmap in Hf. lia.
  - intros t Ht. eapply kr_live_Some; eauto.
  - apply list_entry_allelem_ptr.
  - intros s' R'. eapply runs_printf; eauto.
Qed.

(** ** thread_init *)

(** The memory at the call of [thread_init]: static lists at zero, the boot stack
    page [p], the scheduling mode chosen. *)
Definition boot_cells (p : Z) : heap :=
  list_to_map ((λ a, (a, Elem NULL NULL)) <$>
    [head_of all_list; tail_of all_list; head_of lista_espera; tail_of lista_espera;
     head_of ready_list; tail_of ready_list] ++ cells_of p).

Record preboot (s : kstate) (p mode quantum mask : Z) : Prop := {
  pb_heap : k_heap s = boot_cells p;
  pb_threads : ∃ th, k_threads s = {[ p := th ]};
  pb_events : k_events s = [];
  pb_page : pg_round_down (sp (k_regs s)) = p;
  pb_lo : (heap_end + PGSIZE ≤ p)%Z;
  pb_hi : (p + PGSIZE ≤ 2 ^ 32)%Z;
  pb_globals : globals s = (NULL, NULL, NULL, 0, 0, 0, 0, 1, mode, quantum, 0, mask)%Z;
}.

(** After [thread_init]: one thread, running. *)
Definition initialized (p mode quantum mask : Z) : sched :=
  Sched {[ p := TInfo THREAD_RUNNING 9999999 0 ]} [] [] [p] p NULL p 0 0 0 0 2 mode quantum 0
    mask.

(** At the end of [boot]: the idle thread [t] runs. *)
Definition booted (t p mode quantum mask : Z) : sched :=
  Sched {[ p := TInfo THREAD_READY 9999999 0; t := TInfo THREAD_RUNNING 999 0 ]} [] [] [p; t]
    t t p 0 0 0 0 3 mode quantum 0 mask.

Lemma boot_cells_dom p c :
  c ∈ dom (boot_cells p) ↔
  c ∈ [head_of all_list; tail_of all_list; head_of lista_espera; tail_of lista_espera;
       head_of ready_list; tail_of ready_list] ++ cells_of p.
Proof.
  rw /boot_cells dom_list_to_map_L elem_of_list_to_set -list_fmap_compose.
  rw (list_fmap_ext (fst ∘ _) id) // list_fmap_id //.
Qed.

Section Init.
Context (p mode quantum mask : Z).
Context (Hlo : (heap_end + PGSIZE ≤ p)%Z) (Hhi : (p + PGSIZE ≤ 2 ^ 32)%Z).

Lemma static_in : all_list ∈ static_lists ∧ lista_espera ∈ static_lists ∧
  ready_list ∈ static_lists.
Proof. split_and!; [by left|by right; left|by right; right; left]. Qed.

(** The three [list_init] calls. *)
Lemma runs_init_lists s (rest : M kstate unit) (Q : unit → kstate → Prop) :
  k_heap s = boot_cells p →
  (∀ h : heap, dom h = dom (boot_cells p) → list_repr h ready_list [] →
        list_repr h all_list [] → list_repr h lista_espera [] → runs rest (set_heap s h) Q) →
  runs (on_heap (list_init ready_list);; on_heap (list_init all_list);;
        on_heap (list_init lista_espera);; rest) s Q.
Proof.
  intros Hh HQ. destruct static_in as (S1 & S2 & S3).
  assert (∀ h : heap, dom h = dom (boot_cells p) → ∀ l, l ∈ static_lists →
    head_of l ∈ dom h ∧ tail_of l ∈ dom h) as Hin.
  { intros h -> l. rw !boot_cells_dom /static_lists. set_solver. }
  step. apply runs_on_heap. rw Hh.
  destruct (Hin _ eq_refl ready_list) as [I1 I2]; [done|].
  eapply runs_list_init; [done..|]. intros h1 R1 [C1 D1].
  step. apply runs_on_heap. destruct (Hin _ D1 all_list) as [I3 I4]; [done|].
  eapply runs_list_init; [done..|]. intros h2 R2 [C2 D2].
  assert (dom h2 = dom (boot_cells p)) as D2' by (simpl in D2; congruence).
  destruct (Hin _ D2' lista_espera) as [I5 I6]; [done|].
  step. apply runs_on_heap. eapply runs_list_init; [done..|]. intros h3 R3 [C3 D3].
  assert (∀ l l', l ∈ static_lists → l' ∈ static_lists → l ≠ l' → ∀ x, x ∈ nodes l [] →
    x ∉ [head_of l'; tail_of l']) as Hap.
  { intros l l'. rw /static_lists /nodes !elem_of_cons /=.
    intros Hl Hl' Hne x Hx Hx'. rw !elem_of_cons in Hx. rw !elem_of_cons in Hx'.
    destruct Hl as [->|[->|[->|[]%elem_of_nil]]];
    destruct Hl' as [->|[->|[->|[]%elem_of_nil]]]; try done;
    destruct Hx as [->|[->|[]%elem_of_nil]];
    destruct Hx' as [E|[E|[]%elem_of_nil]]; done. }
  apply HQ; [simpl in *; congruence| | |done].
  - eapply (repr_frame _ h2); [by split|by apply Hap|].
    eapply (repr_frame _ h1); [by split|by apply Hap|done].
  - eapply (repr_frame _ h2); [by split|by apply Hap|done].
Qed.

Lemma runs_thread_init s (Q : unit → kstate → Prop) :
  preboot s p mode quantum mask →
  (∀ s', krep s' (initialized p mode quantum mask) → k_events s' = [] → Q tt s') →
  runs thread_init s Q.
Proof.
  intros [Hheap [th Hth] Hev Hp _ _ Hg] HQ.
  eapply runs_mono; [apply (runs_keeps k_events _ _ (λ _ s', krep s' (initialized p mode quantum mask)));
    [apply quiet_thread_init|]|intros [] s' [R E]; apply HQ; [exact R|by rw E]].
  rw /thread_init. eapply runs_init_lists; [done|]. intros h Hd R1 R2 R3.
  rw /running_thread_init. steps. rw /= Hp. set (s1 := set_initial_thread _ _).
  set (A0 := Sched ∅ [] [] [] NULL NULL p 0 0 0 0 1 mode quantum 0 mask).
  assert (kinit s1 A0 p th) as K.
  { split; rw /s1 /= ?Hth.
    - by rw lookup_singleton_eq.
    - exists []. split; [|left; by rw Hev].
      split; rw /= ?Hth ?delete_singleton_eq; try done.
      + by intros t [[]%elem_of_nil|[[]%elem_of_nil|[]%elem_of_nil]].
      + by intros t []%elem_of_nil.
      + by intros t []%elem_of_nil.
      + unfold globals, a_globals, A0 in *. simpl in *. congruence.
    - rw dom_singleton_L. change PGSIZE with 4096%Z in *. split.
      + intros t ->%elem_of_singleton. unfold_addr. unfold heap_end in *.
        change PGSIZE with 4096%Z. lia.
      + intros t u ->%elem_of_singleton ->%elem_of_singleton. done.
    - intros c Hc. rw Hd boot_cells_dom. set_solver. }
  clearbody s1. eapply runs_init_thread; [done..|]. intros s2 S2 Hat.
  step. eapply runs_set_status; [done|by rw /= lookup_insert_eq; eauto|]. intros s3 S3.
  step. eapply runs_allocate_tid; [done..|]. intros s4 S4 _.
  step. eapply runs_update_hidden; [done|by rw /= lookup_alter_is_Some lookup_insert_eq; eauto
    |done..|]. intros s5 S5.
  step. eapply (runs_modify_global _ _ (initialized p mode quantum mask)); [exact S5|done..| | |].
  { rw /= insert_empty alter_singleton_eq //. }
  { pose proof (kr_globals _ _ S5) as G. unfold A0, globals, a_globals in *. simpl in *.
    change (1 + 1)%Z with 2%Z in G. congruence. }
  intros s6 S6. step. eapply runs_load_thread; [done|by rw /= lookup_singleton_eq|].
  intros th' _ _. eapply runs_printf; [done|]. auto.
Qed.

Lemma booted_ok t :
  t ≠ p → sched_ok (booted t p mode quantum mask).
Proof.
  intros Hne. split.
  - split; simpl; try done. intros u i Hi. rw lookup_insert_Some lookup_singleton_Some in Hi.
    unfold INT_MAX. destruct Hi as [[_ <-]|[_ [_ <-]]]; simpl; lia.
  - by intros u []%elem_of_nil.
  - split; simpl.
    + apply NoDup_cons. split; [set_solver|]. apply NoDup_singleton.
    + by intros u []%elem_of_nil.
    + by intros u []%elem_of_nil.
    + constructor.
    + set_solver.
    + split_and!; [set_solver..| |]; done.
  - intros u. simpl. rw lookup_insert_is_Some' lookup_singleton_is_Some. set_solver.
  - by rw /status_of /= lookup_insert_ne // lookup_singleton_eq.
  - intros u Hu. simpl in *. rw !elem_of_cons elem_of_nil in Hu. tauto.
Qed.
End Init.

Section Boot.
Context `{Platform}.
Context (p mode quantum mask : Z).

Lemma yield_main A : a_ready A ≠ [] → a_run A = a_main A →
  a_yield A = a_schedule (set_status A (a_run A) THREAD_READY).
Proof.
  intros Hr Hm. rw /a_yield. destruct (a_ready A); [done|].
  by rw (bool_decide_eq_true_2 (a_run A = a_main A)) // orb_true_r.
Qed.

Lemma sched_eq A B :
  a_thr A = a_thr B → a_ready A = a_ready B → a_wait A = a_wait B → a_all A = a_all B →
  a_slice A = a_slice B → a_globals A = a_globals B → A = B.
Proof. destruct A, B. rw /a_globals /=. intros -> -> -> -> -> [=]. by subst. Qed.

Lemma start_thr t :
  t ≠ p →
  a_thr (w_idle (a_add t 999 (initialized p mode quantum mask)) t) =
  {[ p := TInfo THREAD_RUNNING 9999999 0; t := TInfo THREAD_READY 999 0 ]}.
Proof.
  intros Hne. rw /a_add /a_unblock /set_status.
  change (alter (set_info_status THREAD_READY) t (<[t := TInfo THREAD_BLOCKED 999 0]>
    (a_thr (initialized p mode quantum mask))) =
    {[ p := TInfo THREAD_RUNNING 9999999 0; t := TInfo THREAD_READY 999 0 ]}).
  rw alter_insert_eq insert_insert_ne //.
Qed.

Lemma boot_yield t :
  t ≠ p →
  a_yield (a_start t 999 (initialized p mode quantum mask)) = booted t p mode quantum mask.
Proof.
  intros Hne. pose proof (start_thr t Hne) as Et. rw /a_start.
  set (A1 := w_idle (a_add t 999 (initialized p mode quantum mask)) t) in *.
  assert (a_block_if_idle A1 = A1) as ->.
  { rw /a_block_if_idle bool_decide_eq_false_2 //. }
  rw yield_main //. set (A2 := set_status A1 (a_run A1) THREAD_READY).
  assert (a_thr A2 = {[ p := TInfo THREAD_READY 9999999 0; t := TInfo THREAD_READY 999 0 ]})
    as Et2.
  { rw /A2 /set_status. change (alter (set_info_status THREAD_READY) p (a_thr A1) =
      {[ p := TInfo THREAD_READY 9999999 0; t := TInfo THREAD_READY 999 0 ]}).
    by rw Et alter_insert_eq. }
  destruct (schedule_fields A2) as (Fr & Fw & Fa & Fn & Fi & Fm & Fs & Ft & Fx).
  destruct Fx as (Fy & Fz & Fo & Fq & Fg & Fk & Fl).
  apply sched_eq; [|done..|by rw /a_globals Fn Fi Fm Fs Ft Fy Fz Fo Fq Fg Fk Fl].
  apply map_eq. intros u. rw lookup_schedule.
  assert (dies A2 = false) as ->.
  { rw /dies (bool_decide_eq_false_2 (status_of _ _ = _)) //.
    rw /status_of Et2. change (a_run A2) with p. by rw lookup_insert_eq. }
  rw lookup_set_status Et2. change (a_next A2) with t. rw /booted. cbn [a_thr andb].
  clear -Hne. destruct (decide (t = u)) as [<-|Hu].
  - by simplify_map_eq.
  - destruct (decide (p = u)) as [<-|Hp]; by simplify_map_eq.
Qed.

(** The second identifier goes to the idle thread. *)
Lemma idle_starts A :
  a_next_tid A = 2%Z →
  bool_decide (c_addr idle_literal = c_addr idle_literal) && bool_decide (a_next_tid A = 2%Z)
    = true.
Proof. intros E. by rw !bool_decide_eq_true_2. Qed.

(** [boot] returns with the idle thread running. *)
Lemma runs_boot s (Q : unit → kstate → Prop) :
  preboot s p mode quantum mask → calloc [] ≠ NULL →
  (∀ s', krep s' (booted (calloc []) p mode quantum mask) → Q tt s') →
  runs boot s Q.
Proof.
  intros Hpb Hn HQ. pose proof (pb_lo _ _ _ _ _ Hpb) as Hlo.
  destruct (calloc_fresh [] Hn) as (H1 & H2 & _).
  set (t := calloc []) in *. set (A0 := initialized p mode quantum mask).
  assert (t + PGSIZE ≤ p)%Z as Htp by (unfold sizeof_thread in *; lia).
  assert (t ≠ p) as Hne by (change PGSIZE with 4096%Z in *; lia).
  assert (status_of A0 p = Some THREAD_RUNNING) as Hst
    by (by rw /status_of /= lookup_singleton_eq).
  rw /boot. step. eapply runs_thread_init; [by eapply pb_lo|by eapply pb_hi|done|].
  clear dependent s. intros s R Hev. step. rw /thread_start. step.
  eapply (runs_thread_create _ _ _ _ _ _ t); [done|done|by left; apply idle_starts| |done
    |by rw Hev|done| | |].
  { change PGSIZE with 4096%Z in *. simpl. lia. }
  { intros u. simpl. rw dom_singleton_L. intros ->%elem_of_singleton. by left. }
  { simpl. unfold INT_MIN, INT_MAX. lia. }
  rewrite (idle_starts A0 eq_refl). clear dependent s. intros s R. step.
  step. eapply runs_emit; [done|]. clear dependent s. intros s R.
  set (A2 := a_start t 999 A0) in *.
  assert (A2 = w_idle (a_add t 999 A0) t) as E2.
  { rw /A2 /a_start /a_block_if_idle /= bool_decide_eq_false_2 //. }
  assert (a_run A2 = p ∧ a_idle A2 = t ∧ a_ready A2 = [t] ∧ a_wait A2 = []) as (F1 & F2 & F3 & F4)
    by (by rw E2).
  assert (can_run A2) as [Hrun Hidle].
  { rw /can_run F1 F2 E2. split.
    - rw /status_of /= lookup_alter_ne // lookup_insert_ne // lookup_singleton_eq //.
    - simpl. rw lookup_alter_is_Some lookup_insert_eq. eauto. }
  destruct (status_of_lookup _ _ _ Hrun) as (i & Hi & _).
  step. eapply runs_thread_current; [done..|].
  step. eapply runs_load_thread; [done..|]. intros th _ _.
  step. eapply runs_printf; [done|]. clear dependent s. intros s R.
  step. eapply runs_print_all; [done|]. clear dependent s. intros s R.
  step. eapply runs_thread_yield; [done|by split|by rw F1 F3; set_solver
    |by rw F4; set_solver|]. clear dependent s. intros s R.
  step; [done|]. apply HQ. by rw /A2 /A0 boot_yield in R.
Qed.
End Boot.
