(* ===== verification/Reach.v ===== *)
(** * The states the kernel can reach, seen in memory

    [ready_threads], [waiting_threads] and [all_threads] read the kernel's lists by
    walking their cells.  [reachable] holds of the memories that [boot] and then any
    sequence of kernel calls lead to; every one represents a scheduler in good order. *)

From S2P Require Import Prelude CList CListRepr CListSpec Machine Thread Main Sched SchedInv.
From S2P Require Import SchedFacts Drain ThreadRep ThreadLife ThreadSpec ThreadCreate MainSpec.
From S2P Require Import Kernel Boot.

(** ** Reading a list *)

(** The cells from [e] up to [stop], at most [n] of them. *)
Fixpoint walk (n : nat) (h : heap) (e stop : Z) : list Z :=
  match n with
  | O => []
  | S n =>
      if bool_decide (e = stop) then []
      else match h !! e with
           | Some c => e :: walk n h (next c) stop
           | None => [e]
           end
  end.

Definition contents (h : heap) (l : Z) : list Z :=
  match h !! head_of l with
  | Some c => walk (size h) h (next c) (tail_of l)
  | None => []
  end.

Lemma walk_repr h l ys zs n :
  list_repr h l (ys ++ zs) → length zs < n → walk n h (hd (tail_of l) zs) (tail_of l) = zs.
Proof.
  revert ys n. induction zs as [|z zs IH]; intros ys n R Hn; (destruct n as [|n]; [lia|]); simpl.
  { by rw bool_decide_eq_true_2. }
  rw bool_decide_eq_false_2.
  { intros ->. pose proof (repr_nodup _ _ _ R) as Hnd. rw /nodes in Hnd.
    apply NoDup_cons in Hnd as [_ Hnd]. apply NoDup_app in Hnd as (_ & Hnd & _).
    apply (Hnd (tail_of l)); set_solver. }
  rw (repr_elem _ _ _ R ys z zs) //=. f_equal. apply (IH (ys ++ [z])); [by rw -app_assoc|].
  simpl in Hn. lia.
Qed.

Lemma contents_repr h l xs : list_repr h l xs → contents h l = xs.
Proof.
  intros R. rw /contents (repr_head _ _ _ R) /=. apply (walk_repr h l []); [done|].
  pose proof (repr_fuel _ _ _ R). lia.
Qed.

Definition ready_threads (s : kstate) : list Z :=
  list_entry_elem <$> contents (k_heap s) ready_list.
Definition waiting_threads (s : kstate) : list Z :=
  list_entry_elem <$> contents (k_heap s) lista_espera.
Definition all_threads (s : kstate) : list Z :=
  list_entry_allelem <$> contents (k_heap s) all_list.

Definition has_status (s : kstate) (t : Z) (v : thread_status) : Prop :=
  status <$> k_threads s !! t = Some v.
Definition duration_of (s : kstate) (t : Z) : Z :=
  default 0%Z (duration_ticks <$> k_threads s !! t).
Definition wake_time (s : kstate) (t : Z) : Z :=
  default 0%Z (sleep_time <$> k_threads s !! t).

Section View.
Context (s : kstate) (A : sched) (R : krep s A).

Lemma fmap_cancel (f g : Z → Z) (xs : list Z) : (∀ t, g (f t) = t) → g <$> (f <$> xs) = xs.
Proof. intros E. induction xs as [|x xs IH]; [done|]. rw !fmap_cons E. by f_equal. Qed.

Lemma ready_view : ready_threads s = a_ready A.
Proof.
  rw /ready_threads (contents_repr _ _ _ (kr_ready _ _ R)). apply fmap_cancel, list_entry_elem_ptr.
Qed.
Lemma waiting_view : waiting_threads s = a_wait A.
Proof.
  rw /waiting_threads (contents_repr _ _ _ (kr_wait _ _ R)). apply fmap_cancel, list_entry_elem_ptr.
Qed.
Lemma all_view : all_threads s = a_all A.
Proof.
  rw /all_threads (contents_repr _ _ _ (kr_all _ _ R)). apply fmap_cancel, list_entry_allelem_ptr.
Qed.
Lemma status_view t v : has_status s t v ↔ status_of A t = Some v.
Proof.
  rw /has_status /status_of (kr_thr _ _ R) lookup_fmap. by destruct (k_threads s !! t).
Qed.
Lemma dur_view t : duration_of s t = dur_of A t.
Proof.
  rw /duration_of /dur_of (kr_thr _ _ R) lookup_fmap. by destruct (k_threads s !! t).
Qed.
Lemma wake_view t : wake_time s t = wake_of A t.
Proof.
  rw /wake_time /wake_of (kr_thr _ _ R) lookup_fmap. by destruct (k_threads s !! t).
Qed.
End View.

(** ** Reachable states *)

Section Reach.
Context `{Platform}.

Inductive reachable : kstate → Prop :=
| reach_boot s0 s p mode quantum mask :
    preboot s0 p mode quantum mask → calloc [] ≠ NULL → boot s0 = Ok (tt, s) → reachable s
| reach_step c s s' : reachable s → kstep c s s' → reachable s'.

Lemma reachable_good s : reachable s → ∃ A, good s A.
Proof.
  induction 1 as [s0 s p mode quantum mask Hpb Hn Hb|c s s' _ [A G] Hc].
  - destruct (runs_inv _ _ _ (runs_boot p mode quantum mask s0
      (λ _ s', krep s' (booted (calloc []) p mode quantum mask)) Hpb Hn (λ _ R, R)))
      as ([] & s' & E & R). rw Hb in E. simplify_eq.
    exists (booted (calloc []) p mode quantum mask). split; [done|]. apply booted_ok.
    + by eapply pb_lo.
    + by eapply pb_hi.
    + destruct (calloc_fresh [] Hn) as (_ & H2 & _). pose proof (pb_lo _ _ _ _ _ Hpb) as Hlo.
      change PGSIZE with 4096%Z in Hlo. unfold sizeof_thread in H2. intros E'. lia.
  - eexists. by eapply kstep_good.
Qed.

Lemma ksteps_reachable cs s s' : reachable s → ksteps cs s s' → reachable s'.
Proof.
  intros Hr Hs. induction Hs as [|c cs s1 s2 s3 Hc _ IH]; [done|]. apply IH. by eapply reach_step.
Qed.

(** Running calls, checking at each one that it is made properly. *)
#[global] Instance proper_dec s c : Decision (proper s c).
Proof. destruct c; simpl; apply _. Defined.

Fixpoint run_calls (cs : list call) (s : kstate) : option kstate :=
  match cs with
  | [] => Some s
  | c :: cs =>
      if decide (proper s c) then
        match exec c s with
        | Ok (_, s') => run_calls cs s'
        | Err _ => None
        end
      else None
  end.

Lemma run_calls_ksteps cs s s' : run_calls cs s = Some s' → ksteps cs s s'.
Proof.
  revert s. induction cs as [|c cs IH]; intros s; simpl.
  { intros [= ->]. constructor. }
  case_decide as Hc; [|done]. destruct (exec c s) as [[[] s1]|e] eqn:E; [|done].
  intros Hr. econstructor; [by split|auto].
Qed.
End Reach.

(** ** Rounds and yields *)

Section Rounds.
Context `{Platform}.

(** [n] times: a timer tick, then a round of the scheduling loop. *)
Fixpoint rounds (n : nat) : M kstate unit :=
  match n with
  | O => mret tt
  | S n => timer_interrupt;; after_interrupt;; rounds n
  end.

Fixpoint yields (n : nat) : M kstate unit :=
  match n with
  | O => mret tt
  | S n => thread_yield;; yields n
  end.

Lemma round_now A : sched_ok A → (a_now A < INT_MAX)%Z → a_now (a_round A) = (a_now A + 1)%Z.
Proof.
  intros O Hn. destruct (timer_fields A O Hn) as (_ & _ & _ & En & _).
  rw -En /a_round. by apply (stable_after_interrupt a_now).
Qed.

Lemma rounds_refine n s A :
  good s A → (a_now A + Z.of_nat n ≤ INT_MAX)%Z →
  runs (rounds n) s (λ _ s', good s' (Nat.iter n a_round A)).
Proof.
  revert s A. induction n as [|n IH]; intros s A [R O] Hn; [by apply runs_ret|]. simpl rounds.
  assert (a_now A < INT_MAX)%Z as Hlt by lia.
  step. eapply runs_timer_interrupt; [done..|]. intros s1 R1.
  step. eapply runs_after_interrupt; [done|by apply timer_interrupt_ok|]. intros s2 R2.
  rewrite Nat.iter_succ_r. apply IH.
  - split; [done|by apply round_ok].
  - rw round_now //. lia.
Qed.

Lemma yields_refine n s A :
  good s A → runs (yields n) s (λ _ s', good s' (Nat.iter n a_yield A)).
Proof.
  revert s A. induction n as [|n IH]; intros s A [R O]; [by apply runs_ret|]. simpl yields.
  step. eapply runs_yield_ok; [done..|]. intros s1 R1. rewrite Nat.iter_succ_r. apply IH.
  split; [done|by apply yield_ok].
Qed.
End Rounds.

(** ** Completion *)

(** What the thread at [t] still wants: its ticks and a round to leave. *)
Definition remaining (s : kstate) (t : Z) : Z :=
  if bool_decide (t = idle_thread s) || bool_decide (t = initial_thread s) then 0%Z
  else (Z.max 0 (duration_of s t) + 1)%Z.
Definition remaining_work (s : kstate) : Z := sum_of (remaining s) (all_threads s).

(** Only the idle and the initial thread are left. *)
Record finished (s : kstate) : Prop := {
  fin_idle : thread_running_var s = idle_thread s;
  fin_ready : ready_threads s = [];
  fin_waiting : waiting_threads s = [];
  fin_all : ∀ t, t ∈ all_threads s → t = idle_thread s ∨ t = initial_thread s;
  fin_live : ∀ t, t ∈ live (k_events s) → t = idle_thread s ∨ t = initial_thread s;
}.

Lemma work_view s A : krep s A → remaining_work s = work A.
Proof.
  intros R. rw /remaining_work /work (all_view _ _ R).
  induction (a_all A) as [|t l IH]; [done|]. simpl. rw IH. f_equal.
  by rw /remaining /cost (kr_idle _ _ R) (kr_main _ _ R) (dur_view _ _ R).
Qed.

Lemma finished_view s A : good s A → (work A ≤ 0)%Z → finished s.
Proof.
  intros [R O] Hw. destruct (done_view A O Hw) as (E1 & E2 & E3).
  assert (∀ t, t ∈ a_all A → t = idle_thread s ∨ t = initial_thread s) as Hall.
  { rw (kr_idle _ _ R) (kr_main _ _ R). intros t. by apply work_0. }
  split.
  - by rw (kr_run _ _ R) (kr_idle _ _ R).
  - by rw (ready_view _ _ R).
  - by rw (waiting_view _ _ R).
  - by rw (all_view _ _ R).
  - intros t Ht%(kr_noleak _ _ R). apply Hall, (so_live _ O), elem_of_dom.
    by rw -(kr_dom _ _ R).
Qed.

Lemma rounds_finish `{Platform} s A n W :
  good s A → (∀ t, t ∈ a_wait A → (wake_of A t ≤ W)%Z) → (rounds_left A W < Z.of_nat n)%Z →
  (a_now A + Z.of_nat n ≤ INT_MAX)%Z → runs (rounds n) s (λ _ s', finished s').
Proof.
  intros [R O] Hw Hl Hn. eapply runs_mono; [by apply rounds_refine|].
  intros ? s' G. eapply finished_view; [exact G|]. by apply (rounds_complete n A W).
Qed.

(** ** Sleepers along an execution *)

Section Sleepers.
Context `{Platform}.

Lemma now_exec s A c :
  good s A → enough s c → (a_now A ≤ a_now (a_exec (calloc (k_events s)) c A))%Z.
Proof.
  intros [R O] Hc. destruct c; simpl in *.
  - destruct (timer_fields A O) as (_ & _ & _ & -> & _); [by rw -(kr_now _ _ R)|lia].
  - by rw (stable_after_interrupt a_now).
  - case_match; [done|]. by rw /a_create (stable_block_if_idle a_now).
  - by rw (stable_sleep a_now).
  - by rw (stable_sleep a_now).
  - by rw (stable_yield a_now).
  - by rw (stable_exit a_now).
  - done.
  - rw /a_set_quantum. by repeat case_match.
Qed.

Lemma waits_dispatch A t w : sched_ok A → waits A t w → waits (a_dispatch A) t w.
Proof.
  intros O Hw. rw /a_dispatch. case_bool_decide; [by apply waits_exit|].
  case_bool_decide; [done|]. destruct (a_ready A); [done|].
  case_bool_decide; [by apply waits_yield|done].
Qed.

Lemma waits_any_sleep n A t w :
  sched_ok A → ((0 < n)%Z → a_run A ≠ a_idle A ∧ (a_now A + n ≤ INT_MAX)%Z) →
  waits A t w → waits (a_sleep n A) t w.
Proof.
  intros O Hn Hw. destruct (decide (0 < n)%Z) as [Hp|Hp]; [|by rw /a_sleep bool_decide_eq_false_2].
  destruct (Hn Hp). by apply waits_sleep.
Qed.

Lemma waits_exec s A c t w :
  good s A → enough s c → waits A t w →
  (a_now (a_exec (calloc (k_events s)) c A) < w)%Z →
  waits (a_exec (calloc (k_events s)) c A) t w.
Proof.
  intros [R O] Hc Hw Hlt. destruct c; simpl in *.
  - assert (a_now A < INT_MAX)%Z as Hn by (by rw -(kr_now _ _ R)).
    destruct (timer_fields A O Hn) as (_ & _ & _ & En & _). apply waits_timer; try done. lia.
  - pose proof (block_if_idle_ok A O) as O1. pose proof (dispatch_ok _ O1) as O2.
    assert (waits (a_dispatch (a_block_if_idle A)) t w) as Hd.
    { apply waits_dispatch; [done|]. by apply waits_block_if_idle. }
    rw /a_after_interrupt /a_forced. do 2 (case_bool_decide; [done|]).
    by apply (waits_exit _ O2).
  - destruct Hc as (Hd & Hmem). case_bool_decide as E; [done|].
    destruct (Hmem E) as (_ & Htid & _).
    assert (a_thr A !! calloc (k_events s) = None) as Hfr.
    { apply (calloc_unused s A); [by split|done]. }
    rw /a_create. apply waits_block_if_idle; [|by apply waits_add].
    apply add_ok; try done. by rw -(kr_next_tid _ _ R).
  - rw (kr_run _ _ R) (kr_idle _ _ R) (kr_now _ _ R) in Hc. by apply waits_any_sleep.
  - rw (kr_run _ _ R) (kr_idle _ _ R) (kr_now _ _ R) in Hc. by apply waits_any_sleep.
  - by apply waits_yield.
  - by apply waits_exit.
  - done.
  - rw /a_set_quantum. by repeat case_match.
Qed.

Lemma now_ksteps cs s s' A : ksteps cs s s' → good s A → (ticks s ≤ ticks s')%Z.
Proof.
  intros Hs. revert A. induction Hs as [s|c cs s1 s2 s3 Hc _ IH]; intros A G; [lia|].
  pose proof (now_exec _ _ _ G (kstep_enough _ _ _ _ G Hc)) as Hle.
  pose proof (kstep_good _ _ _ _ G Hc) as G'.
  specialize (IH _ G'). destruct G as [R _], G' as [R' _].
  rw (kr_now _ _ R). rw (kr_now _ _ R') in IH. lia.
Qed.

Lemma waits_ksteps cs s s' A t w :
  ksteps cs s s' → good s A → waits A t w → (ticks s' < w)%Z → ∃ A', good s' A' ∧ waits A' t w.
Proof.
  intros Hs. revert A. induction Hs as [s|c cs s1 s2 s3 Hc Hs IH]; intros A G Hw Hlt; [eauto|].
  pose proof (kstep_good _ _ _ _ G Hc) as G'.
  eapply IH; [exact G'| |done]. apply waits_exec; [done|by eapply kstep_enough|done|].
  pose proof (now_ksteps _ _ _ _ Hs G') as Hle. destruct G' as [R' _].
  rw (kr_now _ _ R') in Hle. lia.
Qed.
End Sleepers.

(** ** The interrupt mask *)

Lemma mask_exec t c A : a_mask (a_exec t c A) = a_mask A.
Proof.
  destruct c; simpl.
  - apply mask_timer_interrupt.
  - by apply (stable_after_interrupt a_mask).
  - case_match; [done|]. apply mask_create.
  - apply (stable_sleep a_mask).
  - apply (stable_sleep a_mask).
  - apply (stable_yield a_mask).
  - apply (stable_exit a_mask).
  - done.
  - rw /a_set_quantum. by repeat case_match.
Qed.
