(* ===== verification/Demo.v ===== *)
(** * A concrete machine, for witnesses

    The start-up state of the board (boot stack in SCRATCH_Y) on the platform of
    Sim.v, and the states that concrete sequences of calls lead to. *)

From S2P Require Import Prelude CList CListRepr Machine Thread Main Sim Sched SchedInv.
From S2P Require Import ThreadRep Kernel Boot Reach.

Definition demo_boot : kstate := boot_state 0x20041fc0 0 zero_thread.
Definition demo_page : Z := 0x20041000.

Section Demo.
Context `{Platform}.

Definition demo (cs : list call) : option kstate :=
  match boot demo_boot with
  | Ok (_, s) => run_calls cs s
  | Err _ => None
  end.

Lemma demo_preboot : preboot demo_boot demo_page 0 5 0.
Proof.
  split; try done.
  - by exists zero_thread.
Qed.

Lemma demo_reachable_on cs s : calloc [] ≠ NULL → demo cs = Some s → reachable s.
Proof.
  intros Hn. rw /demo. destruct (boot demo_boot) as [[[] s1]|] eqn:E; [|done]. intros Hr.
  eapply ksteps_reachable; [|by apply run_calls_ksteps].
  by eapply reach_boot; [apply demo_preboot|..].
Qed.

(** Facts about a concrete run, by evaluation. *)
Lemma demo_get {B} (f : kstate → B) cs s v :
  demo cs = Some s → f <$> demo cs = Some v → f s = v.
Proof. by intros -> [= ->]. Qed.

End Demo.

Lemma demo_reachable cs s : demo cs = Some s → reachable s.
Proof. by apply demo_reachable_on. Qed.

(** A thread named [n], made by a test. *)
Definition demo_create (n : string) (d : Z) : call := Create (CStr 0x10000000 n) 0x10000201 0 d.

(** Three threads in round-robin with a quantum of two ticks. *)
Definition demo_rr : list call :=
  [SetQuantum 1 2; demo_create "a" 4; demo_create "b" 4; demo_create "c" 4].

Ltac run_demo s E cs :=
  destruct (demo cs) as [s|] eqn:E; [|by vm_compute in E].
Ltac demo_fact E v := refine (demo_get v _ _ _ E _); by vm_compute.
