(* ===== verification/KernelProps.v ===== *)
(** * Properties of the kernel

    The theorems about the running kernel: safety and refinement, the invariant of
    the thread lists, scheduling guarantees over time, resources and errors.  Each is
    followed, where it has hypotheses, by a lemma that applies it to a concrete run. *)

From S2P Require Import Prelude CList CListRepr CListSpec Machine Thread Main Sim Sched.
From S2P Require Import SchedInv SchedFacts ThreadRep ThreadLife ThreadSpec ThreadCreate.
From S2P Require Import MainSpec Kernel Boot Reach Demo.

Section Props.
Context `{Platform}.

(** C1.  The kernel fails in the listed ways and in no other: from start-up on, along
    every sequence of calls, a call made as [proper] says (no thread is created with a
    negative duration, and the idle thread does not sleep) either fails with the error
    that [failure] computes from the state, or returns.  The listed failures are the
    overflow of the tick counter, of the identifiers and of a wake-up time, the ASSERT
    on a thread without a name, and the frame that [thread_create] stores behind its
    block when it falls into another thread; every other ASSERT, access, store, counter
    and loop of the calls is safe. *)
Theorem kernel_fails_only_so s c :
  reachable s → proper s c →
  match failure s c with
  | Some e => exec c s = Err e
  | None => ∃ s', exec c s = Ok (tt, s') ∧ reachable s'
  end.
Proof.
  intros Hr Hc. destruct (reachable_good _ Hr) as [A G].
  destruct (failure s c) as [e|] eqn:Hf; [by eapply failure_err|].
  destruct (exec_good _ _ _ G (failure_enough _ _ _ G Hc Hf)) as (s' & E & _).
  exists s'. split; [done|]. eapply reach_step; [done|]. by split.
Qed.

(** C3.  Each kernel call implements the corresponding operation of the abstract
    scheduler: from a memory that represents a scheduler in good order, the C code of a
    call made as [proper] says (no negative duration, no sleep of the idle thread), and
    for which [failure] lists no failure, returns in a memory that represents the result
    of the pure function, which is again in good order; where [failure] lists one (an overflow, a missing name, a frame stored into
    another thread), the code stops with it. *)
Theorem exec_simulates s A c :
  krep s A → sched_ok A → proper s c →
  match failure s c with
  | Some e => exec c s = Err e
  | None => runs (exec c) s (λ _ s', krep s' (a_exec (calloc (k_events s)) c A) ∧
                                     sched_ok (a_exec (calloc (k_events s)) c A))
  end.
Proof.
  intros R O Hc. assert (good s A) as G by done.
  destruct (failure s c) as [e|] eqn:Hf; [by eapply failure_err|].
  pose proof (failure_enough _ _ _ G Hc Hf) as He.
  eapply runs_mono; [by apply exec_refines|]. intros a s' R'. split; [done|]. by apply a_exec_ok.
Qed.

(** C15.  Start-up: from zeroed lists and the boot stack page, [boot] returns with the
    idle thread running and both queues empty; the initial thread, READY, is in no
    queue, and these two are the only threads. *)
Theorem boot_starts_idle s p mode quantum mask :
  preboot s p mode quantum mask → calloc [] ≠ NULL →
  runs boot s (λ _ s',
    thread_running_var s' = calloc [] ∧ idle_thread s' = calloc [] ∧ initial_thread s' = p ∧
    ready_threads s' = [] ∧ waiting_threads s' = [] ∧ all_threads s' = [p; calloc []] ∧
    has_status s' (calloc []) THREAD_RUNNING ∧ has_status s' p THREAD_READY ∧
    next_tid s' = 3%Z ∧ ticks s' = 0%Z ∧ k_primask s' = mask).
Proof.
  intros Hpb Hn. assert (calloc [] ≠ p) as Hne.
  { destruct (calloc_fresh [] Hn) as (_ & H2 & _). pose proof (pb_lo _ _ _ _ _ Hpb) as Hlo.
    change PGSIZE with 4096%Z in Hlo. unfold sizeof_thread in H2. lia. }
  eapply (runs_boot p mode quantum mask); [done..|]. intros s' R.
  rw (ready_view _ _ R) (waiting_view _ _ R) (all_view _ _ R) !(status_view _ _ R).
  rw (kr_run _ _ R) (kr_idle _ _ R) (kr_main _ _ R) (kr_next_tid _ _ R) (kr_now _ _ R)
    (kr_mask _ _ R). split_and!; try done.
  - by rw /status_of /= lookup_insert_ne // lookup_singleton_eq.
  - by rw /status_of /= lookup_insert_eq.
Qed.

(** C6.  In every reachable state the threads are partitioned: no thread is twice in
    the queues or both running and queued, the running thread is RUNNING, those in
    the ready list are READY, those in the waiting list BLOCKED, and every live
    thread is the running one, in a queue, the idle or the initial thread. *)
Theorem threads_partitioned s :
  reachable s →
  NoDup (thread_running_var s :: ready_threads s ++ waiting_threads s) ∧
  has_status s (thread_running_var s) THREAD_RUNNING ∧
  (∀ t, t ∈ ready_threads s → has_status s t THREAD_READY) ∧
  (∀ t, t ∈ waiting_threads s → has_status s t THREAD_BLOCKED) ∧
  NoDup (all_threads s) ∧
  (∀ t, t ∈ all_threads s ↔ t ∈ dom (k_threads s)) ∧
  (∀ t, t ∈ all_threads s → t = thread_running_var s ∨ t ∈ ready_threads s ∨
     t ∈ waiting_threads s ∨ t = idle_thread s ∨ t = initial_thread s).
Proof.
  intros (A & R & O)%reachable_good. pose proof (so_queues _ O) as Q.
  rw (ready_view _ _ R) (waiting_view _ _ R) (all_view _ _ R) (kr_run _ _ R) (kr_idle _ _ R)
    (kr_main _ _ R) (kr_dom _ _ R). split_and!.
  - apply NoDup_cons. split; [|apply Q]. rw elem_of_app.
    intros [?|?]; [by apply (run_not_ready A O)|by apply (run_not_wait A O)].
  - apply (status_view _ _ R), O.
  - intros t Ht. apply (status_view _ _ R). by apply Q.
  - intros t Ht. apply (status_view _ _ R). by apply Q.
  - apply Q.
  - intros t. by rw elem_of_dom (so_live _ O).
  - apply O.
Qed.

(** C7.  Bounded waiting: in round-robin mode with quantum [q], with no forced exit
    pending ([thread_exit_on_return] is 0) and the tick counter far enough from its end,
    a thread that is ready behind [k] others, and has time left, is running after at most
    [(k + 1) * q] rounds of the timer and the scheduling loop. *)
Theorem bounded_waiting s k t :
  reachable s → round_robin_mode s ≠ 0%Z → (0 < round_robin_ticks s)%Z →
  thread_exit_on_return s = 0%Z → ready_threads s !! k = Some t → (0 < duration_of s t)%Z →
  let bound := (Z.of_nat (S k) * round_robin_ticks s)%Z in
  (ticks s + bound ≤ INT_MAX)%Z →
  ∃ n s', (0 < Z.of_nat n ≤ bound)%Z ∧ rounds n s = Ok (tt, s') ∧ thread_running_var s' = t.
Proof.
  intros (A & R & O)%reachable_good. rw (ready_view _ _ R) (kr_mode _ _ R) (kr_quantum _ _ R)
    (kr_force _ _ R) (dur_view _ _ R) (kr_now _ _ R). intros Hm Hq Hf Hk Hd bound Hmax.
  destruct (rounds_soon (Z.to_nat bound) A t) as (n & Hn & E).
  - by split.
  - done.
  - rw Z2Nat.id; [lia|done].
  - exists (take k (a_ready A)), (drop (S k) (a_ready A)). split; [by rw take_drop_middle|].
    rw /wait_bound length_take_le; [apply lookup_lt_Some in Hk; lia|].
    pose proof (ck_slice _ (so_clock _ O)). rw Z2Nat.id; [lia|].
    rw /bound Nat2Z.inj_succ Z.mul_succ_l. lia.
  - destruct (runs_inv _ _ _ (rounds_refine n s A (conj R O) ltac:(lia)))
      as ([] & s' & Ex & R' & _).
    exists n, s'. split_and!; [lia|lia|done|]. by rw (kr_run _ _ R').
Qed.

(** C8.  A sleeper wakes on its tick, not before and not after: along every sequence of
    calls, a thread in the waiting list stays there, with its wake-up time, while the
    clock is below that time, and is out of it as soon as the clock reaches it. *)
Theorem sleeper_on_time cs s s' t :
  reachable s → ksteps cs s s' → t ∈ waiting_threads s →
  ((ticks s' < wake_time s t)%Z → t ∈ waiting_threads s' ∧ wake_time s' t = wake_time s t) ∧
  ((wake_time s t ≤ ticks s')%Z → t ∈ waiting_threads s' →
   (ticks s' < wake_time s' t)%Z ∧ (wake_time s t < wake_time s' t)%Z).
Proof.
  intros (A & R & O)%reachable_good Hs. rw (waiting_view _ _ R) (wake_view _ _ R). intros Ht.
  split.
  - intros Hlt. destruct (waits_ksteps _ _ _ _ t (wake_of A t) Hs (conj R O))
      as (A' & [R' _] & Hw & Ew); [done..|].
    by rw (waiting_view _ _ R') (wake_view _ _ R').
  - destruct (ksteps_good _ _ _ _ Hs (conj R O)) as (A' & R' & O').
    rw (waiting_view _ _ R') (wake_view _ _ R') (kr_now _ _ R'). intros Hle Ht'.
    apply (so_asleep _ O') in Ht'. lia.
Qed.

(** C9.  FIFO: without round-robin and without a forced exit, the running thread keeps
    the processor for exactly its duration: it is running after every smaller number of
    rounds, and after [duration] rounds it has been destroyed. *)
Theorem fifo_runs_to_completion s (t := thread_running_var s) (d := Z.to_nat (duration_of s t)) :
  reachable s → round_robin_mode s = 0%Z → thread_exit_on_return s = 0%Z →
  t ≠ idle_thread s → (0 < duration_of s t)%Z → (ticks s + duration_of s t ≤ INT_MAX)%Z →
  (∀ k, k < d → ∃ s', rounds k s = Ok (tt, s') ∧ thread_running_var s' = t) ∧
  (∃ s', rounds d s = Ok (tt, s') ∧ t ∉ dom (k_threads s')).
Proof.
  intros (A & R & O)%reachable_good. subst t d. rw (kr_run _ _ R) (kr_idle _ _ R)
    (kr_mode _ _ R) (kr_force _ _ R) (dur_view _ _ R) (kr_now _ _ R).
  intros Hm Hf Hi Hd Hmax.
  assert (∀ k, (Z.of_nat k ≤ dur_of A (a_run A))%Z →
    ∃ s', rounds k s = Ok (tt, s') ∧ good s' (Nat.iter k a_round A)) as Hrun.
  { intros k Hk. destruct (runs_inv _ _ _ (rounds_refine k s A (conj R O) ltac:(lia)))
      as ([] & s' & E & G). eauto. }
  split.
  - intros k Hk. destruct (Hrun k) as (s' & E & R' & _); [lia|]. exists s'. split; [done|].
    destruct (fifo_runs k A) as (_ & Er & _); [done..|lia|lia|]. by rw (kr_run _ _ R').
  - destruct (Z.to_nat (dur_of A (a_run A))) as [|k] eqn:Ek; [lia|].
    destruct (Hrun (S k)) as (s' & E & R' & O'); [lia|]. exists s'. split; [done|].
    destruct (fifo_runs k A) as (Ok & Er & Ei & Em & Ef & En & Ed); [done..|lia|lia|].
    rw (kr_dom _ _ R') elem_of_dom (so_live _ O') Nat.iter_succ -Er.
    apply fifo_exit; try done; [lia|congruence|]. rw Er. lia.
Qed.

(** C4.  Every thread completes, in FIFO and in round-robin mode, with sleepers and with a
    forced exit pending: if no new calls are made, then after any number of rounds larger
    than the longest sleep plus the sum of the remaining durations (and one round each
    to leave) only the idle thread and the initial thread are left, the queues are
    empty, and every other block has been freed. *)
Theorem all_threads_complete s n W :
  reachable s → (∀ t, t ∈ waiting_threads s → (wake_time s t ≤ W)%Z) →
  (Z.max 0 (W - ticks s) + remaining_work s < Z.of_nat n)%Z →
  (ticks s + Z.of_nat n ≤ INT_MAX)%Z →
  runs (rounds n) s (λ _ s', finished s').
Proof.
  intros (A & R & O)%reachable_good Hw Hl Hn. rw (work_view _ _ R) (kr_now _ _ R) in Hl.
  rw (kr_now _ _ R) in Hn. apply (rounds_finish s A n W); [done| |done|done].
  intros t Ht. rw -(wake_view _ _ R). apply Hw. by rw (waiting_view _ _ R).
Qed.

(** C16.  No leak and no use after free: in every reachable state the blocks obtained
    from [calloc] and not freed are exactly the threads in [all_list], the initial
    thread (which lives in the boot stack page) apart. *)
Theorem no_leak s t :
  reachable s → t ≠ initial_thread s → (t ∈ live (k_events s) ↔ t ∈ all_threads s).
Proof.
  intros (A & R & O)%reachable_good. rw (kr_main _ _ R) (all_view _ _ R) -(so_live _ O).
  rw -elem_of_dom -(kr_dom _ _ R). intros Hne. split.
  - apply (kr_noleak _ _ R).
  - intros Ht. by destruct (kr_events _ _ R t Ht).
Qed.

(** C22.  The quantum: in round-robin mode, after a round of the scheduling loop either
    no thread is waiting for the processor or the running thread has used less than
    its quantum. *)
Theorem quantum_respected s :
  reachable s → round_robin_mode s ≠ 0%Z → (0 < round_robin_ticks s)%Z →
  runs after_interrupt s (λ _ s',
    ready_threads s' = [] ∨ (thread_ticks s' < round_robin_ticks s)%Z).
Proof.
  intros (A & R & O)%reachable_good. rw (kr_mode _ _ R) (kr_quantum _ _ R). intros Hm Hq.
  eapply runs_after_interrupt; [done..|]. intros s' R'.
  rw (ready_view _ _ R') (kr_slice _ _ R'). by apply after_interrupt_quantum.
Qed.

(** C26.  Yielding rotates: [n] yields of ordinary threads turn the cycle of the running
    thread and the ready queue by [n] places; a full turn gives the first order back. *)
Theorem yield_rotates_queue s n (l := thread_running_var s :: ready_threads s) :
  reachable s → thread_running_var s ≠ idle_thread s → n ≤ length l →
  runs (yields n) s (λ _ s',
    thread_running_var s' :: ready_threads s' = drop n l ++ take n l).
Proof.
  intros (A & R & O)%reachable_good. subst l. rw (kr_run _ _ R) (kr_idle _ _ R)
    (ready_view _ _ R). intros Hi Hn.
  eapply runs_mono; [by apply (yields_refine n s A)|]. intros a s' [R' _].
  rw (kr_run _ _ R') (ready_view _ _ R').
  destruct (iter_yield_rotates n A O Hi) as [E _]. rw -iter_rotate1 //.
Qed.

(** C23.  The timer interrupt advances the clock by one, wakes the sleepers whose
    wake-up time it reaches, in the order they fell asleep, to the back of the ready
    queue, and leaves the other sleepers and the running thread alone. *)
Theorem tick_wakes_in_order s :
  reachable s → (ticks s < INT_MAX)%Z →
  runs timer_interrupt s (λ b s',
    b = true ∧ ticks s' = (ticks s + 1)%Z ∧ thread_running_var s' = thread_running_var s ∧
    ready_threads s' = ready_threads s ++
      filter (λ t, wake_time s t = ticks s + 1)%Z (waiting_threads s) ∧
    waiting_threads s' = filter (λ t, wake_time s t ≠ ticks s + 1)%Z (waiting_threads s)).
Proof.
  intros (A & R & O)%reachable_good. rw (kr_now _ _ R) (kr_run _ _ R) (ready_view _ _ R)
    (waiting_view _ _ R). intros Hn.
  eapply runs_timer_interrupt; [done..|]. intros s' R'.
  rw (ready_view _ _ R') (waiting_view _ _ R') (kr_run _ _ R') (kr_now _ _ R').
  destruct (timer_fields A O Hn) as (Fn & _ & _ & Ft & _). split_and!; [done..| |].
  all: destruct (timer_queues A O Hn) as [Er Ew]; rewrite ?Er ?Ew.
  - f_equal. apply filter_ext_in. intros t Ht. by rw (wake_view _ _ R).
  - apply filter_ext_in. intros t Ht. by rw (wake_view _ _ R).
Qed.

(** The processor is not left idle: after a round of the scheduling loop, the idle
    thread runs only when the ready queue is empty. *)
Theorem work_conserving s :
  reachable s →
  runs after_interrupt s (λ _ s',
    thread_running_var s' = idle_thread s' → ready_threads s' = []).
Proof.
  intros (A & R & O)%reachable_good. eapply runs_after_interrupt; [done..|]. intros s' R'.
  rw (ready_view _ _ R') (kr_run _ _ R') (kr_idle _ _ R'). by apply after_interrupt_busy.
Qed.

(** C25.  [thread_exit] of an ordinary thread destroys it: its object is freed and it is
    in no list any more, and the head of the ready queue (or the idle thread) runs. *)
Theorem exit_destroys s (t := thread_running_var s) :
  reachable s → t ≠ idle_thread s →
  runs thread_exit s (λ _ s',
    t ∉ dom (k_threads s') ∧ t ∉ live (k_events s') ∧
    all_threads s' = filter (λ u, u ≠ t) (all_threads s) ∧
    thread_running_var s' = hd (idle_thread s) (ready_threads s) ∧
    ready_threads s' = tail (ready_threads s) ∧ waiting_threads s' = waiting_threads s).
Proof.
  intros (A & R & O)%reachable_good. subst t. rw (kr_run _ _ R) (kr_idle _ _ R)
    (ready_view _ _ R) (waiting_view _ _ R) (all_view _ _ R). intros Hi.
  eapply runs_exit_ok; [done..|]. intros s' R'. pose proof (exit_ok A O) as O'.
  assert (a_exit A = a_schedule (set_status (w_all A (filter (λ u, u ≠ a_run A) (a_all A)))
    (a_run A) THREAD_DYING)) as E.
  { rw /a_exit bool_decide_eq_false_2; [by apply run_not_main|]. by rw bool_decide_eq_false_2. }
  match type of E with _ = a_schedule ?B =>
    destruct (schedule_fields B) as (Fr & Fw & Fa & Fn & _) end.
  rw -E in Fr Fw Fa Fn.
  assert (a_run A ∉ dom (k_threads s')) as Hd.
  { rw (kr_dom _ _ R') elem_of_dom (so_live _ O') Fa /= list_elem_of_filter. tauto. }
  rw (kr_run _ _ R') (ready_view _ _ R') (waiting_view _ _ R') (all_view _ _ R') Fr Fw Fa Fn.
  split_and!; try done. intros Hl. by apply Hd, (kr_noleak _ _ R').
Qed.

(** C27.  [thread_create], asked for a duration that is not negative, with memory
    available: it stops with the failure listed by [failure] (no name, no identifier
    left, or its frame stored into another thread), or it returns the next identifier and
    appends the new thread to the ready queue and to [all_list], with the duration asked
    for; if the idle thread was running, it gives way to the head of the queue at once. *)
Theorem create_appends s nm function aux dur (t := calloc (k_events s)) :
  reachable s → (0 ≤ dur ≤ INT_MAX)%Z → t ≠ NULL →
  match failure s (Create nm function aux dur) with
  | Some e => thread_create nm function aux dur s = Err e
  | None => runs (thread_create nm function aux dur) s (λ tid s',
      tid = next_tid s ∧ next_tid s' = (next_tid s + 1)%Z ∧
      all_threads s' = all_threads s ++ [t] ∧ duration_of s' t = dur ∧
      thread_running_var s' :: ready_threads s' =
        if bool_decide (thread_running_var s = idle_thread s) then ready_threads s ++ [t]
        else thread_running_var s :: ready_threads s ++ [t])
  end.
Proof.
  intros (A & G)%reachable_good Hd Ht.
  destruct (failure _ _) as [e|] eqn:Hf; [by eapply create_fails|].
  destruct (failure_enough _ _ (Create nm function aux dur) G Hd Hf) as (_ & Hmem).
  destruct (Hmem Ht) as (Hnm & Htid & Hroom).
  clear Hf Hmem. destruct G as [R O]. subst t.
  rw (kr_run _ _ R) (kr_idle _ _ R) (ready_view _ _ R) (all_view _ _ R) (kr_next_tid _ _ R).
  rw (kr_next_tid _ _ R) in Htid. rw (kr_dom _ _ R) in Hroom. pose proof (so_clock _ O) as C.
  pose proof (calloc_unused s A (conj R O) Ht) as Hfr.
  pose proof (add_ok (calloc (k_events s)) dur A O Hfr Hd Htid) as O1.
  eapply runs_thread_create; [done|apply O|right; by apply idle_live| |done|done|done
    |by apply Hroom|destruct C; unfold INT_MIN; lia|].
  { destruct C. change PGSIZE with 4096%Z in *. lia. }
  rewrite (bool_decide_eq_false_2 (a_next_tid A = 2%Z)) ?andb_false_r; [destruct C; lia|].
  intros s' R'. rw (kr_run _ _ R') (ready_view _ _ R') (all_view _ _ R') (kr_next_tid _ _ R')
    (dur_view _ _ R').
  assert (calloc (k_events s) ∈ a_all (a_add (calloc (k_events s)) dur A)) as Hta.
  { simpl. set_solver. }
  rw /a_create (stable_block_if_idle a_next_tid) block_if_idle_all dur_block_if_idle //.
  split_and!; try done.
  - rw /dur_of lookup_unblock decide_True //= lookup_insert_eq //.
  - rw /a_block_if_idle /=. case_bool_decide as Hi; [|done].
    match goal with |- context [a_block ?B] => destruct (schedule_fields
      (set_status B (a_run B) THREAD_BLOCKED)) as (Fr & _ & _ & Fn & _) end.
    rw /a_block Fr Fn /a_next /=. by destruct (a_ready A).
Qed.

(** [thread_create] out of memory returns TID_ERROR and changes nothing. *)
Theorem create_out_of_memory s nm function aux dur :
  calloc (k_events s) = NULL → thread_create nm function aux dur s = Ok (TID_ERROR, s).
Proof.
  intros Hc.
  destruct (runs_inv _ _ _ (runs_thread_create_oom s nm function aux dur
    (λ a s', a = TID_ERROR ∧ s' = s) Hc ltac:(done))) as (a & s' & -> & -> & ->). done.
Qed.

(** Every kernel call gives the interrupt mask back as it found it. *)
Theorem interrupts_restored s s' c :
  reachable s → kstep c s s' → k_primask s' = k_primask s.
Proof.
  intros (A & G)%reachable_good Hs. destruct (kstep_good _ _ _ _ G Hs) as [R' _].
  destruct G as [R _].
  rw (kr_mask _ _ R') (kr_mask _ _ R). apply mask_exec.
Qed.

(** Every tick is charged to the idle thread or to the kernel's threads, once. *)
Theorem ticks_accounted s :
  reachable s → (idle_ticks s + kernel_ticks s = ticks s)%Z ∧ (0 ≤ ticks s ≤ INT_MAX)%Z.
Proof.
  intros (A & R & O)%reachable_good.
  rw (kr_idle_ticks _ _ R) (kr_kernel_ticks _ _ R) (kr_now _ _ R). destruct (so_clock _ O). lia.
Qed.
End Props.

(** ** Witnesses: the theorems on concrete runs *)

(** Three threads, the first of which sleeps for two ticks. *)
Definition demo_sleep : list call := demo_rr ++ [Sleep 2].
(** Two threads in FIFO mode. *)
Definition demo_fifo : list call := [demo_create "a" 3; demo_create "b" 2].

Lemma kernel_fails_only_so_witness :
  ∃ s, demo demo_rr = Some s ∧ (∃ s', exec Loop s = Ok (tt, s') ∧ reachable s') ∧
    exec (Create (CStr NULL "") 0x10000201 0 4) s = Err (Panic thread_c 221).
Proof.
  run_demo s E demo_rr. exists s. split; [done|].
  assert (reachable s) as Hr by (by eapply demo_reachable).
  split; [exact (kernel_fails_only_so s Loop Hr I)|].
  assert (failure s (Create (CStr NULL "") 0x10000201 0 4) = Some (Panic thread_c 221)) as Hf
    by demo_fact E (λ s, failure s (Create (CStr NULL "") 0x10000201 0 4)).
  pose proof (kernel_fails_only_so s (Create (CStr NULL "") 0x10000201 0 4) Hr) as P.
  rewrite Hf in P. apply P. unfold proper, INT_MAX. lia.
Defined.

Lemma exec_simulates_witness :
  ∃ s A, demo demo_rr = Some s ∧ runs (exec Loop) s (λ _ s',
    krep s' (a_exec (calloc (k_events s)) Loop A) ∧
    sched_ok (a_exec (calloc (k_events s)) Loop A)).
Proof.
  run_demo s E demo_rr. destruct (reachable_good s (demo_reachable _ _ E)) as (A & R & O).
  exists s, A. split; [done|]. exact (exec_simulates s A Loop R O I).
Defined.

Lemma boot_starts_idle_witness :
  runs boot demo_boot (λ _ s',
    thread_running_var s' = calloc [] ∧ idle_thread s' = calloc [] ∧
    initial_thread s' = demo_page ∧
    ready_threads s' = [] ∧ waiting_threads s' = [] ∧ all_threads s' = [demo_page; calloc []] ∧
    has_status s' (calloc []) THREAD_RUNNING ∧ has_status s' demo_page THREAD_READY ∧
    next_tid s' = 3%Z ∧ ticks s' = 0%Z ∧ k_primask s' = 0%Z).
Proof. by apply (boot_starts_idle demo_boot demo_page 0 5 0); [exact demo_preboot|]. Defined.

Lemma threads_partitioned_witness :
  ∃ s, demo demo_sleep = Some s ∧
    NoDup (thread_running_var s :: ready_threads s ++ waiting_threads s).
Proof.
  run_demo s E demo_sleep. exists s. split; [done|].
  apply threads_partitioned. by eapply demo_reachable.
Defined.

Lemma bounded_waiting_witness :
  ∃ s, demo demo_rr = Some s ∧ ∃ n s', (0 < Z.of_nat n ≤ 4)%Z ∧ rounds n s = Ok (tt, s') ∧
    ready_threads s !! 1 = Some (thread_running_var s').
Proof.
  run_demo s E demo_rr. exists s. split; [done|].
  assert (round_robin_mode s = 1%Z) as Hm by demo_fact E round_robin_mode.
  assert (round_robin_ticks s = 2%Z) as Hq by demo_fact E round_robin_ticks.
  assert (thread_exit_on_return s = 0%Z) as Hf by demo_fact E thread_exit_on_return.
  assert (ticks s = 0%Z) as Ht by demo_fact E ticks.
  assert (ready_threads s !! 1 = Some (slot 3)) as Hk
    by demo_fact E (λ s, ready_threads s !! 1).
  assert (duration_of s (slot 3) = 4%Z) as Hd by demo_fact E (λ s, duration_of s (slot 3)).
  destruct (bounded_waiting s 1 (slot 3)) as (n & s' & Hn & Er & Eq).
  - by eapply demo_reachable.
  - by rewrite Hm.
  - by rewrite Hq.
  - exact Hf.
  - exact Hk.
  - by rewrite Hd.
  - rewrite Ht Hq. unfold INT_MAX. lia.
  - exists n, s'. rewrite Hq in Hn. rewrite Eq. split; [lia|]. by split.
Defined.

Lemma sleeper_on_time_witness :
  ∃ s s' t, demo demo_sleep = Some s ∧ t ∈ waiting_threads s ∧ wake_time s t = 2%Z ∧
    run_calls [Tick; Loop] s = Some s' ∧ t ∈ waiting_threads s' ∧ wake_time s' t = 2%Z.
Proof.
  run_demo s E demo_sleep.
  assert (bool_decide (is_Some (run_calls [Tick; Loop] s)) = true) as Hb
    by demo_fact E (λ s, bool_decide (is_Some (run_calls [Tick; Loop] s))).
  apply bool_decide_eq_true in Hb as [s' E'].
  exists s, s', (slot 1).
  assert (slot 1 ∈ waiting_threads s) as Hin.
  { assert (waiting_threads s = [slot 1]) as -> by demo_fact E waiting_threads. by left. }
  assert (wake_time s (slot 1) = 2%Z) as Hw by demo_fact E (λ s, wake_time s (slot 1)).
  assert (ticks <$> run_calls [Tick; Loop] s = Some 1%Z) as Ht
    by demo_fact E (λ s, ticks <$> run_calls [Tick; Loop] s).
  rewrite E' in Ht. injection Ht as Ht.
  destruct (sleeper_on_time [Tick; Loop] s s' (slot 1)) as [H1 _];
    [by eapply demo_reachable|by apply run_calls_ksteps|done|].
  rewrite Hw Ht in H1. destruct H1 as [H1 H2]; [lia|].
  exact (conj eq_refl (conj Hin (conj Hw (conj E' (conj H1 H2))))).
Defined.

Lemma fifo_runs_to_completion_witness :
  ∃ s, demo demo_fifo = Some s ∧
    (∀ k, k < 3 → ∃ s', rounds k s = Ok (tt, s') ∧ thread_running_var s' = slot 1) ∧
    (∃ s', rounds 3 s = Ok (tt, s') ∧ slot 1 ∉ dom (k_threads s')).
Proof.
  run_demo s E demo_fifo. exists s. split; [done|].
  assert (round_robin_mode s = 0%Z) as Hm by demo_fact E round_robin_mode.
  assert (thread_exit_on_return s = 0%Z) as Hf by demo_fact E thread_exit_on_return.
  assert (ticks s = 0%Z) as Ht by demo_fact E ticks.
  assert (thread_running_var s = slot 1) as Hr by demo_fact E thread_running_var.
  assert (idle_thread s = slot 0) as Hi by demo_fact E idle_thread.
  assert (duration_of s (slot 1) = 3%Z) as Hd by demo_fact E (λ s, duration_of s (slot 1)).
  pose proof (fifo_runs_to_completion s) as P. cbv zeta in P. rewrite Hr Hd Hi Ht in P.
  apply P; [by eapply demo_reachable|exact Hm|exact Hf|by vm_compute|lia|unfold INT_MAX; lia].
Defined.

Lemma no_leak_witness :
  ∃ s, demo demo_fifo = Some s ∧ (slot 1 ∈ live (k_events s) ↔ slot 1 ∈ all_threads s).
Proof.
  run_demo s E demo_fifo. exists s. split; [done|].
  assert (initial_thread s = demo_page) as Hi by demo_fact E initial_thread.
  apply no_leak; [by eapply demo_reachable|]. rewrite Hi. by vm_compute.
Defined.

Lemma quantum_respected_witness :
  ∃ s, demo demo_rr = Some s ∧ runs after_interrupt s (λ _ s',
    ready_threads s' = [] ∨ (thread_ticks s' < round_robin_ticks s)%Z).
Proof.
  run_demo s E demo_rr. exists s. split; [done|].
  assert (round_robin_mode s = 1%Z) as Hm by demo_fact E round_robin_mode.
  assert (round_robin_ticks s = 2%Z) as Hq by demo_fact E round_robin_ticks.
  apply quantum_respected; [by eapply demo_reachable|by rewrite Hm|by rewrite Hq].
Defined.

Lemma yield_rotates_queue_witness :
  ∃ s, demo demo_rr = Some s ∧ runs (yields 2) s (λ _ s',
    thread_running_var s' :: ready_threads s' = [slot 3; slot 1; slot 2]).
Proof.
  run_demo s E demo_rr. exists s. split; [done|].
  assert (thread_running_var s = slot 1) as Hr by demo_fact E thread_running_var.
  assert (idle_thread s = slot 0) as Hi by demo_fact E idle_thread.
  assert (ready_threads s = [slot 2; slot 3]) as Hq by demo_fact E ready_threads.
  pose proof (yield_rotates_queue s 2) as P. cbv zeta in P. rewrite Hr Hq Hi in P.
  apply P; [by eapply demo_reachable|by vm_compute|simpl; lia].
Defined.

Lemma tick_wakes_in_order_witness :
  ∃ s, demo (demo_rr ++ [Sleep 1; Sleep 2]) = Some s ∧ runs timer_interrupt s (λ b s',
    b = true ∧ ticks s' = 1%Z ∧ thread_running_var s' = slot 3 ∧
    ready_threads s' = ready_threads s ++
      filter (λ t, wake_time s t = 0 + 1)%Z (waiting_threads s) ∧
    waiting_threads s' = filter (λ t, wake_time s t ≠ 0 + 1)%Z (waiting_threads s)).
Proof.
  run_demo s E (demo_rr ++ [Sleep 1; Sleep 2]). exists s. split; [done|].
  assert (thread_running_var s = slot 3) as Hr by demo_fact E thread_running_var.
  assert (ticks s = 0%Z) as Ht by demo_fact E ticks.
  pose proof (tick_wakes_in_order s) as P. rewrite Hr Ht in P.
  apply P; [by eapply demo_reachable|done].
Defined.

Lemma work_conserving_witness :
  ∃ s, demo demo_rr = Some s ∧ runs after_interrupt s (λ _ s',
    thread_running_var s' = idle_thread s' → ready_threads s' = []).
Proof.
  run_demo s E demo_rr. exists s. split; [done|].
  apply work_conserving. by eapply demo_reachable.
Defined.

Lemma exit_destroys_witness :
  ∃ s, demo demo_rr = Some s ∧ runs thread_exit s (λ _ s',
    slot 1 ∉ dom (k_threads s') ∧ slot 1 ∉ live (k_events s') ∧
    all_threads s' = filter (λ u, u ≠ slot 1) (all_threads s) ∧
    thread_running_var s' = slot 2 ∧ ready_threads s' = [slot 3] ∧
    waiting_threads s' = waiting_threads s).
Proof.
  run_demo s E demo_rr. exists s. split; [done|].
  assert (thread_running_var s = slot 1) as Hr by demo_fact E thread_running_var.
  assert (idle_thread s = slot 0) as Hi by demo_fact E idle_thread.
  assert (ready_threads s = [slot 2; slot 3]) as Hq by demo_fact E ready_threads.
  pose proof (exit_destroys s) as P. cbv zeta in P. rewrite Hr Hq Hi in P.
  apply P; [by eapply demo_reachable|by vm_compute].
Defined.

Lemma create_appends_witness :
  ∃ s, demo [] = Some s ∧
    runs (thread_create (CStr 0x10000000 "a") 0x10000201 0 4) s (λ tid s',
      tid = 3%Z ∧ next_tid s' = (3 + 1)%Z ∧
      all_threads s' = [demo_page; slot 0] ++ [slot 1] ∧ duration_of s' (slot 1) = 4%Z ∧
      thread_running_var s' :: ready_threads s' = [slot 1]).
Proof.
  run_demo s E (@nil call). exists s. split; [done|].
  assert (thread_running_var s = slot 0) as Hr by demo_fact E thread_running_var.
  assert (idle_thread s = slot 0) as Hi by demo_fact E idle_thread.
  assert (ready_threads s = []) as Hq by demo_fact E ready_threads.
  assert (all_threads s = [demo_page; slot 0]) as Ha by demo_fact E all_threads.
  assert (next_tid s = 3%Z) as Hn by demo_fact E next_tid.
  assert (calloc (k_events s) = slot 1) as Hc by demo_fact E (λ s, calloc (k_events s)).
  assert (failure s (Create (CStr 0x10000000 "a") 0x10000201 0 4) = None) as Hf
    by demo_fact E (λ s, failure s (Create (CStr 0x10000000 "a") 0x10000201 0 4)).
  pose proof (create_appends s (CStr 0x10000000 "a") 0x10000201 0 4) as P. cbv zeta in P.
  rewrite Hf Hr Hi Hq Ha Hn Hc (bool_decide_eq_true_2 (slot 0 = slot 0) eq_refl) in P.
  apply P; [by eapply demo_reachable|unfold INT_MAX; lia|by vm_compute].
Defined.

Lemma create_out_of_memory_witness :
  let s := set_events demo_boot [EvAlloc heap_end] in
  thread_create (CStr 0x10000000 "a") 0x10000201 0 4 s = Ok (TID_ERROR, s).
Proof. apply create_out_of_memory. by vm_compute. Defined.

Lemma interrupts_restored_witness :
  ∃ s s', demo demo_rr = Some s ∧ kstep Yield s s' ∧ k_primask s' = k_primask s.
Proof.
  run_demo s E demo_rr.
  assert (reachable s) as Hr by (by eapply demo_reachable).
  destruct (reachable_good s Hr) as [A G]. destruct (exec_good s A Yield G I) as (s' & Ex & _).
  exists s, s'. split; [done|]. split; [by split|].
  apply (interrupts_restored s s' Yield); [exact Hr|by split].
Defined.

Lemma ticks_accounted_witness :
  ∃ s, demo (demo_rr ++ [Tick; Loop; Tick]) = Some s ∧
    (idle_ticks s + kernel_ticks s = ticks s)%Z ∧ (0 ≤ ticks s ≤ INT_MAX)%Z.
Proof.
  run_demo s E (demo_rr ++ [Tick; Loop; Tick]). exists s. split; [done|].
  apply ticks_accounted. by eapply demo_reachable.
Defined.

(** Three threads in round-robin, two of them asleep. *)
Lemma all_threads_complete_witness :
  ∃ s, demo (demo_rr ++ [Sleep 3; Sleep 7]) = Some s ∧
    runs (rounds 23) s (λ _ s', finished s').
Proof.
  run_demo s E (demo_rr ++ [Sleep 3; Sleep 7]). exists s. split; [done|].
  assert (ticks s = 0%Z) as Ht by demo_fact E ticks.
  assert (remaining_work s = 15%Z) as Hr by demo_fact E remaining_work.
  assert (bool_decide (Forall (λ t, wake_time s t ≤ 7)%Z (waiting_threads s)) = true) as Hw
    by demo_fact E (λ s, bool_decide (Forall (λ t, wake_time s t ≤ 7)%Z (waiting_threads s))).
  apply bool_decide_eq_true in Hw. rewrite Forall_forall in Hw.
  apply (all_threads_complete s 23 7); [by eapply demo_reachable|exact Hw|..].
  - rewrite Ht Hr. by vm_compute.
  - rewrite Ht. by vm_compute.
Defined.
