(* ===== verification/ErrorProps.v ===== *)
(** * Error behaviour

    What happens outside the conditions under which the kernel is safe: the panics of
    its assertions, the windows in [thread_exit] and in [thread_sleep], and the store
    outside the block of a new thread. *)

From S2P Require Import Prelude CList CListRepr CListSpec Machine Thread Main Sim Sched.
From S2P Require Import SchedInv SchedFacts ThreadRep ThreadLife ThreadSpec ThreadCreate.
From S2P Require Import MainSpec Kernel Boot Reach Demo.

(** [thread_current] panics when the running thread is not RUNNING. *)
Lemma current_err s A v :
  krep s A → status_of A (a_run A) = Some v → v ≠ THREAD_RUNNING →
  thread_current s = Err (Panic thread_c 618).
Proof.
  intros R Hst Hv. pose proof (status_of_lookup _ _ _ Hst) as (i & Hi & Hiv).
  apply runs_err. eapply runs_running_thread; [done|].
  apply runs_err. eapply runs_is_thread; [done|eauto|].
  apply runs_err. step; [done|]. apply runs_err. eapply runs_load_thread; [done..|].
  intros th Hab _. apply bind_Err. apply assert_err, bool_decide_eq_false_2.
  rw -Hab in Hiv. simpl in Hiv. congruence.
Qed.

(** [thread_unblock] of a thread that is not blocked. *)
Lemma unblock_err s A t v :
  krep s A → status_of A t = Some v → v ≠ THREAD_BLOCKED →
  thread_unblock t s = Err (Panic thread_c 316).
Proof.
  intros R Hst Hv. pose proof (status_of_lookup _ _ _ Hst) as (i & Hi & Hiv).
  apply runs_err. eapply runs_is_thread; [done|eauto|].
  apply runs_err. step; [done|]. apply runs_err. eapply runs_load_thread; [done..|].
  intros th Hab _. apply bind_Err. apply assert_err, bool_decide_eq_false_2.
  rw -Hab in Hiv. simpl in Hiv. congruence.
Qed.

(** A timer interrupt whose handler finds the running thread in another state. *)
Lemma timer_err s A v :
  krep s A → status_of A (a_run A) = Some v → v ≠ THREAD_RUNNING →
  (0 ≤ a_now A < INT_MAX)%Z → timer_interrupt s = Err (Panic thread_c 618).
Proof.
  intros R Hst Hv Hn. rw /timer_interrupt. apply runs_err. step. apply runs_err.
  rw (kr_now _ _ R). apply runs_int_op; [unfold INT_MIN, INT_MAX in *; lia|].
  apply runs_err. eapply (runs_modify_global _ _ (w_now A (a_now A + 1)));
    [done..|globals_eq R|]. intros s' R'.
  apply bind_Err, bind_Err. by eapply (current_err s' (w_now A (a_now A + 1))).
Qed.

(** A sleeper that is due but not blocked, after others that are blocked. *)
Lemma remover_err s A n ws1 t ws2 v :
  krep s A → a_wait A = ws1 ++ t :: ws2 →
  (∀ u, u ∈ ws1 → status_of A u = Some THREAD_BLOCKED) →
  due A n t → status_of A t = Some v → v ≠ THREAD_BLOCKED →
  remover_thread_durmiente n s = Err (Panic thread_c 316).
Proof.
  intros R Hw Hb Hd Hst Hv.
  pose proof (kr_wait _ _ R) as Rw. rw Hw in Rw.
  assert (t ∉ ws1 ++ ws2) as Hnin by exact (repr_notin _ _ _ _ _ _ Rw _).
  rw elem_of_app in Hnin.
  assert (NoDup ws1) as Hnd.
  { destruct Rw as [_ Hn _]. rw /nodes fmap_app NoDup_cons in Hn. destruct Hn as [_ Hn].
    apply NoDup_app in Hn as (Hn & _). apply NoDup_app in Hn as (Hn & _). by eapply NoDup_fmap_1. }
  rw /remover_thread_durmiente. apply runs_err. eapply runs_wait_begin; [done|].
  apply runs_err. step. rw Hw.
  apply (remover_prefix (λ r, r = Err _) (t :: ws2) ws1 s A n []); [done|done| |done|].
  { pose proof (repr_fuel _ _ _ Rw) as Hf. rw length_fmap in Hf. lia. }
  intros s1 ws1' [|fuel'] R1 Hf1 Hw1; [simpl in Hf1; lia|].
  destruct (wake_loop_spec n ws1 A Hnd) as (_ & _ & Et & _). specialize (Et t).
  rewrite decide_False in Et; [tauto|]. set (B := a_wake_loop n ws1 A) in *. clearbody B.
  assert (status_of B t = Some v) as Hst1 by (by rw /status_of Et).
  destruct (status_of_lookup _ _ _ Hst1) as (i & Hi & _).
  cbn [remover_loop]. apply runs_err. eapply runs_wait_end; [done|].
  rw bool_decide_eq_false_2.
  { intros E. by apply (wait_pos_end s1 B ws1' (t :: ws2) R1 Hw1) in E. }
  simpl hd. rw list_entry_elem_ptr.
  apply runs_err. eapply runs_load_thread; [done..|]. intros th Hab _.
  rw bool_decide_eq_true_2; [by rw /due /wake_of -Et Hi -Hab in Hd|].
  apply runs_err. eapply runs_printf; [done|]. intros s2 R2.
  apply runs_err. eapply (runs_wait_remove _ _ ws1'); [done..|]. intros s3 R3.
  apply bind_Err. by eapply unblock_err.
Qed.

(** The tick that wakes a running thread. *)
Lemma timer_wake_err s A ws1 ws2 :
  krep s A → can_run A → a_wait A = ws1 ++ a_run A :: ws2 →
  (∀ u, u ∈ ws1 → status_of A u = Some THREAD_BLOCKED) →
  wake_of A (a_run A) = uint64 (a_now A + 1) → (0 ≤ a_now A < INT_MAX)%Z →
  (0 ≤ a_idle_ticks A ≤ a_now A)%Z → (0 ≤ a_kernel_ticks A ≤ a_now A)%Z →
  (INT_MIN + 1 ≤ dur_of A (a_run A) ≤ INT_MAX)%Z →
  timer_interrupt s = Err (Panic thread_c 316).
Proof.
  intros R [Hst Hid] Hw Hb Hwk Hn Hit Hkt Hd.
  rw /timer_interrupt. apply runs_err. step. apply runs_err. rw (kr_now _ _ R).
  apply runs_int_op; [unfold INT_MIN, INT_MAX in *; lia|].
  apply runs_err. eapply (runs_modify_global _ _ (w_now A (a_now A + 1)));
    [done..|globals_eq R|]. intros s1 R1.
  apply runs_err. eapply runs_thread_tick; [done|..].
  { by split. }
  1-2: unfold INT_MAX in *; simpl; lia.
  { change (dur_of (w_now A (a_now A + 1)) _) with (dur_of A (a_run A)).
    unfold INT_MIN, INT_MAX in *. lia. }
  intros s2 R2. destruct (tick_fields A) as (_ & Fw & _ & Fn & _ & _ & Ft & _).
  set (B := a_tick (w_now A (a_now A + 1))) in *.
  assert (∀ u, status_of B u = status_of A u) as Hsb by (intros; apply status_tick).
  assert (wake_of B (a_run A) = uint64 (a_now A + 1)) as Hwb by (by rw -Hwk; apply wake_tick).
  clearbody B.
  apply runs_err. eapply runs_thread_current; [done|by rw Fn Hsb|]. rw Fn.
  destruct (status_of_lookup B (a_run A) THREAD_RUNNING) as (k & Hk & _); [by rw Hsb|].
  apply runs_err. eapply runs_load_thread; [done..|]. intros th _ _.
  apply runs_err. step. apply runs_err. eapply runs_printf; [done|]. intros s3 R3.
  rw (kr_now _ _ R2) Ft. apply bind_Err.
  eapply (remover_err s3 B _ ws1 (a_run A) ws2 THREAD_RUNNING);
    [done|by rw Fw|intros; rw Hsb; auto| |by rw Hsb|done].
  by rw /due Hwb.
Qed.

(** The sleeping idle thread, chosen again: running and in the waiting list. *)
Lemma idle_sleep_state A :
  sched_ok A → a_run A = a_idle A → a_ready A = [] →
  let B := a_sleep 1 A in
  a_run B = a_run A ∧ a_idle B = a_idle A ∧ a_wait B = a_wait A ++ [a_run A] ∧ a_now B = a_now A ∧
  a_idle_ticks B = a_idle_ticks A ∧ a_kernel_ticks B = a_kernel_ticks A ∧
  status_of B (a_run A) = Some THREAD_RUNNING ∧ dur_of B (a_run A) = dur_of A (a_run A) ∧
  wake_of B (a_run A) = uint64 (a_now A + 1) ∧
  ∀ u, u ≠ a_run A → status_of B u = status_of A u.
Proof.
  intros O Hi Hr. simpl. rw /a_sleep bool_decide_eq_true_2 // /a_sleep_for /a_block.
  destruct (run_live A O) as [i Hli].
  set (X := w_wait _ _). set (Y := set_status X (a_run X) THREAD_BLOCKED).
  destruct (schedule_fields Y) as (_ & Fw & _ & Fn & Fi & _ & _ & Ft & Fx & Fy & _).
  assert (a_next Y = a_run A) as En by (by rw /a_next /= Hr /= Hi).
  assert (a_thr (a_schedule Y) !! a_run A =
    Some (TInfo THREAD_RUNNING (t_dur i) (uint64 (a_now A + 1)))) as Et.
  { rw lookup_schedule /dies En (bool_decide_eq_true_2 (a_run Y = a_run A)) // andb_false_r.
    rw lookup_set_status decide_True // lookup_set_status decide_True //=.
    by rw lookup_alter_eq Hli. }
  rw Fw Fn Fi Ft Fx Fy En /dur_of /wake_of {1}/status_of Et Hli /=. split_and!; try done.
  intros u Hu. rw /status_of lookup_schedule En.
  rw (bool_decide_eq_false_2 (a_run Y = u)); [by intros E; apply Hu|]. rw andb_false_r.
  rw lookup_set_status decide_False; [by intros E; apply Hu|].
  rw lookup_set_status decide_False; [by intros E; apply Hu|]. by rw lookup_alter_ne.
Qed.

Section Errors.
Context `{Platform}.

(** C36.  [thread_exit] leaves a window: it marks the running thread DYING with the
    interrupts enabled, so a timer interrupt between that store and the switch makes
    the handler panic in [thread_current] (thread.c:618). *)
Theorem exit_interrupted_panics s :
  reachable s → thread_running_var s ≠ idle_thread s → (ticks s < INT_MAX)%Z →
  ∃ s', thread_exit_begin s = Ok (tt, s') ∧ k_primask s' = k_primask s ∧
        timer_interrupt s' = Err (Panic thread_c 618).
Proof.
  intros (A & R & O)%reachable_good. rw (kr_run _ _ R) (kr_idle _ _ R) (kr_now _ _ R).
  intros Hi Hn. set (B := set_status (w_all A (filter (λ t, t ≠ a_run A) (a_all A)))
    (a_run A) THREAD_DYING).
  destruct (runs_inv _ _ _ (runs_exit_begin s A (λ _ s', krep s' B) R (can_run_ok A O)
    (run_in_all A O) (λ _ R, R))) as ([] & s' & E & R').
  exists s'. split_and!; [done|by rw (kr_mask _ _ R') (kr_mask _ _ R)|].
  eapply (timer_err s' B THREAD_DYING); [done|apply (status_leave_run A O)|done|].
  destruct (so_clock _ O). simpl. lia.
Qed.

(** [thread_unblock] insists on a blocked thread: in every reachable state,
    unblocking the running thread or one that is already ready panics at line 316. *)
Theorem unblock_requires_blocked s t :
  reachable s → t = thread_running_var s ∨ t ∈ ready_threads s →
  thread_unblock t s = Err (Panic thread_c 316).
Proof.
  intros (A & R & O)%reachable_good. rw (kr_run _ _ R) (ready_view _ _ R). intros [->|Ht].
  - by eapply unblock_err; [done|apply (so_run _ O)|].
  - by eapply unblock_err; [done|apply (qo_ready _ (so_queues _ O) t Ht)|].
Qed.

(** C35.  [insertar_en_lista_espera] leaves a window: it puts the running thread into the
    waiting list with the interrupts enabled and blocks it only afterwards.  When the
    thread sleeps for one tick and that tick comes in between, the handler wakes a thread
    that is not blocked and panics in [thread_unblock] (thread.c:316). *)
Theorem sleep_interrupted_panics s :
  reachable s → (ticks s < INT_MAX)%Z →
  ∃ s', insertar_begin 1 s = Ok (tt, s') ∧ k_primask s' = k_primask s ∧
        timer_interrupt s' = Err (Panic thread_c 316).
Proof.
  intros (A & R & O)%reachable_good. rw (kr_now _ _ R). intros Hn.
  pose proof (so_clock _ O) as C. pose proof (can_run_ok A O) as Hc.
  destruct (run_live A O) as [i Hli]. pose proof (ck_dur _ C _ _ Hli) as Hd.
  pose proof (ck_sum _ C). pose proof (ck_idle _ C). pose proof (ck_kernel _ C).
  assert (∀ B, runs (insertar_begin 1) s (λ _ s', krep s' B) →
    ∃ s', insertar_begin 1 s = Ok (tt, s') ∧ krep s' B) as Hx.
  { intros B Hr. by destruct (runs_inv _ _ _ Hr) as ([] & s' & ? & ?); eauto. }
  destruct (Hx (a_sleep_begin 1 A)) as (s' & E & R').
  { eapply runs_insertar_begin; [done|done|by apply run_not_ready|by apply run_not_wait
      |unfold INT_MIN; lia|done]. }
  exists s'. split_and!; [done|by rw (kr_mask _ _ R') (kr_mask _ _ R)|].
  eapply (timer_wake_err s' (a_sleep_begin 1 A) (a_wait A) []);
    [done|by apply can_run_sleep_begin|done| |..]; simpl; try lia.
  - intros u Hu. rw -(qo_wait _ (so_queues _ O) u Hu) /status_of /=.
    rw lookup_alter_ne //. intros <-. by apply (run_not_wait A O).
  - by rw /wake_of /= lookup_alter_eq Hli.
  - rw /dur_of /= lookup_alter_eq Hli /=. unfold INT_MIN, INT_MAX in *. lia.
Qed.

(** The idle thread must not sleep: with nothing ready it would be chosen again at
    once, RUNNING and in the waiting list, and the tick that wakes it panics. *)
Theorem idle_sleep_panics s :
  reachable s → thread_running_var s = idle_thread s → ready_threads s = [] →
  (ticks s < INT_MAX)%Z →
  (thread_sleep 1;; timer_interrupt) s = Err (Panic thread_c 316).
Proof.
  intros (A & R & O)%reachable_good. rw (kr_run _ _ R) (kr_idle _ _ R) (ready_view _ _ R)
    (kr_now _ _ R). intros Hi Hr Hn. pose proof (so_clock _ O) as C.
  pose proof (ck_sum _ C). pose proof (ck_idle _ C). pose proof (ck_kernel _ C).
  apply runs_err. eapply runs_thread_sleep; [done|by apply can_run_ok|by apply run_not_ready
    |by apply run_not_wait|lia|lia|]. intros s1 R1.
  destruct (idle_sleep_state A O Hi Hr) as (B1 & B2 & B3 & B4 & B5 & B6 & B7 & B8 & B9 & B10).
  destruct (run_live A O) as [i Hli]. pose proof (ck_dur _ C _ _ Hli) as Hd.
  set (B := a_sleep 1 A) in *. clearbody B.
  destruct (status_of_lookup _ _ _ B7) as (j & Hj & _).
  eapply (timer_wake_err s1 B (a_wait A) []); rw ?B1 ?B4 ?B5 ?B6 ?B8 //; try lia.
  - split; rw ?B1 //. rw B2 -Hi. eauto.
  - intros u Hu. rw B10; [|by apply (qo_wait _ (so_queues _ O))].
    intros ->. by apply (run_not_wait A O).
  - rw /dur_of Hli /=. unfold INT_MIN, INT_MAX in *. lia.
Qed.

(** ** The frame of a new thread *)

Lemma frame_taken (T : gset Z) t u :
  u ∈ T → (u < t + PGSIZE)%Z → (t + PGSIZE - 12 < u + sizeof_thread)%Z →
  ∃ a v, frame_hit T t = Some a ∧ (t + 4084 ≤ a < t + PGSIZE)%Z ∧
    v ∈ T ∧ (v ≤ a + 3 ∧ a < v + sizeof_thread)%Z.
Proof.
  intros Hu Hlo Hhi. destruct (frame_hit T t) as [a|] eqn:Hf.
  - pose proof (find_some _ _ Hf) as [Hin Hh]. destruct (hits_true _ _ Hh) as (v & Hv & Ho).
    exists a, v. destruct Ho. split_and!; [done| | |done..]; change PGSIZE with 4096%Z;
      simpl in Hin; destruct Hin as [<-|[<-|[<-|[]]]]; lia.
  - apply frame_hit_room in Hf. specialize (Hf u Hu). simpl in Hf. lia.
Qed.

(** C37.  [thread_create] stores its frame at the end of a 4 KB page that begins at the
    152-byte block it allocated, outside that block: whenever a live [struct thread] lies
    across the last three words of that page, the creation overwrites a word of a live
    thread, outside the block it was given. *)
Theorem frame_store_corrupts s nm function aux dur u (t := calloc (k_events s)) :
  reachable s → t ≠ NULL → c_addr nm ≠ NULL → (next_tid s < INT_MAX)%Z →
  u ∈ all_threads s → (u < t + PGSIZE)%Z → (t + PGSIZE - 12 < u + sizeof_thread)%Z →
  ∃ a v, thread_create nm function aux dur s = Err (Clobber a) ∧
    (t + sizeof_thread ≤ a < t + PGSIZE)%Z ∧
    v ∈ all_threads s ∧ (v ≤ a + 3 ∧ a < v + sizeof_thread)%Z.
Proof.
  intros (A & G)%reachable_good Ht Hnm Htid. pose proof G as [R O].
  rw (all_view _ _ R). intros Hu%(so_live _ O) Hlo Hhi.
  assert (∀ v, v ∈ dom (k_threads s) ↔ is_Some (a_thr A !! v)) as Hdom
    by (intros v; by rw (kr_dom _ _ R) elem_of_dom).
  apply Hdom in Hu. destruct (frame_taken _ _ _ Hu Hlo Hhi) as (a & v & Hf & Ha & Hv & Ho).
  exists a, v. split_and!; [|unfold sizeof_thread; lia|lia|by apply (so_live _ O), Hdom|lia..].
  eapply create_fails; [done|]. simpl. fold t. rw !bool_decide_eq_false_2 //; [lia|]. by rw Hf.
Qed.
End Errors.

(** ** Witnesses *)

Lemma exit_interrupted_panics_witness :
  ∃ s, demo demo_rr = Some s ∧ ∃ s', thread_exit_begin s = Ok (tt, s') ∧
    k_primask s' = k_primask s ∧ timer_interrupt s' = Err (Panic thread_c 618).
Proof.
  run_demo s E demo_rr. exists s. split; [done|].
  assert (thread_running_var s = slot 1) as Hr by demo_fact E thread_running_var.
  assert (idle_thread s = slot 0) as Hi by demo_fact E idle_thread.
  assert (ticks s = 0%Z) as Ht by demo_fact E ticks.
  apply exit_interrupted_panics; [by eapply demo_reachable|rewrite Hr Hi; by vm_compute
    |rewrite Ht; unfold INT_MAX; lia].
Defined.

Lemma unblock_requires_blocked_witness :
  ∃ s, demo demo_rr = Some s ∧ thread_unblock (slot 2) s = Err (Panic thread_c 316).
Proof.
  run_demo s E demo_rr. exists s. split; [done|].
  assert (ready_threads s = [slot 2; slot 3]) as Hq by demo_fact E ready_threads.
  apply unblock_requires_blocked; [by eapply demo_reachable|]. right. rewrite Hq. by left.
Defined.

Lemma sleep_interrupted_panics_witness :
  ∃ s, demo demo_rr = Some s ∧ ∃ s', insertar_begin 1 s = Ok (tt, s') ∧
    k_primask s' = k_primask s ∧ timer_interrupt s' = Err (Panic thread_c 316).
Proof.
  run_demo s E demo_rr. exists s. split; [done|].
  assert (ticks s = 0%Z) as Ht by demo_fact E ticks.
  apply sleep_interrupted_panics; [by eapply demo_reachable|rewrite Ht; unfold INT_MAX; lia].
Defined.

Lemma idle_sleep_panics_witness :
  ∃ s, demo [] = Some s ∧ (thread_sleep 1;; timer_interrupt) s = Err (Panic thread_c 316).
Proof.
  run_demo s E (@nil call). exists s. split; [done|].
  assert (thread_running_var s = slot 0) as Hr by demo_fact E thread_running_var.
  assert (idle_thread s = slot 0) as Hi by demo_fact E idle_thread.
  assert (ready_threads s = []) as Hq by demo_fact E ready_threads.
  assert (ticks s = 0%Z) as Ht by demo_fact E ticks.
  apply idle_sleep_panics; [by eapply demo_reachable|congruence|exact Hq
    |rewrite Ht; unfold INT_MAX; lia].
Defined.

(** Twenty-six threads, of which the first exits: an allocator that reuses freed blocks
    gives its block to the next thread, and the 26th lies across the last words of the
    page that begins there. *)
Definition demo_reuse : list call := replicate 26 (demo_create "thread" 100) ++ [Exit].

Lemma fit_gives : calloc (Platform := pico_fit) [] ≠ NULL.
Proof. by vm_compute. Qed.

Lemma frame_store_corrupts_witness :
  ∃ s, demo (H := pico_fit) demo_reuse = Some s ∧ ∃ a v,
    thread_create (H := pico_fit) (CStr 0x10000000 "thread") 0x10000201 0 100 s
      = Err (Clobber a) ∧
    (slot 1 + sizeof_thread ≤ a < slot 1 + PGSIZE)%Z ∧
    v ∈ all_threads s ∧ (v ≤ a + 3 ∧ a < v + sizeof_thread)%Z.
Proof.
  destruct (demo (H := pico_fit) demo_reuse) as [s|] eqn:E; [|by vm_compute in E].
  exists s. split; [done|].
  assert (calloc (Platform := pico_fit) (k_events s) = slot 1) as Hc
    by demo_fact E (λ s, calloc (Platform := pico_fit) (k_events s)).
  assert (bool_decide (next_tid s < INT_MAX)%Z = true) as Hn
    by demo_fact E (λ s, bool_decide (next_tid s < INT_MAX)%Z).
  assert (bool_decide (slot 26 ∈ all_threads s) = true) as Hu
    by demo_fact E (λ s, bool_decide (slot 26 ∈ all_threads s)).
  apply bool_decide_eq_true in Hn, Hu.
  pose proof (frame_store_corrupts (H := pico_fit) s (CStr 0x10000000 "thread") 0x10000201 0
    100 (slot 26)) as P. cbv zeta in P. rewrite Hc in P.
  apply P; [exact (demo_reachable_on _ _ fit_gives E)|discriminate|discriminate|exact Hn|exact Hu
    |reflexivity|reflexivity].
Defined.
