(* ===== verification/AppSafe.v ===== *)
(** * The whole program: how it can stop, and that it does not otherwise

    From the memory before [main] to any number of events of the endless loop, for every
    test, every input of short words and every board: no assertion fails, no access is
    out of place, nothing overflows.  Two stores of the program leave their objects, and
    the [mishap]s are what can come of them: a thread name longer than the room behind
    its array, and the frame that [thread_create] stores behind the block it asked for,
    when the allocator has put another thread there.  The class [Ample] says that the
    allocator can serve seven blocks at a time. *)

From S2P Require Import Prelude CList CListRepr CListSpec Machine Thread Main Tests App Sim.
From S2P Require Import Sched SchedInv SchedFacts Drain ThreadRep ThreadLife ThreadSpec ThreadCreate.
From S2P Require Import MainSpec Kernel Frames Boot.

(** ** The allocator *)

Class Ample `{Platform} : Prop :=
  ample ev : size (list_to_set (live ev) : gset Z) ≤ 6 → calloc ev ≠ NULL.

(** ** How the program can stop *)

Inductive mishap `{Platform, Board} (N : nat) : error → Prop :=
(** A name among the first [N] that does not fit, with its NUL. *)
| long_name i :
    (0 ≤ i < Z.of_nat N)%Z → (nombre_room < Z.of_nat (String.length (thread_name i)) + 1)%Z →
    mishap N Overrun
(** After a history of its own answers, with at most [N + 2] blocks in use, [calloc] gives
    a block at 4 KB or less below a block [b] in use: a word of the frame falls into it. *)
| frame_in_block ev b a :
    honest ev = true → size (list_to_set (live ev) : gset Z) ≤ N + 2 → calloc ev ≠ NULL → b ∈ live ev →
    a ∈ frame_words (calloc ev) → (b ≤ a + 3 ∧ a < b + sizeof_thread)%Z →
    mishap N (Clobber a).

(** ** A kernel in good order with [n] more events to come *)

(** No thread wants more than 40 ticks, and no sleeper sleeps longer. *)
Definition max_ticks : Z := 40.
Record easy (A : sched) : Prop := {
  ea_dur : ∀ t, t ∈ a_all A → t ≠ a_idle A → t ≠ a_main A → (dur_of A t ≤ max_ticks)%Z;
  ea_wake : ∀ t, t ∈ a_wait A → (wake_of A t ≤ a_now A + max_ticks)%Z;
}.

Lemma easy_lighter A B : lighter A B → (a_now A ≤ a_now B)%Z → easy A → easy B.
Proof.
  intros [I M L D W] Hn [E1 E2]. split.
  - intros t Ht. rewrite I M. intros H1 H2. specialize (D t Ht).
    specialize (E1 t ltac:(by eapply elem_of_sublist) H1 H2). lia.
  - intros t [Ht ->]%W. specialize (E2 t Ht). lia.
Qed.

Lemma easy_work A : easy A → (work A ≤ Z.of_nat (length (a_all A)) * (max_ticks + 1))%Z.
Proof.
  intros [E _]. apply sum_bound. intros t Ht. rw /cost /max_ticks. case_match eqn:Hc; [lia|].
  apply orb_false_iff in Hc as [H1%bool_decide_eq_false H2%bool_decide_eq_false].
  specialize (E t Ht H1 H2). rw /max_ticks in E. lia.
Qed.

(** At most [k] threads are alive, the tests' counter is at most [c], and no counter
    overflows in [n] steps. *)
Record fit `{Platform} (s : kstate) (n : Z) (k : nat) (c : Z) (A : sched) : Prop := {
  fit_good : good s A;
  fit_now : (a_now A + n ≤ INT_MAX)%Z;
  fit_tid : (a_next_tid A + n ≤ INT_MAX)%Z;
  fit_count : (0 ≤ k_count s ≤ c ∧ k_count s + n ≤ INT_MAX)%Z;
  fit_honest : honest (k_events s) = true;
  fit_all : length (a_all A) ≤ k;
  fit_easy : easy A;
}.
Definition fits `{Platform} (n : Z) (k : nat) (c : Z) (s : kstate) : Prop := ∃ A, fit s n k c A.

Section Fit.
Context `{Platform, !Ample}.
Implicit Types (s : kstate) (A : sched).

Lemma fits_mono n n' k k' c c' s :
  fits n k c s → (n' ≤ n)%Z → k ≤ k' → (c ≤ c')%Z → fits n' k' c' s.
Proof. intros [A []] Hn Hk Hc. exists A. split; try done; lia. Qed.

(** A step that the simulation covers. *)
Lemma fits_step {B} (m : M kstate B) s A n k c n' k' A' (Q : B → kstate → Prop) :
  fit s n k c A → keeps tally m → (n' ≤ n)%Z →
  sched_ok A' → runs m s (λ _ s', krep s' A') →
  (a_now A' + n' ≤ a_now A + n)%Z → (a_next_tid A' + n' ≤ a_next_tid A + n)%Z →
  length (a_all A') ≤ k' → easy A' →
  (∀ b s', fit s' n' k' c A' → Q b s') → runs m s Q.
Proof.
  intros F Hk Hn O' Hm H1 H2 H3 H4 HQ. eapply runs_mono; [by apply (runs_keeps tally)|].
  intros b s' [R' [= Ec Eh]]. apply HQ. destruct F.
  split; [by split|lia|lia|by rw Ec; lia|by rw Eh|done|done].
Qed.

Lemma runs_fit_tick n k c s (Q : bool → kstate → Prop) :
  fits n k c s → (0 < n)%Z → (∀ b s', fits (n - 1) k c s' → Q b s') → runs timer_interrupt s Q.
Proof.
  intros [A F] Hn HQ. pose proof F as [[R O]]. assert (a_now A < INT_MAX)%Z as Hlt by lia.
  destruct (timer_fields A O Hlt) as (_ & _ & _ & En & _ & _ & _ & _ & Ea).
  eapply (fits_step _ _ _ _ _ _ (n - 1) k (a_timer_interrupt A));
    [done|auto with keeps|lia|by apply timer_interrupt_ok| |lia| |by rw Ea| |].
  - by eapply runs_timer_interrupt.
  - assert (a_next_tid (a_timer_interrupt A) = a_next_tid A) as ->; [|lia].
    rw /a_timer_interrupt /a_wake_up (stable_wake_loop a_next_tid) /a_tick. by case_match.
  - eapply easy_lighter; [by apply lighter_timer|lia|done].
  - intros b s' F'. apply HQ. by exists (a_timer_interrupt A).
Qed.

Lemma runs_fit_loop n k c s (Q : unit → kstate → Prop) :
  fits n k c s → (∀ s', fits n k c s' → Q tt s') → runs after_interrupt s Q.
Proof.
  intros [A F] HQ. pose proof F as [[R O]]. pose proof (lighter_after A O) as L.
  eapply (fits_step _ _ _ _ _ _ n k (a_after_interrupt A));
    [done|auto with keeps|lia|by apply after_interrupt_ok|..].
  - by eapply runs_after_interrupt.
  - by rw (stable_after_interrupt a_now).
  - by rw (stable_after_interrupt a_next_tid).
  - pose proof (sublist_length _ _ (li_all _ _ L)). lia.
  - eapply easy_lighter; [exact L| |done]. by rw (stable_after_interrupt a_now).
  - intros [] s' F'. apply HQ. by eexists.
Qed.

Lemma fit_live s A :
  good s A → size (list_to_set (live (k_events s)) : gset Z) ≤ length (a_all A).
Proof.
  intros [R O]. transitivity (size (list_to_set (a_all A) : gset Z)).
  - apply subseteq_size. intros t. rw !elem_of_list_to_set. intros Ht%(kr_noleak _ _ R).
    rw (kr_dom _ _ R) elem_of_dom in Ht. by apply O.
  - by rw (size_list_to_set (a_all A) (qo_all _ (so_queues _ O))).
Qed.

(** After a creation that finds memory, an ordinary thread runs. *)
Lemma create_not_idle t dur A :
  sched_ok A → a_thr A !! t = None → a_run (a_create t dur A) ≠ a_idle (a_create t dur A).
Proof.
  intros O Ht. rw /a_create (stable_block_if_idle a_idle) /a_block_if_idle.
  change (a_run (a_add t dur A)) with (a_run A). change (a_idle (a_add t dur A)) with (a_idle A).
  case_bool_decide as Hi; [|done]. rw /a_block.
  set (B := set_status _ _ _). destruct (schedule_fields B) as (_ & _ & _ & -> & _).
  change (a_next B) with (hd (a_idle A) (a_ready A ++ [t])).
  destruct (qo_idle _ (so_queues _ O)) as (H1 & H2 & _).
  destruct (a_ready A) as [|r l]; simpl.
  - intros ->. apply O in H1 as [i Hs]. congruence.
  - intros ->. apply H2. by left.
Qed.

(** A new thread of at most 40 ticks. *)
Lemma easy_create t dur A :
  sched_ok A → a_thr A !! t = None → (0 ≤ dur ≤ max_ticks)%Z → (a_next_tid A < INT_MAX)%Z →
  easy A → easy (a_create t dur A).
Proof.
  intros O Ht Hd Htid [E1 E2]. assert (sched_ok (a_add t dur A)) as O1.
  { apply add_ok; [done|done| |done]. rw /max_ticks /INT_MAX in Hd *. lia. }
  apply (easy_lighter (a_add t dur A)); [by apply lighter_block_if_idle| |].
  { by rw (stable_block_if_idle a_now). }
  assert (∀ u, dur_of (a_add t dur A) u = if decide (u = t) then dur else dur_of A u) as Edur.
  { intros u. rw /a_add /a_unblock dur_set_status /dur_of /=. case_decide as Hu.
    - subst u. by rw lookup_insert_eq.
    - by rw lookup_insert_ne. }
  assert (t ∉ a_wait A) as Hw.
  { intros Hin%(wait_in_all A O). apply (so_live _ O) in Hin as [i Hi]. congruence. }
  split.
  - intros u Hu H1 H2. rw Edur. case_decide; [lia|]. apply E1; [|done|done].
    simpl in Hu. rw elem_of_app list_elem_of_singleton in Hu. by destruct Hu.
  - intros u Hu. assert (u ≠ t) as Hne by (by intros ->).
    assert (wake_of (a_add t dur A) u = wake_of A u) as ->; [|by apply E2].
    rw /a_add /a_unblock wake_set_status /wake_of /= lookup_insert_ne //.
Qed.

(** A frame that falls into a thread falls into a block of [calloc]: the page of the
    initial thread is above the heap. *)
Lemma frame_mishap `{Board} N s A a :
  good s A → honest (k_events s) = true → length (a_all A) ≤ N + 2 →
  calloc (k_events s) ≠ NULL →
  frame_hit (dom (k_threads s)) (calloc (k_events s)) = Some a → mishap N (Clobber a).
Proof.
  intros G Hh' Hk Hc Hf. pose proof G as [R O]. pose proof (find_some _ _ Hf) as [Hin Hh].
  destruct (hits_true _ _ Hh) as (u & Hu & Ho). destruct (calloc_fresh _ Hc) as (_ & Hhi & _).
  destruct (kr_events _ _ R u Hu) as [->|Hl].
  - exfalso. pose proof (ck_page _ (so_clock _ O)). change PGSIZE with 4096%Z in *.
    unfold sizeof_thread in *. simpl in Hin. destruct Hin as [<-|[<-|[<-|[]]]]; lia.
  - eapply frame_in_block; [done| |done|done|by apply list_elem_of_In|done].
    pose proof (fit_live s A G). lia.
Qed.

Lemma tries_fit_create `{Board} N nm function aux dur n k c s (Q : Z → kstate → Prop) :
  fits n k c s → (0 < n)%Z → c_addr nm ≠ NULL → (0 ≤ dur ≤ max_ticks)%Z → k ≤ N + 2 →
  (∀ tid s', fits (n - 1) (S k) c s' →
     (k ≤ 6 → thread_running_var s' ≠ idle_thread s') → k_count s' = k_count s → Q tid s') →
  tries (mishap N) (thread_create nm function aux dur) s Q.
Proof.
  intros [A F] Hn Hnm Hd HN HQ. pose proof F as [G]. pose proof G as [R O].
  assert (0 ≤ dur ≤ INT_MAX)%Z as Hd' by (unfold max_ticks, INT_MAX in *; lia).
  destruct (failure s (Create nm function aux dur)) as [e|] eqn:Hf.
  { apply (tries_Err _ _ _ e); [by eapply create_fails|]. simpl in Hf.
    case_bool_decide as Hc; [done|]. rw !bool_decide_eq_false_2 // in Hf.
    - rw (kr_next_tid _ _ R). lia.
    - apply fmap_Some in Hf as (a & Ha & ->). eapply (frame_mishap N s A); [done|done|lia|done..]. }
  assert (enough s (Create nm function aux dur)) as Hal by by eapply failure_enough.
  set (b := calloc (k_events s)). set (A' := a_exec b (Create nm function aux dur) A).
  assert (a_now A' = a_now A ∧ (a_next_tid A' ≤ a_next_tid A + 1)%Z ∧ length (a_all A') ≤ S k)
    as (E1 & E2 & E3).
  { rw /A' /=. case_bool_decide; [split_and!; lia|].
    rw /a_create (stable_block_if_idle a_now) (stable_block_if_idle a_next_tid)
      block_if_idle_all /=. rw length_app /=. split_and!; lia. }
  apply runs_tries. eapply runs_mono; [apply (runs_keeps tally); [auto with keeps|]|].
  { eapply (runs_create_ok s A nm function aux dur (λ _ s', krep s' A')); [done..|].
    intros _ s' R'. exact R'. }
  intros tid s' [R' [= Ec Eh]]. apply HQ; [|intros Hk|done].
  - exists A'. split; [split; [done|by apply a_exec_ok]|lia|lia|by rw Ec; lia|by rw Eh|lia|].
    rw /A' /=. case_bool_decide as Hc; [done|].
    apply easy_create; [done|by apply (calloc_unused s A)|done|lia|done].
  - rw (kr_run _ _ R') (kr_idle _ _ R'). assert (b ≠ NULL) as Hc.
    { apply ample. pose proof (fit_live s A G). lia. }
    rw /A' /= bool_decide_eq_false_2 //. apply create_not_idle; [done|].
    by apply (calloc_unused s A).
Qed.

(** A sleep of at most 40 ticks. *)
Lemma easy_sleep m A :
  sched_ok A → a_run A ≠ a_idle A → (m ≤ max_ticks)%Z → (a_now A + m ≤ INT_MAX)%Z →
  easy A → easy (a_sleep m A).
Proof.
  intros O Hi Hm Hn E. rw /a_sleep. case_bool_decide as Hp; [|done]. rw /a_sleep_for /a_block.
  set (A1 := w_thr A _). set (A2 := w_wait A1 _). pose proof (so_clock _ O) as [].
  assert (switch_ok (set_status A2 (a_run A2) THREAD_BLOCKED)) as W
    by exact (leave_wait A O m Hi Hp Hn).
  destruct (schedule_fields (set_status A2 (a_run A2) THREAD_BLOCKED))
    as (_ & Fw & Fa & _ & Fi & Fm & _ & Fn & _).
  split; rewrite ?Fa ?Fw ?Fi ?Fm ?Fn.
  - intros t Ht H1 H2. rw schedule_dur // dur_set_status.
    assert (dur_of A2 t = dur_of A t) as ->; [|by apply E].
    rw /dur_of /A2 /A1 /= lookup_alter. case_decide; [subst|done]. by destruct (a_thr A !! _).
  - change (a_now (set_status A2 (a_run A2) THREAD_BLOCKED)) with (a_now A).
    intros t Ht. rw schedule_wake //.
    { apply (status_in_all _ W _ _ (qo_wait _ (sw_queues _ W) _ Ht)). by right. }
    rw wake_set_status /wake_of /A2 /A1 /= lookup_alter. case_decide as Et.
    + subst t. destruct (run_live A O) as [i ->]. simpl.
      rw uint64_id; [unfold INT_MAX in *; lia|]. lia.
    + simpl in Ht. rw elem_of_app list_elem_of_singleton in Ht. destruct Ht as [Ht|Ht]; [|done].
      by apply E.
Qed.

Lemma runs_fit_sleep m n k c s (Q : unit → kstate → Prop) :
  fits n k c s → thread_running_var s ≠ idle_thread s → (m ≤ n)%Z →
  (m ≤ max_ticks)%Z → (∀ s', fits n k c s' → Q tt s') → runs (thread_sleep m) s Q.
Proof.
  intros [A F] Hi Hm Hx HQ. pose proof F as [G]. pose proof G as [R O].
  assert (enough s (Sleep m)) as Hal by (intros _; split; [done|]; rw (kr_now _ _ R); lia).
  eapply (fits_step _ _ _ _ _ _ n k (a_sleep m A)); [done|auto with keeps|lia| | |..|].
  - by apply (a_exec_ok s A (Sleep m)).
  - by apply (exec_refines s A (Sleep m)).
  - by rw (stable_sleep a_now).
  - by rw (stable_sleep a_next_tid).
  - rw /a_sleep. case_bool_decide; [|done]. rw /a_sleep_for /a_block.
    set (B := set_status _ _ _). by destruct (schedule_fields B) as (_ & _ & -> & _).
  - rw (kr_run _ _ R) (kr_idle _ _ R) in Hi. apply easy_sleep; [done|done|done|lia|done].
  - intros [] s' F'. apply HQ. by eexists.
Qed.

(** Changing the console, the alarms or the mode. *)
Lemma fits_ext n k c s s' :
  fits n k c s → k_heap s' = k_heap s → k_threads s' = k_threads s →
  k_events s' = k_events s → globals s' = globals s → k_count s' = k_count s → fits n k c s'.
Proof.
  intros [A [[R O]]] H1 H2 H3 H4 H5. exists A.
  split; [split; [by eapply krep_ext|done]|..]; try done; [lia|by rw H3].
Qed.

Lemma runs_fit_emit o n k c s (Q : unit → kstate → Prop) :
  fits n k c s → (∀ s', fits n k c s' → Q tt s') → runs (emit o) s Q.
Proof. intros F HQ. apply runs_modify, HQ. by eapply fits_ext. Qed.
Lemma runs_fit_printf f l n k c s (Q : unit → kstate → Prop) :
  fits n k c s → (∀ s', fits n k c s' → Q tt s') → runs (printf f l) s Q.
Proof. apply runs_fit_emit. Qed.

Lemma runs_fit_quantum mode rr n k c s (Q : unit → kstate → Prop) :
  fits n k c s → (∀ s', fits n k c s' → Q tt s') → runs (schedule_set_quantum mode rr) s Q.
Proof.
  intros [A F] HQ. pose proof F as [G].
  assert (∀ T (f : sched → T), (∀ B v, f (w_mode B v) = f B) → (∀ B v, f (w_quantum B v) = f B) →
    f (a_set_quantum mode rr A) = f A) as Ef.
  { intros T f E1 E2. rw /a_set_quantum. case_match; [done|]. case_match; [by rw E2|done]. }
  eapply (fits_step _ _ _ _ _ _ n k (a_set_quantum mode rr A)); [done| |lia|..].
  - rw /schedule_set_quantum. solve_keeps.
  - by apply (a_exec_ok s A (SetQuantum mode rr)).
  - by apply (exec_refines s A (SetQuantum mode rr)).
  - by rw (Ef _ a_now).
  - by rw (Ef _ a_next_tid).
  - by rw (Ef _ a_all).
  - destruct (fit_easy _ _ _ _ _ F) as [E1 E2]. split.
    + rw (Ef _ a_all) // (Ef _ a_idle) // (Ef _ a_main) //. intros t. rw (Ef _ (λ A, dur_of A t)) //.
      apply E1.
    + rw (Ef _ a_wait) // (Ef _ a_now) //. intros t. rw (Ef _ (λ A, wake_of A t)) //. apply E2.
  - intros [] s' F'. apply HQ. by eexists.
Qed.

Lemma runs_fit_reset n k c s (Q : unit → kstate → Prop) :
  fits n k c s → (∀ s', fits n k 0 s' → Q tt s') → runs reset_count s Q.
Proof.
  intros [A [[R O]]] HQ. apply runs_modify, HQ.
  exists A. split; [split; [by eapply krep_ext|done]|..]; simpl; done || lia.
Qed.

Lemma runs_fit_count n k c s (Q : unit → kstate → Prop) :
  fits n k c s → (0 < n)%Z → (∀ s', fits (n - 1) k (c + 1) s' → Q tt s') → runs count_up s Q.
Proof.
  intros [A [[R O]]] Hn HQ. rw /count_up. step. step. step.
  apply runs_int_op; [unfold INT_MIN; lia|]. apply runs_modify, HQ.
  exists A. split; [split; [by eapply krep_ext|done]|..]; simpl; done || lia.
Qed.
End Fit.

(** ** The test programs *)

Section Tests.
Context `{Platform, Board, !Ample}.
Implicit Types (s : kstate) (A : sched).

(** Printing a queue that the simulation relation knows. *)
Lemma runs_print_queue l f xs s A (Q : unit → kstate → Prop) :
  krep s A → list_repr (k_heap s) l (f <$> xs) → l ≠ NULL →
  (∀ t, t ∈ xs → is_Some (a_thr A !! t)) → (∀ t, list_entry_elem (f t) = t) →
  (∀ s', krep s' A → Q tt s') → runs (print_thread_list l) s Q.
Proof.
  intros R Hl Hn Ht He HQ. rw /print_thread_list. step.
  step; [by rw bool_decide_eq_false_2|]. step. apply runs_modify. set (s1 := set_out s _).
  assert (krep s1 A) as R1 by (by eapply krep_ext). step. apply runs_on_heap.
  eapply runs_list_begin; [done|]. cbn beta. assert (set_heap s1 (k_heap s1) = s1) as -> by done.
  steps. eapply (runs_print_loop l f s1 A [] xs); [done|done| |done|done|].
  - pose proof (repr_fuel _ _ _ Hl) as Hf. rw length_fmap in Hf. change (k_heap s1) with (k_heap s).
    lia.
  - intros s' R'. eapply runs_printf; eauto.
Qed.

Lemma runs_fit_print_lists n k c s (Q : unit → kstate → Prop) :
  fits n k c s →
  (∀ s', fits n k c s' → thread_running_var s' = thread_running_var s →
     idle_thread s' = idle_thread s → Q tt s') →
  runs print_lists s Q.
Proof.
  intros [A F] HQ. pose proof F as [[R O]].
  eapply (fits_step _ _ _ _ _ _ n k A); [done|auto with keeps|lia|done| |lia|lia|done|done|].
  2: { intros [] s' F'. pose proof F' as [[R' _]]. apply HQ; [by exists A|..].
       - by rw (kr_run _ _ R) (kr_run _ _ R').
       - by rw (kr_idle _ _ R) (kr_idle _ _ R'). }
  clear F HQ. rw /print_lists /print_ready_list /print_blocked_list.
  do 2 (step; eapply runs_printf; [done|]; clear dependent s; intros s R).
  step. eapply (runs_print_queue _ elem_ptr (a_ready A)); [done|apply R|done| |
    apply list_entry_elem_ptr|].
  { intros t Ht. eapply kr_live_Some; eauto. }
  clear dependent s. intros s R. step. eapply runs_printf; [done|]. clear dependent s. intros s R.
  step. eapply (runs_print_queue _ elem_ptr (a_wait A)); [done|apply R|done| |
    apply list_entry_elem_ptr|].
  { intros t Ht. eapply kr_live_Some; eauto. }
  clear dependent s. intros s R. by eapply runs_printf.
Qed.

Lemma runs_fit_ticks j n k c s (Q : unit → kstate → Prop) :
  fits (n + Z.of_nat j) k c s → (0 ≤ n)%Z → (∀ s', fits n k c s' → Q tt s') →
  runs (timer_interrupts j) s Q.
Proof.
  revert s. induction j as [|j IH]; intros s F Hn HQ; cbn [timer_interrupts]; step.
  { apply HQ. by rw Z.add_0_r in F. }
  eapply runs_fit_tick; [done|lia|]. intros b s' F'. apply IH; [|done|done].
  eapply fits_mono; [done|lia..].
Qed.

Lemma tries_fit_named N nm dur n k c s (Q : unit → kstate → Prop) :
  fits n k c s → (0 < n)%Z → (0 ≤ dur ≤ max_ticks)%Z → k ≤ N + 2 →
  (∀ s', fits (n - 1) (S k) c s' → (k ≤ 6 → thread_running_var s' ≠ idle_thread s') → Q tt s') →
  tries (mishap N) (create_named nm dur) s Q.
Proof.
  intros F Hn Hd HN HQ. rw /create_named. step.
  eapply tries_fit_create; [done|done|exact nombre_nonnull|done|done|]. intros. step. auto.
Qed.

Lemma tries_sprintf N i s (Q : string → kstate → Prop) :
  (0 ≤ i < Z.of_nat N)%Z → Q (thread_name i) s → tries (mishap N) (sprintf_nombre i) s Q.
Proof.
  intros Hi HQ. rw /sprintf_nombre. case_bool_decide as Hl; [done|].
  apply (tries_Err _ _ _ Overrun); [done|]. apply (long_name _ i); [done|lia].
Qed.

(** The loops that create threads; [body] is what follows each creation. *)
Lemma tries_fit_create_loop N m i dur body n k c s (Q : unit → kstate → Prop) :
  fits (n + 2 * Z.of_nat m) k c s → (0 ≤ n)%Z → k + m ≤ 7 → 5 ≤ N →
  (0 ≤ i ∧ i + Z.of_nat m ≤ Z.of_nat N)%Z →
  (∀ j, (i ≤ j < i + Z.of_nat m)%Z → (0 ≤ dur j ≤ max_ticks)%Z) →
  (∀ j s' n' k' c', (i ≤ j < i + Z.of_nat m)%Z → (n ≤ n')%Z → fits n' k' c' s' →
     thread_running_var s' ≠ idle_thread s' → runs (body j) s' (λ _ s'', fits n' k' c' s'')) →
  (∀ s', fits n (k + m) (c + Z.of_nat m) s' → Q tt s') →
  tries (mishap N) (create_loop m i dur body) s Q.
Proof.
  revert i k c s. induction m as [|m IH]; intros i k c s F Hn Hk HN Hi Hd Hb HQ;
    cbn [create_loop].
  { step. apply HQ. by rewrite !Z.add_0_r in F |- *; rw Nat.add_0_r. }
  step. apply tries_sprintf; [lia|]. step. apply runs_tries.
  eapply runs_fit_count; [done|lia|]. intros s0 F0. step.
  eapply tries_fit_named; [done|lia|apply Hd; lia|lia|]. intros s1 F1 Hrun.
  step. apply runs_tries.
  eapply runs_mono; [apply (Hb i); [lia| |done|apply Hrun; lia]; lia|].
  intros [] s2 F2. apply (IH _ (S k) (c + 1)%Z); [|done|lia|done|lia|..].
  - eapply fits_mono; [done|lia..].
  - intros j Hj. apply Hd. lia.
  - intros j s' n' k' c' Hj. apply Hb. lia.
  - intros s' F'. apply HQ. eapply fits_mono; [done|lia..].
Qed.

(** What every test but the first begins with: the LED, a second of waiting. *)
Lemma tries_fit_prologue E (rest : M kstate unit) n k c s (Q : unit → kstate → Prop) :
  fits (n + Z.of_nat (ticks_in 1000)) k c s → (0 ≤ n)%Z →
  (∀ s', fits n k c s' → tries E rest s' Q) →
  tries E (gpio_put 25 1;; sleep_ms 1000;; rest) s Q.
Proof.
  intros F Hn Hr. step. apply runs_tries. eapply runs_fit_emit; [done|]. clear dependent s.
  intros s F. step. apply runs_tries. by eapply runs_fit_ticks.
Qed.

(** [create_loop] and what follows it. *)
Lemma tries_fit_threads N m dur body (rest : M kstate unit) n k c s (Q : unit → kstate → Prop) :
  fits (n + 2 * Z.of_nat m) k c s → (0 ≤ n)%Z → k + m ≤ 7 → 5 ≤ N → m ≤ N →
  (∀ j, (0 ≤ j < Z.of_nat m)%Z → (0 ≤ dur j ≤ max_ticks)%Z) →
  (∀ j s' n' k' c', (0 ≤ j < Z.of_nat m)%Z → (n ≤ n')%Z → fits n' k' c' s' →
     thread_running_var s' ≠ idle_thread s' → runs (body j) s' (λ _ s'', fits n' k' c' s'')) →
  (∀ s', fits n (k + m) (Z.of_nat m) s' → tries (mishap N) rest s' Q) →
  tries (mishap N) (reset_count;; create_loop m 0 dur body;; rest) s Q.
Proof.
  intros F Hn Hk HN Hm Hd Hb Hr. step. apply runs_tries. eapply runs_fit_reset; [done|].
  clear dependent s. intros s F. step. eapply tries_fit_create_loop; try done. lia.
Qed.

Lemma runs_nothing j n k c s : fits n k c s → runs (nothing j) s (λ _ s', fits n k c s').
Proof. intros F. by apply runs_ret. Qed.

(** Random durations are between 5 and 29 ticks, whatever [rand] returns. *)
Theorem random_duration_bounds i :
  (5 ≤ random_duration i ≤ 29)%Z.
Proof.
  rw /random_duration. pose proof (rand_nonneg (Z.to_nat i)) as [Hr _].
  pose proof (Z.rem_bound_pos (rand (Z.to_nat i)) 25 Hr eq_refl). lia.
Qed.

Lemma random_duration_ok j : (0 ≤ random_duration j ≤ max_ticks)%Z.
Proof. pose proof (random_duration_bounds j). unfold max_ticks. lia. Qed.

(** What a test may use: the second of waiting, and 40 ticks or threads. *)
Definition test_budget : Z := Z.of_nat (ticks_in 1000) + 40.

(** One statement of a test after the other. *)
Ltac fit_mono := eapply fits_mono; [eassumption|lia|first [reflexivity|lia]|lia].
Ltac fit_step n :=
  match goal with
  | |- tries _ (gpio_put 25 1;; sleep_ms 1000;; _) _ _ =>
      eapply (tries_fit_prologue _ _ (n + 40) _ 0); [fit_mono|lia|intros ? ?]
  | |- tries _ (schedule_set_quantum _ _;; _) _ _ =>
      step; apply runs_tries; eapply runs_fit_quantum; [eassumption|intros ? ?]
  | |- tries _ (reset_count;; create_loop _ 0 _ _;; _) _ _ =>
      eapply (tries_fit_threads _ _ _ _ _ (n + 30) _ 0); [fit_mono
        |lia|lia|lia|lia|intros; first [apply random_duration_ok|unfold max_ticks in *; lia]
        |intros; first [by apply runs_nothing|eapply runs_fit_sleep; [eassumption..|lia|unfold max_ticks; lia|done]]
        |intros ? ?]
  | |- tries _ (reset_count;; _) _ _ =>
      step; apply runs_tries; eapply runs_fit_reset; [eassumption|intros ? ?]
  | |- tries _ (create_named _ _;; _) _ _ =>
      step; eapply tries_fit_named; [eassumption|lia|unfold max_ticks; lia|lia|intros ? ? ?]
  | |- tries _ (add_alarm_in_ms _ _;; _) _ _ =>
      step; apply runs_tries, runs_modify;
      match goal with F : fits ?n ?k ?c ?s |- tries _ _ (set_alarms ?s ?v) _ =>
        assert (fits n k c (set_alarms s v)) by (by eapply fits_ext); clear F end
  | F : ?k ≤ 6 → thread_running_var ?s ≠ _ |- tries _ (print_lists;; _) ?s _ =>
      step; apply runs_tries; eapply runs_fit_print_lists; [eassumption|intros ? ? Er Ei;
        rewrite -Er -Ei in F]
  | |- tries _ (thread_sleep _;; _) _ _ =>
      step; apply runs_tries; eapply runs_fit_sleep; [eassumption|match goal with
        F : _ ≤ 6 → _ |- _ => apply F; lia end|lia|unfold max_ticks; lia|intros ? ?]
  | |- tries _ print_lists _ _ =>
      apply runs_tries; eapply runs_fit_print_lists; [eassumption|intros; fit_mono]
  end.

Lemma runs_fit_msg test_name fmt l n k c s (Q : unit → kstate → Prop) :
  fits n k c s → (∀ s', fits n k c s' → Q tt s') → runs (msg test_name fmt l) s Q.
Proof.
  intros F HQ. rw /msg. do 2 (step; eapply runs_fit_printf; [done|]; clear dependent s; intros s F).
  by eapply runs_fit_printf.
Qed.

Lemma tests_fit N n s nm f :
  fits (n + test_budget) 2 0 s → (0 ≤ n)%Z → 5 ≤ N → (nm, f) ∈ tests →
  tries (mishap N) (f nm) s (λ _ s', fits n 7 5 s').
Proof.
  intros F Hn HN Hf. unfold test_budget in F. rw /tests !elem_of_cons elem_of_nil in Hf.
  destruct Hf as [[= -> ->]|Hf].
  { apply runs_tries. eapply runs_fit_msg; [done|]. intros s' F'. fit_mono. }
  repeat (destruct Hf as [[= -> ->]|Hf]; [unfold test_fifo_simple, test_round_robin_simple,
    test_round_robin_1tick, test_fifo_random_duration, test_round_robin_random_duration,
    test_fifo_delayed_create, test_round_robin_delayed_create, test_sleep_single,
    test_sleep_multiple_fifo, test_sleep_multiple_rr, test_sleep_negative,
    test_fifo_force_exit, test_round_robin_force_exit, test_manual_set_round_robin;
    by repeat fit_step n|]). done.
Qed.
End Tests.

(** ** The endless loop *)

Section Events.
Context `{Platform, Board, !Ample}.
Implicit Types (s : kstate) (A : sched).

Lemma fits_force n k c s :
  fits n k c s → fits n k c (Machine.set_thread_exit_on_return s 1).
Proof.
  intros [A [[R O]]]. exists (w_force A 1). split; try done; [|by destruct fit_easy0; split].
  split; [|by apply force_ok]. eapply krep_globals; [exact R|done..|globals_eq R].
Qed.

(** An alarm fires: it uses one thread and one value of the counter. *)
Lemma tries_fit_fire N a n k c s (Q : Z → kstate → Prop) :
  fits n k c s → (1 < n)%Z → k ≤ N + 2 → (c < Z.of_nat N)%Z →
  (∀ z s', fits (n - 2) (S k) (c + 1) s' → Q z s') →
  tries (mishap N) (fire a) s Q.
Proof.
  intros F Hn HN Hc HQ. destruct a; cbn [fire].
  - rw /thread_create_alarm_callback. step. step. step.
    assert (0 ≤ k_count s < Z.of_nat N)%Z as Hi by (destruct F as [A []]; lia).
    apply runs_tries. eapply runs_fit_printf; [done|]. intros s1 F1.
    step. apply tries_sprintf; [done|]. step.
    eapply tries_fit_named; [done|lia|unfold max_ticks; lia|done|]. intros s2 F2 _.
    step. apply runs_tries. eapply runs_fit_print_lists; [done|]. intros s3 F3 _ _.
    step. apply runs_tries. eapply runs_fit_count; [done|lia|]. intros s4 F4.
    step. apply runs_tries. eapply runs_fit_printf; [done|]. intros s5 F5. step. apply HQ.
    eapply fits_mono; [done|lia..].
  - apply runs_tries. rw /force_thread_exit_callback. steps. eapply runs_fit_printf; [done|].
    intros s1 F1. step. apply runs_modify. apply fits_force in F1.
    step. eapply runs_fit_printf; [done|]. intros s2 F2. step. apply HQ.
    eapply fits_mono; [done|lia..].
Qed.

Lemma tries_main_loop N evs n k c s :
  fits (n + 2 * Z.of_nat (length evs)) k c s → (0 ≤ n)%Z → k + length evs ≤ N + 2 →
  (c + Z.of_nat (length evs) ≤ Z.of_nat N)%Z →
  tries (mishap N) (main_loop evs) s
    (λ _ s', fits n (k + length evs) (c + Z.of_nat (length evs)) s').
Proof.
  revert k c s. induction evs as [|e evs IH]; intros k c s F Hn Hk Hc; cbn [main_loop length] in *.
  { step. by rewrite !Z.add_0_r in F |- *; rw Nat.add_0_r. }
  assert (∀ k' c' s', fits (n + 2 * Z.of_nat (length evs)) k' c' s' → k' ≤ S k → (c' ≤ c + 1)%Z →
    tries (mishap N) (main_loop evs) s'
      (λ _ s', fits n (k + S (length evs)) (c + Z.of_nat (S (length evs))) s')) as Hgo.
  { intros k' c' s' F' Hk' Hc'. eapply tries_mono; [apply (IH k' c'); [done|done|lia|lia]|].
    intros [] s2 F2. eapply fits_mono; [done|lia..]. }
  destruct e; step.
  - apply runs_tries. eapply runs_fit_loop; [done|]. intros s' F'. apply (Hgo k c); [|lia..].
    eapply fits_mono; [done|lia..].
  - apply runs_tries. eapply runs_fit_tick; [done|lia|]. intros b s' F'.
    apply (Hgo k c); [|lia..]. eapply fits_mono; [done|lia..].
  - eapply tries_fit_fire; [done|lia|lia|lia|]. intros z s' F'. apply (Hgo (S k) (c + 1)%Z); [|lia..].
    eapply fits_mono; [done|lia..].
Qed.
End Events.

(** ** Before start-up: the prompts *)

(** The memory in which [thread_init] will be called. *)
Definition waiting_to_boot (p mask : Z) (s : kstate) : Prop :=
  (∃ mode quantum, preboot s p mode quantum mask) ∧ k_count s = 0%Z.

Definition short (w : string) : Prop := String.length w < sizeof_userInput.

Section Prompts.
Context `{Platform, Board} (p mask : Z).
Implicit Types (s : kstate).
#[local] Abbreviation boots := (waiting_to_boot p mask).

Lemma boots_ext s s' :
  boots s → k_heap s' = k_heap s → k_threads s' = k_threads s → k_events s' = k_events s →
  k_regs s' = k_regs s → globals s' = globals s → k_count s' = k_count s → boots s'.
Proof.
  intros [(mode & quantum & []) Hc] E1 E2 E3 E4 E5 E6. split; [|congruence].
  exists mode, quantum. split; congruence || (rw ?E2 ?E4 //).
Qed.

Lemma runs_boots_emit o s (Q : unit → kstate → Prop) :
  boots s → (∀ s', boots s' → Q tt s') → runs (emit o) s Q.
Proof. intros F HQ. apply runs_modify, HQ. by eapply boots_ext. Qed.

Lemma runs_boots_quantum mode rr s (Q : unit → kstate → Prop) :
  boots s → (∀ s', boots s' → Q tt s') → runs (schedule_set_quantum mode rr) s Q.
Proof.
  intros F HQ. assert (∀ s v, boots s → boots (set_round_robin_mode s v)) as Hm.
  { intros s1 v [(m & q & []) Hc]. split; [|done]. exists v, q. split; try done.
    unfold globals in *. simpl in *. congruence. }
  assert (∀ s v, boots s → boots (set_round_robin_ticks s v)) as Hq.
  { intros s1 v [(m & q & []) Hc]. split; [|done]. exists m, v. split; try done.
    unfold globals in *. simpl in *. congruence. }
  rw /schedule_set_quantum. repeat case_match; steps; auto.
Qed.

Lemma runs_scanf input s (Q : option (Z * list string) → kstate → Prop) :
  Forall short input →
  (∀ w input', input = w :: input' → Forall short input' → Q (Some (atoi w, input')) s) →
  (input = [] → Q None s) → runs (scanf_number input) s Q.
Proof.
  intros Hi HS HN. destruct input as [|w input]; cbn [scanf_number]; [step; auto|].
  apply Forall_cons in Hi as [Hw Hi]. rw bool_decide_eq_true_2 //. step. auto.
Qed.

(** The loop of the prompt; with a valid number it does not ask. *)
Lemma runs_choose t input s (Q : option (Z * list string) → kstate → Prop) :
  boots s → Forall short input →
  (∀ s' k input', boots s' → (1 ≤ k ≤ 15)%Z → Forall short input' →
     ((1 ≤ t ≤ 15)%Z → k = t ∧ input' = input) → Q (Some (k, input')) s') →
  (∀ s', ¬ (1 ≤ t ≤ 15)%Z → Q None s') →
  runs (choose_loop t input) s Q.
Proof.
  revert t s Q. induction input as [|w input IH]; intros t s Q F Hi HS HN; cbn [choose_loop];
    change getNumberOfTests with 15%Z; case_match eqn:E;
    rewrite ?orb_true_iff ?orb_false_iff ?bool_decide_eq_true ?bool_decide_eq_false in E.
  - step. eapply runs_boots_emit; [done|]. intros s' _. step. apply HN. lia.
  - step. apply HS; [done|lia|done|done].
  - step. eapply runs_boots_emit; [done|]. intros s' F'. apply Forall_cons in Hi as [Hw Hi].
    rw bool_decide_eq_true_2 //. apply IH; [done|done|..].
    + intros s2 k input' H1 H2 H3 _. apply HS; [done|done|done|lia].
    + intros s2 _. apply HN. lia.
  - step. apply HS; [done|lia|done|done].
Qed.

Lemma runs_ask input s (Q : option (list string) → kstate → Prop) :
  boots s → Forall short input →
  (∀ s' input', boots s' → Q (Some input') s') → (∀ s', input = [] → Q None s') →
  runs (ask_quantum 14 input) s Q.
Proof.
  intros F Hi HS HN. rw /ask_quantum. step. eapply runs_boots_emit; [done|].
  clear dependent s. intros s F. step. apply runs_scanf; [done| |by intros ->; step; auto].
  intros w input' -> Hi'. step.
  assert (quantum_loop 14 (atoi w) input' = mret (Some (atoi w, input'))) as ->
    by (by destruct input').
  steps. eapply runs_boots_emit; [done|]. clear dependent s. intros s F.
  step. eapply runs_boots_quantum; [done|]. intros s' F'. step. auto.
Qed.

Lemma runs_boots_names table i s (Q : unit → kstate → Prop) :
  boots s → (∀ s', boots s' → Q tt s') → runs (print_test_names_loop table i) s Q.
Proof.
  revert i s. induction table as [|[nm f] table IH]; intros i s F HQ; cbn [print_test_names_loop];
    step; [auto|]. eapply runs_boots_emit; [done|]. auto.
Qed.

(** ** Start-up *)

Lemma count_boot : keeps tally boot.
Proof.
  rw /boot /thread_init /running_thread_init /init_thread /allocate_tid /memset_thread
    /thread_start /print_all_list /add_repeating_timer_ms. solve_keeps.
  all: apply count_print_loop.
Qed.

Lemma runs_boots_boot n s (Q : unit → kstate → Prop) :
  boots s → calloc [] ≠ NULL → (n + 3 ≤ INT_MAX)%Z →
  (∀ s', fits n 2 0 s' → Q tt s') → runs boot s Q.
Proof.
  intros [(mode & quantum & Hpb) Hc] Hn Hm HQ. set (B := booted (calloc []) p mode quantum mask).
  eapply runs_mono; [apply (runs_keeps tally); [apply count_boot|]|].
  { by eapply (runs_boot p mode quantum mask s (λ _ s', krep s' B)). }
  intros [] s' [R [= Ec Eh]]. apply HQ. exists B. rw Hc in Ec. rw (pb_events _ _ _ _ _ Hpb) in Eh.
  split; simpl; [|lia|lia|lia|done|lia|].
  2: { split; simpl; [|by intros t []%elem_of_nil]. intros t Ht H1 H2.
       rw !elem_of_cons elem_of_nil in Ht. tauto. }
  split; [done|]. apply booted_ok; [by eapply pb_lo|by eapply pb_hi|].
  destruct (calloc_fresh [] Hn) as (_ & H2 & _). pose proof (pb_lo _ _ _ _ _ Hpb) as Hlo.
  change PGSIZE with 4096%Z in Hlo. unfold sizeof_thread in H2. lia.
Qed.

Lemma run_test_eq i nm f :
  tests !! i = Some (nm, f) → run_test nm = (msg nm "INICIANDO TEST %s" [PStr nm];; f nm).
Proof.
  intros Hf. rw /run_test. do 15 (destruct i as [|i]; [injection Hf as <- <-; reflexivity|]). done.
Qed.

Lemma boot_state_boots sp0 page :
  pg_round_down sp0 = p → (heap_end + PGSIZE ≤ p)%Z → (p + PGSIZE ≤ 2 ^ 32)%Z →
  boots (boot_state sp0 mask page).
Proof.
  intros <- H1 H2. split; [|done]. exists 0%Z, 5%Z. split; try done. by exists page.
Qed.
End Prompts.

(** ** An allocator that leaves room

    Blocks start on pages of their own, two pages apart; the first page that meets no
    live block is taken.  It shows that the law of [Ample] can hold, and that there are
    allocators on which no frame falls into another block. *)

Definition page_addr (i : nat) : Z := (heap_start + 8192 * Z.of_nat i)%Z.
Definition page_clear (a b : Z) : Prop := (b + sizeof_thread ≤ a ∨ a + PGSIZE ≤ b)%Z.
#[global] Instance page_clear_dec a b : Decision (page_clear a b).
Proof. rw /page_clear. apply _. Defined.

Definition free_pages (bs : list Z) : list Z :=
  filter (λ a, Forall (page_clear a) bs) (page_addr <$> seq 0 24).
Definition paged_calloc (ev : list heap_event) : Z :=
  hd NULL (free_pages (elements (list_to_set (live ev) : gset Z))).

(** A block is in the way of at most one page. *)
Lemma one_page_lost b (l : list Z) :
  NoDup l → (∀ x y, x ∈ l → y ∈ l → x ≠ y → 8192 ≤ Z.abs (x - y))%Z →
  length l ≤ S (length (filter (λ a, page_clear a b) l)).
Proof.
  induction l as [|x l IH]; intros Hnd Hs; [simpl; lia|]. apply NoDup_cons in Hnd as [Hx Hnd].
  destruct (decide (page_clear x b)) as [Hc|Hc].
  - rw filter_cons_True //=. apply le_n_S, IH; [done|]. intros y z Hy Hz. apply Hs; by right.
  - rw filter_cons_False // filter_all; [|done]. intros y Hy.
    pose proof (Hs x y ltac:(by left) ltac:(by right) ltac:(by intros ->)) as Hxy.
    unfold page_clear, sizeof_thread in *. change PGSIZE with 4096%Z in *. lia.
Qed.

Lemma free_pages_length bs : 24 ≤ length (free_pages bs) + length bs.
Proof.
  induction bs as [|b bs IH].
  { rw /free_pages filter_all; [|done]. intros x _. constructor. }
  assert (free_pages (b :: bs) = filter (λ a, page_clear a b) (free_pages bs)) as ->.
  { rw /free_pages list_filter_filter. apply filter_ext_in. intros x _. by rw Forall_cons. }
  pose proof (one_page_lost b (free_pages bs)) as Hl. simpl.
  assert (length (free_pages bs) ≤ S (length (filter (λ a, page_clear a b) (free_pages bs))));
    [|lia]. apply Hl.
  - apply NoDup_filter. by apply (bool_decide_unpack _); vm_compute.
  - intros x y [_ Hx]%list_elem_of_filter [_ Hy]%list_elem_of_filter.
    apply list_elem_of_fmap in Hx as (i & -> & _), Hy as (j & -> & _).
    unfold page_addr. destruct (decide (i = j)) as [->|]; [done|lia].
Qed.

Lemma paged_spec ev :
  paged_calloc ev ≠ NULL →
  ∃ i, i < 24 ∧ paged_calloc ev = page_addr i ∧
    ∀ b, b ∈ live ev → page_clear (paged_calloc ev) b.
Proof.
  rw /paged_calloc. destruct (free_pages _) as [|a l] eqn:E; [done|]. intros _. simpl.
  assert (a ∈ free_pages (elements (list_to_set (live ev) : gset Z))) as Ha
    by (rw E; by left).
  apply list_elem_of_filter in Ha as [Hf (i & -> & Hi%elem_of_seq)%list_elem_of_fmap].
  exists i. split_and!; [lia|done|]. intros b Hb. rw Forall_forall in Hf. apply Hf.
  by rw elem_of_elements elem_of_list_to_set.
Qed.

Definition pico_paged : Platform.
Proof.
  refine {| calloc := paged_calloc;
            save_and_disable_interrupts p := (p, 1%Z);
            restore_interrupts old _ := old;
            interrupts_enabled p := bool_decide (p = 0%Z) |}; try done.
  intros ev (i & Hi & E & Hb)%paged_spec. split_and!.
  - rw E /page_addr /heap_start. lia.
  - rw E /page_addr /heap_start /heap_end /sizeof_thread. lia.
  - intros b Hin. specialize (Hb b Hin). rw /blocks_apart. unfold page_clear, sizeof_thread in *.
    change PGSIZE with 4096%Z in Hb. lia.
Defined.

Lemma pico_paged_ample : @Ample pico_paged.
Proof.
  intros ev Hs. simpl. set (L := list_to_set (live ev) : gset Z) in *.
  pose proof (free_pages_length (elements L)) as Hl.
  change (length (elements L)) with (size L) in Hl. rw /paged_calloc -/L.
  assert (∀ a, a ∈ free_pages (elements L) → a ≠ NULL) as Hn.
  { intros a [_ (i & -> & _)%list_elem_of_fmap]%list_elem_of_filter.
    rw /page_addr /heap_start /NULL. lia. }
  destruct (free_pages (elements L)) as [|a l]; [simpl in Hl; lia|]. apply Hn. by left.
Qed.

(** On it, with names of one digit in slots of eight bytes, nothing goes wrong. *)
Lemma paged_no_mishap N e : N ≤ 10 → ¬ @mishap pico_paged pico_board N e.
Proof.
  intros HN [i Hi Hl|ev b a _ _ Hc Hb Ha Ho].
  - assert (String.length (thread_name i) = 7) as E.
    { assert (i ∈ seqZ 0 10) as Hin by (apply elem_of_seqZ; lia). clear - Hin.
      revert i Hin. apply Forall_forall. by apply (bool_decide_unpack _); vm_compute. }
    rewrite E in Hl. simpl in Hl. lia.
  - destruct (paged_spec ev Hc) as (i & _ & _ & Hp). specialize (Hp b Hb). simpl in Ha.
    unfold page_clear, sizeof_thread, frame_words in *. change PGSIZE with 4096%Z in *.
    rewrite !elem_of_cons elem_of_nil in Ha. lia.
Qed.
