(* ===== verification/AppProps.v ===== *)
(** * Properties of the test programs and of main

    The user's choice, the test table, how the whole program can stop and that every test
    completes otherwise. *)

From stdpp Require Import pretty.
From S2P Require Import Prelude CList CListRepr CListSpec Machine Thread Main Tests App Sim.
From S2P Require Import Sched SchedInv SchedFacts Drain ThreadRep ThreadLife ThreadSpec ThreadCreate.
From S2P Require Import MainSpec Kernel Boot Reach Demo AppSafe.

(** ** The interrupt-driven loop on concrete runs *)

(** The timer fires, then a round of the loop, [n] times. *)
Definition alternate (n : nat) : list event :=
  Nat.iter n (λ evs, TimerFires :: Round :: evs) [].

(** What is left at the end of a run of [main]. *)
Definition outcome (r : result (option unit * kstate)) : option (Z * list Z * list Z) :=
  match r with
  | Ok (Some _, s) => Some (thread_running_var s, ready_threads s, live (k_events s))
  | _ => None
  end.

Section AppProps.
Context `{Platform, Board}.

(** ** Choosing a test *)

Lemma choose_loop_range t input s k input' s' :
  choose_loop t input s = Ok (Some (k, input'), s') → (1 ≤ k ≤ getNumberOfTests)%Z.
Proof.
  revert t s. induction input as [|w input IH]; intros t s; simpl; case_match eqn:E;
    rewrite ?orb_true_iff ?orb_false_iff ?bool_decide_eq_true ?bool_decide_eq_false in E.
  - by rw /printf /emit /modify /mbind /M_bind.
  - intros [= <- _ _]. lia.
  - rw /printf /emit /modify {1}/mbind /M_bind. case_match; [|done]. by eapply IH.
  - intros [= <- _ _]. lia.
Qed.

(** Whatever the user types, the test that [main] goes on with is in the table;
    words that are not numbers or out of range are asked for again. *)
Theorem chosen_test_valid t input s k input' s' :
  choose_loop t input s = Ok (Some (k, input'), s') →
  (1 ≤ k ≤ 15)%Z ∧ ∃ nm f, tests !! Z.to_nat (k - 1) = Some (nm, f) ∧
    getTestName (k - 1) s' = Ok (nm, s') ∧
    run_test nm s' = (msg nm "INICIANDO TEST %s" [PStr nm];; f nm) s'.
Proof.
  intros Hc%choose_loop_range. change getNumberOfTests with 15%Z in Hc. split; [done|].
  assert (Z.to_nat (k - 1) < length tests) as [[nm f] Hf]%lookup_lt_is_Some_2
    by (change (length tests) with 15; lia).
  exists nm, f. split; [done|]. split.
  - rw /getTestName bool_decide_eq_true_2; [lia|]. by rw Hf.
  - by rw (run_test_eq _ _ _ Hf).
Qed.

(** C34.  The round-robin prompt of test 15 accepts any number that a word of at most four
    characters gives: the loop that should ask again tests the wrong variable.  The
    number, positive or not, is announced on the console as configured, right after the
    prompt and without another question; if it is not positive, the mode and the quantum
    stay what they were (FIFO after start-up). *)
Theorem quantum_prompt_accepts_all w input s :
  String.length w < sizeof_userInput →
  ∃ s', ask_quantum 14 (w :: input) s = Ok (Some input, s') ∧
    k_out s' =
      Printf "--------------------Configurando round robin para %d ciclos.\n--------------------\n"
        [PInt (atoi w)] ::
      Printf "Ingrese ciclos para round robin (>0): " [] :: k_out s ∧
    if bool_decide (0 < atoi w)%Z
    then round_robin_mode s' = 1%Z ∧ round_robin_ticks s' = uint32 (atoi w)
    else round_robin_mode s' = round_robin_mode s ∧ round_robin_ticks s' = round_robin_ticks s.
Proof.
  intros Hw. rw /ask_quantum. set (out := _ :: _ :: k_out s).
  assert (quantum_loop 14 (atoi w) input = mret (Some (atoi w, input))) as El
    by (by destruct input).
  eassert (runs _ s (λ r s', r = Some input ∧ k_out s' = out ∧
    if bool_decide (0 < atoi w)%Z
    then round_robin_mode s' = 1%Z ∧ round_robin_ticks s' = uint32 (atoi w)
    else round_robin_mode s' = round_robin_mode s ∧ round_robin_ticks s' = round_robin_ticks s))
    as (r & s' & E & -> & Hq)%runs_inv; [|eauto].
  step. rw /printf /emit. step. step. rw /scanf_number bool_decide_eq_true_2 //.
  step. step. rw El. steps. rw /schedule_set_quantum (bool_decide_eq_false_2 (1 = 0)%Z) //.
  rw (bool_decide_eq_true_2 (1 = 1)%Z) //. case_bool_decide as Hp; simpl; by steps.
Qed.
End AppProps.

(** ** The whole program *)

Section Whole.
Context `{Platform, Board, !Ample}.

(** [main], when [main_loop evs] leads from the state after the test to [Post]. *)
Section Run.
Context (evs : list event) (n : Z) (Post : kstate → Prop).
Context (Hpos : (0 ≤ n)%Z) (Hmax : (Z.of_nat (ticks_in 1000) + n + 43 ≤ INT_MAX)%Z).
Context (N : nat) (HN : 5 ≤ N).
Context (Hloop : ∀ s, fits n 7 5 s → tries (mishap N) (main_loop evs) s (λ _ s', Post s')).


End Run.




End Whole.

Lemma pretty_go_length x str : String.length str ≤ String.length (pretty_N_go x str).
Proof.
  revert str. induction (N.lt_wf_0 x) as [x _ IH]. intros str.
  destruct (decide (x = 0%N)) as [->|Hx]; [by rw pretty_N_go_0|].
  rw pretty_N_go_step; [lia|].
  assert (x `div` 10 < x)%N as Hlt by (apply N.div_lt; lia).
  specialize (IH _ Hlt (String (pretty_N_char (x `mod` 10)) str)). simpl in IH. lia.
Qed.

Lemma pretty_length (i : Z) : 0 < String.length (pretty i).
Proof.
  assert (∀ p : positive, 0 < String.length (pretty_N_go (N.pos p) "")) as Hp.
  { intros p. rw pretty_N_go_step; [lia|]. eapply Nat.lt_le_trans; [|apply pretty_go_length].
    simpl. lia. }
  destruct i as [|p|p]; [simpl; lia|apply Hp|]. simpl. lia.
Qed.

(** The thread names overrun their array: [sprintf (nombre, "thread%d", i)] writes at least
    eight bytes, the NUL included, into an array of seven.  Where the compiler leaves no
    padding behind the array, every loop that creates threads stops at its first name. *)
Theorem name_overruns `{Platform, Board} n i dur body s :
  (sizeof_nombre < Z.of_nat (String.length (thread_name i)) + 1)%Z ∧
  (nombre_room = sizeof_nombre → create_loop (S n) i dur body s = Err Overrun).
Proof.
  assert (sizeof_nombre < Z.of_nat (String.length (thread_name i)) + 1)%Z as Hl.
  { rw /thread_name /sizeof_nombre. pose proof (pretty_length i) as Hp.
    change (String.length ("thread" +:+ pretty i)) with (6 + String.length (pretty i)). lia. }
  split; [done|]. intros Hr. cbn [create_loop]. apply bind_Err.
  rw /sprintf_nombre bool_decide_eq_false_2 //. rw Hr. lia.
Qed.

(** Every test program runs to completion on the simulated board: with any choice
    from 1 to 15 and a quantum of 3, [main] returns from the test, the loop runs for 150
    ticks without an error, and at the end all its threads have been destroyed and only
    the idle thread's block is allocated. *)
Theorem tests_complete :
  Forall (λ i, outcome (main [pretty i; "3"] (alternate 150) demo_boot)
               = Some (slot 0, [], [slot 0]))
    [1; 2; 3; 4; 5; 6; 7; 8; 9; 10; 11; 12; 13; 14; 15]%Z.
Proof. by apply (bool_decide_unpack _); vm_compute. Qed.

(** ** Witnesses *)



Lemma chosen_test_valid_witness :
  ∃ s' nm f, choose_loop 99 ["x"; "0"; "4"] demo_boot = Ok (Some (4%Z, []), s') ∧
    tests !! 3 = Some (nm, f) ∧ getTestName 3 s' = Ok (nm, s').
Proof.
  destruct (choose_loop 99 ["x"; "0"; "4"] demo_boot) as [[[[k inp]|] s']|] eqn:E;
    [|by vm_compute in E|by vm_compute in E].
  destruct (chosen_test_valid 99 ["x"; "0"; "4"] demo_boot k inp s' E) as (_ & nm & f & H1 & H2 & _).
  assert (k = 4%Z ∧ inp = []) as [-> ->].
  { assert (match choose_loop 99 ["x"; "0"; "4"] demo_boot with
            | Ok (Some (k, inp), _) => k = 4%Z ∧ inp = [] | _ => False end) as Hk
      by (vm_compute; done). by rewrite E in Hk. }
  exists s', nm, f. split; [done|]. split; [exact H1|exact H2].
Defined.

Lemma quantum_prompt_accepts_all_witness :
  ∃ s', ask_quantum 14 ["-7"] demo_boot = Ok (Some [], s') ∧
    k_out s' =
      [Printf "--------------------Configurando round robin para %d ciclos.\n--------------------\n"
         [PInt (-7)]; Printf "Ingrese ciclos para round robin (>0): " []] ∧
    round_robin_mode s' = 0%Z ∧ round_robin_ticks s' = 5%Z.
Proof.
  destruct (quantum_prompt_accepts_all "-7" [] demo_boot) as (s' & E & Ho & Hq);
    [unfold sizeof_userInput; simpl; lia|].
  exists s'. split; [exact E|]. split; [exact Ho|exact Hq].
Defined.
