(* ===== verification/Interrupt.v ===== *)
(** * lib/interrupt.c: the x86 interrupt system

    The Pintos interrupt code kept under lib/: the interrupt flag, the interrupt
    descriptor table, the registration of handlers, the 8259A interrupt controllers
    and the dispatch of interrupts.  Its state, [istate], contains the kernel's: an
    external interrupt may end in [thread_yield].  What the file uses and the
    repository does not contain (the stubs of intr-stubs.S, the code segment selector
    of loader.h, the code of the registered handlers) is the class [X86]. *)

From S2P Require Import Prelude CList Machine Thread.

Definition interrupt_c : string := "lib/interrupt.c".

(** ** interrupt.h: data *)

Inductive intr_level := INTR_OFF | INTR_ON.

#[global] Instance intr_level_eq_dec : EqDecision intr_level.
Proof. solve_decision. Defined.

(** [struct intr_frame], without its padding. *)
Record intr_frame := IntrFrame {
  f_edi : Z; f_esi : Z; f_ebp : Z; f_esp_dummy : Z;
  f_ebx : Z; f_edx : Z; f_ecx : Z; f_eax : Z;
  f_gs : Z; f_fs : Z; f_es : Z; f_ds : Z;
  f_vec_no : Z;
  f_error_code : Z;
  f_frame_pointer : Z;
  f_eip : Z; f_cs : Z; f_eflags : Z; f_esp : Z; f_ss : Z;
}.

(** ** Registers, tables and flags *)

Definition PIC0_CTRL : Z := 0x20.
Definition PIC0_DATA : Z := 0x21.
Definition PIC1_CTRL : Z := 0xa0.
Definition PIC1_DATA : Z := 0xa1.
Definition INTR_CNT : nat := 256.
Definition FLAG_IF : Z := 0x200.

Record istate := IState {
  i_kernel : kstate;                     (* threads, lists, console *)
  eflags : Z;                            (* the CPU's flags register *)
  cr2 : Z;                               (* address of the last page fault *)
  idtr : Z;                              (* operand of the last LIDT *)
  ports : list (Z * Z);                  (* bytes sent to I/O ports, most recent first *)
  idt : list Z;
  intr_handlers : list Z;                (* addresses; NULL where there is none *)
  intr_names : list (option string);     (* NULL until [intr_init] *)
  unexpected_cnt : list Z;               (* unsigned *)
  in_external_intr : bool;
  intr_yield_flag : bool;                (* [yield_on_return] of this file *)
}.

Section Setters.
Context (s : istate).
Definition set_kernel v : istate :=
  IState v (eflags s) (cr2 s) (idtr s) (ports s) (idt s) (intr_handlers s) (intr_names s)
    (unexpected_cnt s) (in_external_intr s) (intr_yield_flag s).
Definition set_eflags v : istate :=
  IState (i_kernel s) v (cr2 s) (idtr s) (ports s) (idt s) (intr_handlers s) (intr_names s)
    (unexpected_cnt s) (in_external_intr s) (intr_yield_flag s).
Definition set_idtr v : istate :=
  IState (i_kernel s) (eflags s) (cr2 s) v (ports s) (idt s) (intr_handlers s) (intr_names s)
    (unexpected_cnt s) (in_external_intr s) (intr_yield_flag s).
Definition set_ports v : istate :=
  IState (i_kernel s) (eflags s) (cr2 s) (idtr s) v (idt s) (intr_handlers s) (intr_names s)
    (unexpected_cnt s) (in_external_intr s) (intr_yield_flag s).
Definition set_idt v : istate :=
  IState (i_kernel s) (eflags s) (cr2 s) (idtr s) (ports s) v (intr_handlers s) (intr_names s)
    (unexpected_cnt s) (in_external_intr s) (intr_yield_flag s).
Definition set_handlers v : istate :=
  IState (i_kernel s) (eflags s) (cr2 s) (idtr s) (ports s) (idt s) v (intr_names s)
    (unexpected_cnt s) (in_external_intr s) (intr_yield_flag s).
Definition set_names v : istate :=
  IState (i_kernel s) (eflags s) (cr2 s) (idtr s) (ports s) (idt s) (intr_handlers s) v
    (unexpected_cnt s) (in_external_intr s) (intr_yield_flag s).
Definition set_unexpected v : istate :=
  IState (i_kernel s) (eflags s) (cr2 s) (idtr s) (ports s) (idt s) (intr_handlers s)
    (intr_names s) v (in_external_intr s) (intr_yield_flag s).
Definition set_external v : istate :=
  IState (i_kernel s) (eflags s) (cr2 s) (idtr s) (ports s) (idt s) (intr_handlers s)
    (intr_names s) (unexpected_cnt s) v (intr_yield_flag s).
Definition set_yield_flag v : istate :=
  IState (i_kernel s) (eflags s) (cr2 s) (idtr s) (ports s) (idt s) (intr_handlers s)
    (intr_names s) (unexpected_cnt s) (in_external_intr s) v.
End Setters.

Class X86 := {
  (** The entry point of each vector (intr-stubs.S), a code address. *)
  intr_stubs : Z → Z;
  intr_stubs_range v : (0 < intr_stubs v < 2 ^ 32)%Z;
  (** The kernel's code segment selector (loader.h). *)
  SEL_KCSEG : Z;
  SEL_KCSEG_range : (0 ≤ SEL_KCSEG < 2 ^ 15)%Z;
  (** Where the linker puts [idt]. *)
  idt_addr : Z;
  idt_addr_range : (0 ≤ idt_addr < 2 ^ 32)%Z;
  (** The function at an address, called with the frame. *)
  call_handler : Z → intr_frame → M istate unit;
}.

(** ** Accesses *)

Definition on_kernel {A} (m : M kstate A) : M istate A :=
  zoom i_kernel (λ k s, set_kernel s k) m.

Definition uint8 (z : Z) : Z := z `mod` 2 ^ 8.

(** [a[i]], an element of an array of [INTR_CNT]; out of range, a fault. *)
Definition elt {A} (field : istate → list A) (i : Z) : M istate A := λ s,
  if bool_decide (0 ≤ i)%Z then
    match field s !! Z.to_nat i with
    | Some a => Ok (a, s)
    | None => Err (Fault i)
    end
  else Err (Fault i).

(** The instructions of the file: PUSHF/POP, STI, CLI, LIDT, OUT. *)
Definition sti : M istate unit := modify (λ s, set_eflags s (Z.lor (eflags s) FLAG_IF)).
Definition cli : M istate unit := modify (λ s, set_eflags s (Z.ldiff (eflags s) FLAG_IF)).
Definition lidt (v : Z) : M istate unit := modify (λ s, set_idtr s v).
Definition outb (port data : Z) : M istate unit :=
  modify (λ s, set_ports s ((port, data) :: ports s)).

(** ** The interrupt flag *)

Definition intr_get_level : M istate intr_level :=
  s ← get;
  mret (if bool_decide (Z.land (eflags s) FLAG_IF = 0)%Z then INTR_OFF else INTR_ON).

Definition intr_context : M istate bool := s ← get; mret (in_external_intr s).

Definition intr_enable : M istate intr_level :=
  old_level ← intr_get_level;
  c ← intr_context;
  ASSERT interrupt_c 93 (negb c);;
  sti;;
  mret old_level.

Definition intr_disable : M istate intr_level :=
  old_level ← intr_get_level;
  cli;;
  mret old_level.

Definition intr_set_level (level : intr_level) : M istate intr_level :=
  match level with
  | INTR_ON => intr_enable
  | INTR_OFF => intr_disable
  end.

(** ** The interrupt controllers *)

Definition pic_init : M istate unit :=
  outb PIC0_DATA 0xff;;
  outb PIC1_DATA 0xff;;
  outb PIC0_CTRL 0x11;;
  outb PIC0_DATA 0x20;;
  outb PIC0_DATA 0x04;;
  outb PIC0_DATA 0x01;;
  outb PIC1_CTRL 0x11;;
  outb PIC1_DATA 0x28;;
  outb PIC1_DATA 0x02;;
  outb PIC1_DATA 0x01;;
  outb PIC0_DATA 0x00;;
  outb PIC1_DATA 0x00.

Definition pic_end_of_interrupt (irq : Z) : M istate unit :=
  ASSERT interrupt_c 269 (bool_decide (0x20 ≤ irq)%Z && bool_decide (irq < 0x30)%Z);;
  outb 0x20 0x20;;
  if bool_decide (0x28 ≤ irq)%Z then outb 0xa0 0x20 else mret tt.

Section Interrupt.
Context `{Platform, X86}.

(** ** Descriptors *)

Definition make_gate (function dpl type : Z) : M istate Z :=
  ASSERT interrupt_c 300 (bool_decide (function ≠ NULL));;
  ASSERT interrupt_c 301 (bool_decide (0 ≤ dpl)%Z && bool_decide (dpl ≤ 3)%Z);;
  ASSERT interrupt_c 302 (bool_decide (0 ≤ type)%Z && bool_decide (type ≤ 15)%Z);;
  let e0 := Z.lor (Z.land (uint32 function) 0xffff) (Z.shiftl SEL_KCSEG 16) in
  let e1 :=
    Z.lor (Z.lor (Z.lor (Z.lor (Z.land (uint32 function) 0xffff0000)
                               (Z.shiftl 1 15))
                        (uint32 (Z.shiftl (uint32 dpl) 13)))
                 (Z.shiftl 0 12))
          (uint32 (Z.shiftl (uint32 type) 8)) in
  mret (Z.lor e0 (uint64 (Z.shiftl e1 32))).

Definition make_intr_gate (function dpl : Z) : M istate Z := make_gate function dpl 14.
Definition make_trap_gate (function dpl : Z) : M istate Z := make_gate function dpl 15.

Definition make_idtr_operand (limit base : Z) : Z :=
  Z.lor limit (uint64 (Z.shiftl (uint32 base) 16)).

(** ** Initialization *)

(** [for (i = 0; i < INTR_CNT; i++) idt[i] = make_intr_gate (intr_stubs[i], 0);] *)
Fixpoint init_idt_loop (n : nat) (i : Z) : M istate unit :=
  match n with
  | O => mret tt
  | S n =>
      g ← make_intr_gate (intr_stubs i) 0;
      modify (λ s, set_idt s (<[Z.to_nat i := g]> (idt s)));;
      init_idt_loop n (i + 1)
  end.

(** The names [intr_init] stores after "unknown" everywhere; 15 keeps it. *)
Definition exception_names : list (nat * string) :=
  [(0, "#DE Divide Error"); (1, "#DB Debug Exception"); (2, "NMI Interrupt");
   (3, "#BP Breakpoint Exception"); (4, "#OF Overflow Exception");
   (5, "#BR BOUND Range Exceeded Exception"); (6, "#UD Invalid Opcode Exception");
   (7, "#NM Device Not Available Exception"); (8, "#DF Double Fault Exception");
   (9, "Coprocessor Segment Overrun"); (10, "#TS Invalid TSS Exception");
   (11, "#NP Segment Not Present"); (12, "#SS Stack Fault Exception");
   (13, "#GP General Protection Exception"); (14, "#PF Page-Fault Exception");
   (16, "#MF x87 FPU Floating-Point Error"); (17, "#AC Alignment Check Exception");
   (18, "#MC Machine-Check Exception"); (19, "#XF SIMD Floating-Point Exception")].

Fixpoint init_names_loop (n : nat) (i : nat) (l : list (option string)) :=
  match n with
  | O => l
  | S n => init_names_loop n (S i) (<[i := Some "unknown"]> l)
  end.

Definition intr_init : M istate unit :=
  pic_init;;
  init_idt_loop INTR_CNT 0;;
  lidt (make_idtr_operand (Z.of_nat (8 * INTR_CNT) - 1) idt_addr);;
  modify (λ s, set_names s (init_names_loop INTR_CNT 0 (intr_names s)));;
  modify (λ s, set_names s
    (foldl (λ l '(i, nm), <[i := Some nm]> l) (intr_names s) exception_names)).

(** ** Registration *)

Definition register_handler (vec_no dpl : Z) (level : intr_level) (handler : Z) (nm : string)
    : M istate unit :=
  h ← elt intr_handlers vec_no;
  ASSERT interrupt_c 170 (bool_decide (h = NULL));;
  (if bool_decide (level = INTR_ON) then
     g ← make_trap_gate (intr_stubs vec_no) dpl;
     modify (λ s, set_idt s (<[Z.to_nat vec_no := g]> (idt s)))
   else
     g ← make_intr_gate (intr_stubs vec_no) dpl;
     modify (λ s, set_idt s (<[Z.to_nat vec_no := g]> (idt s))));;
  modify (λ s, set_handlers s (<[Z.to_nat vec_no := handler]> (intr_handlers s)));;
  modify (λ s, set_names s (<[Z.to_nat vec_no := Some nm]> (intr_names s))).

(** The vector is a [uint8_t]. *)
Definition intr_register_ext (vec_no handler : Z) (nm : string) : M istate unit :=
  let vec_no := uint8 vec_no in
  ASSERT interrupt_c 186 (bool_decide (0x20 ≤ vec_no)%Z && bool_decide (vec_no ≤ 0x2f)%Z);;
  register_handler vec_no 0 INTR_OFF handler nm.

Definition intr_register_int (vec_no dpl : Z) (level : intr_level) (handler : Z) (nm : string)
    : M istate unit :=
  let vec_no := uint8 vec_no in
  ASSERT interrupt_c 207 (bool_decide (vec_no < 0x20)%Z || bool_decide (0x2f < vec_no)%Z);;
  register_handler vec_no dpl level handler nm.

(** [intr_yield_on_return] of this file; timer.c has its own, without the assertion. *)
Definition intr_yield_on_return_ext : M istate unit :=
  c ← intr_context;
  ASSERT interrupt_c 226 c;;
  modify (λ s, set_yield_flag s true).

(** ** Handling *)

(** What printf shows for a name: a null pointer prints as "(null)". *)
Definition shown (nm : option string) : parg := PStr (default "(null)" nm).

Definition unexpected_interrupt (f : intr_frame) : M istate unit :=
  c ← elt unexpected_cnt (f_vec_no f);
  let n := uint32 (c + 1) in
  modify (λ s, set_unexpected s (<[Z.to_nat (f_vec_no f) := n]> (unexpected_cnt s)));;
  if bool_decide (Z.land n (uint32 (n - 1)) = 0)%Z then
    nm ← elt intr_names (f_vec_no f);
    on_kernel (printf "Unexpected interrupt %#04x (%s)\n" [PInt (f_vec_no f); shown nm])
  else mret tt.

Definition intr_handler (frame : intr_frame) : M istate unit :=
  let vec_no := f_vec_no frame in
  let external := bool_decide (0x20 ≤ vec_no)%Z && bool_decide (vec_no < 0x30)%Z in
  (if external then
     l ← intr_get_level;
     ASSERT interrupt_c 359 (bool_decide (l = INTR_OFF));;
     c ← intr_context;
     ASSERT interrupt_c 360 (negb c);;
     modify (λ s, set_external s true);;
     modify (λ s, set_yield_flag s false)
   else mret tt);;
  handler ← elt intr_handlers vec_no;
  (if bool_decide (handler ≠ NULL) then call_handler handler frame
   else if bool_decide (vec_no = 0x27)%Z || bool_decide (vec_no = 0x2f)%Z then mret tt
   else unexpected_interrupt frame);;
  if external then
    l ← intr_get_level;
    ASSERT interrupt_c 382 (bool_decide (l = INTR_OFF));;
    c ← intr_context;
    ASSERT interrupt_c 383 c;;
    modify (λ s, set_external s false);;
    pic_end_of_interrupt vec_no;;
    s ← get;
    if (intr_yield_flag s : bool) then on_kernel thread_yield else mret tt
  else mret tt.

(** ** Debugging *)

Definition intr_dump_frame (f : intr_frame) : M istate unit :=
  s ← get;
  nm ← elt intr_names (f_vec_no f);
  on_kernel (
    printf "Interrupt %#04x (%s) at eip=%p\n" [PInt (f_vec_no f); shown nm; PInt (f_eip f)];;
    printf " cr2=%08x error=%08x\n" [PInt (cr2 s); PInt (f_error_code f)];;
    printf " eax=%08x ebx=%08x ecx=%08x edx=%08x\n"
      [PInt (f_eax f); PInt (f_ebx f); PInt (f_ecx f); PInt (f_edx f)];;
    printf " esi=%08x edi=%08x esp=%08x ebp=%08x\n"
      [PInt (f_esi f); PInt (f_edi f); PInt (f_esp f); PInt (f_ebp f)];;
    printf " cs=%04x ds=%04x es=%04x ss=%04x\n"
      [PInt (f_cs f); PInt (f_ds f); PInt (f_es f); PInt (f_ss f)]).

Definition intr_name (vec : Z) : M istate (option string) := elt intr_names (uint8 vec).
End Interrupt.

(** The file's static data before [intr_init]. *)
Definition intr_start (k : kstate) (flags : Z) : istate :=
  IState k flags 0 0 [] (replicate INTR_CNT 0%Z) (replicate INTR_CNT NULL)
    (replicate INTR_CNT None) (replicate INTR_CNT 0%Z) false false.
