(* ===== verification/InterruptSpec.v ===== *)
(** * The interrupt system: bit fields, levels and dispatch

    Lemmas about interrupt.c: descriptors as sums of their fields, the interrupt flag,
    the registration of handlers and the count of unexpected interrupts. *)

From Stdlib Require Import Zbitwise.
From S2P Require Import Prelude CList Machine Thread Interrupt.

(** ** Bit fields *)

Lemma lor_add a b k : (0 ≤ k)%Z → (0 ≤ a < 2 ^ k)%Z → (Z.lor a (b * 2 ^ k) = a + b * 2 ^ k)%Z.
Proof.
  intros Hk Ha. rw -(Z.add_lor_land a) (_ : Z.land a (b * 2 ^ k) = 0%Z); [|lia].
  rw -Z.shiftl_mul_pow2 //. apply Z.bits_inj'. intros i Hi.
  rw Z.land_spec Z.bits_0 Z.shiftl_spec //. destruct (Z.lt_ge_cases i k) as [Hlt|Hge].
  - rw (Z.testbit_neg_r b); [lia|]. by rw andb_false_r.
  - assert (Z.testbit a i = false) as ->; [|done].
    rw -(Z.mod_small a (2 ^ k)) //. by apply Z.mod_pow2_bits_high.
Qed.

Lemma add_lor a b k : (0 ≤ k)%Z → (0 ≤ a < 2 ^ k)%Z → (Z.lor (b * 2 ^ k) a = a + b * 2 ^ k)%Z.
Proof. rw Z.lor_comm. apply lor_add. Qed.

Lemma land_high f : (0 ≤ f < 2 ^ 32)%Z → (Z.land f 0xffff0000 = f `div` 2 ^ 16 * 2 ^ 16)%Z.
Proof.
  intros Hf. change 0xffff0000%Z with (Z.shiftl (Z.ones 16) 16).
  assert (Z.land f (Z.shiftl (Z.ones 16) 16) = Z.shiftl (Z.land (Z.shiftr f 16) (Z.ones 16)) 16)%Z
    as ->.
  { apply Z.bits_inj'. intros i Hi. rw Z.land_spec !Z.shiftl_spec // Z.land_spec.
    destruct (Z.lt_ge_cases i 16) as [Hlt|Hge].
    - rw (Z.testbit_neg_r (Z.ones 16)); [lia|]. by rw !andb_false_r.
    - rw Z.shiftr_spec; [lia|]. do 2 f_equal. lia. }
  rw Z.shiftl_mul_pow2 // Z.land_ones // Z.shiftr_div_pow2 // Z.mod_small //.
  Z.to_euclidean_division_equations; lia.
Qed.

Lemma land_low f : (Z.land f 0xffff = f `mod` 2 ^ 16)%Z.
Proof. change 0xffff%Z with (Z.ones 16). by rw Z.land_ones. Qed.

(** ** The fields of a descriptor, as the processor reads them *)

Definition gate_offset (g : Z) : Z := (g `mod` 2 ^ 16 + (g `div` 2 ^ 48) `mod` 2 ^ 16 * 2 ^ 16)%Z.
Definition gate_selector (g : Z) : Z := ((g `div` 2 ^ 16) `mod` 2 ^ 16)%Z.
Definition gate_type (g : Z) : Z := ((g `div` 2 ^ 40) `mod` 2 ^ 4)%Z.
Definition gate_system (g : Z) : bool := bool_decide ((g `div` 2 ^ 44) `mod` 2 = 0)%Z.
Definition gate_dpl (g : Z) : Z := ((g `div` 2 ^ 45) `mod` 2 ^ 2)%Z.
Definition gate_present (g : Z) : bool := bool_decide ((g `div` 2 ^ 47) `mod` 2 = 1)%Z.

Definition idtr_limit (v : Z) : Z := (v `mod` 2 ^ 16)%Z.
Definition idtr_base (v : Z) : Z := ((v `div` 2 ^ 16) `mod` 2 ^ 32)%Z.

(** A present gate to [f] in the kernel's code segment. *)
Record gate_to `{X86} (g f dpl type : Z) : Prop := {
  gt_offset : gate_offset g = f;
  gt_selector : gate_selector g = SEL_KCSEG;
  gt_type : gate_type g = type;
  gt_dpl : gate_dpl g = dpl;
  gt_system : gate_system g = true;
  gt_present : gate_present g = true;
  gt_range : (0 ≤ g < 2 ^ 64)%Z;
}.

Section Gates.
Context `{X86}.
Implicit Types (s : istate).

(** The sum of the fields. *)
Definition gate_sum (f dpl type : Z) : Z :=
  (f `mod` 2 ^ 16 + SEL_KCSEG * 2 ^ 16
   + (type * 2 ^ 8 + dpl * 2 ^ 13 + 2 ^ 15 + f `div` 2 ^ 16 * 2 ^ 16) * 2 ^ 32)%Z.

Lemma runs_make_gate s f dpl type (Q : Z → istate → Prop) :
  (0 < f < 2 ^ 32)%Z → (0 ≤ dpl ≤ 3)%Z → (0 ≤ type ≤ 15)%Z →
  Q (gate_sum f dpl type) s → runs (make_gate f dpl type) s Q.
Proof.
  intros Hf Hd Ht HQ. pose proof SEL_KCSEG_range as Hk. rw /make_gate. step.
  step; [apply bool_decide_eq_true_2; unfold NULL; lia|].
  step. step; [rw !bool_decide_eq_true_2; by lia|].
  step. step; [rw !bool_decide_eq_true_2; by lia|]. step.
  rw (uint32_id f) ?(uint32_id dpl) ?(uint32_id type); [lia..|].
  rw !Z.shiftl_mul_pow2 // Z.lor_0_r land_low land_high; [lia|].
  rw (uint32_id (dpl * _)) ?(uint32_id (type * _)); [lia..|].
  pose proof (Z.mod_pos_bound f (2 ^ 16) ltac:(lia)) as Hlo.
  pose proof (Z.div_mod f (2 ^ 16) ltac:(lia)) as Hdm.
  set (hi := (f `div` 2 ^ 16)%Z) in *. set (lo := (f `mod` 2 ^ 16)%Z) in *.
  assert (0 ≤ hi < 2 ^ 16)%Z as Hhi by lia.
  rw lor_add // (Z.mul_1_l) (add_lor (2 ^ 15)); [lia..|].
  rw (_ : 2 ^ 15 + hi * 2 ^ 16 = (1 + 2 * hi) * 2 ^ 15)%Z; [lia|]. rw add_lor; [lia..|].
  rw (_ : dpl * 2 ^ 13 + (1 + 2 * hi) * 2 ^ 15 = (dpl + 4 * (1 + 2 * hi)) * 2 ^ 13)%Z; [lia|].
  rw add_lor; [lia..|]. rw uint64_id; [lia|]. rw lor_add; [lia..|].
  rw /gate_sum in HQ. fold hi lo in HQ.
  by rw (_ : type * 2 ^ 8 + (dpl + 4 * (1 + 2 * hi)) * 2 ^ 13
             = type * 2 ^ 8 + dpl * 2 ^ 13 + 2 ^ 15 + hi * 2 ^ 16)%Z; [lia|].
Qed.

(** A field of [w] bits at position [k], below the bits [c] and above [b]. *)
Lemma field_at a b c k w :
  (0 ≤ k)%Z → (0 ≤ w)%Z → (0 ≤ b < 2 ^ k)%Z → (0 ≤ a < 2 ^ w)%Z →
  (((b + a * 2 ^ k + c * 2 ^ (k + w)) `div` 2 ^ k) `mod` 2 ^ w = a)%Z.
Proof.
  intros Hk Hw Hb Ha. rw Z.pow_add_r //.
  rw (_ : b + a * 2 ^ k + c * (2 ^ k * 2 ^ w) = b + (a + c * 2 ^ w) * 2 ^ k)%Z; [lia|].
  pose proof (Z.pow_pos_nonneg 2 k ltac:(lia) Hk). pose proof (Z.pow_pos_nonneg 2 w ltac:(lia) Hw).
  rw Z.div_add; [lia|]. rw Z.div_small // Z.add_0_l Z_mod_plus_full. by apply Z.mod_small.
Qed.

Lemma gate_sum_fields f dpl type :
  (0 ≤ f < 2 ^ 32)%Z → (0 ≤ dpl ≤ 3)%Z → (0 ≤ type ≤ 15)%Z →
  gate_to (gate_sum f dpl type) f dpl type.
Proof.
  intros Hf Hd Ht. pose proof SEL_KCSEG_range as Hk. rw /gate_sum.
  pose proof (Z.mod_pos_bound f (2 ^ 16) ltac:(lia)) as Hlo.
  pose proof (Z.div_mod f (2 ^ 16) ltac:(lia)) as Hdm.
  set (hi := (f `div` 2 ^ 16)%Z) in *. set (lo := (f `mod` 2 ^ 16)%Z) in *. clearbody hi lo.
  assert (0 ≤ hi < 2 ^ 16)%Z as Hhi by lia. set (k := SEL_KCSEG) in *.
  set (g := (_ + _ * 2 ^ 32)%Z).
  assert (g = lo + k * 2 ^ 16 + type * 2 ^ 40 + dpl * 2 ^ 45 + 2 ^ 47 + hi * 2 ^ 48)%Z as Eg by lia.
  clearbody g. split.
  - rw /gate_offset. pose proof (field_at lo 0 (k + type * 2 ^ 24 + dpl * 2 ^ 29 + 2 ^ 31
      + hi * 2 ^ 32) 0 16 ltac:(lia) ltac:(lia) ltac:(lia) ltac:(lia)) as E1.
    rw (_ : _ + _ * 2 ^ (0 + 16) = g)%Z ?Z.div_1_r in E1; [lia|].
    pose proof (field_at hi (g - hi * 2 ^ 48) 0 48 16 ltac:(lia) ltac:(lia) ltac:(lia) ltac:(lia)) as E2.
    rw (_ : _ + _ * 2 ^ (48 + 16) = g)%Z in E2; [lia|]. rw E1 E2. lia.
  - pose proof (field_at k lo (type * 2 ^ 8 + dpl * 2 ^ 13 + 2 ^ 15 + hi * 2 ^ 16) 16 16
      ltac:(lia) ltac:(lia) ltac:(lia) ltac:(lia)) as E.
    rw (_ : _ + _ * 2 ^ (16 + 16) = g)%Z in E; [lia|]. exact E.
  - pose proof (field_at type (lo + k * 2 ^ 16) (dpl * 2 + 2 ^ 3 + hi * 2 ^ 4) 40 4
      ltac:(lia) ltac:(lia) ltac:(lia) ltac:(lia)) as E.
    rw (_ : _ + _ * 2 ^ (40 + 4) = g)%Z in E; [lia|]. exact E.
  - pose proof (field_at dpl (lo + k * 2 ^ 16 + type * 2 ^ 40) (1 + hi * 2) 45 2
      ltac:(lia) ltac:(lia) ltac:(lia) ltac:(lia)) as E.
    rw (_ : _ + _ * 2 ^ (45 + 2) = g)%Z in E; [lia|]. exact E.
  - pose proof (field_at 0 (lo + k * 2 ^ 16 + type * 2 ^ 40) (dpl + 2 ^ 2 + hi * 2 ^ 3) 44 1
      ltac:(lia) ltac:(lia) ltac:(lia) ltac:(lia)) as E.
    rw (_ : _ + _ * 2 ^ (44 + 1) = g)%Z in E; [lia|]. by apply bool_decide_eq_true_2.
  - pose proof (field_at 1 (lo + k * 2 ^ 16 + type * 2 ^ 40 + dpl * 2 ^ 45) hi 47 1
      ltac:(lia) ltac:(lia) ltac:(lia) ltac:(lia)) as E.
    rw (_ : _ + _ * 2 ^ (47 + 1) = g)%Z in E; [lia|]. by apply bool_decide_eq_true_2.
  - lia.
Qed.
End Gates.

(** ** The interrupt flag *)

Definition level_of (s : istate) : intr_level :=
  if bool_decide (Z.land (eflags s) FLAG_IF = 0)%Z then INTR_OFF else INTR_ON.

Lemma land_flag e : (Z.land e FLAG_IF = 0)%Z ↔ Z.testbit e 9 = false.
Proof.
  change FLAG_IF with (2 ^ 9)%Z. split.
  - intros E. assert (Z.testbit (Z.land e (2 ^ 9)) 9 = false) as Hb by (by rw E Z.bits_0).
    by rw Z.land_spec Z.pow2_bits_true // andb_true_r in Hb.
  - intros E. apply Z.bits_inj'. intros i Hi. rw Z.land_spec Z.bits_0 Z.pow2_bits_eqb //.
    destruct (Z.eqb_spec 9 i) as [<-|]; [by rw E|by rw andb_false_r].
Qed.

Lemma ldiff_flag e i :
  (0 ≤ i)%Z → Z.testbit (Z.ldiff e FLAG_IF) i = Z.testbit e i && negb (Z.eqb 9 i).
Proof. intros Hi. change FLAG_IF with (2 ^ 9)%Z. by rw Z.ldiff_spec Z.pow2_bits_eqb. Qed.

Lemma disabled_off e : (Z.land (Z.ldiff e FLAG_IF) FLAG_IF = 0)%Z.
Proof. apply land_flag. by rw ldiff_flag // andb_false_r. Qed.

Lemma disable_idem e : (Z.land e FLAG_IF = 0)%Z → Z.ldiff e FLAG_IF = e.
Proof.
  rw land_flag. intros E. apply Z.bits_inj'. intros i Hi. rw ldiff_flag //.
  destruct (Z.eqb_spec 9 i) as [<-|]; [by rw E|by rw andb_true_r].
Qed.

Lemma enable_disabled e :
  (Z.land e FLAG_IF ≠ 0)%Z → Z.lor (Z.ldiff e FLAG_IF) FLAG_IF = e.
Proof.
  rw land_flag. intros E%not_false_is_true. apply Z.bits_inj'. intros i Hi.
  rw Z.lor_spec ldiff_flag //. change FLAG_IF with (2 ^ 9)%Z. rw Z.pow2_bits_eqb //.
  destruct (Z.eqb_spec 9 i) as [<-|]; [by rw E|by rw andb_true_r orb_false_r].
Qed.

Lemma set_eflags_eq s : set_eflags s (eflags s) = s.
Proof. by destruct s. Qed.

Lemma runs_get_level s (Q : intr_level → istate → Prop) :
  Q (level_of s) s → runs intr_get_level s Q.
Proof. done. Qed.

Lemma runs_intr_context s (Q : bool → istate → Prop) :
  Q (in_external_intr s) s → runs intr_context s Q.
Proof. done. Qed.

Lemma runs_intr_disable s (Q : intr_level → istate → Prop) :
  Q (level_of s) (set_eflags s (Z.ldiff (eflags s) FLAG_IF)) → runs intr_disable s Q.
Proof. done. Qed.

(** [intr_set_level (old_level)] after [old_level = intr_disable ()]: the flags register is
    as before.  In an interrupt handler, where enabling panics, interrupts were off. *)
Lemma runs_restore_level s0 s1 (Q : intr_level → istate → Prop) :
  eflags s1 = Z.ldiff (eflags s0) FLAG_IF →
  in_external_intr s1 = false ∨ level_of s0 = INTR_OFF →
  (∀ l, Q l (set_eflags s1 (eflags s0))) → runs (intr_set_level (level_of s0)) s1 Q.
Proof.
  intros E Hc HQ. unfold level_of in *. case_bool_decide as Hl.
  - apply runs_intr_disable. rw E !disable_idem //.
  - destruct Hc as [Hc|]; [|done]. rw /intr_set_level /intr_enable. step. apply runs_get_level.
    step. apply runs_intr_context. step. step; [by rw Hc|]. rw /sti. steps.
    rw E enable_disabled //.
Qed.

(** ** Registration *)

Lemma runs_elt {A} (field : istate → list A) i a s (Q : A → istate → Prop) :
  (0 ≤ i)%Z → field s !! Z.to_nat i = Some a → Q a s → runs (elt field i) s Q.
Proof. intros Hi E HQ. by rw /runs /elt bool_decide_eq_true_2 // E. Qed.

Section Registration.
Context `{X86}.
Implicit Types (s : istate).

(** The gate [register_handler] writes. *)
Definition gate_for (vec_no dpl : Z) (level : intr_level) : Z :=
  gate_sum (intr_stubs vec_no) dpl (if bool_decide (level = INTR_ON) then 15%Z else 14%Z).

Definition registered s (vec_no dpl : Z) (level : intr_level) (handler : Z) (nm : string) : istate :=
  let v := Z.to_nat vec_no in
  set_names (set_handlers (set_idt s (<[v := gate_for vec_no dpl level]> (idt s)))
               (<[v := handler]> (intr_handlers s)))
    (<[v := Some nm]> (intr_names s)).

Lemma runs_register_handler s vec_no dpl level handler nm (Q : unit → istate → Prop) :
  (0 ≤ vec_no)%Z → intr_handlers s !! Z.to_nat vec_no = Some NULL → (0 ≤ dpl ≤ 3)%Z →
  Q tt (registered s vec_no dpl level handler nm) →
  runs (register_handler vec_no dpl level handler nm) s Q.
Proof.
  intros Hv Hh Hd HQ. pose proof (intr_stubs_range vec_no) as Hs.
  rw /register_handler. step. eapply runs_elt; [done..|]. step. step; [done|].
  rw /registered /gate_for in HQ. step.
  case_bool_decide; step; (eapply runs_make_gate; [done|done|lia|]); steps; exact HQ.
Qed.

(** A gate of vector [v] is present and enters its stub; the vectors of the devices
    enter with interrupts off, and only from the kernel. *)
Definition gate_ok (v : nat) (g : Z) : Prop :=
  ∃ dpl type, gate_to g (intr_stubs (Z.of_nat v)) dpl type ∧ (type = 14 ∨ type = 15)%Z ∧
    (32 ≤ v ≤ 47 → dpl = 0%Z ∧ type = 14%Z).

Record tables_ok s : Prop := {
  to_idt : length (idt s) = INTR_CNT;
  to_handlers : length (intr_handlers s) = INTR_CNT;
  to_names : length (intr_names s) = INTR_CNT;
  to_unexpected : length (unexpected_cnt s) = INTR_CNT;
  to_gates : ∀ v g, idt s !! v = Some g → gate_ok v g;
}.

Lemma gate_for_ok vec_no dpl level :
  (0 ≤ vec_no)%Z → (0 ≤ dpl ≤ 3)%Z → (0x20 ≤ vec_no ≤ 0x2f → dpl = 0 ∧ level = INTR_OFF)%Z →
  gate_ok (Z.to_nat vec_no) (gate_for vec_no dpl level).
Proof.
  intros Hv Hd Hx. rw /gate_ok Z2Nat.id // /gate_for. pose proof (intr_stubs_range vec_no) as Hs.
  exists dpl, (if bool_decide (level = INTR_ON) then 15 else 14)%Z. split_and!.
  - apply gate_sum_fields; [lia|done|]. case_bool_decide; lia.
  - case_bool_decide; lia.
  - intros Hr. destruct Hx as [-> ->]; [lia|]. done.
Qed.

Lemma registered_ok s vec_no dpl level handler nm :
  tables_ok s → (0 ≤ vec_no)%Z → (0 ≤ dpl ≤ 3)%Z →
  (0x20 ≤ vec_no ≤ 0x2f → dpl = 0 ∧ level = INTR_OFF)%Z →
  tables_ok (registered s vec_no dpl level handler nm).
Proof.
  intros [] Hv Hd Hx. split; simpl; rewrite ?length_insert //.
  intros v g. rw list_lookup_insert_Some. intros [(<- & <- & _)|[_ E]]; [by apply gate_for_ok|eauto].
Qed.

(** ** Initialization *)

Lemma runs_init_idt_loop n i s (Q : unit → istate → Prop) :
  (i + n = length (idt s))%nat →
  (∀ l, length l = length (idt s) → (∀ v, v < i → l !! v = idt s !! v) →
        (∀ v, i ≤ v < length l → l !! v = Some (gate_sum (intr_stubs (Z.of_nat v)) 0 14)) →
        Q tt (set_idt s l)) →
  runs (init_idt_loop n (Z.of_nat i)) s Q.
Proof.
  revert i s. induction n as [|n IH]; intros i s Hlen HQ; cbn [init_idt_loop].
  { step. rw (_ : s = set_idt s (idt s)); [by destruct s|]. apply HQ; [done..|]. intros; lia. }
  pose proof (intr_stubs_range (Z.of_nat i)) as Hs.
  step. eapply runs_make_gate; [done|lia|lia|]. steps. rw (_ : Z.of_nat i + 1 = Z.of_nat (S i))%Z; [lia|].
  apply IH; simpl; rw length_insert; [lia|]. intros l Hl Hlo Hhi.
  rw Nat2Z.id in Hlo. apply (HQ l); [done|..].
  - intros v Hv. rw Hlo; [lia|]. rw list_lookup_insert_ne //. lia.
  - intros v Hv. destruct (decide (v = i)) as [->|]; [|apply Hhi; lia].
    rw Hlo; [lia|]. rw list_lookup_insert_eq //. lia.
Qed.

Lemma length_init_names n i l : length (init_names_loop n i l) = length l.
Proof. revert i l. induction n as [|n IH]; intros i l; [done|]. simpl. by rw IH length_insert. Qed.

Lemma length_foldl_insert {A} (xs : list (nat * A)) (l : list (option A)) :
  length (foldl (λ l '(i, nm), <[i := Some nm]> l) l xs) = length l.
Proof. revert l. induction xs as [|[i x] xs IH]; intros l; [done|]. simpl. by rw IH length_insert. Qed.

Lemma make_idtr_exact : (make_idtr_operand 2047 idt_addr = 2047 + idt_addr * 2 ^ 16)%Z.
Proof.
  pose proof idt_addr_range as Hr. rw /make_idtr_operand (uint32_id idt_addr) //.
  rw Z.shiftl_mul_pow2 // uint64_id; [lia|]. by apply lor_add.
Qed.

(** The twelve bytes sent to the controllers, in order. *)
Definition pic_commands : list (Z * Z) :=
  [(0x21, 0xff); (0xa1, 0xff); (0x20, 0x11); (0x21, 0x20); (0x21, 0x04); (0x21, 0x01);
   (0xa0, 0x11); (0xa1, 0x28); (0xa1, 0x02); (0xa1, 0x01); (0x21, 0x00); (0xa1, 0x00)]%Z.

(** What [intr_init] leaves. *)
Record intr_initialized (s s' : istate) : Prop := {
  ii_tables : tables_ok s';
  ii_limit : idtr_limit (idtr s') = 2047%Z;
  ii_base : idtr_base (idtr s') = idt_addr;
  ii_handlers : intr_handlers s' = intr_handlers s;
  ii_ports : ports s' = rev pic_commands ++ ports s;
  ii_kernel : i_kernel s' = i_kernel s;
  ii_flags : eflags s' = eflags s ∧ in_external_intr s' = in_external_intr s;
}.

Lemma runs_intr_init s (Q : unit → istate → Prop) :
  length (idt s) = INTR_CNT → length (intr_handlers s) = INTR_CNT →
  length (intr_names s) = INTR_CNT → length (unexpected_cnt s) = INTR_CNT →
  (∀ s', intr_initialized s s' → Q tt s') → runs intr_init s Q.
Proof.
  intros H1 H2 H3 H4 HQ. rw /intr_init /pic_init /outb. steps.
  eapply (runs_init_idt_loop INTR_CNT 0); [by rw H1|]. intros l Hl _ Hg. rw /lidt. steps.
  change (Z.of_nat (8 * INTR_CNT) - 1)%Z with 2047%Z. rw make_idtr_exact.
  pose proof idt_addr_range as Hr. apply HQ.
  set (nms := foldl _ _ exception_names).
  assert (length nms = INTR_CNT) as Hn.
  { rw /nms length_foldl_insert. etrans; [apply length_init_names|done]. }
  clearbody nms. split; try reflexivity.
  - split; [by simpl; rw Hl|done..|]. intros v g. cbn [idt set_names set_idtr set_idt]. intros E.
    pose proof (lookup_lt_Some _ _ _ E) as Hv. rw Hg in E; [lia|].
    injection E as <-. rw /gate_ok. exists 0%Z, 14%Z. split_and!; [|by left|done].
    pose proof (intr_stubs_range (Z.of_nat v)). apply gate_sum_fields; lia.
  - rw /idtr_limit Z_mod_plus_full. by apply Z.mod_small.
  - rw /idtr_base Z.div_add // Z.div_small // Z.add_0_l. by apply Z.mod_small.
  - done.
Qed.
End Registration.

(** ** Unexpected interrupts *)

(** [n & (n - 1)] is zero exactly for the powers of two. *)
Lemma land_pred_pow2 n :
  (0 < n)%Z → (Z.land n (n - 1) = 0)%Z ↔ ∃ b, n = (2 ^ b)%Z.
Proof.
  intros Hn. split.
  - intros E. exists (Z.log2 n).
    destruct (Z.log2_spec n Hn) as [Hlo Hhi]. apply Z.le_antisymm; [|done].
    apply Z.nlt_ge. intros Hlt. set (k := Z.log2 n) in *.
    assert (0 ≤ k)%Z by apply Z.log2_nonneg.
    assert (Z.log2 (n - 1) = k) as Ek by (apply Z.log2_unique; lia).
    assert (Z.testbit (Z.land n (n - 1)) k = true) as Hb.
    { rw Z.land_spec Z.bit_log2 // -Ek Z.bit_log2 //. lia. }
    by rw E Z.bits_0 in Hb.
  - intros [b ->]. assert (0 ≤ b)%Z as Hb.
    { apply Z.nlt_ge. intros Hb. by rw Z.pow_neg_r in Hn. }
    rw Z.sub_1_r -Z.ones_equiv Z.land_ones //.
    apply Z.mod_same, Z.pow_nonzero; lia.
Qed.

(** The number of messages after [n] interrupts: one at each power of two. *)
Definition messages (n : Z) : nat := if bool_decide (n ≤ 0)%Z then O else S (Z.to_nat (Z.log2 n)).

Lemma messages_succ n :
  (0 ≤ n)%Z →
  messages (n + 1) =
    if bool_decide (Z.land (n + 1) n = 0)%Z then S (messages n) else messages n.
Proof.
  intros Hn. pose proof (land_pred_pow2 (n + 1) ltac:(lia)) as Hp.
  rw (_ : n + 1 - 1 = n)%Z in Hp; [lia|]. rw /messages (bool_decide_eq_false_2 (n + 1 ≤ 0)%Z); [lia|].
  destruct (decide (n = 0)%Z) as [->|Hne]; [done|].
  rw (bool_decide_eq_false_2 (n ≤ 0)%Z); [lia|]. change (n + 1)%Z with (Z.succ n) in *.
  pose proof (Z.log2_nonneg n) as Hl.
  pose proof (Z.log2_eq_succ_iff_pow2 n ltac:(lia)) as Hs. case_bool_decide as Hb.
  - rw (proj2 Hs); [by apply Hp|]. lia.
  - destruct (Z.log2_succ_or n) as [E|E]; [|by rw E]. by apply Hs, Hp in E.
Qed.

(** The console and the counter of vector [v]. *)
Definition console (s : istate) : list output := k_out (i_kernel s).
Definition unexpected_of (s : istate) (v : Z) : Z := default 0%Z (unexpected_cnt s !! Z.to_nat v).

Fixpoint repeat_m {S} (n : nat) (m : M S unit) : M S unit :=
  match n with O => mret tt | S n => m;; repeat_m n m end.

Lemma runs_unexpected s f (Q : unit → istate → Prop) :
  let v := f_vec_no f in let n := (unexpected_of s v + 1)%Z in
  (0 ≤ v < 256)%Z → length (unexpected_cnt s) = INTR_CNT → length (intr_names s) = INTR_CNT →
  (0 ≤ unexpected_of s v)%Z → (n < 2 ^ 32)%Z →
  (∀ s', unexpected_of s' v = n → length (unexpected_cnt s') = INTR_CNT →
         intr_names s' = intr_names s →
         length (console s') = (length (console s) +
           if bool_decide (Z.land n (n - 1) = 0)%Z then 1 else 0)%nat → Q tt s') →
  runs (unexpected_interrupt f) s Q.
Proof.
  intros v n Hv Hu Hn Hc Hb HQ. rw /unexpected_interrupt. fold v.
  destruct (lookup_lt_is_Some_2 (unexpected_cnt s) (Z.to_nat v)) as [c Ec].
  { rw Hu /INTR_CNT. lia. }
  destruct (lookup_lt_is_Some_2 (intr_names s) (Z.to_nat v)) as [nm En].
  { rw Hn /INTR_CNT. lia. }
  assert (c = unexpected_of s v) as Ecu by (by rw /unexpected_of Ec).
  step. eapply runs_elt; [lia|done|]. cbv zeta. rw Ecu. fold n.
  rw (uint32_id n) ?(uint32_id (n - 1)); [lia..|]. steps.
  assert (∀ s', unexpected_cnt s' = <[Z.to_nat v:=n]> (unexpected_cnt s) →
    unexpected_of s' v = n ∧ length (unexpected_cnt s') = INTR_CNT) as Hs'.
  { intros s' E. split.
    - rw /unexpected_of E list_lookup_insert_eq //. by eapply lookup_lt_Some.
    - by rw E length_insert. }
  case_bool_decide as Hp.
  - step. eapply runs_elt; [lia|exact En|]. apply runs_zoom. rw /printf /emit. step.
    apply HQ; [by apply Hs'|by apply Hs'|done|]. rw /console /=. lia.
  - step. apply HQ; [by apply Hs'|by apply Hs'|done|]. rw /console /=. lia.
Qed.
