(* ===== verification/InterruptProps.v ===== *)
(** * Properties of the interrupt system

    Descriptors, the descriptor table along registrations, the dispatch of external
    interrupts over the kernel, and the rate of the messages about unexpected ones. *)

From S2P Require Import Prelude CList Machine Thread Main Sim Sched SchedInv ThreadRep Kernel.
From S2P Require Import Boot Reach Demo Interrupt InterruptSpec.

(** ** Registrations *)

Inductive registration :=
| RegExt (vec_no handler : Z) (nm : string)
| RegInt (vec_no dpl : Z) (level : intr_level) (handler : Z) (nm : string).

Section Props.
Context `{Platform, X86}.
Implicit Types (s : istate).

Definition register (r : registration) : M istate unit :=
  match r with
  | RegExt v h nm => intr_register_ext v h nm
  | RegInt v dpl level h nm => intr_register_int v dpl level h nm
  end.

Fixpoint register_all (rs : list registration) : M istate unit :=
  match rs with
  | [] => mret tt
  | r :: rs => register r;; register_all rs
  end.

Lemma make_gate_inv f dpl type s g s' :
  make_gate f dpl type s = Ok (g, s') → (0 ≤ dpl ≤ 3)%Z.
Proof.
  rw /make_gate. intros [_ E]%bind_assert_inv. apply bind_assert_inv in E as [Hd _].
  apply andb_prop in Hd as [Hlo%bool_decide_eq_true Hhi%bool_decide_eq_true]. lia.
Qed.

Lemma register_handler_inv v dpl level h nm s s' :
  (0 ≤ v)%Z → register_handler v dpl level h nm s = Ok (tt, s') →
  intr_handlers s !! Z.to_nat v = Some NULL ∧ (0 ≤ dpl ≤ 3)%Z ∧
  s' = registered s v dpl level h nm.
Proof.
  intros Hv E. assert (intr_handlers s !! Z.to_nat v = Some NULL ∧ (0 ≤ dpl ≤ 3)%Z) as [Hh Hd].
  { apply bind_inv in E as (h0 & s0 & E0 & E). revert E0.
    rw /elt bool_decide_eq_true_2 //. destruct (intr_handlers s !! Z.to_nat v) as [h1|] eqn:Hl; [|done]. intros [= -> <-].
    apply bind_assert_inv in E as [->%bool_decide_eq_true E]. split; [done|].
    apply bind_inv in E as ([] & s1 & E & _). revert E.
    case_bool_decide; intros (g & s2 & Eg & _)%bind_inv; by eapply make_gate_inv. }
  split_and!; [done|lia|lia|].
  destruct (runs_inv _ _ _ (runs_register_handler s v dpl level h nm (λ _ s1,
    s1 = registered s v dpl level h nm) Hv Hh Hd eq_refl)) as ([] & s1 & E1 & ->).
  rw E in E1. by injection E1.
Qed.

Lemma uint8_range z : (0 ≤ uint8 z < 256)%Z.
Proof. by apply (Z.mod_pos_bound z 256). Qed.

Lemma register_ok r s s' :
  tables_ok s → register r s = Ok (tt, s') → tables_ok s' ∧ idtr s' = idtr s.
Proof.
  intros Hs. destruct r as [v h nm|v dpl level h nm]; simpl;
    rw /intr_register_ext /intr_register_int; pose proof (uint8_range v) as Hv;
    intros [Hc E]%bind_assert_inv; apply register_handler_inv in E as (Hh & Hd & ->); try lia;
    (split; [apply registered_ok; [done|lia|lia|]|done]); [done|].
  intros Hx. apply orb_prop in Hc as [Hc%bool_decide_eq_true|Hc%bool_decide_eq_true]; lia.
Qed.

Lemma register_all_ok rs s s' :
  tables_ok s → register_all rs s = Ok (tt, s') → tables_ok s' ∧ idtr s' = idtr s.
Proof.
  revert s. induction rs as [|r rs IH]; intros s Hs; simpl.
  { by intros [= ->]. }
  rw /mbind /M_bind. destruct (register r s) as [[[] s1]|] eqn:E; [|done].
  destruct (register_ok _ _ _ Hs E) as [H1 H2]. rw -H2. by apply IH.
Qed.

(** A descriptor holds its fields: read back the way the processor does, the gate
    that [make_gate] builds has the handler's address, the kernel's code segment, the
    privilege level and the type it was given, and is present. *)
Theorem gate_round_trip s function dpl type :
  (0 < function < 2 ^ 32)%Z → (0 ≤ dpl ≤ 3)%Z → (0 ≤ type ≤ 15)%Z →
  runs (make_gate function dpl type) s (λ g s', gate_to g function dpl type ∧ s' = s).
Proof.
  intros Hf Hd Ht. apply runs_make_gate; [done..|]. split; [|done].
  apply gate_sum_fields; [lia|done..].
Qed.

(** C24.  The descriptor table is always sound: after [intr_init] and any registrations
    that return, the IDT register points to the table of 256 entries, every vector's gate
    is present and enters that vector's own stub, and the vectors of the devices
    (0x20-0x2f) enter with interrupts off and cannot be raised by user code. *)
Theorem idt_sound k flags rs s' :
  (intr_init;; register_all rs) (intr_start k flags) = Ok (tt, s') →
  tables_ok s' ∧ idtr_limit (idtr s') = (8 * 256 - 1)%Z ∧ idtr_base (idtr s') = idt_addr.
Proof.
  destruct (runs_inv _ _ _ (runs_intr_init (intr_start k flags) (λ _ s1,
    intr_initialized (intr_start k flags) s1) eq_refl eq_refl eq_refl eq_refl (λ _ I, I)))
    as ([] & s1 & E1 & []).
  rw (bind_Ok _ _ _ _ _ E1). intros [Hs ->]%register_all_ok; done.
Qed.

(** Registering a handler: on sound tables, a free vector outside the devices' range
    and a privilege level between 0 and 3, [intr_register_int] stores the handler and its
    name and a gate of the asked type, and changes no other vector; a second
    registration of the vector stops with a panic. *)
Theorem register_installs s v dpl level h nm :
  tables_ok s → (0 ≤ v < 256)%Z → ¬ (0x20 ≤ v ≤ 0x2f)%Z → (0 ≤ dpl ≤ 3)%Z → h ≠ NULL →
  intr_handlers s !! Z.to_nat v = Some NULL →
  runs (intr_register_int v dpl level h nm) s (λ _ s',
    tables_ok s' ∧
    intr_handlers s' !! Z.to_nat v = Some h ∧ intr_names s' !! Z.to_nat v = Some (Some nm) ∧
    (∃ g, idt s' !! Z.to_nat v = Some g ∧ gate_to g (intr_stubs v) dpl
            (if bool_decide (level = INTR_ON) then 15%Z else 14%Z)) ∧
    (∀ w, w ≠ Z.to_nat v → intr_handlers s' !! w = intr_handlers s !! w ∧
                            idt s' !! w = idt s !! w) ∧
    ∀ dpl' level' h' nm',
      intr_register_int v dpl' level' h' nm' s' = Err (Panic interrupt_c 170)).
Proof.
  intros Hs Hv Hx Hd Hh Hf. pose proof (lookup_lt_Some _ _ _ Hf) as Hlt.
  assert (uint8 v = v) as Ev by (apply Z.mod_small; lia).
  assert (bool_decide (v < 0x20)%Z || bool_decide (0x2f < v)%Z = true) as Ha.
  { apply orb_true_iff. rw !bool_decide_eq_true. lia. }
  assert (intr_handlers (registered s v dpl level h nm) !! Z.to_nat v = Some h) as Hnew.
  { by rw /= list_lookup_insert_eq. }
  rw /intr_register_int Ev. step. step; [done|]. apply runs_register_handler; [lia|done|done|].
  split_and!; [|done|..].
  - apply registered_ok; [done|lia|done|]. by intros.
  - rw /= list_lookup_insert_eq //. by rw (to_names _ Hs) -(to_handlers _ Hs).
  - eexists. split; [rw /= list_lookup_insert_eq; [by rw (to_idt _ Hs) -(to_handlers _ Hs)|done]|].
    pose proof (intr_stubs_range v). apply gate_sum_fields; [lia|done|]. clear Ha. case_bool_decide; lia.
  - intros w Hw. by rw /= !list_lookup_insert_ne.
  - intros dpl' level' h' nm'. apply runs_err. step; [done|]. apply runs_err.
    eapply runs_elt; [lia|done|]. apply bind_Err, assert_err. by apply bool_decide_eq_false_2.
Qed.

(** ** Dispatch *)

(** The state in which the handler of an external interrupt is called. *)
Definition entered s : istate := set_yield_flag (set_external s true) false.

(** What the acknowledgement sends: to the slave too, for its lines. *)
Definition acknowledgement (v : Z) : list (Z * Z) :=
  if bool_decide (0x28 ≤ v)%Z then [(0xa0, 0x20); (0x20, 0x20)]%Z else [(0x20, 0x20)]%Z.

(** What the dispatcher needs of a handler: it returns with interrupts still off and
    inside the interrupt, leaves the controllers alone and the kernel in good order. *)
Definition handler_contract (h : Z) (f : intr_frame) s : Prop :=
  runs (call_handler h f) (entered s) (λ _ s1,
    level_of s1 = INTR_OFF ∧ in_external_intr s1 = true ∧ ports s1 = ports s ∧
    reachable (i_kernel s1)).

Lemma runs_pic_end v s (Q : unit → istate → Prop) :
  (0x20 ≤ v < 0x30)%Z → Q tt (set_ports s (acknowledgement v ++ ports s)) →
  runs (pic_end_of_interrupt v) s Q.
Proof.
  intros Hv HQ. rw /pic_end_of_interrupt /outb. step.
  step; [rw !bool_decide_eq_true_2; by lia|]. step. step.
  rw /acknowledgement in HQ. case_bool_decide; [step|]; exact HQ.
Qed.

(** C21.  An external interrupt: with interrupts off and none being handled, and a handler
    that keeps its contract, [intr_handler] returns; the controllers have received one
    acknowledgement (and the slave one for its lines), the system is out of the
    interrupt, interrupts are still off, and the kernel, still in a reachable state, has
    yielded exactly when the handler asked for it. *)
Theorem external_interrupt_completes s f h :
  let v := f_vec_no f in
  (0x20 ≤ v < 0x30)%Z → level_of s = INTR_OFF → in_external_intr s = false →
  intr_handlers s !! Z.to_nat v = Some h → h ≠ NULL → handler_contract h f s →
  runs (intr_handler f) s (λ _ s',
    in_external_intr s' = false ∧ level_of s' = INTR_OFF ∧
    ports s' = acknowledgement v ++ ports s ∧ reachable (i_kernel s') ∧
    ∃ s1, call_handler h f (entered s) = Ok (tt, s1) ∧
      if intr_yield_flag s1 then exec Yield (i_kernel s1) = Ok (tt, i_kernel s')
      else i_kernel s' = i_kernel s1).
Proof.
  intros v Hv Hl Hx Hh Hn Hc. rw /intr_handler. fold v.
  rw (bool_decide_eq_true_2 (0x20 ≤ v)%Z); [lia|]. rw (bool_decide_eq_true_2 (v < 0x30)%Z); [lia|].
  cbv zeta. cbn [andb]. step. step. apply runs_get_level. step. step; [by rw Hl|].
  step. apply runs_intr_context. step. step; [by rw Hx|]. steps. change (set_yield_flag _ _) with (entered s).
  eapply runs_elt; [lia|done|]. rw bool_decide_eq_true_2 //. step.
  destruct (runs_inv _ _ _ Hc) as ([] & s1 & E1 & Hl1 & Hx1 & Hp1 & R1).
  eapply runs_Ok; [done|]. step. apply runs_get_level. step. step; [by rw Hl1|].
  step. apply runs_intr_context. step. step; [by rw Hx1|]. steps.
  apply runs_pic_end; [done|]. cbn [ports set_external intr_yield_flag set_ports]. rw Hp1.
  step. step. cbn [intr_yield_flag set_external set_ports].
  destruct (intr_yield_flag s1) eqn:Ey.
  - destruct (reachable_good _ R1) as [A G].
    destruct (exec_good _ _ Yield G I) as (k' & Ek & _). apply runs_zoom. cbn [i_kernel set_external set_ports].
    eapply runs_Ok; [exact Ek|]. split_and!; [done|done|done| |].
    + eapply reach_step; [exact R1|]. by split; [|exact Ek].
    + exists s1. by rw Ey.
  - step. split_and!; [done|done|done|done|]. exists s1. by rw Ey.
Qed.

(** The guards of the dispatcher: an external interrupt that arrives with interrupts
    on panics at line 359, one that arrives during another at line 360, and enabling
    interrupts inside one at line 93; the spurious vectors 0x27 and 0x2f, without a
    handler, are acknowledged and change nothing else. *)
Theorem external_interrupt_guards s f :
  let v := f_vec_no f in (0x20 ≤ v < 0x30)%Z →
  (level_of s = INTR_ON → intr_handler f s = Err (Panic interrupt_c 359)) ∧
  (level_of s = INTR_OFF → in_external_intr s = true →
     intr_handler f s = Err (Panic interrupt_c 360)) ∧
  (in_external_intr s = true → intr_enable s = Err (Panic interrupt_c 93)) ∧
  (level_of s = INTR_OFF → in_external_intr s = false → (v = 0x27 ∨ v = 0x2f)%Z →
     intr_handlers s !! Z.to_nat v = Some NULL →
     intr_handler f s = Ok (tt, set_yield_flag (set_ports s (acknowledgement v ++ ports s)) false)).
Proof.
  intros v Hv. rw /intr_handler. fold v.
  rw (bool_decide_eq_true_2 (0x20 ≤ v)%Z); [lia|]. rw (bool_decide_eq_true_2 (v < 0x30)%Z); [lia|].
  cbv zeta. cbn [andb]. split_and!.
  - intros Hl. apply bind_Err, runs_err, runs_get_level, bind_Err, assert_err. by rw Hl.
  - intros Hl Hx. apply bind_Err, runs_err, runs_get_level, runs_err. step; [by rw Hl|].
    apply runs_err, runs_intr_context, bind_Err, assert_err. by rw Hx.
  - intros Hx. apply runs_err, runs_get_level, runs_err, runs_intr_context, bind_Err, assert_err.
    by rw Hx.
  - intros Hl Hx Hs Hh. set (m := _ ≫= _).
    assert (runs m s (λ _ s', s' = set_yield_flag (set_ports s (acknowledgement v ++ ports s)) false))
      as Hr; [|by destruct (runs_inv _ _ _ Hr) as ([] & s' & -> & ->)].
    rw /m. step. step. apply runs_get_level. step. step; [by rw Hl|].
    step. apply runs_intr_context. step. step; [by rw Hx|]. steps.
    eapply runs_elt; [lia|done|].
    rw (bool_decide_eq_false_2 (NULL ≠ NULL)); [by intros []|].
    rw (_ : bool_decide (v = 39%Z) || bool_decide (v = 47%Z) = true).
    { apply orb_true_iff. rw !bool_decide_eq_true. lia. }
    steps. apply runs_get_level. step. step; [by apply bool_decide_eq_true_2|].
    step. apply runs_intr_context. step. step; [done|]. steps. apply runs_pic_end; [done|].
    steps. destruct s; simpl in *. by subst.
Qed.

(** ** Unexpected interrupts *)

Lemma runs_unexpected_n n s f (Q : unit → istate → Prop) :
  let v := f_vec_no f in
  (0 ≤ v < 256)%Z → length (unexpected_cnt s) = INTR_CNT → length (intr_names s) = INTR_CNT →
  (0 ≤ unexpected_of s v)%Z → (unexpected_of s v + Z.of_nat n < 2 ^ 32)%Z →
  (∀ s', unexpected_of s' v = (unexpected_of s v + Z.of_nat n)%Z →
         length (console s') + messages (unexpected_of s v)
           = length (console s) + messages (unexpected_of s v + Z.of_nat n) → Q tt s') →
  runs (repeat_m n (unexpected_interrupt f)) s Q.
Proof.
  intros v Hv. revert s. induction n as [|n IH]; intros s Hu Hn Hc Hb HQ; cbn [repeat_m].
  { step. apply HQ; by rw Z.add_0_r. }
  step. apply runs_unexpected; [done|done|done|done|fold v; lia|]. fold v. intros s1 E1 Hu1 Hn1 Hl1.
  rw (_ : unexpected_of s v + 1 - 1 = unexpected_of s v)%Z in Hl1; [lia|].
  pose proof (messages_succ _ Hc) as Hm. apply IH; [done|by rw Hn1|lia|lia|].
  rw E1 (_ : unexpected_of s v + 1 + Z.of_nat n = unexpected_of s v + Z.of_nat (S n))%Z; [lia|].
  intros s' E' Hl'. apply HQ; [done|]. revert Hm Hl1. case_bool_decide; lia.
Qed.

(** The messages about unexpected interrupts are rate-limited: [n] interrupts of a
    vector without a handler, counted from zero, leave the counter at [n] and print
    exactly [log2 n + 1] messages, one at each power of two. *)
Theorem unexpected_rate_limited s f n :
  let v := f_vec_no f in
  tables_ok s → (0 ≤ v < 256)%Z → unexpected_of s v = 0%Z → (0 < n)%nat → (Z.of_nat n < 2 ^ 32)%Z →
  runs (repeat_m n (unexpected_interrupt f)) s (λ _ s',
    unexpected_of s' v = Z.of_nat n ∧
    Z.of_nat (length (console s')) = (Z.of_nat (length (console s)) + Z.log2 (Z.of_nat n) + 1)%Z).
Proof.
  intros v Hs Hv Hz Hn Hb. apply runs_unexpected_n; fold v; rewrite ?Hz; [done|apply Hs|apply Hs|lia|lia|].
  intros s' -> Hl. split; [lia|]. revert Hl.
  rw /messages bool_decide_eq_true_2 // bool_decide_eq_false_2; [lia|].
  pose proof (Z.log2_nonneg (Z.of_nat n)). rw Z.add_0_l. lia.
Qed.
End Props.

(** ** Instances *)

(** Stubs sixteen bytes apart, the selector 8, and one handler, at 0x10008000, that asks
    for a yield; the others do nothing. *)
#[local] Program Instance demo_x86 : X86 := {
  intr_stubs v := (0x10000000 + 16 * (v `mod` 256))%Z;
  SEL_KCSEG := 8;
  idt_addr := 0x20008000;
  call_handler h f := if bool_decide (h = 0x10008000)%Z then intr_yield_on_return_ext else mret tt;
}.
Next Obligation. intros v. pose proof (Z.mod_pos_bound v 256 ltac:(lia)). lia. Qed.
Next Obligation. lia. Qed.
Next Obligation. lia. Qed.

Definition demo_frame (v : Z) : intr_frame :=
  IntrFrame 0 0 0 0 0 0 0 0 0 0 0 0 v 0 0 0 0 0 0 0.

Lemma gate_round_trip_witness :
  runs (make_gate 0x12345678 3 15) (intr_start demo_boot 0)
    (λ g _, gate_to g 0x12345678 3 15).
Proof.
  eapply runs_mono; [apply (gate_round_trip (intr_start demo_boot 0) 0x12345678 3 15); lia|].
  by intros g s' [Hg _].
Defined.

(** The timer and a keyboard-like device, and a system call. *)
Definition demo_registrations : list registration :=
  [RegExt 0x20 0x10008000 "8254 Timer"; RegExt 0x21 0x10008100 "8042 Keyboard";
   RegInt 0x30 3 INTR_ON 0x10008200 "syscall"].

Lemma idt_sound_witness :
  ∃ s', (intr_init;; register_all demo_registrations) (intr_start demo_boot 0) = Ok (tt, s') ∧
        tables_ok s'.
Proof.
  destruct ((intr_init;; register_all demo_registrations) (intr_start demo_boot 0))
    as [[[] s']|] eqn:E; [|by vm_compute in E].
  exists s'. split; [done|]. by apply (idt_sound demo_boot 0 demo_registrations s').
Defined.

Lemma demo_intr k flags :
  ∃ s, intr_init (intr_start k flags) = Ok (tt, s) ∧ intr_initialized (intr_start k flags) s.
Proof.
  destruct (runs_inv _ _ _ (runs_intr_init (intr_start k flags) (λ _ s1,
    intr_initialized (intr_start k flags) s1) eq_refl eq_refl eq_refl eq_refl (λ _ I, I)))
    as ([] & s1 & E1 & I1). eauto.
Qed.

Lemma register_installs_witness :
  ∃ s, tables_ok s ∧ runs (intr_register_int 0x30 3 INTR_ON 0x10008200 "syscall") s
    (λ _ s', intr_handlers s' !! 48 = Some 0x10008200%Z).
Proof.
  destruct (demo_intr demo_boot 0) as (s & _ & I). exists s. split; [apply I|].
  eapply runs_mono.
  - apply (register_installs s 0x30 3 INTR_ON 0x10008200 "syscall"); [apply I|lia|lia|lia|done|].
    by rw (ii_handlers _ _ I).
  - by intros [] s' (_ & Hh & _).
Defined.

Lemma external_interrupt_completes_witness :
  ∃ k, demo demo_rr = Some k ∧
    runs (intr_handler (demo_frame 0x29))
      (set_handlers (intr_start k 0) (<[41 := 0x10008000%Z]> (replicate INTR_CNT NULL)))
      (λ _ s', ports s' = [(0xa0, 0x20); (0x20, 0x20)]%Z ∧ reachable (i_kernel s')).
Proof.
  run_demo k E demo_rr. exists k. split; [done|]. eapply runs_mono.
  - apply (external_interrupt_completes _ (demo_frame 0x29) 0x10008000);
      [by cbn; lia|reflexivity|reflexivity|reflexivity|by unfold NULL|].
    unfold handler_contract. cbn [call_handler demo_x86]. rewrite bool_decide_eq_true_2; [reflexivity|].
    rw /intr_yield_on_return_ext. step. apply runs_intr_context. step. step; [reflexivity|]. step.
    refine (conj _ (conj _ (conj _ (demo_reachable _ _ E)))); reflexivity.
  - intros [] s' (_ & _ & Hp & Hr & _). exact (conj Hp Hr).
Defined.

Lemma external_interrupt_guards_witness :
  intr_handler (demo_frame 0x20) (intr_start demo_boot 0x200) = Err (Panic interrupt_c 359).
Proof.
  apply (external_interrupt_guards (intr_start demo_boot 0x200) (demo_frame 0x20));
    [by simpl; lia|done].
Defined.

Lemma unexpected_rate_limited_witness :
  ∃ s, tables_ok s ∧ runs (repeat_m 1000 (unexpected_interrupt (demo_frame 0x40))) s
    (λ _ s', unexpected_of s' 0x40 = 1000%Z).
Proof.
  destruct (demo_intr demo_boot 0) as (s & E & I). exists s. split; [apply I|].
  assert (unexpected_of s 64 = 0%Z) as Hz.
  { assert (match intr_init (intr_start demo_boot 0) with
            | Ok (_, s) => unexpected_of s 64 = 0%Z | Err _ => False end) as Hz by by vm_compute.
    by rw E in Hz. }
  eapply runs_mono; [apply (unexpected_rate_limited s (demo_frame 0x40) 1000);
    [apply I|by simpl; lia|exact Hz|lia|lia]|].
  by intros [] s' [Hu _].
Defined.
