(* ===== verification/Synch.v ===== *)
(** * lib/synch.c: semaphores, locks and condition variables

    The operations run on the interrupt system of interrupt.c and on the threads of
    thread.c.  The waiters of a semaphore are threads linked by [elem], those of a
    condition are [semaphore_elem]s on the stacks of the threads that wait; both are
    lists of the shared heap of cells.  [sema_down] loops on [thread_block], and
    [switch_threads_c] changes the running thread without changing the program counter:
    the loop goes on in the same call with the next thread as the current one. *)

From S2P Require Import Prelude CList Machine Thread Interrupt.

Definition synch_c : string := "lib/synch.c".

(** ** Data

    A [struct semaphore] is its counter, at its address, and the list of its waiters
    behind it; a [struct lock] its holder and a semaphore; a [struct condition] a list;
    a [struct semaphore_elem] a cell and a semaphore.  The counters and the holders
    are words apart from the objects of the kernel: nothing but the code of this file
    writes them. *)

Definition off_waiters : Z := 4.
Definition off_lock_semaphore : Z := 4.
Definition off_elem_semaphore : Z := 8.
Definition sizeof_semaphore : Z := 20.

Definition waiters (sema : Z) : Z := (sema + off_waiters)%Z.
Definition lock_sema (lock : Z) : Z := (lock + off_lock_semaphore)%Z.
Definition elem_sema (w : Z) : Z := (w + off_elem_semaphore)%Z.
(** [&cond->waiters]: a condition is its list. *)
Definition cond_waiters (cond : Z) : Z := cond.
(** [list_entry (e, struct semaphore_elem, elem)]. *)
Definition list_entry_waiter (e : Z) : Z := ((e + 4) - (0 + 4))%Z.

Record sstate := SState {
  y_intr : istate;
  values : gmap Z Z;          (* [value], by address of the semaphore; unsigned *)
  holders : gmap Z Z;         (* [holder], by address of the lock *)
}.

Definition set_intr (s : sstate) v : sstate := SState v (values s) (holders s).
Definition set_values (s : sstate) v : sstate := SState (y_intr s) v (holders s).
Definition set_holders (s : sstate) v : sstate := SState (y_intr s) (values s) v.

Definition on_intr {A} (m : M istate A) : M sstate A :=
  zoom y_intr (λ i s, set_intr s i) m.
Definition on_thread {A} (m : M kstate A) : M sstate A := on_intr (on_kernel m).
Definition on_list {A} (m : M heap A) : M sstate A := on_thread (on_heap m).

Definition load_value (sema : Z) : M sstate Z := λ s,
  match values s !! sema with Some v => Ok (v, s) | None => Err (Fault sema) end.
Definition store_value (sema v : Z) : M sstate unit := λ s,
  match values s !! sema with
  | Some _ => Ok (tt, set_values s (<[sema := v]> (values s)))
  | None => Err (Fault sema)
  end.
Definition load_holder (lock : Z) : M sstate Z := λ s,
  match holders s !! lock with Some v => Ok (v, s) | None => Err (Fault lock) end.
Definition store_holder (lock v : Z) : M sstate unit := λ s,
  match holders s !! lock with
  | Some _ => Ok (tt, set_holders s (<[lock := v]> (holders s)))
  | None => Err (Fault lock)
  end.

(** Memory for a local variable: a semaphore at [a], and a cell. *)
Definition new_cell (a : Z) : M sstate unit :=
  on_thread (modify (λ k, set_heap k (<[a := Elem NULL NULL]> (k_heap k)))).
Definition new_semaphore (a : Z) : M sstate unit :=
  modify (λ s, set_values s (<[a := 0%Z]> (values s)));;
  new_cell (head_of (waiters a));;
  new_cell (tail_of (waiters a)).

Section Synch.
Context `{Platform, X86}.

(** ** Semaphores *)

Definition sema_init (sema value : Z) : M sstate unit :=
  ASSERT synch_c 48 (bool_decide (sema ≠ NULL));;
  store_value sema (uint32 value);;
  on_list (list_init (waiters sema)).

(** [while (sema->value == 0) { list_push_back; thread_block; }], for at most [fuel]
    tests of the condition. *)
Fixpoint sema_down_loop (fuel : nat) (sema : Z) : M sstate unit :=
  match fuel with
  | O => fail Diverge
  | S fuel =>
      v ← load_value sema;
      if bool_decide (v = 0)%Z then
        c ← on_thread thread_current;
        on_list (list_push_back (waiters sema) (elem_ptr c));;
        on_thread thread_block;;
        sema_down_loop fuel sema
      else mret tt
  end.

Definition sema_down (fuel : nat) (sema : Z) : M sstate unit :=
  ASSERT synch_c 66 (bool_decide (sema ≠ NULL));;
  c ← on_intr intr_context;
  ASSERT synch_c 67 (negb c);;
  old_level ← on_intr intr_disable;
  sema_down_loop fuel sema;;
  v ← load_value sema;
  store_value sema (uint32 (v - 1));;
  on_intr (intr_set_level old_level);;
  mret tt.

Definition sema_try_down (sema : Z) : M sstate bool :=
  ASSERT synch_c 90 (bool_decide (sema ≠ NULL));;
  old_level ← on_intr intr_disable;
  v ← load_value sema;
  success ←
    (if bool_decide (0 < v)%Z then store_value sema (uint32 (v - 1));; mret true
     else mret false);
  on_intr (intr_set_level old_level);;
  mret success.

Definition sema_up (sema : Z) : M sstate unit :=
  ASSERT synch_c 114 (bool_decide (sema ≠ NULL));;
  old_level ← on_intr intr_disable;
  b ← on_list (list_empty (waiters sema));
  (if (b : bool) then mret tt
   else
     e ← on_list (list_pop_front (waiters sema));
     on_thread (thread_unblock (list_entry_elem e)));;
  v ← load_value sema;
  store_value sema (uint32 (v + 1));;
  on_intr (intr_set_level old_level);;
  mret tt.

(** ** The self-test *)

Fixpoint sema_test_helper_loop (n : nat) (fuel : nat) (sema : Z) : M sstate unit :=
  match n with
  | O => mret tt
  | S n =>
      sema_down fuel sema;;
      sema_up (sema + sizeof_semaphore);;
      sema_test_helper_loop n fuel sema
  end.

Definition sema_test_helper (fuel : nat) (sema_ : Z) : M sstate unit :=
  sema_test_helper_loop 10 fuel sema_.

Fixpoint sema_self_test_loop (n : nat) (fuel : nat) (sema : Z) : M sstate unit :=
  match n with
  | O => mret tt
  | S n =>
      sema_up sema;;
      sema_down fuel (sema + sizeof_semaphore);;
      sema_self_test_loop n fuel sema
  end.

(** [sema], the array of two semaphores on the stack, is at the given address;
    [helper] and [literal] are the addresses of [sema_test_helper] and of the name. *)
Definition sema_self_test (fuel : nat) (sema helper literal : Z) : M sstate unit :=
  new_semaphore sema;;
  new_semaphore (sema + sizeof_semaphore);;
  on_thread (printf "Testing semaphores..." []);;
  sema_init sema 0;;
  sema_init (sema + sizeof_semaphore) 0;;
  on_thread (thread_create (CStr literal "sema-test") helper sema 11);;
  sema_self_test_loop 10 fuel sema;;
  on_thread (printf "done.\n" []).

(** ** Locks *)

Definition lock_init (lock : Z) : M sstate unit :=
  ASSERT synch_c 179 (bool_decide (lock ≠ NULL));;
  store_holder lock NULL;;
  sema_init (lock_sema lock) 1.

Definition lock_held_by_current_thread (lock : Z) : M sstate bool :=
  ASSERT synch_c 245 (bool_decide (lock ≠ NULL));;
  h ← load_holder lock;
  c ← on_thread thread_current;
  mret (bool_decide (h = c)).

Definition lock_acquire (fuel : nat) (lock : Z) : M sstate unit :=
  ASSERT synch_c 196 (bool_decide (lock ≠ NULL));;
  c ← on_intr intr_context;
  ASSERT synch_c 197 (negb c);;
  b ← lock_held_by_current_thread lock;
  ASSERT synch_c 198 (negb b);;
  sema_down fuel (lock_sema lock);;
  c ← on_thread thread_current;
  store_holder lock c.

Definition lock_try_acquire (lock : Z) : M sstate bool :=
  ASSERT synch_c 215 (bool_decide (lock ≠ NULL));;
  b ← lock_held_by_current_thread lock;
  ASSERT synch_c 216 (negb b);;
  success ← sema_try_down (lock_sema lock);
  (if (success : bool) then c ← on_thread thread_current; store_holder lock c
   else mret tt);;
  mret success.

Definition lock_release (lock : Z) : M sstate unit :=
  ASSERT synch_c 232 (bool_decide (lock ≠ NULL));;
  b ← lock_held_by_current_thread lock;
  ASSERT synch_c 233 b;;
  store_holder lock NULL;;
  sema_up (lock_sema lock).

(** ** Condition variables *)

Definition cond_init (cond : Z) : M sstate unit :=
  ASSERT synch_c 263 (bool_decide (cond ≠ NULL));;
  on_list (list_init (cond_waiters cond)).

(** [waiter] is the address of the local [struct semaphore_elem]. *)
Definition cond_wait (fuel : nat) (waiter cond lock : Z) : M sstate unit :=
  new_cell waiter;;
  new_semaphore (elem_sema waiter);;
  ASSERT synch_c 293 (bool_decide (cond ≠ NULL));;
  ASSERT synch_c 294 (bool_decide (lock ≠ NULL));;
  c ← on_intr intr_context;
  ASSERT synch_c 295 (negb c);;
  b ← lock_held_by_current_thread lock;
  ASSERT synch_c 296 b;;
  sema_init (elem_sema waiter) 0;;
  on_list (list_push_back (cond_waiters cond) waiter);;
  lock_release lock;;
  sema_down fuel (elem_sema waiter);;
  lock_acquire fuel lock.

Definition cond_signal (cond lock : Z) : M sstate unit :=
  ASSERT synch_c 315 (bool_decide (cond ≠ NULL));;
  ASSERT synch_c 316 (bool_decide (lock ≠ NULL));;
  c ← on_intr intr_context;
  ASSERT synch_c 317 (negb c);;
  b ← lock_held_by_current_thread lock;
  ASSERT synch_c 318 b;;
  b ← on_list (list_empty (cond_waiters cond));
  if (b : bool) then mret tt
  else
    e ← on_list (list_pop_front (cond_waiters cond));
    sema_up (elem_sema (list_entry_waiter e)).

(** [while (!list_empty (&cond->waiters)) cond_signal (cond, lock);] *)
Fixpoint cond_broadcast_loop (fuel : nat) (cond lock : Z) : M sstate unit :=
  match fuel with
  | O => fail Diverge
  | S fuel =>
      b ← on_list (list_empty (cond_waiters cond));
      if (b : bool) then mret tt
      else cond_signal cond lock;; cond_broadcast_loop fuel cond lock
  end.

(** The bound: every signal takes one cell of the heap off the list. *)
Definition cond_broadcast (cond lock : Z) : M sstate unit :=
  ASSERT synch_c 334 (bool_decide (cond ≠ NULL));;
  ASSERT synch_c 335 (bool_decide (lock ≠ NULL));;
  s ← get;
  cond_broadcast_loop (S (size (k_heap (i_kernel (y_intr s))))) cond lock.
End Synch.
