(* ===== verification/SynchSpec.v ===== *)
(** * Semaphores over the kernel: representation and frames

    [srep ss S sema]: the memory [ss] holds, at [sema], a semaphore with the value and
    the queue of waiting threads of [S], beside a kernel that represents the scheduler
    of [S].  The file proves that each semaphore operation returns and keeps the
    relation, with the interrupt flag as it was. *)

From S2P Require Import Prelude CList CListRepr CListSpec Machine Thread Sched ThreadRep.
From S2P Require Import ThreadLife ThreadSpec Interrupt InterruptSpec Synch.

Definition kern (ss : sstate) : kstate := i_kernel (y_intr ss).

(** ** Running on the layers below *)

Section Layers.
Context `{Platform}.
Implicit Types (ss : sstate).

Lemma runs_on_thread {B} (m : M kstate B) ss (Q : B → sstate → Prop) :
  runs m (kern ss) (λ b k, Q b (set_intr ss (set_kernel (y_intr ss) k))) →
  runs (on_thread m) ss Q.
Proof. intros Hm. apply runs_zoom, runs_zoom. exact Hm. Qed.

Lemma runs_load_value sema v ss (Q : Z → sstate → Prop) :
  values ss !! sema = Some v → Q v ss → runs (load_value sema) ss Q.
Proof. intros E HQ. by rw /runs /load_value E. Qed.

Lemma runs_store_value sema v v0 ss (Q : unit → sstate → Prop) :
  values ss !! sema = Some v0 → Q tt (set_values ss (<[sema := v]> (values ss))) →
  runs (store_value sema v) ss Q.
Proof. intros E HQ. by rw /runs /store_value E. Qed.

(** What the layers below return does not touch values and holders. *)
Lemma zoom_intr_inv {B} (m : M istate B) ss b ss' :
  on_intr m ss = Ok (b, ss') → values ss' = values ss ∧ holders ss' = holders ss.
Proof. rw /on_intr /zoom. by destruct (m (y_intr ss)) as [[b' i]|]; [intros [= _ <-]|]. Qed.

(** The memory cells that [thread_unblock] writes. *)
Lemma unblock_footprint k A t :
  krep k A → status_of A t = Some THREAD_BLOCKED → t ∉ a_ready A → t ∉ a_wait A →
  runs (thread_unblock t) k (λ _ k',
    changes (elem_ptr t :: nodes ready_list (elem_ptr <$> a_ready A)) (k_heap k) (k_heap k')).
Proof.
  intros R Hst Hr Hw. pose proof (status_of_lookup _ _ _ Hst) as (i & Hi & Hiv).
  rw /thread_unblock. step. eapply runs_is_thread; [done|eauto|].
  step. step; [done|]. step. destruct (kr_lookup _ _ _ _ R Hi) as (th & Hth & Hab & Hm).
  eapply (runs_Ok _ _ th k); [by rw /load_thread Hth|].
  step. step. { apply bool_decide_eq_true_2. by rw -Hab in Hiv. }
  destruct (kr_elem_cell _ _ _ R (ex_intro _ i Hi)) as (Hd & Hc & Hn & _).
  destruct (kr_elem_free _ _ _ R (ex_intro _ i Hi) Hr Hw) as (F1 & _).
  step. apply runs_on_heap. eapply runs_list_push_back; [by eapply kr_ready|done..|].
  intros h _ C. by rw /runs /update_thread /load_thread /store_thread /mbind /M_bind /= Hth /= Hth.
Qed.
End Layers.

(** ** The waiters of a semaphore *)

(** [z] is not a cell of a thread or of a static list. *)
Definition cell_apart (T : gset Z) (z : Z) : Prop :=
  (∀ l, l ∈ static_lists → z ≠ head_of l ∧ z ≠ tail_of l) ∧
  (∀ t, t ∈ T → z ∉ cells_of t).

(** The sentinels of the list are apart from the kernel. *)
Definition sema_apart (T : gset Z) (sema : Z) : Prop :=
  ∀ z, z = head_of (waiters sema) ∨ z = tail_of (waiters sema) → cell_apart T z.

Record sem_rep (k : kstate) (A : sched) (sema : Z) (ws : list Z) : Prop := {
  sr_list : list_repr (k_heap k) (waiters sema) (elem_ptr <$> ws);
  sr_blocked : ∀ t, t ∈ ws →
    status_of A t = Some THREAD_BLOCKED ∧ t ∉ a_ready A ∧ t ∉ a_wait A;
  sr_apart : sema_apart (dom (k_threads k)) sema;
}.

Section Waiters.
Context `{Platform}.
Implicit Types (k : kstate) (A : sched).

(** The nodes of the waiters and of a list of the kernel do not meet. *)
Lemma waiters_apart k A sema ws l (f : Z → Z) xs z :
  krep k A → sem_rep k A sema ws → l ∈ static_lists →
  (f = allelem_ptr ∨ f = elem_ptr ∧ ∀ t, t ∈ ws → t ∉ xs) →
  (∀ t, t ∈ xs → t ∈ dom (k_threads k)) →
  z ∈ nodes (waiters sema) (elem_ptr <$> ws) → z ∉ nodes l (f <$> xs).
Proof.
  intros R [Hl Hb Ha] Hs Hf Hx Hz Hz'. pose proof (kr_layout _ _ R) as L.
  assert (∀ t, t ∈ ws → t ∈ dom (k_threads k)) as Hws.
  { intros t Ht. destruct (Hb t Ht) as [Hst _]. rw (kr_dom _ _ R).
    by apply elem_of_dom, (status_of_Some _ _ _ Hst). }
  rw !in_nodes_fmap in Hz Hz'.
  assert (∀ t, t ∈ xs → f t ∈ cells_of t) as Hfc.
  { intros t _. rw /cells_of. destruct Hf as [->|[-> _]]; rw /allelem_ptr /elem_ptr;
      [apply elem_of_cons; by left|apply elem_of_cons; right; apply elem_of_cons; by left]. }
  assert (∀ z0, z0 = head_of (waiters sema) ∨ z0 = tail_of (waiters sema) →
    z0 = head_of l ∨ z0 = tail_of l ∨ (∃ t, z0 = f t ∧ t ∈ xs) → False) as Hsent.
  { intros z0 H0 [->|[->|(t & -> & Ht)]]; destruct (Ha _ H0) as [Hst Hth].
    - by destruct (Hst l Hs).
    - by destruct (Hst l Hs).
    - eapply Hth; [by apply Hx|by apply Hfc]. }
  destruct Hz as [->|[->|(t & -> & Ht)]]; [eapply Hsent; [by left|done]|eapply Hsent; [by right|done]|].
  pose proof (layout_range _ L t (Hws t Ht)) as Hrange.
  destruct Hz' as [E|[E|(u & E & Hu)]].
  - rw /static_lists !elem_of_cons in Hs. unfold_addr. destruct Hs as [->|[->|[->|[]%elem_of_nil]]]; lia.
  - rw /static_lists !elem_of_cons in Hs. unfold_addr. destruct Hs as [->|[->|[->|[]%elem_of_nil]]]; lia.
  - destruct Hf as [->|[-> Hd]].
    + by eapply (elem_not_allelem _ L t u); [apply Hws|apply Hx|].
    + apply (inj elem_ptr) in E as ->. by eapply Hd.
Qed.

Lemma sem_rep_tail k A sema t ws :
  sem_rep k A sema (t :: ws) → t ∉ ws.
Proof.
  intros [R _ _]. pose proof (repr_notin _ _ elem_ptr [] ws t R _) as Hn. done.
Qed.

(** Popping the first waiter. *)
Lemma runs_waiters_pop k A sema t ws (Q : Z → kstate → Prop) :
  krep k A → sem_rep k A sema (t :: ws) →
  (∀ k', krep k' A → sem_rep k' A sema ws →
     changes (nodes (waiters sema) (elem_ptr <$> ws)) (k_heap k) (k_heap k') →
     Q (elem_ptr t) k') →
  runs (on_heap (list_pop_front (waiters sema))) k Q.
Proof.
  intros R W HQ. pose proof W as [Hl Hb Ha].
  assert (∀ l (f : Z → Z) xs, l ∈ static_lists →
    (f = allelem_ptr ∨ f = elem_ptr ∧ ∀ t', t' ∈ t :: ws → t' ∉ xs) →
    (∀ t', t' ∈ xs → t' ∈ dom (k_threads k)) → ∀ z, z ∈ nodes l (f <$> xs) →
    z ∉ nodes (waiters sema) (elem_ptr <$> ws)) as Hap.
  { intros l f xs H1 H2 H3 z Hz Hz'. eapply (waiters_apart k A sema (t :: ws) l f xs z); try done.
    rw !in_nodes_fmap in Hz' *. setoid_rewrite elem_of_cons. naive_solver. }
  apply runs_on_heap. eapply runs_list_pop_front; [exact Hl|]. intros h R' C. apply HQ.
  - eapply krep_set_heap; [done|by destruct C|..|by apply R|done|done].
    + eapply repr_frame; [done| |by eapply kr_ready]. apply Hap; [by rw /static_lists; set_solver| |].
      * right. split; [done|]. intros u Hu. apply Hb, Hu.
      * intros u Hu. eapply kr_live; [done|]. by left.
    + eapply repr_frame; [done| |by eapply kr_wait]. apply Hap; [by rw /static_lists; set_solver| |].
      * right. split; [done|]. intros u Hu. apply Hb, Hu.
      * intros u Hu. eapply kr_live; [done|]. by right; left.
    + eapply repr_frame; [done| |by eapply kr_all]. apply Hap; [by rw /static_lists; set_solver|by left|].
      intros u Hu. eapply kr_live; [done|]. by right; right.
    + intros u Hu. by eapply kr_live_Some.
  - split; [done| |done]. intros u Hu. apply Hb. by right.
  - exact C.
Qed.

(** Waking a thread that is not among the waiters. *)
Lemma runs_unblock_waiters k A sema t ws (Q : unit → kstate → Prop) :
  krep k A → sem_rep k A sema ws → t ∉ ws → status_of A t = Some THREAD_BLOCKED →
  t ∉ a_ready A → t ∉ a_wait A →
  (∀ k', krep k' (a_unblock t A) → sem_rep k' (a_unblock t A) sema ws →
     changes (elem_ptr t :: nodes ready_list (elem_ptr <$> a_ready A)) (k_heap k) (k_heap k') →
     Q tt k') →
  runs (thread_unblock t) k Q.
Proof.
  intros R W Ht Hst Hr Hw HQ. eapply runs_mono.
  - apply runs_and; [eapply (runs_thread_unblock k A t (λ _ k', krep k' (a_unblock t A))); done|].
    by eapply unblock_footprint.
  - intros [] k' [R' C]. apply HQ; [done| |done]. pose proof W as [Hl Hb Ha].
    assert (t ∈ dom (k_threads k)) as Htd.
    { rw (kr_dom _ _ R). by apply elem_of_dom, (status_of_Some _ _ _ Hst). }
    split.
    + eapply repr_frame; [done| |done]. intros z Hz Hz'. apply elem_of_cons in Hz' as [->|Hz'].
      * rw in_nodes_fmap in Hz. destruct Hz as [E|[E|(u & E & Hu)]].
        -- eapply (Ha (elem_ptr t)); [by left|done|]. rw /cells_of /elem_ptr. set_solver.
        -- eapply (Ha (elem_ptr t)); [by right|done|]. rw /cells_of /elem_ptr. set_solver.
        -- apply (inj elem_ptr) in E as ->. done.
      * eapply (waiters_apart k A sema ws ready_list elem_ptr (a_ready A) z); try done.
        -- by rw /static_lists; set_solver.
        -- right. split; [done|]. intros u Hu. apply Hb, Hu.
        -- intros u Hu. eapply kr_live; [done|]. by left.
    + intros u Hu. destruct (Hb u Hu) as (H1 & H2 & H3). assert (u ≠ t) as Hne by (by intros ->).
      rw /a_unblock set_status_other //. split_and!; [done| |done].
      simpl. rw elem_of_app list_elem_of_singleton. naive_solver.
    + rw (kr_dom _ _ R') /=. rw dom_alter_L -(kr_dom _ _ R). done.
Qed.
End Waiters.

(** ** The abstract semaphore *)

Record asem := ASem { as_value : Z; as_waiters : list Z; as_sched : sched }.

(** [sema_up]: the longest waiting thread becomes ready. *)
Definition a_sema_up (S : asem) : asem :=
  match as_waiters S with
  | [] => ASem (uint32 (as_value S + 1)) [] (as_sched S)
  | t :: ws => ASem (uint32 (as_value S + 1)) ws (a_unblock t (as_sched S))
  end.

Definition a_take (S : asem) : asem :=
  ASem (uint32 (as_value S - 1)) (as_waiters S) (as_sched S).

Inductive sem_op := SemUp | SemTryDown | SemDown.

#[global] Instance sem_op_eq_dec : EqDecision sem_op.
Proof. solve_decision. Defined.

(** The result and the state after an operation; [None] for a down that must wait. *)
Definition a_sem (o : sem_op) (S : asem) : option (bool * asem) :=
  match o with
  | SemUp => Some (true, a_sema_up S)
  | SemTryDown => Some (if bool_decide (0 < as_value S)%Z then (true, a_take S) else (false, S))
  | SemDown => if bool_decide (0 < as_value S)%Z then Some (true, a_take S) else None
  end.

Fixpoint a_sems (os : list sem_op) (S : asem) : option (list bool * asem) :=
  match os with
  | [] => Some ([], S)
  | o :: os =>
      match a_sem o S with
      | None => None
      | Some (b, S1) => prod_map (cons b) id <$> a_sems os S1
      end
  end.

(** ** The relation *)

Record srep (ss : sstate) (S : asem) (sema : Z) : Prop := {
  sp_nonnull : sema ≠ NULL;
  sp_value : values ss !! sema = Some (as_value S);
  sp_range : (0 ≤ as_value S < 2 ^ 32)%Z;
  sp_kernel : krep (kern ss) (as_sched S);
  sp_waiters : sem_rep (kern ss) (as_sched S) sema (as_waiters S);
}.

(** [intr_set_level] may restore the level: outside interrupts, or with interrupts off. *)
Definition may_restore (i : istate) : Prop :=
  in_external_intr i = false ∨ level_of i = INTR_OFF.

(** The interrupt system is as before, its kernel apart. *)
Definition same_intr (i i' : istate) : Prop := i' = set_kernel i (i_kernel i').

Section Ops.
Context `{Platform, X86}.
Implicit Types (ss : sstate) (S : asem).

Definition sem_exec (sema : Z) (o : sem_op) : M sstate bool :=
  match o with
  | SemUp => sema_up sema;; mret true
  | SemTryDown => sema_try_down sema
  | SemDown => sema_down 1 sema;; mret true
  end.

Fixpoint sem_execs (sema : Z) (os : list sem_op) : M sstate (list bool) :=
  match os with
  | [] => mret []
  | o :: os => b ← sem_exec sema o; bs ← sem_execs sema os; mret (b :: bs)
  end.

(** The state in a section with interrupts off. *)
Definition off ss : sstate :=
  set_intr ss (set_eflags (y_intr ss) (Z.ldiff (eflags (y_intr ss)) FLAG_IF)).

Lemma runs_disable ss (Q : intr_level → sstate → Prop) :
  Q (level_of (y_intr ss)) (off ss) → runs (on_intr intr_disable) ss Q.
Proof. intros HQ. by apply runs_zoom, runs_intr_disable. Qed.

(** [intr_set_level (old_level)] at the end of the section: the interrupt system is as
    before it, with the kernel as the section left it. *)
Lemma runs_restore ss s1 {B} (b : B) (Q : B → sstate → Prop) :
  may_restore (y_intr ss) → same_intr (y_intr (off ss)) (y_intr s1) →
  Q b (set_intr s1 (set_kernel (y_intr ss) (kern s1))) →
  runs (on_intr (intr_set_level (level_of (y_intr ss)));; mret b) s1 Q.
Proof.
  intros Hm Hs HQ. step. apply runs_zoom, runs_restore_level.
  - by rw Hs.
  - rw Hs. exact Hm.
  - intros l. step. rw Hs /=. destruct (y_intr ss). exact HQ.
Qed.

Lemma set_kernel_same i : set_kernel i (i_kernel i) = i.
Proof. by destruct i. Qed.

Lemma set_intr_same ss : set_intr ss (y_intr ss) = ss.
Proof. by destruct ss. Qed.

(** The relation reads the kernel and the values. *)
Lemma srep_ext ss ss' S sema :
  srep ss S sema → kern ss' = kern ss → values ss' = values ss → srep ss' S sema.
Proof. intros [] Hk Hv. split; rewrite ?Hk ?Hv //. Qed.

(** The cells that [sema_up] writes. *)
Definition up_cells S (sema : Z) : list Z :=
  match as_waiters S with
  | [] => []
  | t :: ws => nodes (waiters sema) (elem_ptr <$> ws) ++
      elem_ptr t :: nodes ready_list (elem_ptr <$> a_ready (as_sched S))
  end.

Lemma runs_sema_up ss S sema (Q : unit → sstate → Prop) :
  srep ss S sema → may_restore (y_intr ss) →
  (∀ ss', srep ss' (a_sema_up S) sema → same_intr (y_intr ss) (y_intr ss') →
     changes (up_cells S sema) (k_heap (kern ss)) (k_heap (kern ss')) → Q tt ss') →
  runs (sema_up sema) ss Q.
Proof.
  intros R Hm HQ. pose proof R as []. rw /sema_up. step. step; [by apply bool_decide_eq_true_2|].
  step. apply runs_disable. step. apply runs_on_thread, runs_on_heap.
  eapply runs_list_empty; [exact (sr_list _ _ _ _ sp_waiters0)|]. step.
  eapply (runs_mono _ _ (λ _ s1, ∃ k1, s1 = set_intr ss (set_kernel (y_intr (off ss)) k1) ∧
    krep k1 (as_sched (a_sema_up S)) ∧
    sem_rep k1 (as_sched (a_sema_up S)) sema (as_waiters (a_sema_up S)) ∧
    changes (up_cells S sema) (k_heap (kern ss)) (k_heap k1))).
  { rw /a_sema_up /up_cells. destruct (as_waiters S) as [|t ws] eqn:Ew; simpl.
    - step. exists (kern ss). split; [|by split_and!].
      by destruct ss as [[[]]].
    - step. apply runs_on_thread. destruct (sr_blocked _ _ _ _ sp_waiters0 t) as (H1 & H2 & H3).
      { by left. }
      pose proof (sem_rep_tail _ _ _ _ _ sp_waiters0) as Hn.
      eapply (runs_waiters_pop (kern ss)); [done..|]. intros k1 R1 W1 C1.
      rw list_entry_elem_ptr. apply runs_on_thread.
      eapply runs_unblock_waiters; [done|done|done|done..|]. intros k2 R2 W2 C2.
      exists k2. split_and!; [done..|]. eapply changes_trans.
      + eapply changes_mono; [|exact C1]. set_solver.
      + eapply changes_mono; [|exact C2]. set_solver. }
  intros [] s1 (k1 & -> & R1 & W1 & C1). step. eapply runs_load_value; [done|].
  step. eapply runs_store_value; [done|]. apply runs_restore; [done..|]. apply HQ; [|done|done].
  assert (as_value (a_sema_up S) = uint32 (as_value S + 1)) as Ev.
  { rw /a_sema_up. by destruct (as_waiters S). }
  split; [done|by rw Ev /= lookup_insert_eq|rw Ev; apply uint32_range|done..].
Qed.

(** Taking a unit, in a section with interrupts off. *)
Lemma srep_take ss S sema i :
  srep ss S sema → i_kernel i = kern ss →
  srep (set_intr (set_values ss (<[sema := uint32 (as_value S - 1)]> (values ss))) i)
    (a_take S) sema.
Proof.
  intros [] Hi. split; simpl; rewrite ?lookup_insert_eq //; [apply uint32_range|..];
    by rw /kern /= Hi.
Qed.

Lemma runs_sema_try_down ss S sema (Q : bool → sstate → Prop) :
  srep ss S sema → may_restore (y_intr ss) →
  (∀ ss' b S', a_sem SemTryDown S = Some (b, S') → srep ss' S' sema →
     y_intr ss' = y_intr ss → Q b ss') →
  runs (sema_try_down sema) ss Q.
Proof.
  intros R Hm HQ. pose proof R as []. rw /sema_try_down. step.
  step; [by apply bool_decide_eq_true_2|]. step. apply runs_disable.
  step. eapply runs_load_value; [done|]. simpl in HQ. step. case_bool_decide as Hv.
  - step. eapply runs_store_value; [done|]. step. apply runs_restore; [done|done|].
    eapply HQ; [done| |].
    + by apply srep_take.
    + exact (set_kernel_same (y_intr ss)).
  - step. apply runs_restore; [done|done|]. eapply HQ; [done| |].
    + by eapply srep_ext.
    + exact (set_kernel_same (y_intr ss)).
Qed.

(** A down that need not wait. *)
Lemma runs_sema_down ss S sema fuel (Q : unit → sstate → Prop) :
  srep ss S sema → in_external_intr (y_intr ss) = false → (0 < as_value S)%Z → (0 < fuel)%nat →
  (∀ ss', srep ss' (a_take S) sema → y_intr ss' = y_intr ss → Q tt ss') →
  runs (sema_down fuel sema) ss Q.
Proof.
  intros R Hx Hv Hf HQ. destruct fuel as [|fuel]; [lia|]. pose proof R as [].
  rw /sema_down. step. step; [by apply bool_decide_eq_true_2|].
  step. apply runs_zoom, runs_intr_context. rw set_intr_same Hx.
  step. step; [done|]. step. apply runs_disable. step.
  cbn [sema_down_loop]. step. eapply runs_load_value; [done|].
  rw bool_decide_eq_false_2; [lia|]. step. step. eapply runs_load_value; [done|].
  step. eapply runs_store_value; [done|]. apply runs_restore; [by left|done|].
  apply HQ; [by apply srep_take|]. exact (set_kernel_same (y_intr ss)).
Qed.

Lemma sem_exec_refines ss S sema o b S' :
  srep ss S sema → in_external_intr (y_intr ss) = false → a_sem o S = Some (b, S') →
  runs (sem_exec sema o) ss (λ b' ss',
    b' = b ∧ srep ss' S' sema ∧ same_intr (y_intr ss) (y_intr ss')).
Proof.
  intros R Hx E.
  assert (∀ i, same_intr i i) as Hrefl by (intros i; by rw /same_intr; destruct i).
  destruct o; cbn [sem_exec].
  - step. eapply runs_sema_up; [done|by left|]. intros ss' R' Hs _. step.
    injection E as <- <-. done.
  - eapply runs_sema_try_down; [done|by left|]. intros ss' b' S1 E1 R1 Hi.
    rw E in E1. injection E1 as <- <-. by rw Hi.
  - simpl in E. case_bool_decide; [|done]. step. eapply runs_sema_down; [done|done|done|lia|].
    intros ss' R' Hi. step. injection E as <- <-. by rw Hi.
Qed.
End Ops.

(** ** Setting up a semaphore *)

Section Setup.
Context `{Platform, X86}.
Implicit Types (k : kstate) (A : sched).

(** A node of a list of the kernel is not apart from it. *)
Lemma kernel_node k l (f : Z → Z) xs z :
  l ∈ static_lists → f = allelem_ptr ∨ f = elem_ptr → (∀ t, t ∈ xs → t ∈ dom (k_threads k)) →
  z ∈ nodes l (f <$> xs) → ¬ cell_apart (dom (k_threads k)) z.
Proof.
  intros Hl Hf Hx. rw in_nodes_fmap. intros [->|[->|(t & -> & Hin)]] [Hs Ht].
  - by destruct (Hs l Hl).
  - by destruct (Hs l Hl).
  - eapply Ht; [by apply Hx|]. rw /cells_of. destruct Hf as [-> | ->]; rw /allelem_ptr /elem_ptr;
      [apply elem_of_cons; by left|apply elem_of_cons; right; apply elem_of_cons; by left].
Qed.

(** Changing cells apart from the kernel leaves it as it is. *)
Lemma krep_apart k A h :
  krep k A → (∀ x, ¬ cell_apart (dom (k_threads k)) x → h !! x = k_heap k !! x) →
  dom (k_heap k) ⊆ dom h → krep (set_heap k h) A.
Proof.
  intros R Hh Hd. assert (∀ l (f : Z → Z) xs, l ∈ static_lists →
    f = allelem_ptr ∨ f = elem_ptr → (∀ t, t ∈ xs → t ∈ dom (k_threads k)) →
    list_repr (k_heap k) l (f <$> xs) → list_repr h l (f <$> xs)) as Hfr.
  { intros l f xs Hl Hf Hx [Hn Hnd Hs]. split; [done..|]. eapply dseg_frame; [|done].
    intros z Hz. by eapply Hh, kernel_node. }
  pose proof (kr_live _ _ R) as Hlive. destruct R. split; try done.
  - intros t c Ht Hc. apply Hd. by eapply kr_cells.
  - apply Hfr; [by rw /static_lists; set_solver|by right|intros t Ht; apply Hlive; by left|done].
  - apply Hfr; [by rw /static_lists; set_solver|by right|intros t Ht; apply Hlive; by right; left|done].
  - apply Hfr; [by rw /static_lists; set_solver|by left|intros t Ht; apply Hlive; by right; right|done].
Qed.

(** A local semaphore, initialized: it has the value and no waiters. *)
Lemma runs_sema_create ss A sema v (Q : unit → sstate → Prop) :
  krep (kern ss) A → (0 < sema)%Z → sema_apart (dom (k_threads (kern ss))) sema →
  (∀ ss', srep ss' (ASem (uint32 v) [] A) sema → same_intr (y_intr ss) (y_intr ss') → Q tt ss') →
  runs (new_semaphore sema;; sema_init sema v) ss Q.
Proof.
  intros R Hs Ha HQ. rw /new_semaphore /sema_init /new_cell. repeat step.
  apply runs_on_thread. repeat step. apply runs_on_thread. repeat step.
  { by apply bool_decide_eq_true_2, Z.neq_sym, Z.lt_neq. }
  eapply runs_store_value; [by rw /= lookup_insert_eq|]. apply runs_on_thread, runs_on_heap.
  assert (head_of (waiters sema) ≠ tail_of (waiters sema)) as Hne
    by (rw /head_of /tail_of; lia).
  eapply runs_list_init; [unfold waiters, off_waiters, NULL; lia
    |unfold tail_of, waiters, off_waiters, NULL; lia|..].
  { simpl. rw !dom_insert_L. set_solver. }
  { simpl. rw !dom_insert_L. set_solver. }
  intros h Rh [Hch Hd]. apply HQ; [|done].
  assert (krep (set_heap (kern ss) h) A) as Rk.
  { apply krep_apart; [done|..].
    - intros x Hx. assert (x ≠ head_of (waiters sema)) as H1 by (intros ->; apply Hx, Ha; by left).
      assert (x ≠ tail_of (waiters sema)) as H2 by (intros ->; apply Hx, Ha; by right).
      rw Hch; [set_solver|]. simpl. by rw !lookup_insert_ne.
    - rw Hd /= !dom_insert_L. set_solver. }
  split; [by apply Z.neq_sym, Z.lt_neq|by rw /= lookup_insert_eq|apply uint32_range| |].
  - by eapply krep_ext.
  - split; [done|by intros t []%elem_of_nil|done].
Qed.

(** A blocked thread joins the waiters. *)
Lemma runs_waiters_push k A sema t ws (Q : unit → kstate → Prop) :
  krep k A → sem_rep k A sema ws → t ∉ ws → status_of A t = Some THREAD_BLOCKED →
  t ∉ a_ready A → t ∉ a_wait A →
  (∀ k', krep k' A → sem_rep k' A sema (ws ++ [t]) → Q tt k') →
  runs (on_heap (list_push_back (waiters sema) (elem_ptr t))) k Q.
Proof.
  intros R W Ht Hst Hr Hw HQ. pose proof W as [Hl Hb Ha].
  destruct (kr_elem_cell _ _ _ R (status_of_Some _ _ _ Hst)) as (Hd & Hc & Hn & _).
  destruct (kr_elem_free _ _ _ R (status_of_Some _ _ _ Hst) Hr Hw) as (F1 & F2 & F3).
  apply runs_on_heap. eapply runs_list_push_back; [done..| |].
  { rw in_nodes_fmap. intros [E|[E|(u & E & Hu)]].
    - eapply (Ha (elem_ptr t)); [by left|done|]. rw /cells_of /elem_ptr. set_solver.
    - eapply (Ha (elem_ptr t)); [by right|done|]. rw /cells_of /elem_ptr. set_solver.
    - by apply (inj elem_ptr) in E as ->. }
  intros h R' C. apply HQ.
  - assert (∀ l (f : Z → Z) xs, l ∈ static_lists →
      (f = allelem_ptr ∨ f = elem_ptr ∧ ∀ t', t' ∈ ws → t' ∉ xs) →
      (∀ t', t' ∈ xs → t' ∈ dom (k_threads k)) → elem_ptr t ∉ nodes l (f <$> xs) →
      list_repr (k_heap k) l (f <$> xs) → list_repr h l (f <$> xs)) as Hfr.
    { intros l f xs H1 H2 H3 H4 H5. eapply repr_frame; [exact C| |done].
      intros z Hz [->|Hz']%elem_of_cons; [done|].
      by eapply (waiters_apart k A sema ws l f xs z). }
    pose proof (kr_live _ _ R) as Hlive.
    eapply krep_set_heap; [done|by destruct C|..|by apply R|done|done].
    + apply Hfr; [by rw /static_lists; set_solver| |intros u Hu; apply Hlive; by left|done|apply R].
      right. split; [done|]. intros u Hu. apply Hb, Hu.
    + apply Hfr; [by rw /static_lists; set_solver| |intros u Hu; apply Hlive; by right; left|done|apply R].
      right. split; [done|]. intros u Hu. apply Hb, Hu.
    + apply Hfr; [by rw /static_lists; set_solver|by left
        |intros u Hu; apply Hlive; by right; right|done|apply R].
    + intros u Hu. by eapply kr_live_Some.
  - split; [by rw fmap_app| |done]. intros u. rw elem_of_app list_elem_of_singleton.
    intros [Hu| ->]; [by apply Hb|done].
Qed.
End Setup.
