(* ===== verification/SynchIrq.v ===== *)
(** * lib/synch.c under interrupts

    The semaphore operations with an interrupt at every statement: before each one, when
    interrupts are on, the handler [irq] runs, whatever it does.  What stands between
    [intr_disable] and [intr_set_level] runs as if there were no interrupts. *)

From S2P Require Import Prelude CList Machine Thread Main Sim Demo Interrupt InterruptSpec.
From S2P Require Import Synch SynchSpec.

Section Irq.
Context `{Platform, X86} (irq : M sstate unit).
Implicit Types (s : sstate).

(** A point where an interrupt can be taken. *)
Definition poll : M sstate unit :=
  s ← get;
  match level_of (y_intr s) with
  | INTR_ON => irq
  | INTR_OFF => mret tt
  end.

(** ** The operations, statement by statement *)

Fixpoint sema_down_loop_irq (fuel : nat) (sema : Z) : M sstate unit :=
  match fuel with
  | O => fail Diverge
  | S fuel =>
      poll;;
      v ← load_value sema;
      if bool_decide (v = 0)%Z then
        poll;;
        c ← on_thread thread_current;
        poll;;
        on_list (list_push_back (waiters sema) (elem_ptr c));;
        poll;;
        on_thread thread_block;;
        sema_down_loop_irq fuel sema
      else mret tt
  end.

Definition sema_down_irq (fuel : nat) (sema : Z) : M sstate unit :=
  poll;;
  ASSERT synch_c 66 (bool_decide (sema ≠ NULL));;
  poll;;
  c ← on_intr intr_context;
  ASSERT synch_c 67 (negb c);;
  poll;;
  old_level ← on_intr intr_disable;
  (sema_down_loop_irq fuel sema;;
   poll;;
   v ← load_value sema;
   poll;;
   store_value sema (uint32 (v - 1)));;
  poll;;
  on_intr (intr_set_level old_level);;
  poll.

Definition sema_try_down_irq (sema : Z) : M sstate bool :=
  poll;;
  ASSERT synch_c 90 (bool_decide (sema ≠ NULL));;
  poll;;
  old_level ← on_intr intr_disable;
  success ←
    (poll;;
     v ← load_value sema;
     if bool_decide (0 < v)%Z then poll;; store_value sema (uint32 (v - 1));; poll;; mret true
     else poll;; mret false);
  poll;;
  on_intr (intr_set_level old_level);;
  poll;;
  mret success.

Definition sema_up_irq (sema : Z) : M sstate unit :=
  poll;;
  ASSERT synch_c 114 (bool_decide (sema ≠ NULL));;
  poll;;
  old_level ← on_intr intr_disable;
  (poll;;
   b ← on_list (list_empty (waiters sema));
   (if (b : bool) then mret tt
    else
      poll;;
      e ← on_list (list_pop_front (waiters sema));
      poll;;
      on_thread (thread_unblock (list_entry_elem e)));;
   poll;;
   v ← load_value sema;
   poll;;
   store_value sema (uint32 (v + 1)));;
  poll;;
  on_intr (intr_set_level old_level);;
  poll.

(** ** Code with interrupts off *)

Definition off_at s : Prop := level_of (y_intr s) = INTR_OFF.

(** With interrupts off, [m] does what [m'] does, and leaves them off. *)
Definition calm {A} (m m' : M sstate A) : Prop :=
  ∀ s, off_at s → m s = m' s ∧ ∀ a s', m' s = Ok (a, s') → off_at s'.

Lemma calm_bind {A B} (m m' : M sstate A) (f f' : A → M sstate B) :
  calm m m' → (∀ a, calm (f a) (f' a)) → calm (m ≫= f) (m' ≫= f').
Proof.
  intros Hm Hf s Hs. destruct (Hm s Hs) as [E Ho]. rw /mbind /M_bind E.
  destruct (m' s) as [[a s1]|e] eqn:E'; [|done]. by apply Hf, (Ho a).
Qed.

Lemma calm_ret {A} (a : A) : calm (mret a) (mret a).
Proof. intros s Hs. split; [done|]. by intros b s' [= _ <-]. Qed.

Lemma calm_fail {A} e : calm (fail e : M sstate A) (fail e).
Proof. by intros s Hs. Qed.

Lemma poll_off s : off_at s → poll s = Ok (tt, s).
Proof. rw /off_at /poll /mbind /M_bind /= => ->. done. Qed.

Lemma calm_poll {A} (m m' : M sstate A) : calm m m' → calm (poll;; m) m'.
Proof. intros Hm s Hs. rw (bind_Ok _ _ _ _ _ (poll_off s Hs)). by apply Hm. Qed.

Lemma calm_load_value sema : calm (load_value sema) (load_value sema).
Proof.
  intros s Hs. split; [done|]. intros v s'. rw /load_value. case_match; [|done].
  by intros [= _ <-].
Qed.

Lemma calm_store_value sema v : calm (store_value sema v) (store_value sema v).
Proof.
  intros s Hs. split; [done|]. intros [] s'. rw /store_value. case_match; [|done].
  by intros [= <-].
Qed.

Lemma calm_on_thread {A} (m : M kstate A) : calm (on_thread m) (on_thread m).
Proof.
  intros s Hs. split; [done|]. intros a s'. rw /on_thread /on_intr /on_kernel /zoom.
  destruct (m (i_kernel (y_intr s))) as [[b k]|]; [|done]. by intros [= _ <-].
Qed.

Lemma calm_on_list {A} (m : M heap A) : calm (on_list m) (on_list m).
Proof. apply calm_on_thread. Qed.

Lemma calm_down_loop fuel sema : calm (sema_down_loop_irq fuel sema) (sema_down_loop fuel sema).
Proof.
  induction fuel as [|fuel IH]; [apply calm_fail|]. cbn [sema_down_loop_irq sema_down_loop].
  apply calm_poll, calm_bind; [apply calm_load_value|]. intros v.
  case_bool_decide; [|apply calm_ret]. apply calm_poll, calm_bind; [apply calm_on_thread|].
  intros c. apply calm_poll, calm_bind; [apply calm_on_list|]. intros [].
  by apply calm_poll, calm_bind; [apply calm_on_thread|].
Qed.

(** ** Sections *)

(** [old_level = intr_disable (); w; intr_set_level (old_level);] *)
Definition section {A} (w : M sstate A) : M sstate A :=
  old_level ← on_intr intr_disable;
  a ← w;
  on_intr (intr_set_level old_level);;
  mret a.

Lemma disable_off s l s1 : on_intr intr_disable s = Ok (l, s1) → off_at s1.
Proof.
  assert (on_intr intr_disable s = Ok (level_of (y_intr s), off s)) as -> by done.
  intros [= _ <-]. rw /off_at /level_of bool_decide_eq_true_2 //. apply disabled_off.
Qed.

(** Interrupts are taken after a section, not inside. *)
Lemma section_irq {A B} (w w' : M sstate A) (k : A → M sstate B) s :
  calm w w' →
  (old_level ← on_intr intr_disable;
   a ← w;
   poll;;
   on_intr (intr_set_level old_level);;
   k a) s = (a ← section w'; k a) s.
Proof.
  intros Hw. rw /section /mbind /M_bind.
  destruct (on_intr intr_disable s) as [[l s1]|e] eqn:E; [|done].
  destruct (Hw s1 (disable_off _ _ _ E)) as [-> Ho]. destruct (w' s1) as [[a s2]|e]; [|done].
  rw (poll_off s2 (Ho a s2 eq_refl)). by destruct (on_intr (intr_set_level l) s2) as [[l' s3]|e].
Qed.

(** The bodies of the sections. *)
Definition down_work (fuel : nat) (sema : Z) : M sstate unit :=
  sema_down_loop fuel sema;;
  v ← load_value sema;
  store_value sema (uint32 (v - 1)).
Definition try_work (sema : Z) : M sstate bool :=
  v ← load_value sema;
  if bool_decide (0 < v)%Z then store_value sema (uint32 (v - 1));; mret true else mret false.
Definition up_work (sema : Z) : M sstate unit :=
  b ← on_list (list_empty (waiters sema));
  (if (b : bool) then mret tt
   else
     e ← on_list (list_pop_front (waiters sema));
     on_thread (thread_unblock (list_entry_elem e)));;
  v ← load_value sema;
  store_value sema (uint32 (v + 1)).

(** Outside interrupts, the assertions of [sema_down] hold. *)
Lemma context_false {B} file line (f : bool → M sstate B) s :
  in_external_intr (y_intr s) = false →
  (ASSERT file line true;; c ← on_intr intr_context; f c) s = f false s.
Proof. intros Hx. by rw /mbind /M_bind /on_intr /zoom /= set_intr_same Hx. Qed.

Lemma down_section fuel sema s :
  sema ≠ NULL → in_external_intr (y_intr s) = false →
  sema_down fuel sema s = section (down_work fuel sema) s.
Proof.
  intros Hn Hx. rw /sema_down /section /down_work (bool_decide_eq_true_2 _ Hn).
  rw context_false // /mbind /M_bind. change (ASSERT synch_c 67 (negb false) s) with (Ok (tt, s)).
  cbn match.
  destruct (on_intr intr_disable s) as [[l s1]|]; [|done].
  destruct (sema_down_loop fuel sema s1) as [[[] s2]|]; [|done].
  destruct (load_value sema s2) as [[v s3]|]; [|done].
  by destruct (store_value sema (uint32 (v - 1)) s3) as [[[] s4]|].
Qed.

Lemma try_section sema s : sema ≠ NULL → sema_try_down sema s = section (try_work sema) s.
Proof.
  intros Hn. rw /sema_try_down /section /try_work (bool_decide_eq_true_2 _ Hn) /mbind /M_bind.
  change (ASSERT synch_c 90 true s) with (Ok (tt, s)). cbn match.
  destruct (on_intr intr_disable s) as [[l s1]|]; [|done].
  by destruct (load_value sema s1) as [[v s2]|].
Qed.

Lemma up_section sema s : sema ≠ NULL → sema_up sema s = section (up_work sema) s.
Proof.
  intros Hn. rw /sema_up /section /up_work (bool_decide_eq_true_2 _ Hn) /mbind /M_bind.
  change (ASSERT synch_c 114 true s) with (Ok (tt, s)). cbn match.
  destruct (on_intr intr_disable s) as [[l s1]|]; [|done].
  destruct (on_list (list_empty (waiters sema)) s1) as [[b s2]|]; [|done].
  match goal with |- context [match (if b then ?x else ?y) s2 with _ => _ end] =>
    destruct ((if b then x else y) s2) as [[[] s3]|]; [|done] end.
  destruct (load_value sema s3) as [[v s4]|]; [|done].
  by destruct (store_value sema (uint32 (v + 1)) s4) as [[[] s5]|].
Qed.

(** ** Handlers *)

(** A handler returns with [in_external_intr] as it found it. *)
Context (irq_context : ∀ s s', irq s = Ok (tt, s') →
  in_external_intr (y_intr s') = in_external_intr (y_intr s)).

Lemma poll_context s s' :
  poll s = Ok (tt, s') → in_external_intr (y_intr s') = in_external_intr (y_intr s).
Proof.
  rw /poll /mbind /M_bind /=. destruct (level_of (y_intr s)); [by intros [= <-]|apply irq_context].
Qed.

(** Two computations that agree after [poll]. *)
Lemma after_poll {A} (m m' : M sstate A) s :
  (∀ s', in_external_intr (y_intr s') = in_external_intr (y_intr s) → m s' = m' s') →
  (poll;; m) s = (poll;; m') s.
Proof.
  intros Hm. rw /mbind /M_bind. destruct (poll s) as [[[] s']|e] eqn:E; [|done].
  by apply Hm, poll_context.
Qed.

(** C14.  The semaphore operations are atomic: with an interrupt at every statement, and
    whatever its handler does (as long as it returns with [in_external_intr] as before),
    [sema_down], [sema_try_down] and [sema_up] do what they do without interrupts, preceded
    and followed by what the handlers do: none is taken between [intr_disable] and
    [intr_set_level], neither in the list operations nor while [sema_down] waits. *)
Theorem semaphores_atomic fuel sema s :
  sema ≠ NULL →
  (in_external_intr (y_intr s) = false →
   sema_down_irq fuel sema s = (poll;; poll;; poll;; sema_down fuel sema;; poll) s) ∧
  sema_try_down_irq sema s = (poll;; poll;; b ← sema_try_down sema; poll;; mret b) s ∧
  sema_up_irq sema s = (poll;; poll;; sema_up sema;; poll) s.
Proof.
  intros Hn. assert (bool_decide (sema ≠ NULL) = true) as Hb by by apply bool_decide_eq_true_2.
  split_and!.
  - intros Hx. rw /sema_down_irq. apply after_poll. intros s1 E1. rw Hb {1}/ASSERT.
    apply after_poll. intros s2 E2.
    match goal with |- (on_intr intr_context ≫= ?f) _ = ?r =>
      change ((ASSERT synch_c 66 true;; on_intr intr_context ≫= f) s2 = r) end.
    rw context_false; [congruence|]. apply after_poll. intros s3 E3.
    rw (section_irq _ (down_work fuel sema)); [|by rw /mbind /M_bind down_section; congruence].
    apply calm_bind; [apply calm_down_loop|]. intros []. apply calm_poll.
    apply calm_bind; [apply calm_load_value|]. intros v. apply calm_poll, calm_store_value.
  - rw /sema_try_down_irq. apply after_poll. intros s1 E1. rw Hb {1}/ASSERT.
    apply after_poll. intros s2 E2.
    rw (section_irq _ (try_work sema)); [|by rw /mbind /M_bind try_section].
    apply calm_poll, calm_bind; [apply calm_load_value|]. intros v. destruct (bool_decide (0 < v)%Z).
    + apply calm_poll, calm_bind; [apply calm_store_value|]. intros []. apply calm_poll, calm_ret.
    + apply calm_poll, calm_ret.
  - rw /sema_up_irq. apply after_poll. intros s1 E1. rw Hb {1}/ASSERT.
    apply after_poll. intros s2 E2.
    rw (section_irq _ (up_work sema)); [|by rw /mbind /M_bind up_section].
    apply calm_poll, calm_bind; [apply calm_on_list|]. intros b. apply calm_bind.
    + destruct b; [apply calm_ret|]. apply calm_poll, calm_bind; [apply calm_on_list|]. intros e.
      apply calm_poll, calm_on_thread.
    + intros []. apply calm_poll, calm_bind; [apply calm_load_value|]. intros v.
      apply calm_poll, calm_store_value.
Qed.
End Irq.

(** A handler that adds a unit to the semaphore itself, which has one, with interrupts on:
    three times before the unit is taken, once after. *)
Definition adds_unit : M sstate unit :=
  v ← load_value 0x20041800;
  store_value 0x20041800 (uint32 (v + 1)).
Definition one_unit : sstate :=
  SState (intr_start demo_boot FLAG_IF) {[ 0x20041800%Z := 1%Z ]} ∅.

Lemma semaphores_atomic_witness :
  sema_down_irq adds_unit 1 0x20041800 one_unit
    = (poll adds_unit;; poll adds_unit;; poll adds_unit;;
       sema_down 1 0x20041800;; poll adds_unit) one_unit ∧
  runs (sema_down_irq adds_unit 1 0x20041800) one_unit
    (λ _ s', values s' !! 0x20041800%Z = Some 4%Z).
Proof.
  split; [|by vm_compute].
  eapply semaphores_atomic; [|discriminate|reflexivity].
  intros s s' E. apply bind_inv in E as (v & s1 & E1 & E2). revert E1 E2.
  unfold load_value, store_value. destruct (values s !! _) eqn:Ev; [|discriminate].
  intros E1. injection E1 as <- <-. rewrite Ev. intros E2. injection E2 as <-. reflexivity.
Defined.
