(* ===== verification/SynchWait.v ===== *)
(** * lib/synch.c: a down that has to wait

    [sema_down] of a semaphore at zero puts the running thread among the waiters and
    blocks it; [switch_threads_c] changes the running thread but not the program counter,
    so the same loop goes on with the next thread, and then for ever with the idle
    thread.  The file proves that this is what happens: no assertion of the loop fails,
    no access is out of place, even when the idle thread is pushed into the list it is
    already in, and the loop never ends. *)

From S2P Require Import Prelude CList CListRepr CListSpec Machine Thread Main Sched SchedInv.
From S2P Require Import ThreadRep ThreadLife ThreadSpec MainSpec Frames Interrupt InterruptSpec.
From S2P Require Import Synch SynchSpec.

(** ** Cells apart from the kernel *)

Section Leaves.
Context (z : Z).

(** [m] does not write the cell [z], when it belongs to no thread. *)
Definition leaves {B} (m : M kstate B) : Prop :=
  ∀ k b k', m k = Ok (b, k') → (∀ t, t ∈ dom (k_threads k) → z ∉ cells_of t) →
    k_heap k' !! z = k_heap k !! z ∧ dom (k_threads k') ⊆ dom (k_threads k).

Lemma leaves_bind {B C} (m : M kstate B) (f : B → M kstate C) :
  leaves m → (∀ b, leaves (f b)) → leaves (m ≫= f).
Proof.
  intros Hm Hf k c k' (b & k1 & E1 & E2)%bind_inv Hz. destruct (Hm _ _ _ E1 Hz) as [H1 D1].
  destruct (Hf b _ _ _ E2) as [H2 D2]; [intros t Ht; apply Hz, D1, Ht|].
  split; [by rw H2|by etransitivity].
Qed.

Lemma leaves_ret {B} (b : B) : leaves (mret b).
Proof. by intros k b' k' [= _ <-] _. Qed.
Lemma leaves_get : leaves get.
Proof. by intros k b k' [= _ <-] _. Qed.
Lemma leaves_assert file line c : leaves (ASSERT file line c).
Proof. intros k b k'. rw /ASSERT. destruct c; [apply leaves_ret|done]. Qed.
Lemma leaves_modify g :
  (∀ k, k_heap (g k) = k_heap k) → (∀ k, k_threads (g k) = k_threads k) → leaves (modify g).
Proof. intros H1 H2 k b k' [= _ <-] _. by rw H1 H2. Qed.
Lemma leaves_load t : leaves (load_thread t).
Proof. intros k b k'. rw /load_thread. case_match; [|done]. by intros [= _ <-] _. Qed.
Lemma leaves_update t g : leaves (update_thread t g).
Proof.
  apply leaves_bind; [apply leaves_load|]. intros th k b k'. rw /store_thread.
  destruct (k_threads k !! t) as [th0|] eqn:E; [|done]. intros [= _ <-] _. simpl.
  split; [done|]. by rw dom_insert_lookup_L.
Qed.
Lemma leaves_free t : leaves (free_thread t).
Proof.
  intros k b k' (th & k1 & E1 & E2)%bind_inv Hz.
  assert (k1 = k ∧ t ∈ dom (k_threads k)) as [-> Ht].
  { rw /load_thread in E1. destruct (k_threads k !! t) eqn:E; [|done].
    injection E1 as _ <-. split; [done|]. apply elem_of_dom. by rw E. }
  injection E2 as _ <-. simpl. split; [|rw dom_delete_L; set_solver].
  specialize (Hz t Ht). rw /cells_of in Hz. by rewrite !lookup_delete_ne; set_solver.
Qed.
End Leaves.

Create HintDb leaves.
#[export] Hint Resolve leaves_ret leaves_get leaves_assert leaves_load leaves_update
  leaves_free : leaves.
Ltac solve_leaves :=
  repeat first [by auto 2 with leaves | apply leaves_bind; intros | by apply leaves_modify
               | case_match].

Section Block.
Context `{Platform}.
Implicit Types (k : kstate) (A : sched).

(** What follows the choice of the next thread in [schedule]. *)
Lemma leaves_switch z cur next :
  leaves z (th ← load_thread cur;
            ASSERT thread_c 380 (negb (bool_decide (status th = THREAD_RUNNING)));;
            b ← is_thread next;
            ASSERT thread_c 381 b;;
            prev ← (if bool_decide (cur = next) then mret NULL else switch_threads_c cur next);
            thread_schedule_tail prev).
Proof.
  rw /is_thread /switch_threads_c /set_thread_running /thread_schedule_tail /running_thread.
  solve_leaves.
Qed.

(** Taking the head of a represented list. *)
Lemma next_leaves k A z next k' :
  krep k A → cell_apart (dom (k_threads k)) z → next_thread_to_run k = Ok (next, k') →
  k_heap k' !! z = k_heap k !! z ∧ k_threads k' = k_threads k.
Proof.
  intros R [Hs Ht] E.
  assert (z ∉ nodes ready_list (elem_ptr <$> a_ready A)) as Hz.
  { rw in_nodes_fmap. destruct (Hs ready_list) as [H1 H2]; [by rw /static_lists; set_solver|].
    intros [?|[?|(t & -> & Hin)]]; [done|done|]. apply (Ht t); [by apply (kr_live _ _ R); left|].
    rw /cells_of /elem_ptr. set_solver. }
  assert (runs next_thread_to_run k (λ _ k', k_heap k' !! z = k_heap k !! z ∧
    k_threads k' = k_threads k)) as Hr; [|by rw /runs E in Hr].
  rw /next_thread_to_run. step. eapply runs_ready_empty; [done|]. case_bool_decide as He.
  { by steps. }
  pose proof (kr_ready _ _ R) as Rr. destruct (a_ready A) as [|t r]; [done|]. simpl in Rr.
  step. apply runs_on_heap. eapply runs_list_pop_front; [done|]. intros h _ [C _]. step.
  split; [|done]. apply C. revert Hz. rw !in_nodes_fmap. set_solver.
Qed.

Lemma runs_at {B} (m : M kstate B) k (Q : B → kstate → Prop) b k' :
  runs m k Q → m k = Ok (b, k') → Q b k'.
Proof. by rw /runs => Hr E; rw E in Hr. Qed.

Lemma cell_apart_mono T T' z : T' ⊆ T → cell_apart T z → cell_apart T' z.
Proof. intros HT [H1 H2]. split; [done|]. intros t Ht. by apply H2, HT. Qed.

(** [thread_block] leaves cells alone that are apart from the kernel. *)
Lemma block_leaves k A z k' :
  krep k A → can_run A → cell_apart (dom (k_threads k)) z → thread_block k = Ok (tt, k') →
  k_heap k' !! z = k_heap k !! z ∧ dom (k_threads k') ⊆ dom (k_threads k).
Proof.
  intros R [Hst Hid] Hz E. rw /thread_block in E.
  apply bind_inv in E as (old & k1 & E1 & E).
  assert (leaves z irq_save) as L1 by (rw /irq_save; solve_leaves).
  destruct (L1 _ _ _ E1 (proj2 Hz)) as [H1 D1].
  eapply (runs_at _ _ (λ _ k', ∃ m, krep k' (w_mask A m))) in E1 as [m R1];
    [|eapply runs_irq_save; eauto].
  apply bind_inv in E as (cur & k2 & E2 & E).
  eapply (runs_at _ _ (λ c k', c = a_run A ∧ k' = k1)) in E2 as [-> ->];
    [|by eapply runs_thread_current].
  apply bind_inv in E as ([] & k3 & E3 & E).
  pose proof (cell_apart_mono _ _ _ D1 Hz) as Hz1.
  destruct (leaves_update z _ _ _ _ _ E3 (proj2 Hz1)) as [H3 D3].
  eapply (runs_at _ _ (λ _ k', krep k' (set_status (w_mask A m) (a_run A) THREAD_BLOCKED)))
    in E3 as R3; [|eapply runs_set_status; [done|by eapply status_of_Some|done]].
  pose proof (cell_apart_mono _ _ _ D3 Hz1) as Hz3.
  apply bind_inv in E as ([] & k4 & E4 & E). rw /schedule in E4.
  apply bind_inv in E4 as (cur & k5 & [= _ <-] & E4).
  apply bind_inv in E4 as (next & k6 & (H6 & T6)%(next_leaves _ _ _ _ _ R3 Hz3) & E4).
  rewrite -T6 in Hz3. destruct (leaves_switch z cur next _ _ _ E4 (proj2 Hz3)) as [H4 D4].
  injection E as <-. simpl. rw H4 H6 H3 H1. split; [done|]. rewrite T6 in D4. set_solver.
Qed.
End Block.

(** ** Pushing into a list that may be broken *)

(** The tail of the waiters, before which the next one is pushed. *)
Definition tail_after (h : heap) (l p : Z) : Prop :=
  h !! tail_of l = Some (Elem p NULL) ∧ p ≠ NULL ∧ p ∈ dom h ∧ p ≠ tail_of l.

Lemma runs_push_broken h l p e (Q : unit → heap → Prop) :
  tail_after h l p → l ≠ NULL → tail_of l ≠ NULL → e ∈ dom h → e ≠ NULL → e ≠ tail_of l →
  (∀ h', tail_after h' l e → changes [e; p; tail_of l] h h' → Q tt h') →
  runs (list_push_back l e) h Q.
Proof.
  intros (Ht & Hp & Hpd & Hpt) Hl Htl He Hn Het HQ. rw /list_push_back. step. rw /list_end /not_null.
  step. step; [by rw bool_decide_eq_false_2|]. step. rw /list_insert /not_null. step.
  eapply runs_interior_or_tail; [done..|]. step. step; [done|]. step.
  step; [by rw bool_decide_eq_false_2|].
  apply elem_of_dom in He as [ce He]. apply elem_of_dom in Hpd as [cp Hcp].
  step. eapply runs_get_prev; [done|]. step. eapply runs_set_prev; [done|].
  step. eapply runs_set_next; [by rw lookup_insert_eq|]. rw insert_insert_eq /=.
  step. eapply runs_get_prev; [by rw lookup_insert_ne|]. simpl.
  set (h1 := <[e := Elem p (tail_of l)]> h). assert (is_Some (h1 !! p)) as [cp1 Hp1].
  { rw /h1. destruct (decide (p = e)) as [->|]; [rw lookup_insert_eq|rw lookup_insert_ne //]; eauto. }
  step. eapply runs_set_next; [done|]. eapply runs_set_prev.
  { rw lookup_insert_ne // /h1 lookup_insert_ne //. }
  simpl. assert (changes [e; p; tail_of l] h (<[tail_of l := Elem e NULL]>
    (<[p := Elem (prev cp1) e]> h1))) as C.
  { rw /h1. repeat (apply changes_insert; [set_solver|by eapply elem_of_dom_2|]). apply changes_refl. }
  apply HQ; [|done]. split_and!; [by rw lookup_insert_eq|done| |done].
  destruct C as [_ ->]. by eapply elem_of_dom_2.
Qed.

(** ** The loop *)

(** Every thread that waits is out of the queues, and the list can be pushed into. *)
Record stuck (k : kstate) (A : sched) (sema : Z) : Prop := {
  st_krep : krep k A;
  st_can : can_run A;
  st_run : a_run A ∉ a_ready A ∧ a_run A ∉ a_wait A;
  st_idle : a_idle A ∉ a_ready A ∧ a_idle A ∉ a_wait A;
  st_apart : sema_apart (dom (k_threads k)) sema;
  st_null : waiters sema ≠ NULL ∧ tail_of (waiters sema) ≠ NULL;
  st_tail : ∃ p, tail_after (k_heap k) (waiters sema) p ∧
    (p = head_of (waiters sema) ∨
     ∃ u, p = elem_ptr u ∧ is_Some (a_thr A !! u) ∧ u ∉ a_ready A ∧ u ∉ a_wait A);
}.

Section Stuck.
Context `{Platform}.
Implicit Types (k : kstate) (A : sched).

Lemma elem_in_cells t : elem_ptr t ∈ cells_of t.
Proof. rw /cells_of /elem_ptr. set_solver. Qed.

(** The cells that a push writes are in no list of the kernel. *)
Lemma stuck_outside k A sema p z :
  krep k A → sema_apart (dom (k_threads k)) sema → a_run A ∉ a_ready A → a_run A ∉ a_wait A →
  is_Some (a_thr A !! a_run A) →
  (p = head_of (waiters sema) ∨
   ∃ u, p = elem_ptr u ∧ is_Some (a_thr A !! u) ∧ u ∉ a_ready A ∧ u ∉ a_wait A) →
  z ∈ [elem_ptr (a_run A); p; tail_of (waiters sema)] →
  z ∉ nodes ready_list (elem_ptr <$> a_ready A) ∧
  z ∉ nodes lista_espera (elem_ptr <$> a_wait A) ∧
  z ∉ nodes all_list (allelem_ptr <$> a_all A).
Proof.
  intros R Ha Hr Hw Hrun Hp Hz.
  assert (∀ z, cell_apart (dom (k_threads k)) z →
    z ∉ nodes ready_list (elem_ptr <$> a_ready A) ∧
    z ∉ nodes lista_espera (elem_ptr <$> a_wait A) ∧
    z ∉ nodes all_list (allelem_ptr <$> a_all A)) as Hap.
  { intros z0 H0. pose proof (kr_live _ _ R) as Hl.
    split_and!; intros Hin; eapply (kernel_node k); try exact Hin; try exact H0;
      try (by rw /static_lists; set_solver); auto. }
  rewrite !elem_of_cons elem_of_nil in Hz. destruct Hz as [->|[->|[->|[]]]].
  - by eapply kr_elem_free.
  - destruct Hp as [->|(u & -> & Hu & H1 & H2)]; [apply Hap, Ha; by left|by eapply kr_elem_free].
  - apply Hap, Ha. by right.
Qed.

Lemma stuck_push k A sema :
  stuck k A sema →
  runs (on_heap (list_push_back (waiters sema) (elem_ptr (a_run A)))) k (λ _ k',
    krep k' A ∧ k_threads k' = k_threads k ∧
    tail_after (k_heap k') (waiters sema) (elem_ptr (a_run A))).
Proof.
  intros [R [Hst Hid] [Hr Hw] _ Ha [Hn1 Hn2] (p & Ht & Hp)].
  pose proof (status_of_Some _ _ _ Hst) as Hrun.
  destruct (kr_elem_cell _ _ _ R Hrun) as (Hd & Hc & Hn & _).
  assert (elem_ptr (a_run A) ≠ tail_of (waiters sema)) as Het.
  { intros E. destruct (Ha _ (or_intror eq_refl)) as [_ Hc']. apply (Hc' _ Hd).
    rewrite -E. apply elem_in_cells. }
  apply runs_on_heap. eapply runs_push_broken; [done..|]. intros h Ht' C.
  split; [|done]. pose proof (λ z, stuck_outside k A sema p z R Ha Hr Hw Hrun Hp) as Ho.
  eapply krep_set_heap; [done|by destruct C|..|by apply R|done|done].
  - eapply repr_frame; [exact C| |apply R]. intros x Hx Hin. by destruct (Ho x Hin) as (? & ? & ?).
  - eapply repr_frame; [exact C| |apply R]. intros x Hx Hin. by destruct (Ho x Hin) as (? & ? & ?).
  - eapply repr_frame; [exact C| |apply R]. intros x Hx Hin. by destruct (Ho x Hin) as (? & ? & ?).
  - intros u Hu. by eapply kr_live_Some.
Qed.

(** Blocking the thread that was pushed leads to the same situation. *)
Lemma stuck_block k A sema :
  krep k A → can_run A → a_run A ∉ a_ready A → a_run A ∉ a_wait A →
  a_idle A ∉ a_ready A → a_idle A ∉ a_wait A → sema_apart (dom (k_threads k)) sema →
  waiters sema ≠ NULL → tail_of (waiters sema) ≠ NULL →
  tail_after (k_heap k) (waiters sema) (elem_ptr (a_run A)) →
  runs thread_block k (λ _ k', stuck k' (a_block A) sema).
Proof.
  intros R Hc Hr Hw Hi1 Hi2 Ha Hn1 Hn2 (Ht & Hp & _ & Hpt). pose proof Hc as [Hst Hid].
  destruct (runs_inv _ _ _ (runs_thread_block k A (λ _ k', krep k' (a_block A)) R Hc (λ _ R', R')))
    as ([] & k' & E & R'). eapply runs_Ok; [done|].
  destruct (block_leaves k A _ k' R Hc (Ha _ (or_intror eq_refl)) E) as [Hz Hd].
  set (B := set_status A (a_run A) THREAD_BLOCKED).
  destruct (schedule_fields B) as (Fr & Fw & Fa & Fn & Fi & _).
  assert (∀ u, a_thr (a_block A) !! u = a_thr (set_status B (a_next B) THREAD_RUNNING) !! u) as Eu.
  { intros u. rw /a_block -/B lookup_schedule. assert (dies B = false) as ->; [|done].
    rw /dies /B set_status_same. by destruct (a_thr A !! a_run A). }
  assert (∀ u, is_Some (a_thr A !! u) → is_Some (a_thr (a_block A) !! u)) as Hlive.
  { intros u Hu. rw Eu. by apply set_status_live, set_status_live. }
  assert (is_Some (a_thr (a_block A) !! a_next B)) as Hnext.
  { apply Hlive. rw /a_next /B /=. destruct (a_ready A) as [|t r] eqn:Er; [done|]. simpl.
    eapply kr_live_Some; [done|]. left. rw Er. by left. }
  assert (elem_ptr (a_run A) ∈ dom (k_heap k')) as Hdom.
  { by eapply kr_elem_cell, Hlive, (status_of_Some _ _ _ Hst). }
  assert (a_next B ∉ tail (a_ready A) ∧ a_next B ∉ a_wait A) as [Hn3 Hn4].
  { rw /a_next /B /=. pose proof (kr_ready _ _ R) as Rr. pose proof (kr_disj _ _ R) as Hdj.
    destruct (a_ready A) as [|t r]; [by split; [apply not_elem_of_nil|]|]. simpl in *.
    split; [|by apply Hdj; left]. exact (repr_notin _ _ elem_ptr [] r t Rr _). }
  assert (∀ u, u ∉ a_ready A → u ∉ tail (a_ready A)) as Htl.
  { intros u Hu Hin. apply Hu. destruct (a_ready A); [done|by right]. }
  split; rewrite ?Fr ?Fw ?Fn ?Fi /=; [done| |done|by auto|by intros z Hz'; eapply cell_apart_mono, Ha
    |done|].
  - split; rewrite /a_block -/B ?Fn ?Fi; [|by apply Hlive]. rw /status_of -/(a_block A) Eu.
    rw -/(status_of _ _) set_status_same. rw Eu in Hnext. apply set_status_live in Hnext.
    by destruct Hnext as [i ->].
  - exists (elem_ptr (a_run A)). split; [by rw /tail_after Hz|]. right. exists (a_run A).
    split_and!; [done|by apply Hlive, (status_of_Some _ _ _ Hst)|by apply Htl|done].
Qed.

Context `{X86}.
Implicit Types (ss : sstate).

(** However often it goes round, the loop goes on. *)
Lemma down_loop_diverges fuel sema ss A :
  stuck (kern ss) A sema → values ss !! sema = Some 0%Z →
  sema_down_loop fuel sema ss = Err Diverge.
Proof.
  revert ss A. induction fuel as [|fuel IH]; intros ss A S Hv; [done|]. cbn [sema_down_loop].
  pose proof S as [R [Hst Hid] [Hr Hw] [Hi1 Hi2] Ha [Hn1 Hn2] _].
  apply runs_err. eapply runs_load_value; [done|]. rw bool_decide_eq_true_2 //.
  apply runs_err, runs_on_thread. eapply runs_thread_current; [done..|].
  apply runs_err, runs_on_thread. rewrite /kern /=.
  eapply runs_mono; [by apply stuck_push|]. intros [] k1 (R1 & T1 & Ht1).
  apply runs_err, runs_on_thread. rewrite /kern /=.
  eapply runs_mono; [apply (stuck_block k1 A sema); try done; by rw T1|].
  intros [] k2 S2. eapply IH; [exact S2|done].
Qed.

End Stuck.
