(* ===== verification/SynchProps.v ===== *)
(** * Properties of semaphores and locks

    Semaphores refine a counter with a queue; on this kernel a call that has to wait
    goes on for ever; a lock has at most one holder, however the steps of its calls
    are interleaved. *)

From S2P Require Import Prelude CList CListRepr CListSpec Machine Thread Main Sim Sched.
From S2P Require Import SchedInv ThreadRep ThreadLife ThreadSpec Kernel Boot Reach Demo.
From S2P Require Import MainSpec Interrupt InterruptSpec Synch SynchSpec SynchWait.

(** ** What a call that returns has done to values and holders *)

Section Inversion.
Context `{Platform, X86}.
Implicit Types (s : sstate).

Lemma load_value_inv a s v s' :
  load_value a s = Ok (v, s') → values s !! a = Some v ∧ s' = s.
Proof. rw /load_value. destruct (values s !! a); [|done]. by intros [= -> ->]. Qed.

Lemma store_value_inv a v s s' :
  store_value a v s = Ok (tt, s') → s' = set_values s (<[a := v]> (values s)).
Proof. rw /store_value. destruct (values s !! a); [|done]. by intros [= ->]. Qed.

Lemma load_holder_inv a s v s' :
  load_holder a s = Ok (v, s') → holders s !! a = Some v ∧ s' = s.
Proof. rw /load_holder. destruct (holders s !! a); [|done]. by intros [= -> ->]. Qed.

Lemma store_holder_inv a v s s' :
  store_holder a v s = Ok (tt, s') → s' = set_holders s (<[a := v]> (holders s)).
Proof. rw /store_holder. destruct (holders s !! a); [|done]. by intros [= ->]. Qed.

(** [thread_current] answers the running thread, which is not NULL. *)
Lemma current_inv s c s' :
  on_thread thread_current s = Ok (c, s') →
  c = thread_running_var (kern s) ∧ c ≠ NULL ∧ values s' = values s ∧ holders s' = holders s.
Proof.
  intros E. destruct (zoom_intr_inv _ _ _ _ E) as [Ev Eh]. revert E.
  rw /on_thread /on_intr /on_kernel /zoom. fold (kern s).
  destruct (thread_current (kern s)) as [[c0 k]|] eqn:E; [|done]. intros [= -> _].
  rw /thread_current in E. apply bind_inv in E as (t & k1 & [= <- <-] & E).
  apply bind_inv in E as (b & k2 & Eb & E). apply bind_assert_inv in E as [-> E].
  apply bind_inv in E as (th & k3 & _ & E). apply bind_assert_inv in E as [_ [= <- _]].
  split_and!; [done| |done|done]. intros En. by rw /is_thread En bool_decide_eq_true_2 in Eb.
Qed.

(** A wait on a semaphore that is zero goes on for ever: the value never changes. *)
Lemma down_loop_stuck fuel sema s r :
  values s !! sema = Some 0%Z → sema_down_loop fuel sema s ≠ Ok r.
Proof.
  revert s. induction fuel as [|fuel IH]; intros s Hv; [done|]. destruct r as [[] s'].
  cbn [sema_down_loop]. intros (v & s1 & (E & ->)%load_value_inv & E1)%bind_inv.
  rw Hv in E. injection E as <-. rw bool_decide_eq_true_2 // in E1.
  apply bind_inv in E1 as (c & s2 & [V2 _]%zoom_intr_inv & E1).
  apply bind_inv in E1 as (u & s3 & [V3 _]%zoom_intr_inv & E1).
  apply bind_inv in E1 as (u' & s4 & [V4 _]%zoom_intr_inv & E1).
  eapply IH; [|exact E1]. by rw V4 V3 V2.
Qed.

Lemma sema_down_inv fuel sema s s' :
  sema_down fuel sema s = Ok (tt, s') →
  ∃ v, values s !! sema = Some v ∧ v ≠ 0%Z ∧
    values s' = <[sema := uint32 (v - 1)]> (values s) ∧ holders s' = holders s.
Proof.
  rw /sema_down. intros [_ E]%bind_assert_inv.
  apply bind_inv in E as (c & s1 & [V1 H1]%zoom_intr_inv & E). apply bind_assert_inv in E as [_ E].
  apply bind_inv in E as (l & s2 & [V2 H2]%zoom_intr_inv & E).
  apply bind_inv in E as ([] & s3 & El & E).
  apply bind_inv in E as (v & s4 & (Ev & ->)%load_value_inv & E).
  apply bind_inv in E as ([] & s5 & ->%store_value_inv & E).
  apply bind_inv in E as (l' & s6 & [V6 H6]%zoom_intr_inv & [= <-]). simpl in V6, H6.
  destruct fuel as [|fuel]; [done|]. pose proof El as Hl. cbn [sema_down_loop] in El.
  apply bind_inv in El as (v2 & s7 & (Ev2 & ->)%load_value_inv & El). revert El.
  case_bool_decide as Hz; [subst v2|].
  - by apply (down_loop_stuck _ _ _ _ Ev2) in Hl.
  - intros [= <-]. rw Ev in Ev2. injection Ev2 as <-. exists v. split_and!.
    + by rw -V1 -V2.
    + done.
    + by rw V6 V2 V1.
    + by rw H6 H2 H1.
Qed.

Lemma sema_try_down_inv sema s b s' :
  sema_try_down sema s = Ok (b, s') →
  ∃ v, values s !! sema = Some v ∧ b = bool_decide (0 < v)%Z ∧ holders s' = holders s ∧
    values s' = if (b : bool) then <[sema := uint32 (v - 1)]> (values s) else values s.
Proof.
  rw /sema_try_down. intros [_ E]%bind_assert_inv.
  apply bind_inv in E as (l & s1 & [V1 H1]%zoom_intr_inv & E).
  apply bind_inv in E as (v & s2 & (Ev & ->)%load_value_inv & E).
  apply bind_inv in E as (b' & s3 & Eb & E).
  apply bind_inv in E as (l' & s4 & [V4 H4]%zoom_intr_inv & [= <- <-]).
  exists v. split; [by rw -V1|]. revert Eb. case_bool_decide as Hv.
  - intros ([] & s5 & ->%store_value_inv & [= <- <-])%bind_inv. simpl in *. by rw V4 H4 H1 V1.
  - intros [= <- <-]. by rw V4 H4 H1 V1.
Qed.

Lemma sema_up_inv sema s s' :
  sema_up sema s = Ok (tt, s') →
  ∃ v, values s !! sema = Some v ∧ values s' = <[sema := uint32 (v + 1)]> (values s) ∧
    holders s' = holders s.
Proof.
  rw /sema_up. intros [_ E]%bind_assert_inv.
  apply bind_inv in E as (l & s1 & [V1 H1]%zoom_intr_inv & E).
  apply bind_inv in E as (b & s2 & [V2 H2]%zoom_intr_inv & E).
  apply bind_inv in E as ([] & s3 & Eb & E).
  assert (values s3 = values s2 ∧ holders s3 = holders s2) as [V3 H3].
  { destruct b; [by injection Eb as <-|].
    apply bind_inv in Eb as (e & s0 & [V0 H0']%zoom_intr_inv & [V3 H3]%zoom_intr_inv).
    by rw V3 H3 V0 H0'. }
  apply bind_inv in E as (v & s4 & (Ev & ->)%load_value_inv & E).
  apply bind_inv in E as ([] & s5 & ->%store_value_inv & E).
  apply bind_inv in E as (l' & s6 & [V6 H6]%zoom_intr_inv & [= <-]). simpl in V6, H6.
  exists v. by rw V6 H6 V3 H3 V2 H2 V1 H1 -V1 -V2 -V3.
Qed.

Lemma sema_init_inv sema v s s' :
  sema_init sema v s = Ok (tt, s') →
  values s' = <[sema := uint32 v]> (values s) ∧ holders s' = holders s.
Proof.
  rw /sema_init. intros [_ E]%bind_assert_inv.
  apply bind_inv in E as ([] & s1 & ->%store_value_inv & [V H1]%zoom_intr_inv). by rw V H1.
Qed.

Lemma held_inv lock s b s' :
  lock_held_by_current_thread lock s = Ok (b, s') →
  values s' = values s ∧ holders s' = holders s ∧
  ∃ h, holders s !! lock = Some h ∧ b = bool_decide (h = thread_running_var (kern s)) ∧
       thread_running_var (kern s) ≠ NULL.
Proof.
  rw /lock_held_by_current_thread. intros [_ E]%bind_assert_inv.
  apply bind_inv in E as (h & s1 & (Eh & ->)%load_holder_inv & E).
  apply bind_inv in E as (c & s2 & (-> & Hn & V & Hh)%current_inv & [= <- <-]). eauto 6.
Qed.
End Inversion.

(** ** Locks *)

Section Locks.
Context `{Platform, X86} (lock : Z).
Implicit Types (s : sstate).

(** Holder and value of the lock. *)
Definition lock_is s (h v : Z) : Prop :=
  holders s !! lock = Some h ∧ values s !! lock_sema lock = Some v.

Lemma lock_init_inv s s' : lock_init lock s = Ok (tt, s') → lock_is s' NULL 1.
Proof.
  rw /lock_init. intros [_ E]%bind_assert_inv.
  apply bind_inv in E as ([] & s1 & ->%store_holder_inv & [V H1]%sema_init_inv).
  split; [by rw H1 /= lookup_insert_eq|by rw V /= lookup_insert_eq].
Qed.

Lemma lock_acquire_inv fuel s s' :
  lock_acquire fuel lock s = Ok (tt, s') →
  ∃ h v c, lock_is s h v ∧ v ≠ 0%Z ∧ c ≠ NULL ∧ lock_is s' c (uint32 (v - 1)).
Proof.
  rw /lock_acquire. intros [_ E]%bind_assert_inv.
  apply bind_inv in E as (x & s1 & [V1 H1]%zoom_intr_inv & E). apply bind_assert_inv in E as [_ E].
  apply bind_inv in E as (b & s2 & (V2 & H2 & h & Eh & _)%held_inv & E).
  apply bind_assert_inv in E as [_ E].
  apply bind_inv in E as ([] & s3 & (v & Ev & Hv & V3 & H3)%sema_down_inv & E).
  apply bind_inv in E as (c & s4 & (_ & Hc & V4 & H4)%current_inv & ->%store_holder_inv).
  exists h, v, c. split_and!; [split; [by rw -H1|by rw -V1 -V2]|done|done|].
  split; simpl; [by rw lookup_insert_eq|by rw V4 V3 lookup_insert_eq].
Qed.

Lemma lock_try_inv b s s' :
  lock_try_acquire lock s = Ok (b, s') →
  ∃ h v, lock_is s h v ∧ b = bool_decide (0 < v)%Z ∧
    if (b : bool) then ∃ c, c ≠ NULL ∧ lock_is s' c (uint32 (v - 1)) else lock_is s' h v.
Proof.
  rw /lock_try_acquire. intros [_ E]%bind_assert_inv.
  apply bind_inv in E as (x & s2 & (V2 & H2 & h & Eh & _)%held_inv & E).
  apply bind_assert_inv in E as [_ E].
  apply bind_inv in E as (b' & s3 & (v & Ev & Eb & H3 & V3)%sema_try_down_inv & E).
  apply bind_inv in E as ([] & s4 & E4 & [= -> ->]). rw V2 in Ev V3. rw H2 in H3.
  exists h, v. split_and!; [done|done|]. destruct b.
  - apply bind_inv in E4 as (c & s5 & (_ & Hc & V5 & H5)%current_inv & ->%store_holder_inv).
    exists c. split; [done|]. split; simpl; [by rw lookup_insert_eq|by rw V5 V3 lookup_insert_eq].
  - injection E4 as <-. split; [by rw H3|by rw V3].
Qed.

Lemma lock_release_inv s s' :
  lock_release lock s = Ok (tt, s') →
  ∃ v, thread_running_var (kern s) ≠ NULL ∧ lock_is s (thread_running_var (kern s)) v ∧
       lock_is s' NULL (uint32 (v + 1)).
Proof.
  rw /lock_release. intros [_ E]%bind_assert_inv.
  apply bind_inv in E as (b & s1 & (V1 & H1 & h & Eh & Eb & Hn)%held_inv & E).
  apply bind_assert_inv in E as [-> E]. symmetry in Eb. apply bool_decide_eq_true in Eb as ->.
  apply bind_inv in E as ([] & s2 & ->%store_holder_inv & (v & Ev & V3 & H3)%sema_up_inv).
  simpl in *. exists v. rw V1 in Ev V3. split; [done|]. split; [done|].
  split; [by rw H3 lookup_insert_eq|by rw V3 lookup_insert_eq].
Qed.

(** ** The steps of the calls

    What an interrupt can tell apart: the calls of the semaphore operations, which are
    atomic (SynchIrq), and the stores of [holder] that follow and precede them. *)

Definition acquire_own : M sstate unit := c ← on_thread thread_current; store_holder lock c.
Definition release_clear : M sstate unit :=
  ASSERT synch_c 232 (bool_decide (lock ≠ NULL));;
  b ← lock_held_by_current_thread lock;
  ASSERT synch_c 233 b;;
  store_holder lock NULL.

(** The calls are these steps, after checks that change nothing. *)
Lemma acquire_steps fuel s s' :
  lock_acquire fuel lock s = Ok (tt, s') →
  ∃ s1 s2, values s1 = values s ∧ holders s1 = holders s ∧
    sema_down fuel (lock_sema lock) s1 = Ok (tt, s2) ∧ acquire_own s2 = Ok (tt, s').
Proof.
  rw /lock_acquire. intros [_ E]%bind_assert_inv.
  apply bind_inv in E as (x & s1 & [V1 H1]%zoom_intr_inv & E). apply bind_assert_inv in E as [_ E].
  apply bind_inv in E as (b & s2 & (V2 & H2 & _)%held_inv & E). apply bind_assert_inv in E as [_ E].
  apply bind_inv in E as ([] & s3 & E3 & E). exists s2, s3. split_and!; [congruence..|done|done].
Qed.

Lemma try_steps b s s' :
  lock_try_acquire lock s = Ok (b, s') →
  ∃ s1 s2, values s1 = values s ∧ holders s1 = holders s ∧
    sema_try_down (lock_sema lock) s1 = Ok (b, s2) ∧
    if (b : bool) then acquire_own s2 = Ok (tt, s') else s' = s2.
Proof.
  rw /lock_try_acquire. intros [_ E]%bind_assert_inv.
  apply bind_inv in E as (x & s1 & (V1 & H1 & _)%held_inv & E). apply bind_assert_inv in E as [_ E].
  apply bind_inv in E as (b' & s2 & E2 & E). apply bind_inv in E as ([] & s3 & E3 & [= -> ->]).
  exists s1, s2. split_and!; [done..|]. destruct b; [done|]. by injection E3 as <-.
Qed.

Lemma release_steps s s' :
  lock_release lock s = Ok (tt, s') →
  ∃ s1, release_clear s = Ok (tt, s1) ∧ sema_up (lock_sema lock) s1 = Ok (tt, s').
Proof.
  rw /lock_release /release_clear. intros [Hn E]%bind_assert_inv. rw Hn.
  apply bind_inv in E as (b & s1 & E1 & E). apply bind_assert_inv in E as [-> E].
  apply bind_inv in E as ([] & s2 & E2 & E). exists s2. split; [|done].
  rw {1}/ASSERT. by rw (bind_Ok (mret tt) _ s tt s eq_refl) (bind_Ok _ _ _ _ _ E1).
Qed.

(** Where an activity (a thread, a handler) is: it has taken the unit, it is the holder,
    or it has cleared the holder and has to give the unit back. *)
Inductive stage := Outside | Taken | Owner | Leaving.
#[global] Instance stage_eq_dec : EqDecision stage.
Proof. solve_decision. Defined.

Definition at_stage (g : nat → stage) (a : nat) (st : stage) : nat → stage :=
  λ b, if decide (b = a) then st else g b.

(** One step of one of the activities, or of anything that leaves the two words of the
    lock alone: other locks, the scheduler, other code.  A step that waits for the unit
    does not return; a release is called by a holder. *)
Inductive lock_step : (nat → stage) * sstate → (nat → stage) * sstate → Prop :=
| ls_down a fuel g s s' : g a = Outside →
    sema_down fuel (lock_sema lock) s = Ok (tt, s') → lock_step (g, s) (at_stage g a Taken, s')
| ls_try a b g s s' : g a = Outside → sema_try_down (lock_sema lock) s = Ok (b, s') →
    lock_step (g, s) (at_stage g a (if b then Taken else Outside), s')
| ls_own a g s s' : g a = Taken →
    acquire_own s = Ok (tt, s') → lock_step (g, s) (at_stage g a Owner, s')
| ls_clear a g s s' : g a = Owner →
    release_clear s = Ok (tt, s') → lock_step (g, s) (at_stage g a Leaving, s')
| ls_up a g s s' : g a = Leaving →
    sema_up (lock_sema lock) s = Ok (tt, s') → lock_step (g, s) (at_stage g a Outside, s')
| ls_other g s s' : holders s' !! lock = holders s !! lock →
    values s' !! lock_sema lock = values s !! lock_sema lock → lock_step (g, s) (g, s').

(** Free, or one activity has the unit and is the holder when it is between the stores. *)
Definition lock_ok (x : (nat → stage) * sstate) : Prop :=
  ∃ h v, lock_is x.2 h v ∧
    (h = NULL ∧ v = 1%Z ∧ (∀ a, x.1 a = Outside) ∨
     v = 0%Z ∧ ∃ a, x.1 a ≠ Outside ∧ (∀ b, b ≠ a → x.1 b = Outside) ∧
                    (h ≠ NULL ↔ x.1 a = Owner)).

Lemma lock_is_inj s h v h' v' : lock_is s h v → lock_is s h' v' → h' = h ∧ v' = v.
Proof. intros [E1 E2] [E3 E4]. rw E1 in E3. rw E2 in E4. by simplify_eq. Qed.

(** The activity that a step belongs to is the only one inside. *)
Lemma lock_ok_inside g s a :
  lock_ok (g, s) → g a ≠ Outside →
  ∃ h, lock_is s h 0 ∧ (∀ b, b ≠ a → g b = Outside) ∧ (h ≠ NULL ↔ g a = Owner).
Proof.
  intros (h & v & Hl & [(_ & _ & Ho)|(-> & a' & _ & Hb & Hh)]) Ha; simpl in *; [by rw Ho in Ha|].
  destruct (decide (a = a')) as [->|Hne]; [by exists h|]. by rw Hb in Ha.
Qed.

Lemma at_stage_same g a st : at_stage g a st a = st.
Proof. by rw /at_stage decide_True. Qed.

(** The activity stays inside, in another stage. *)
Lemma lock_ok_move g s a st h :
  (∀ b, b ≠ a → g b = Outside) → lock_is s h 0 → st ≠ Outside → (h ≠ NULL ↔ st = Owner) →
  lock_ok (at_stage g a st, s).
Proof.
  intros Hb Hl Hst Hh. exists h, 0%Z. split; [done|]. right. split; [done|]. exists a. simpl.
  rw at_stage_same. split_and!; [done| |done]. intros b Hne. rw /at_stage decide_False //. by apply Hb.
Qed.

(** Taking the unit: it was there. *)
Lemma lock_ok_take g s s' a v :
  lock_ok (g, s) → values s !! lock_sema lock = Some v → v ≠ 0%Z →
  values s' = <[lock_sema lock := uint32 (v - 1)]> (values s) → holders s' = holders s →
  lock_ok (at_stage g a Taken, s').
Proof.
  intros (h & w & [Hh Hw] & Hc) Hv Hn Ev Eh. simpl in *. rw Hw in Hv. injection Hv as ->.
  destruct Hc as [(-> & -> & Ho)|(-> & _)]; [|done].
  apply (lock_ok_move _ _ _ _ NULL); [intros b _; apply Ho| |done|done].
  split; [by rw Eh|by rw Ev lookup_insert_eq].
Qed.

Lemma lock_step_ok x y : lock_ok x → lock_step x y → lock_ok y.
Proof.
  intros Hok Hs. destruct Hs as [a fuel g s s' Ha E|a b g s s' Ha E|a g s s' Ha E|a g s s' Ha E
    |a g s s' Ha E|g s s' Eh Ev].
  - apply sema_down_inv in E as (v & Hv & Hn & Ev & Eh). by eapply lock_ok_take.
  - apply sema_try_down_inv in E as (v & Hv & -> & Eh & Ev). revert Ev. case_bool_decide as Hz; intros Ev.
    + eapply lock_ok_take; [done..| |done|done]. lia.
    + destruct Hok as (h & w & Hl & Hc). exists h, w. simpl in *. rw /lock_is Ev Eh. split; [done|].
      assert (∀ b, at_stage g a Outside b = g b) as Eg.
      { intros b. rw /at_stage. case_decide; [by subst|done]. }
      destruct Hc as [(H1 & H2 & H3)|(H1 & a' & H2 & H3 & H4)]; [left|right].
      * split_and!; [done|done|]. intros b. by rw Eg.
      * split; [done|]. exists a'. rw !Eg. split_and!; [done| |done]. intros b'. rw Eg. apply H3.
  - destruct (lock_ok_inside _ _ a Hok) as (h & Hl & Hb & _); [by rw Ha|].
    rw /acquire_own in E.
    apply bind_inv in E as (c & s1 & (_ & Hc & V1 & H1)%current_inv & ->%store_holder_inv).
    apply (lock_ok_move _ _ _ _ c); [done| |done|done].
    split; simpl; [by rw lookup_insert_eq|rw V1; apply Hl].
  - destruct (lock_ok_inside _ _ a Hok) as (h & Hl & Hb & _); [by rw Ha|].
    rw /release_clear in E. apply bind_assert_inv in E as [_ E].
    apply bind_inv in E as (b & s1 & (V1 & H1 & _)%held_inv & E).
    apply bind_assert_inv in E as [_ ->%store_holder_inv].
    apply (lock_ok_move _ _ _ _ NULL); [done| |done|done].
    split; simpl; [by rw lookup_insert_eq|rw V1; apply Hl].
  - destruct (lock_ok_inside _ _ a Hok) as (h & Hl & Hb & Hh); [by rw Ha|].
    apply sema_up_inv in E as (v & Hv & V1 & H1). destruct Hl as [Lh Lv]. rw Lv in Hv.
    injection Hv as <-. exists NULL, 1%Z. simpl. split.
    + split; [|by rw V1 lookup_insert_eq]. rw H1 Lh. f_equal. rw Ha in Hh.
      destruct (decide (h = NULL)) as [|Hn]; [done|]. by apply Hh in Hn.
    + left. split_and!; [done|done|]. intros b. rw /at_stage. case_decide; [done|]. by apply Hb.
  - destruct Hok as (h & v & Hl & Hc). exists h, v. split; [|done].
    destruct Hl. split; simpl in *; congruence.
Qed.

(** C13.  Mutual exclusion: from [lock_init] on, interleave in any way the steps of any
    number of activities that acquire and try the lock, and release it when they have it
    (a call of a semaphore operation is a step, and so are the stores of [holder] between
    them), and any code that leaves the two words of the lock alone.  At every moment at most one activity is
    between taking the unit and giving it back; the value is 1 exactly when there is none,
    and the holder is set exactly while that activity is the owner.  While there is one,
    no [lock_acquire] returns and no [lock_try_acquire] succeeds, from any state reached. *)
Theorem lock_mutual_exclusion s0 s1 g s :
  lock_init lock s0 = Ok (tt, s1) → rtc lock_step (λ _, Outside, s1) (g, s) →
  (∀ a b, g a ≠ Outside → g b ≠ Outside → a = b) ∧
  (∃ h v, lock_is s h v ∧ (v = 0 ∨ v = 1)%Z ∧ (v = 1%Z ↔ ∀ a, g a = Outside) ∧
          (h ≠ NULL ↔ ∃ a, g a = Owner)) ∧
  ∀ a, g a ≠ Outside →
    (∀ fuel r, lock_acquire fuel lock s ≠ Ok r) ∧ (∀ s', lock_try_acquire lock s ≠ Ok (true, s')).
Proof.
  intros Hi Hs. assert (lock_ok (λ _, Outside, s1)) as Hok.
  { exists NULL, 1%Z. split; [by eapply lock_init_inv|by left]. }
  assert (lock_ok (g, s)) as Hgs.
  { clear Hi. remember (λ _, Outside, s1) as x eqn:Ex. clear Ex.
    remember (g, s) as y eqn:Ey. clear Ey.
    induction Hs as [|x y z Hst _ IH]; [done|]. apply IH. by eapply lock_step_ok. }
  split_and!.
  - intros a b Ha Hb. destruct (lock_ok_inside _ _ a Hgs Ha) as (_ & _ & Ho & _).
    destruct (decide (b = a)) as [|Hne]; [done|]. by rw Ho in Hb.
  - destruct Hgs as (h & v & Hl & [(-> & -> & Ho)|(-> & a & Ha & Ho & Hh)]); simpl in *;
      eexists _, _; (split; [exact Hl|]); split_and!; try (by auto).
    + split; [done|]. intros [a Ha]. by rw Ho in Ha.
    + split; [done|]. intros Hall. by rw Hall in Ha.
    + rw Hh. split; [by eauto|]. intros [b Hb]. destruct (decide (b = a)) as [->|Hne]; [done|].
      by rw Ho in Hb.
  - intros a Ha. destruct (lock_ok_inside _ _ a Hgs Ha) as (h & Hl & _). split.
    + intros fuel [[] s'] E. apply lock_acquire_inv in E as (h1 & v1 & c & L1 & Hv & _).
      by destruct (lock_is_inj _ _ _ _ _ Hl L1) as [-> ->].
    + intros s' E. apply lock_try_inv in E as (h1 & v1 & L1 & Hv & _).
      by destruct (lock_is_inj _ _ _ _ _ Hl L1) as [-> ->].
Qed.
End Locks.

(** ** Semaphores *)

Section Semaphores.
Context `{Platform, X86}.
Implicit Types (s ss : sstate) (S : asem).

(** Ups, and units taken: the downs that answered true. *)
Fixpoint count_ups (os : list sem_op) : nat :=
  match os with
  | [] => 0
  | SemUp :: os => S (count_ups os)
  | _ :: os => count_ups os
  end.
Fixpoint count_taken (os : list sem_op) (bs : list bool) : nat :=
  match os, bs with
  | SemUp :: os, _ :: bs => count_taken os bs
  | _ :: os, true :: bs => S (count_taken os bs)
  | _ :: os, false :: bs => count_taken os bs
  | _, _ => 0
  end.

Lemma uint32_shift a b d c : c = (a + b - d)%Z → uint32 (uint32 a + b - d) = uint32 c.
Proof. intros ->. rw /uint32 -!Z.add_sub_assoc. by rw Zplus_mod_idemp_l. Qed.

Lemma a_sems_accounting os S0 bs S' :
  a_sems os S0 = Some (bs, S') → (0 ≤ as_value S0 < 2 ^ 32)%Z →
  as_value S' = uint32 (as_value S0 + Z.of_nat (count_ups os) - Z.of_nat (count_taken os bs)) ∧
  as_waiters S' = drop (count_ups os) (as_waiters S0) ∧
  a_ready (as_sched S') = a_ready (as_sched S0) ++ take (count_ups os) (as_waiters S0).
Proof.
  revert S0 bs. induction os as [|o os IH]; intros S0 bs; simpl.
  { intros [= <- <-] Hr. rw Z.add_0_r Z.sub_0_r uint32_id // take_0 app_nil_r. done. }
  destruct (a_sem o S0) as [[b S1]|] eqn:E; [|done]. intros E1 Hr.
  destruct (a_sems os S1) as [[bs1 S2]|] eqn:E2; [|done]. injection E1 as <- <-.
  assert (as_value S1 = as_value S0 ∨ ∃ z, as_value S1 = uint32 z) as H1.
  { revert E. destruct o; simpl; try case_bool_decide; intros [= <- <-]; eauto.
    right. rw /a_sema_up. destruct (as_waiters S0); eauto. }
  destruct (IH S1 bs1 E2) as (I1 & I2 & I3).
  { destruct H1 as [->|[z ->]]; [done|apply uint32_range]. }
  rw I1 I2 I3. destruct o; simpl in *.
  - injection E as <- <-. rw /a_sema_up. destruct (as_waiters S0) as [|t ws] eqn:Ew; simpl.
    + split_and!; [apply uint32_shift; lia|by rw drop_nil|by rw take_nil].
    + split_and!; [apply uint32_shift; lia|done|by rw -app_assoc].
  - case_bool_decide; simplify_eq; [|done]. split_and!; [|done|done].
    apply uint32_shift. lia.
  - case_bool_decide; simplify_eq. split_and!; [|done|done]. apply uint32_shift. lia.
Qed.

(** C12.  A semaphore is a counter with a queue: any sequence of ups, tries and downs that
    need not wait returns the results of the abstract semaphore and leaves a memory that
    represents it, kernel included; its value is the initial one plus the ups minus the
    units taken, modulo 2^32; each up makes ready the thread that has waited longest, in
    order; interrupts are as they were. *)
Theorem semaphore_refines sema os ss S bs S' :
  srep ss S sema → in_external_intr (y_intr ss) = false → a_sems os S = Some (bs, S') →
  runs (sem_execs sema os) ss (λ bs' ss',
    bs' = bs ∧ srep ss' S' sema ∧ same_intr (y_intr ss) (y_intr ss') ∧
    values ss' !! sema
      = Some (uint32 (as_value S + Z.of_nat (count_ups os) - Z.of_nat (count_taken os bs))) ∧
    a_ready (as_sched S') = a_ready (as_sched S) ++ take (count_ups os) (as_waiters S)).
Proof.
  intros R Hx E. destruct (a_sems_accounting _ _ _ _ E (sp_range _ _ _ R)) as (A1 & _ & A3).
  eapply (runs_mono _ _ (λ bs' ss', bs' = bs ∧ srep ss' S' sema ∧
    same_intr (y_intr ss) (y_intr ss'))).
  2: { intros bs' ss' (H1 & H2 & H3). by rw (sp_value _ _ _ H2) A1. }
  clear A1 A3. revert ss S bs R Hx E. induction os as [|o os IH]; intros ss S bs R Hx E.
  { injection E as <- <-. cbn [sem_execs]. step. split_and!; [done|done|]. rw /same_intr. by destruct (y_intr ss). }
  simpl in E. destruct (a_sem o S) as [[b S1]|] eqn:E1; [|done].
  destruct (a_sems os S1) as [[bs1 S2]|] eqn:E2; [|done]. injection E as <- <-.
  cbn [sem_execs]. step. eapply runs_mono; [by eapply sem_exec_refines|].
  intros b' ss1 (-> & R1 & Hs). step. eapply runs_mono; [eapply (IH _ S1); [done| |done]|].
  { by rw Hs. }
  intros bs' ss2 (-> & R2 & Hs2). step. split_and!; [done|done|]. rw /same_intr Hs2 Hs.
  by destruct (y_intr ss).
Qed.

(** [cond_wait], which downs a new semaphore, does not return either. *)
Theorem cond_wait_never_returns s fuel waiter cond lock :
  elem_sema waiter ≠ lock_sema lock → ∀ r, cond_wait fuel waiter cond lock s ≠ Ok r.
Proof.
  intros Hne [[] s'] (u1 & s1 & _ & E)%bind_inv. apply bind_inv in E as (u2 & s2 & _ & E).
  apply bind_assert_inv in E as [_ E]. apply bind_assert_inv in E as [_ E].
  apply bind_inv in E as (x & s3 & _ & E). apply bind_assert_inv in E as [_ E].
  apply bind_inv in E as (b & s4 & _ & E). apply bind_assert_inv in E as [_ E].
  apply bind_inv in E as ([] & s5 & [V5 _]%sema_init_inv & E).
  apply bind_inv in E as (u6 & s6 & [V6 _]%zoom_intr_inv & E).
  apply bind_inv in E as ([] & s7 & E7 & E).
  apply bind_inv in E as ([] & s8 & (v & Ev & Hn & _)%sema_down_inv & _). apply Hn.
  rw /lock_release in E7. apply bind_assert_inv in E7 as [_ E7].
  apply bind_inv in E7 as (b7 & s9 & (V9 & _)%held_inv & E7).
  apply bind_assert_inv in E7 as [_ E7].
  apply bind_inv in E7 as ([] & s10 & ->%store_holder_inv & (v7 & _ & V7 & _)%sema_up_inv).
  rw V7 lookup_insert_ne /= in Ev; [done|]. rw V9 V6 V5 lookup_insert_eq in Ev.
  by injection Ev as <-.
Qed.

(** The self-test of the semaphores never completes: its first down waits for a
    thread that never runs. *)
Theorem self_test_never_completes s fuel sema helper literal :
  ∀ r, sema_self_test fuel sema helper literal s ≠ Ok r.
Proof.
  intros [[] s'] E. rw /sema_self_test in E.
  do 3 apply bind_inv in E as (? & ? & _ & E).
  apply bind_inv in E as ([] & s1 & _ & E).
  apply bind_inv in E as ([] & s2 & [V2 _]%sema_init_inv & E).
  apply bind_inv in E as (t & s3 & [V3 _]%zoom_intr_inv & E).
  apply bind_inv in E as ([] & s4 & E4 & _). cbn [sema_self_test_loop] in E4.
  apply bind_inv in E4 as ([] & s5 & (v5 & _ & V5 & _)%sema_up_inv & E4).
  apply bind_inv in E4 as ([] & s6 & (v & Ev & Hn & _)%sema_down_inv & _). apply Hn.
  rw V5 lookup_insert_ne in Ev; [rw /sizeof_semaphore; lia|].
  rw V3 V2 lookup_insert_eq in Ev. by injection Ev as <-.
Qed.
End Semaphores.

(** ** Instances *)

(** A semaphore on the boot stack, beside three threads. *)
Definition demo_sema : Z := 0x20041800.

(** The boot stack above the initial thread is apart from the kernel's objects. *)
Lemma demo_apart k z :
  demo demo_rr = Some k → (0x20041700 ≤ z)%Z → cell_apart (dom (k_threads k)) z.
Proof.
  intros E Hz. split.
  - intros l Hl. rw /static_lists !elem_of_cons in Hl. unfold_addr.
    destruct Hl as [->|[->|[->|[]%elem_of_nil]]]; lia.
  - assert (bool_decide (Forall (λ t, t + sizeof_thread ≤ 0x20041700)%Z
      (elements (dom (k_threads k)))) = true) as Hf%bool_decide_eq_true
      by (demo_fact E (λ k, bool_decide (Forall (λ t, t + sizeof_thread ≤ 0x20041700)%Z
            (elements (dom (k_threads k)))))).
    intros t Ht. rw Forall_forall in Hf. specialize (Hf t ltac:(by apply elem_of_elements)).
    rw /cells_of !elem_of_cons elem_of_nil. unfold sizeof_thread, off_allelem, off_elem,
      off_donations in *. lia.
Qed.

Lemma demo_sema_apart k :
  demo demo_rr = Some k → sema_apart (dom (k_threads k)) demo_sema.
Proof.
  intros E z Hz. apply demo_apart; [done|].
  unfold demo_sema, waiters, off_waiters, head_of, tail_of in *. lia.
Qed.

(** Its waiter is the idle thread, which is blocked. *)
Lemma demo_semaphore k :
  demo demo_rr = Some k →
  ∃ ss A, srep ss (ASem 0 [idle_thread k] A) demo_sema ∧ in_external_intr (y_intr ss) = false ∧
    good k A.
Proof.
  intros E. destruct (reachable_good k (demo_reachable _ _ E)) as (A & R & O).
  destruct (runs_inv _ _ _ (runs_sema_create (SState (intr_start k 0) ∅ ∅) A demo_sema 0
    (λ _ ss', srep ss' (ASem 0 [] A) demo_sema ∧ same_intr (intr_start k 0) (y_intr ss'))
    R ltac:(done) (demo_sema_apart k E) (λ ss' H1 H2, conj H1 H2)))
    as ([] & ss & _ & [] & Hi).
  assert (status_of A (idle_thread k) = Some THREAD_BLOCKED) as Hst.
  { rw -(status_view _ _ R). demo_fact E (λ k, status <$> k_threads k !! idle_thread k). }
  assert (bool_decide (idle_thread k ∉ ready_threads k ∧ idle_thread k ∉ waiting_threads k)
    = true) as [H1 H2]%bool_decide_eq_true.
  { demo_fact E (λ k, bool_decide (idle_thread k ∉ ready_threads k ∧
      idle_thread k ∉ waiting_threads k)). }
  rw (ready_view _ _ R) in H1. rw (waiting_view _ _ R) in H2.
  destruct (runs_inv _ _ _ (runs_waiters_push (kern ss) A demo_sema (idle_thread k) []
    (λ _ k', krep k' A ∧ sem_rep k' A demo_sema [idle_thread k]) sp_kernel sp_waiters
    (not_elem_of_nil _) Hst H1 H2 (λ k' R1 R2, conj R1 R2))) as ([] & k2 & _ & R2 & W2).
  exists (set_intr ss (set_kernel (y_intr ss) k2)), A. split; [by split|]. split; [by rw /= Hi|exact (conj R O)].
Qed.

Lemma semaphore_refines_witness :
  ∃ ss, values ss !! demo_sema = Some 0%Z ∧
    runs (sem_execs demo_sema [SemUp; SemTryDown; SemTryDown]) ss (λ bs ss',
      bs = [true; true; false] ∧ values ss' !! demo_sema = Some 0%Z).
Proof.
  run_demo k E demo_rr. destruct (demo_semaphore k E) as (ss & A & R & Hx & _).
  exists ss. split; [exact (sp_value _ _ _ R)|]. eapply runs_mono.
  - eapply (semaphore_refines demo_sema [SemUp; SemTryDown; SemTryDown] ss); [exact R|exact Hx|].
    reflexivity.
  - intros bs ss' (-> & _ & _ & Hv & _). split; [done|exact Hv].
Defined.


(** A lock that the running thread takes. *)
Definition demo_lock (k : kstate) : sstate :=
  SState (intr_start (set_heap k (<[0x20041808%Z := Elem 0 0]> (<[0x20041810%Z := Elem 0 0]>
    (k_heap k)))) 0) {[ 0x20041804%Z := 0%Z ]} {[ demo_sema := 0%Z ]}.

Definition demo_locking : option (sstate * sstate) :=
  match demo demo_rr with
  | Some k =>
      match lock_init demo_sema (demo_lock k) with
      | Ok (_, s1) =>
          match sema_try_down (lock_sema demo_sema) s1 with
          | Ok (true, s) => Some (s1, s) | _ => None end
      | Err _ => None
      end
  | None => None
  end.

(** Between the unit and the store of the holder: nobody else gets in. *)
Lemma lock_mutual_exclusion_witness :
  ∃ s1 s, demo_locking = Some (s1, s) ∧ ∀ fuel r, lock_acquire fuel demo_sema s ≠ Ok r.
Proof.
  destruct demo_locking as [[s1 s]|] eqn:E; [|by vm_compute in E].
  exists s1, s. split; [done|]. unfold demo_locking in E.
  destruct (demo demo_rr) as [k|]; [|done].
  destruct (lock_init demo_sema (demo_lock k)) as [[[] s2]|] eqn:E1; [|done].
  destruct (sema_try_down (lock_sema demo_sema) s2) as [[[] s3]|] eqn:E2; [|done..].
  injection E as <- <-.
  destruct (lock_mutual_exclusion demo_sema (demo_lock k) s2 (at_stage (λ _, Outside) 0 Taken) s3 E1)
    as (_ & _ & Hx).
  { apply rtc_once. by apply (ls_try demo_sema 0 true). }
  by apply (Hx 0).
Defined.
