(* ===== verification/CondProps.v ===== *)
(** * Condition variables

    [crep ss A cond ws]: the memory [ss] holds, at [cond], a condition on which the
    threads [ws.*2] wait, each blocked on the semaphore of its own [semaphore_elem] (the
    addresses [ws.*1]).  [cond_signal] makes ready the thread that has waited longest,
    [cond_broadcast] all of them, in order.  The calls to
    [cond_wait] that put them there do not return on this kernel (see SynchProps). *)

From S2P Require Import Prelude CList CListRepr CListSpec Machine Thread Main Sim Sched.
From S2P Require Import SchedInv ThreadRep ThreadLife ThreadSpec Kernel Boot Reach Demo.
From S2P Require Import Interrupt InterruptSpec Synch SynchSpec SynchProps.

(** [struct semaphore_elem]: a cell and a semaphore. *)
Definition sizeof_semaphore_elem : Z := off_elem_semaphore + sizeof_semaphore.
Definition sizeof_condition : Z := 16.

(** A waiter: its semaphore is at zero and one blocked thread waits on it. *)
Record waits_on (ss : sstate) (A : sched) (w t : Z) : Prop := {
  wo_nonnull : elem_sema w ≠ NULL;
  wo_value : values ss !! elem_sema w = Some 0%Z;
  wo_sema : sem_rep (kern ss) A (elem_sema w) [t];
}.

Record crep (ss : sstate) (A : sched) (cond : Z) (ws : list (Z * Z)) : Prop := {
  cr_kernel : krep (kern ss) A;
  cr_list : list_repr (k_heap (kern ss)) (cond_waiters cond) ws.*1;
  cr_waits : ∀ w t, (w, t) ∈ ws → waits_on ss A w t;
  cr_threads : NoDup ws.*2;
  cr_apart : ∀ z, z ∈ nodes (cond_waiters cond) ws.*1 →
    cell_apart (dom (k_threads (kern ss))) z;
  cr_elems : ∀ w w', w ∈ ws.*1 → w' ∈ ws.*1 → w ≠ w' →
    (w + sizeof_semaphore_elem ≤ w' ∨ w' + sizeof_semaphore_elem ≤ w)%Z;
  cr_cond : ∀ w, w ∈ ws.*1 →
    (w + sizeof_semaphore_elem ≤ cond ∨ cond + sizeof_condition ≤ w)%Z;
}.

(** Waking threads in order. *)
Definition a_wake_all (ts : list Z) (A : sched) : sched := foldl (λ A t, a_unblock t A) A ts.

Lemma wake_all_ready ts A : a_ready (a_wake_all ts A) = a_ready A ++ ts.
Proof.
  revert A. induction ts as [|t ts IH]; intros A; simpl; [by rw app_nil_r|].
  rw IH /=. by rw -app_assoc.
Qed.
Lemma wake_all_run ts A : a_run (a_wake_all ts A) = a_run A.
Proof. revert A. induction ts as [|t ts IH]; intros A; simpl; [done|]. by rw IH. Qed.

Lemma wake_all_status ts A t :
  t ∈ ts → is_Some (a_thr A !! t) → status_of (a_wake_all ts A) t = Some THREAD_READY.
Proof.
  assert (∀ us B, status_of B t = Some THREAD_READY →
    status_of (a_wake_all us B) t = Some THREAD_READY) as Hkeep.
  { induction us as [|u us IH]; intros B HB; simpl; [done|]. apply IH.
    destruct (decide (u = t)) as [->|]; [|by rw /a_unblock set_status_other].
    rw /a_unblock set_status_same /=. destruct (status_of_Some _ _ _ HB) as [i ->]. done. }
  revert A. induction ts as [|u ts IH]; intros A; [by intros []%elem_of_nil|].
  intros Ht Hl. simpl. destruct (decide (u = t)) as [->|Hne].
  - apply Hkeep. rw /a_unblock set_status_same /=. by destruct Hl as [i ->].
  - apply IH; [set_solver|]. rw /a_unblock. by apply set_status_live.
Qed.

Ltac unfold_waiters :=
  unfold sizeof_semaphore_elem, cond_waiters, elem_sema, waiters, head_of, tail_of, off_waiters,
    off_elem_semaphore, sizeof_semaphore, sizeof_condition in *.

Section Cond.
Context `{Platform, X86}.
Implicit Types (ss : sstate) (A : sched).

(** ** Frames *)

Lemma sem_rep_frame k k' A sema ts :
  sem_rep k A sema ts → dom (k_threads k') = dom (k_threads k) →
  (∀ x, x ∈ nodes (waiters sema) (elem_ptr <$> ts) → k_heap k' !! x = k_heap k !! x) →
  sem_rep k' A sema ts.
Proof.
  intros [Hl Hb Ha] Hd Hh. split; [by eapply repr_agree|done|by rw Hd].
Qed.

Section Waiters.
Context (ss : sstate) (A : sched) (cond : Z) (w t : Z) (ws : list (Z * Z)).
Context (C : crep ss A cond ((w, t) :: ws)).

(** The nodes of a waiter's semaphore are not nodes of the condition. *)
Lemma sema_not_cond w' t' z :
  (w', t') ∈ (w, t) :: ws → z ∈ nodes (waiters (elem_sema w')) (elem_ptr <$> [t']) →
  z ∉ nodes (cond_waiters cond) ((w, t) :: ws).*1.
Proof.
  intros Hin Hz Hc. pose proof (cr_apart _ _ _ _ C z Hc) as [_ Ha].
  assert (w' ∈ ((w, t) :: ws).*1) as Hw by (by apply (list_elem_of_fmap_2 fst) in Hin).
  pose proof (cr_cond _ _ _ _ C w' Hw) as Hg.
  pose proof (sr_blocked _ _ _ _ (wo_sema _ _ _ _ (cr_waits _ _ _ _ C w' t' Hin)) t'
    ltac:(by left)) as [Hst _].
  assert (t' ∈ dom (k_threads (kern ss))) as Ht.
  { rw (kr_dom _ _ (cr_kernel _ _ _ _ C)). by apply elem_of_dom, (status_of_Some _ _ _ Hst). }
  rw in_nodes_fmap in Hz. rw in_nodes in Hc.
  destruct Hz as [->|[->|(t1 & -> & ->%list_elem_of_singleton)]].
  3: { apply (Ha t' Ht). rw /cells_of /elem_ptr. set_solver. }
  all: destruct Hc as [E|[Hin'|E]]; [unfold_waiters; lia| |unfold_waiters; lia];
    destruct (cr_elems _ _ _ _ C w' _ Hw Hin'); unfold_waiters; lia.
Qed.

Lemma waiter_thread w' t' : (w', t') ∈ (w, t) :: ws → t' ∈ dom (k_threads (kern ss)).
Proof.
  intros Hin. destruct (sr_blocked _ _ _ _ (wo_sema _ _ _ _ (cr_waits _ _ _ _ C w' t' Hin)) t')
    as [Hst _]; [by left|]. rw (kr_dom _ _ (cr_kernel _ _ _ _ C)).
  by apply elem_of_dom, (status_of_Some _ _ _ Hst).
Qed.

#[local] Abbreviation up := (up_cells (ASem 0 [t] A) (elem_sema w)).

(** Waking the first thread writes to no cell apart from the kernel but the sentinels of
    its semaphore, and to the [elem] of no other waiting thread. *)
Lemma up_apart z :
  cell_apart (dom (k_threads (kern ss))) z → z ≠ head_of (waiters (elem_sema w)) →
  z ≠ tail_of (waiters (elem_sema w)) → z ∉ up.
Proof.
  intros Hz H1 H2. rw /up_cells; cbn [as_waiters as_sched]; rw elem_of_app elem_of_cons.
  intros [Hin|[->|Hin]].
  - rw /nodes /= !elem_of_cons elem_of_nil in Hin. naive_solver.
  - apply (proj2 Hz t (waiter_thread w t ltac:(by left))). rw /cells_of /elem_ptr. set_solver.
  - eapply (kernel_node (kern ss) ready_list elem_ptr (a_ready A)); [..|done|done];
      [by rw /static_lists; set_solver|by right|].
    intros t1 Ht1. apply (kr_live _ _ (cr_kernel _ _ _ _ C)). by left.
Qed.

Lemma up_elem w' t' : (w', t') ∈ ws → t' ≠ t → elem_ptr t' ∉ up.
Proof.
  intros Hin Hne. assert ((w', t') ∈ (w, t) :: ws) as Hin' by (by right).
  pose proof (waiter_thread w' t' Hin') as Hd. pose proof (cr_kernel _ _ _ _ C) as K.
  destruct (sr_blocked _ _ _ _ (wo_sema _ _ _ _ (cr_waits _ _ _ _ C w' t' Hin')) t' ltac:(by left))
    as (_ & Hr & _).
  pose proof (sr_apart _ _ _ _ (wo_sema _ _ _ _ (cr_waits _ _ _ _ C w t ltac:(by left)))) as Ha.
  assert (elem_ptr t' ∈ cells_of t') as Hc by (rw /cells_of /elem_ptr; set_solver).
  rw /up_cells; cbn [as_waiters as_sched]; rw elem_of_app elem_of_cons. intros [Hi|[Hi|Hi]].
  - rw /nodes /= !elem_of_cons elem_of_nil in Hi. destruct Hi as [Hi|[Hi|[]]].
    + apply (proj2 (Ha _ (or_introl eq_refl)) t' Hd). by rw -Hi.
    + apply (proj2 (Ha _ (or_intror eq_refl)) t' Hd). by rw -Hi.
  - by apply (inj elem_ptr) in Hi.
  - eapply (elem_not_in_nodes _ (kr_layout _ _ K) ready_list (a_ready A) t'); eauto.
Qed.

Lemma first_fresh : w ∉ ws.*1 ∧ t ∉ ws.*2.
Proof.
  pose proof (repr_nodup _ _ _ (cr_list _ _ _ _ C)) as Hnd. rw /nodes /= in Hnd.
  apply NoDup_cons in Hnd as [_ Hnd]. apply NoDup_cons in Hnd as [Hnd _].
  pose proof (cr_threads _ _ _ _ C) as [Ht _]%NoDup_cons. set_solver.
Qed.

(** The state after the first waiter is off the list ([ss1]) and woken ([ss']). *)
Context (ss1 ss' : sstate).
Context (R1 : list_repr (k_heap (kern ss1)) (cond_waiters cond) ws.*1).
Context (C1 : changes (nodes (cond_waiters cond) ws.*1) (k_heap (kern ss)) (k_heap (kern ss1))).
Context (K' : krep (kern ss') (a_unblock t A)).
Context (C' : changes up (k_heap (kern ss1)) (k_heap (kern ss'))).
Context (Hv : values ss' = <[elem_sema w := 1%Z]> (values ss)).

Lemma same_threads : dom (k_threads (kern ss')) = dom (k_threads (kern ss)).
Proof. rw (kr_dom _ _ K') (kr_dom _ _ (cr_kernel _ _ _ _ C)) /= dom_alter_L //. Qed.

(** The other waiters still wait. *)
Lemma signal_others w' t' : (w', t') ∈ ws → waits_on ss' (a_unblock t A) w' t'.
Proof.
  intros Hin. assert ((w', t') ∈ (w, t) :: ws) as Hin' by (by right).
  destruct first_fresh as [Hw Ht].
  assert (w' ∈ ws.*1) as Hw' by (by apply (list_elem_of_fmap_2 fst) in Hin).
  assert (t' ∈ ws.*2) as Ht' by (by apply (list_elem_of_fmap_2 snd) in Hin).
  assert (w' ≠ w ∧ t' ≠ t) as [Hne Hnt] by (split; by intros ->).
  destruct (cr_waits _ _ _ _ C w' t' Hin') as [W1 W2 W3]. pose proof W3 as [S1 S2 S3].
  destruct (S2 t' ltac:(by left)) as (B1 & B2 & B3).
  pose proof (cr_elems _ _ _ _ C w' w ltac:(by right) ltac:(by left) Hne) as Hg.
  split; [done|rw Hv lookup_insert_ne //; unfold_waiters; lia|].
  split; [|intros u ->%list_elem_of_singleton|by rw same_threads].
  - eapply repr_agree; [|exact S1]. intros z Hz. rw (proj1 C'); [|rw (proj1 C1) //].
    + rw in_nodes_fmap in Hz. destruct Hz as [->|[->|(t1 & -> & ->%list_elem_of_singleton)]].
      1-2: apply up_apart; [apply S3; auto|unfold_waiters; lia..].
      by apply (up_elem w').
    + intros Hc. eapply (sema_not_cond w' t'); [done|exact Hz|].
      rw !in_nodes /= elem_of_cons in Hc *. naive_solver.
  - rw /a_unblock set_status_other //. split_and!; [done| |done].
    simpl. rw elem_of_app list_elem_of_singleton. naive_solver.
Qed.

Lemma signal_frame : crep ss' (a_unblock t A) cond ws.
Proof.
  assert (∀ z, z ∈ nodes (cond_waiters cond) ws.*1 →
    z ∈ nodes (cond_waiters cond) ((w, t) :: ws).*1) as Hsub.
  { intros z Hz. rw !in_nodes /= elem_of_cons in Hz *. naive_solver. }
  split; [done| |apply signal_others| | | |].
  - eapply repr_frame; [exact C'| |exact R1]. intros z Hz%Hsub.
    apply up_apart; [by apply (cr_apart _ _ _ _ C)|..]; intros ->;
      (eapply (sema_not_cond w t); [by left| |exact Hz]); rw in_nodes; auto.
  - by apply (NoDup_cons_1_2 t), (cr_threads _ _ _ _ C).
  - intros z Hz. rw same_threads. by apply (cr_apart _ _ _ _ C), Hsub.
  - intros w1 w2 H1 H2. apply (cr_elems _ _ _ _ C); by right.
  - intros w1 H1. apply (cr_cond _ _ _ _ C). by right.
Qed.
End Waiters.

(** ** Signals *)

(** The lock is held by the running thread, outside interrupts. *)
Record may_signal ss A (cond lock : Z) : Prop := {
  ms_cond : cond ≠ NULL;
  ms_lock : lock ≠ NULL;
  ms_intr : in_external_intr (y_intr ss) = false;
  ms_run : status_of A (a_run A) = Some THREAD_RUNNING;
  ms_held : holders ss !! lock = Some (a_run A);
}.

Lemma runs_held ss A lock (Q : bool → sstate → Prop) :
  krep (kern ss) A → status_of A (a_run A) = Some THREAD_RUNNING → lock ≠ NULL →
  holders ss !! lock = Some (a_run A) → Q true ss →
  runs (lock_held_by_current_thread lock) ss Q.
Proof.
  intros K Hs Hl Hh HQ. rw /lock_held_by_current_thread. step.
  step; [by apply bool_decide_eq_true_2|]. step. eapply runs_Ok; [by rw /load_holder Hh|]. step.
  apply runs_on_thread. eapply runs_thread_current; [done..|]. step.
  rw bool_decide_eq_true_2 //. by destruct ss as [[]].
Qed.

(** The assertions at the head of [cond_signal]. *)
Lemma runs_signal_guards ss A cond lock (rest : M sstate unit) (Q : unit → sstate → Prop) :
  krep (kern ss) A → may_signal ss A cond lock → runs rest ss Q →
  runs (ASSERT synch_c 315 (bool_decide (cond ≠ NULL));;
        ASSERT synch_c 316 (bool_decide (lock ≠ NULL));;
        c ← on_intr intr_context; ASSERT synch_c 317 (negb c);;
        b ← lock_held_by_current_thread lock; ASSERT synch_c 318 b;; rest) ss Q.
Proof.
  intros K [] Hr. step. step; [by apply bool_decide_eq_true_2|].
  step. step; [by apply bool_decide_eq_true_2|]. step. apply runs_zoom, runs_intr_context.
  rw set_intr_same ms_intr0. step. step; [done|]. step. eapply runs_held; [done..|].
  step. step; done.
Qed.

Lemma runs_cond_signal ss A cond lock ws (Q : unit → sstate → Prop) :
  crep ss A cond ws → may_signal ss A cond lock →
  (∀ ss', crep ss' (a_wake_all (take 1 ws.*2) A) cond (drop 1 ws) →
     same_intr (y_intr ss) (y_intr ss') → holders ss' = holders ss →
     values ss' = foldr (λ w, <[elem_sema w := 1%Z]>) (values ss) (take 1 ws.*1) → Q tt ss') →
  runs (cond_signal cond lock) ss Q.
Proof.
  intros C M HQ. pose proof C as [K L W _ P _ _]. rw /cond_signal.
  eapply runs_signal_guards; [done..|]. step. apply runs_on_thread, runs_on_heap.
  eapply runs_list_empty; [exact L|].
  assert (set_intr ss (set_kernel (y_intr ss) (set_heap (kern ss) (k_heap (kern ss)))) = ss) as ->
    by (by destruct ss as [[[]]]).
  destruct ws as [|[w t] ws]; cbn [fmap list_fmap fst snd take drop] in *.
  { rw bool_decide_eq_true_2 //. step. apply HQ; [done| |done|done]. by destruct (y_intr ss). }
  rw bool_decide_eq_false_2 //. step. apply runs_on_thread, runs_on_heap.
  eapply runs_list_pop_front; [exact L|]. intros h R1 C1.
  assert (list_entry_waiter w = w) as -> by (rw /list_entry_waiter; lia).
  set (ss1 := set_intr ss (set_kernel (y_intr ss) (set_heap (kern ss) h))).
  destruct (W w t ltac:(by left)) as [W1 W2 W3].
  assert (srep ss1 (ASem 0 [t] A) (elem_sema w)) as S1.
  { split; [done|exact W2|done|..].
    - apply krep_apart; [done| |by rw (proj2 C1)]. intros x Hx. apply (proj1 C1). intros Hin.
      apply Hx, P. rw !in_nodes /= elem_of_cons in Hin *. naive_solver.
    - eapply sem_rep_frame; [exact W3|done|]. intros x Hx. apply (proj1 C1). intros Hin.
      eapply (sema_not_cond _ _ _ _ _ _ C w t); [by left|exact Hx|].
      rw !in_nodes /= elem_of_cons in Hin *. naive_solver. }
  assert (runs (sema_up (elem_sema w)) ss1 (λ _ ss',
    srep ss' (ASem 1 [] (a_unblock t A)) (elem_sema w) ∧ same_intr (y_intr ss1) (y_intr ss') ∧
    changes (up_cells (ASem 0 [t] A) (elem_sema w)) (k_heap (kern ss1)) (k_heap (kern ss'))))
    as ([] & ss' & E & S' & Hi & C')%runs_inv.
  { eapply runs_sema_up; [exact S1|left; apply M|]. intros ss' S' Hi C'. done. }
  destruct (sema_up_inv _ _ _ E) as (v & Ev & Hv & Hh). assert (v = 0%Z) as ->.
  { pose proof (sp_value _ _ _ S1) as E0. rw Ev in E0. by injection E0. }
  eapply runs_Ok; [exact E|]. apply HQ; [|done|done|done].
  eapply (signal_frame ss A cond w t ws C ss1); [done|done|apply S'|done|done].
Qed.

Lemma may_signal_wake ss ss' A cond lock t :
  may_signal ss A cond lock → status_of A t = Some THREAD_BLOCKED →
  same_intr (y_intr ss) (y_intr ss') → holders ss' = holders ss →
  may_signal ss' (a_unblock t A) cond lock.
Proof.
  intros [] Ht Hi Hh. split; [done|done|by rw Hi| |by rw Hh].
  rw /a_unblock set_status_other //. simpl. intros E. rw E in ms_run0. congruence.
Qed.

(** What a broadcast leaves: the threads woken in order, their semaphores up, the rest as
    it was. *)
Record broadcast_done ss ss' A (cond : Z) (ws : list (Z * Z)) : Prop := {
  bd_crep : crep ss' (a_wake_all ws.*2 A) cond [];
  bd_intr : same_intr (y_intr ss) (y_intr ss');
  bd_holders : holders ss' = holders ss;
  bd_up : ∀ w, w ∈ ws.*1 → values ss' !! elem_sema w = Some 1%Z;
  bd_other : ∀ a, a ∉ elem_sema <$> ws.*1 → values ss' !! a = values ss !! a;
}.

Lemma runs_broadcast_loop ws fuel ss A cond lock (Q : unit → sstate → Prop) :
  crep ss A cond ws → may_signal ss A cond lock → length ws < fuel →
  (∀ ss', broadcast_done ss ss' A cond ws → Q tt ss') →
  runs (cond_broadcast_loop fuel cond lock) ss Q.
Proof.
  revert fuel ss A Q. induction ws as [|[w t] ws IH]; intros fuel ss A Q C M Hf HQ;
    (destruct fuel as [|fuel]; [simpl in Hf; lia|]); cbn [cond_broadcast_loop]; step;
    apply runs_on_thread, runs_on_heap; (eapply runs_list_empty; [apply C|]);
    assert (set_intr ss (set_kernel (y_intr ss) (set_heap (kern ss) (k_heap (kern ss)))) = ss) as ->
      by (by destruct ss as [[[]]]).
  { rw bool_decide_eq_true_2 //. step. apply HQ. split; try done; [by destruct (y_intr ss)|].
    by intros w []%elem_of_nil. }
  rw bool_decide_eq_false_2 //. step. eapply runs_cond_signal; [done..|].
  cbn [fmap list_fmap fst snd take drop a_wake_all foldl foldr]. rw take_0.
  intros ss1 C1 I1 H1 V1.
  destruct (sr_blocked _ _ _ _ (wo_sema _ _ _ _ (cr_waits _ _ _ _ C w t ltac:(by left))) t
    ltac:(by left)) as [Hst _].
  destruct (first_fresh ss A cond w t ws C) as [Hw _].
  apply (IH fuel ss1 (a_unblock t A)); [done|by eapply may_signal_wake|simpl in Hf; lia|].
  intros ss2 [B1 B2 B3 B4 B5]. apply HQ. rw take_0 /= in V1. split; [done| |congruence|..].
  - rw /same_intr B2 I1. by destruct (y_intr ss).
  - intros w' [->|Hin]%elem_of_cons; [|by apply B4]. rw B5 ?V1 ?lookup_insert_eq //.
    intros (w'' & E & Hin)%list_elem_of_fmap. assert (w = w'') as -> by (rw /elem_sema /= in E; lia).
    done.
  - intros a Ha. cbn [fmap list_fmap] in Ha. apply not_elem_of_cons in Ha as [Hne Ha].
    rw B5 // V1 lookup_insert_ne //.
Qed.

(** C20.  Condition variables wake in order: when the running thread holds the lock and
    threads wait on the condition, [cond_signal] makes ready the one that has waited
    longest (and nobody when none waits), and [cond_broadcast] returns after making ready
    all of them, in the order in which they began to wait, behind the threads already
    ready; each woken thread's own semaphore is then up, the condition empty, and the
    lock, the other semaphores and the interrupt state as they were. *)
Theorem cond_wakes_in_order ss A cond lock ws :
  crep ss A cond ws → may_signal ss A cond lock →
  runs (cond_signal cond lock) ss (λ _ ss',
    crep ss' (a_wake_all (take 1 ws.*2) A) cond (drop 1 ws) ∧
    ready_threads (kern ss') = ready_threads (kern ss) ++ take 1 ws.*2) ∧
  runs (cond_broadcast cond lock) ss (λ _ ss',
    broadcast_done ss ss' A cond ws ∧
    ready_threads (kern ss') = ready_threads (kern ss) ++ ws.*2 ∧
    ∀ t, t ∈ ws.*2 → has_status (kern ss') t THREAD_READY).
Proof.
  intros C M. rw (ready_view _ _ (cr_kernel _ _ _ _ C)). split.
  - eapply runs_cond_signal; [done..|]. intros ss' C' _ _ _. split; [done|].
    by rw (ready_view _ _ (cr_kernel _ _ _ _ C')) wake_all_ready.
  - rw /cond_broadcast. pose proof M as []. step. step; [by apply bool_decide_eq_true_2|].
    step. step; [by apply bool_decide_eq_true_2|]. steps.
    eapply runs_broadcast_loop; [done..| |].
    { pose proof (repr_fuel _ _ _ (cr_list _ _ _ _ C)) as Hf. rw length_fmap in Hf. rw /kern in Hf. lia. }
    intros ss' B. pose proof (cr_kernel _ _ _ _ (bd_crep _ _ _ _ _ B)) as K'.
    split; [done|]. rw (ready_view _ _ K') wake_all_ready. split; [done|].
    intros t Ht. rw (status_view _ _ K'). apply wake_all_status; [done|].
    apply list_elem_of_fmap in Ht as ([w t0] & -> & Hin).
    destruct (sr_blocked _ _ _ _ (wo_sema _ _ _ _ (cr_waits _ _ _ _ C w t0 Hin)) t0)
      as [Hst _]; [by left|]. by eapply status_of_Some.
Qed.
End Cond.

(** ** An instance *)

(** The [semaphore_elem] around the semaphore of [demo_semaphore], on which the idle
    thread waits, in the list of a condition. *)
Definition demo_waiter : Z := 0x200417f8.
Definition demo_cond : Z := 0x20041900.
Definition demo_cond_lock : Z := 0x20041a00.

Definition demo_cond_heap (h : heap) : heap :=
  <[demo_waiter := Elem demo_cond (demo_cond + 8)]>
    (<[demo_cond := Elem NULL demo_waiter]>
      (<[(demo_cond + 8)%Z := Elem demo_waiter NULL]> h)).

Definition demo_cond_state (ss : sstate) (A : sched) : sstate :=
  SState (set_kernel (y_intr ss) (set_heap (kern ss) (demo_cond_heap (k_heap (kern ss)))))
    (values ss) {[ demo_cond_lock := a_run A ]}.

Lemma demo_cond_frame h x :
  x ≠ demo_waiter → x ≠ demo_cond → x ≠ (demo_cond + 8)%Z → demo_cond_heap h !! x = h !! x.
Proof. intros. rw /demo_cond_heap !lookup_insert_ne //. Qed.

Lemma demo_cond_dom h : dom h ⊆ dom (demo_cond_heap h).
Proof. rw /demo_cond_heap. by do 3 (etrans; [|apply dom_insert_subseteq]). Qed.

Lemma demo_cond_repr h : list_repr (demo_cond_heap h) demo_cond [demo_waiter].
Proof.
  split; [by apply (bool_decide_unpack _); vm_compute..|].
  rw /nodes /=. split_and!; [..|done]; rw /demo_cond_heap /head_of /tail_of;
    repeat (rewrite lookup_insert_ne; [by vm_compute|]); by rewrite lookup_insert_eq.
Qed.

Lemma demo_condition k :
  demo demo_rr = Some k →
  ∃ ss A, crep ss A demo_cond [(demo_waiter, idle_thread k)] ∧
    may_signal ss A demo_cond demo_cond_lock.
Proof.
  intros E. destruct (demo_semaphore k E) as (ss & A & R & Hx & R0 & O).
  assert (dom (k_threads (kern ss)) = dom (k_threads k)) as Hd.
  { by rw (kr_dom _ _ R0) (kr_dom _ _ (sp_kernel _ _ _ R)). }
  assert (∀ z, (0x20041700 ≤ z)%Z → cell_apart (dom (k_threads (kern ss))) z) as Hap.
  { intros z Hz. rw Hd. by apply demo_apart. }
  clear E.
  exists (demo_cond_state ss A), A. split; [|split; [done..|apply O|by rw /= lookup_insert_eq]].
  split; cbn [fmap list_fmap fst snd].
  - change (kern (demo_cond_state ss A)) with
      (set_heap (kern ss) (demo_cond_heap (k_heap (kern ss)))).
    apply krep_apart; [exact (sp_kernel _ _ _ R)| |apply demo_cond_dom].
    intros x Hna. apply demo_cond_frame; intros ->; by apply Hna, Hap.
  - apply demo_cond_repr.
  - intros w t [= -> ->]%list_elem_of_singleton. change (elem_sema demo_waiter) with demo_sema.
    split; [done|apply R|]. eapply sem_rep_frame; [apply (sp_waiters _ _ _ R)|done|].
    assert (∀ x, (0x20041700 ≤ x)%Z → x ≠ 0x20041804%Z → x ≠ 0x2004180c%Z →
      x ∉ nodes (waiters demo_sema) (elem_ptr <$> [idle_thread k])) as Hne.
    { intros x Hx1 H1 H2. rw in_nodes_fmap.
      intros [Ex|[Ex|(t & -> & ->%list_elem_of_singleton)]]; [by apply H1|by apply H2|].
      pose proof (sr_blocked _ _ _ _ (sp_waiters _ _ _ R) (idle_thread k)
        ltac:(by left)) as [Hst _].
      apply (proj2 (Hap _ Hx1) (idle_thread k)).
      - rw (kr_dom _ _ (sp_kernel _ _ _ R)). by apply elem_of_dom, (status_of_Some _ _ _ Hst).
      - rw /cells_of /elem_ptr. apply elem_of_cons. right. by left. }
    intros x Hx'. apply demo_cond_frame; intros ->; by apply Hne in Hx'.
  - by apply NoDup_singleton.
  - intros z Hz. apply Hap. rw /nodes /= !elem_of_cons elem_of_nil in Hz.
    unfold demo_cond, demo_waiter, cond_waiters, head_of, tail_of in *. lia.
  - intros w w' ->%list_elem_of_singleton ->%list_elem_of_singleton Hn. by destruct Hn.
  - intros w ->%list_elem_of_singleton. by left.
Qed.

Lemma cond_wakes_in_order_witness :
  ∃ k ss, demo demo_rr = Some k ∧
    runs (cond_broadcast demo_cond demo_cond_lock) ss (λ _ ss',
      ready_threads (kern ss') = ready_threads (kern ss) ++ [idle_thread k] ∧
      has_status (kern ss') (idle_thread k) THREAD_READY).
Proof.
  run_demo k E demo_rr. destruct (demo_condition k E) as (ss & A & C & M). exists k, ss.
  split; [done|]. eapply runs_mono; [apply (cond_wakes_in_order ss A _ _ _ C M)|].
  intros _ ss' (_ & Hr & Hs). split; [exact Hr|]. apply Hs. by left.
Defined.
