(* ===== verification/Race.v ===== *)
(** * A timer interrupt inside an insertion

    [thread_unblock] does not disable interrupts (thread.c:315 is a comment), and the
    timer interrupt itself inserts into the ready list when it wakes a sleeper.  Here the
    insertion is cut at its statements, with a hook [irq] between them, and what an
    interrupt that comes at each of the cuts leaves of the list is stated. *)

From S2P Require Import Prelude CList CListRepr CListSpec CListMove Machine Thread Main.
From S2P Require Import Sim Kernel Reach Demo ListProps.

(** ** The code, statement by statement *)

Section Interrupted.
Context {S : Type} (at_heap : ∀ A, M heap A → M S A).
(** What comes before the [k]-th assignment of the insertion. *)
Context (irq : nat → M S unit).

Definition list_insert_irq (before elem : Z) : M S unit :=
  b ← at_heap _ (or_else (is_interior before) (is_tail before));
  ASSERT list_c 171 b;;
  at_heap _ (not_null 172 elem);;
  irq 0;;
  at_heap _ (p ← get_prev before; set_prev elem p);;
  irq 1;;
  at_heap _ (set_next elem before);;
  irq 2;;
  at_heap _ (p ← get_prev before; set_next p elem);;
  irq 3;;
  at_heap _ (set_prev before elem);;
  irq 4.

Definition list_push_back_irq (list elem : Z) : M S unit :=
  e ← at_heap _ (list_end list);
  list_insert_irq e elem.
End Interrupted.

(** No interrupt. *)
Definition quiet {S} : nat → M S unit := λ _, mret tt.
(** One interrupt, at the cut [i]. *)
Definition once {S} (i : nat) (m : M S unit) : nat → M S unit :=
  λ k, if bool_decide (k = i) then m else mret tt.

Section Kernel.
Context `{Platform}.

Definition heap_part : ∀ A, M heap A → M kstate A := @on_heap.

Definition thread_unblock_irq (irq : nat → M kstate unit) (t : Z) : M kstate unit :=
  b ← is_thread t;
  ASSERT thread_c 313 b;;
  th ← load_thread t;
  ASSERT thread_c 316 (bool_decide (status th = THREAD_BLOCKED));;
  list_push_back_irq heap_part irq ready_list (elem_ptr t);;
  update_thread t (λ th, with_status th THREAD_READY).

Definition thread_create_irq (irq : nat → M kstate unit) (nm : cstring)
    (function aux duration : Z) : M kstate Z :=
  t ← new_thread;
  if bool_decide (t = NULL) then mret TID_ERROR
  else
    init_thread t nm;;
    tid ← allocate_tid;
    update_thread t (λ th, with_tid th tid);;
    update_thread t (λ th, with_duration th duration);;
    printf ("Se creó el thread \" ++ dquote ++ "%s\" ++ dquote ++ " con duración %d\n")
      [PStr (c_chars nm); PInt duration];;
    kf ← alloc_frame t sizeof_kernel_thread_frame;
    store_word kf NULL;;
    store_word (kf + 4) function;;
    store_word (kf + 8) aux;;
    thread_unblock_irq irq t;;
    (if bool_decide (c_addr nm = c_addr idle_literal) && bool_decide (tid = 2)%Z
     then modify (λ s, set_idle_thread s t) else mret tt);;
    block_if_idle_thread;;
    mret tid.
End Kernel.

(** ** Without an interrupt, the code is that of the other files *)

Lemma bind_ext {S A B} (m m' : M S A) (f f' : A → M S B) s :
  (∀ s, m s = m' s) → (∀ a s, f a s = f' a s) → (m ≫= f) s = (m' ≫= f') s.
Proof. intros Hm Hf. rw /mbind /M_bind Hm. destruct (m' s) as [[a s']|]; auto. Qed.

Lemma on_heap_bind {A B} (m : M heap A) (f : A → M heap B) s :
  on_heap (m ≫= f) s = (on_heap m ≫= λ a, on_heap (f a)) s.
Proof.
  rw /on_heap /zoom /mbind /M_bind. destruct (m (k_heap s)) as [[a h]|]; [|done].
  rw /=. destruct (f a h) as [[b h']|]; by destruct s.
Qed.

Lemma on_heap_ASSERT file line c s : on_heap (ASSERT file line c) s = ASSERT file line c s.
Proof. destruct c, s; done. Qed.

Lemma on_heap_assign {A B C} (m : M heap A) (f : A → M heap B) (g : B → M kstate C) s :
  (on_heap (m ≫= f) ≫= g) s = (on_heap m ≫= λ a, on_heap (f a) ≫= g) s.
Proof.
  etrans; [apply bind_ext; [intros; apply on_heap_bind|done]|].
  rw /mbind /M_bind. by destruct (on_heap m s) as [[a s']|].
Qed.

Lemma quiet_bind {S A} k (f : unit → M S A) s : (quiet k ≫= f) s = f tt s.
Proof. done. Qed.

(** One statement of each side. *)
#[local] Ltac same := rw ?quiet_bind on_heap_bind; apply bind_ext; [done|intros ? ?].

Lemma list_push_back_quiet l e s :
  list_push_back_irq heap_part quiet l e s = on_heap (list_push_back l e) s.
Proof.
  rw /list_push_back_irq /list_push_back /list_insert_irq /list_insert /heap_part.
  same. same. rw on_heap_bind. apply bind_ext; [intros; by rw on_heap_ASSERT|intros _ ?].
  same. rw quiet_bind on_heap_assign. same. same. same.
  rw quiet_bind on_heap_assign. same. same. rw quiet_bind /mbind /M_bind.
  by destruct (on_heap _ _) as [[[] ?]|].
Qed.

(** With no interrupt in it, the thread creation cut at its statements is
    [thread_create]. *)
Theorem thread_create_quiet `{Platform} nm function aux duration s :
  thread_create_irq quiet nm function aux duration s = thread_create nm function aux duration s.
Proof.
  rw /thread_create_irq /thread_create. apply bind_ext; [done|]. intros t s1.
  destruct (bool_decide (t = NULL)); [done|].
  assert (∀ s, thread_unblock_irq quiet t s = thread_unblock t s) as Hu.
  { intros s2. do 4 (apply bind_ext; [done|intros ? ?]).
    apply bind_ext; [apply list_push_back_quiet|done]. }
  do 9 (apply bind_ext; [done|intros ? ?]). by apply bind_ext.
Qed.

(** ** The list after an interrupt *)

(** The elements found from the head on, through the [next] links. *)
Definition forward (h : heap) (l : Z) (ys : list Z) : Prop := nseg (nx h) (nodes l ys) NULL.

Lemma links_forward h f g l ys : links h f g → nseg g (nodes l ys) NULL → forward h l ys.
Proof. intros L. apply nseg_ext. intros x _. by destruct (L x). Qed.

(** An insertion before [before], on link functions. *)
Lemma runs_insert_links h f g before e p n (Q : unit → heap → Prop) :
  links h f g → f before = Some p → p ≠ NULL → g before = Some n → before ≠ NULL →
  e ≠ NULL → e ∈ dom h → p ∈ dom h → e ≠ before →
  (∀ h', links h' (upd (upd f e p) before e) (upd (upd g e before) p e) → dom h' = dom h →
         Q tt h') →
  runs (list_insert before e) h Q.
Proof.
  intros L Hp Hp0 Hn Hb0 He0 He Hpd Hne HQ. rw /list_insert. step.
  eapply runs_interior_or_tail; [by eapply links_lookup|done..|]. steps; [done|].
  apply runs_not_null; [done|]. step.
  eapply links_get_prev; [done..|]. step.
  eapply links_set_prev; [done..|]. intros h1 L1 D1. step.
  eapply links_set_next; [done|by rw D1|]. intros h2 L2 D2. step.
  eapply (links_get_prev _ _ _ L2 _ p); [by rw upd_ne|]. step.
  eapply links_set_next; [done|by rw D2 D1|]. intros h3 L3 D3.
  assert (before ∈ dom h) by by eapply links_dom.
  eapply links_set_prev; [done|by rw D3 D2 D1|]. intros h4 L4 D4.
  apply HQ; [done|congruence].
Qed.

Section Push.
Context (l : Z) (h : heap) (xs : list Z) (e e2 : Z).
Hypothesis R : list_repr h l xs.
Hypothesis He : e ∈ dom h ∧ e ≠ NULL ∧ e ∉ nodes l xs.
Hypothesis He2 : e2 ∈ dom h ∧ e2 ≠ NULL ∧ e2 ∉ nodes l xs.
Hypothesis Hne : e ≠ e2.

Definition last_node : Z := lastd (head_of l) xs.
Abbreviation p := last_node.
Abbreviation T := (tail_of l).
Abbreviation f := (pv h).
Abbreviation g := (nx h).

Lemma push_ends :
  ∃ A, head_of l :: xs = A ++ [p] ∧ p ∉ A ∧ T ∉ A ++ [p].
Proof.
  destruct (list_ends (head_of l :: xs) NULL NULL ltac:(done)) as (A & _ & _ & HA).
  exists A. destruct R as [_ Hnd _]. rw /nodes app_comm_cons HA in Hnd.
  pose proof (NoDup_snoc _ _ Hnd) as HT. apply NoDup_app in Hnd as (Hnd & _).
  apply NoDup_snoc in Hnd. split_and!; done.
Qed.

Lemma push_facts :
  (f T = Some p ∧ g T = Some NULL) ∧ (p ≠ NULL ∧ T ≠ NULL) ∧ (p ∈ dom h ∧ T ∈ dom h) ∧
  p ≠ T ∧ (p ≠ e ∧ p ≠ e2 ∧ T ≠ e ∧ T ≠ e2).
Proof.
  destruct He as (_ & _ & Hi), He2 as (_ & _ & Hi2).
  assert (p ∈ nodes l xs) as Hp by by apply lastd_nodes.
  assert (T ∈ nodes l xs) as HT by (apply in_nodes; auto).
  pose proof (repr_tail _ _ _ R) as HTl. rw lookup_pv_nx in HTl.
  destruct HTl as [? ?]. destruct push_ends as (A & _ & _ & HTA).
  split_and!; [done|done|exact (repr_node_nonnull _ _ _ R p Hp)
    |exact (repr_node_nonnull _ _ _ R T HT)|exact (repr_node_dom _ _ _ R p Hp)
    |exact (repr_node_dom _ _ _ R T HT)| | | | |]; intros E; [|by rw E in Hp|by rw E in Hp|by rw E in HT|by rw E in HT].
  apply HTA. rw -E. apply elem_of_app. right. by left.
Qed.

(** The chain, when only the links from its last cell on have changed. *)
Lemma push_chain g' ys :
  (∀ x, x ∈ head_of l :: xs → x ≠ p → g' x = g x) → g' p = Some (hd T ys) →
  nseg g' (ys ++ [T]) NULL → nseg g' (nodes l (xs ++ ys)) NULL.
Proof.
  intros Hg Hp Hy. destruct push_ends as (A & HA & HpA & _).
  destruct R as [_ _ [_ Hn]%dseg_links].
  rw /nodes app_comm_cons HA -app_assoc nseg_app in Hn. destruct Hn as [HnA _].
  assert (nodes l (xs ++ ys) = A ++ [p] ++ ys ++ [T]) as ->.
  { rw /nodes -(app_assoc xs) (app_comm_cons xs) HA. by rw -!app_assoc. }
  rw nseg_app. split.
  - eapply nseg_ext; [|exact HnA]. intros x Hx. symmetry. apply Hg; [|by intros ->].
    rw HA. apply elem_of_app. by left.
  - simpl. split; [|done]. rw Hp. by destruct ys.
Qed.

Lemma once_here {S} i (m : M S unit) : once i m i = m.
Proof. by rw /once bool_decide_eq_true_2. Qed.

Lemma once_else {S} i (m : M S unit) k : k ≠ i → once i m k = mret tt.
Proof. intros. by rw /once bool_decide_eq_false_2. Qed.

(** The interrupt: a push of [e2] on links that still have a cell before the tail. *)
Lemma runs_push_links h1 f1 g1 q (Q : unit → heap → Prop) :
  links h1 f1 g1 → dom h1 = dom h → f1 T = Some q → q ≠ NULL → q ∈ dom h → g1 T = Some NULL →
  (∀ h', links h' (upd (upd f1 e2 q) T e2) (upd (upd g1 e2 T) q e2) → dom h' = dom h → Q tt h') →
  runs (list_push_back l e2) h1 Q.
Proof.
  intros L D Hq Hq0 Hqd Hg HQ.
  destruct push_facts as (_ & (_ & HT0) & _ & _ & _ & _ & _ & HTe2), He2 as (He2d & He20 & _).
  rw /list_push_back. step. rw /list_end. step. apply runs_not_null.
  { apply (repr_node_nonnull _ _ _ R (head_of l)), in_nodes. by left. }
  step. eapply runs_insert_links; [done..|by rw D|by rw D|done|].
  intros h' L' D'. apply HQ; [done|congruence].
Qed.

(** The assignments, on links over the cells of [h]. *)
Lemma set_prev_at h1 f1 g1 a v (Q : unit → heap → Prop) :
  links h1 f1 g1 → dom h1 = dom h → a ∈ dom h →
  (∀ h', links h' (upd f1 a v) g1 → dom h' = dom h → Q tt h') → runs (set_prev a v) h1 Q.
Proof.
  intros L D Ha HQ. eapply links_set_prev; [done|by rw D|]. intros h' L' D'.
  apply HQ; [done|congruence].
Qed.

Lemma set_next_at h1 f1 g1 a v (Q : unit → heap → Prop) :
  links h1 f1 g1 → dom h1 = dom h → a ∈ dom h →
  (∀ h', links h' f1 (upd g1 a v) → dom h' = dom h → Q tt h') → runs (set_next a v) h1 Q.
Proof.
  intros L D Ha HQ. eapply links_set_next; [done|by rw D|]. intros h' L' D'.
  apply HQ; [done|congruence].
Qed.

#[local] Ltac lk := repeat first [rewrite upd_eq | rewrite upd_ne; [done|]].
#[local] Ltac no_irq := rewrite once_else; [lia|]; step.
#[local] Ltac irq_here :=
  rewrite once_here; eapply runs_push_links; [done|done|by lk|done|done|by lk|]; intros ? ? ?.
(** The statements of the insertion. *)
#[local] Ltac prev_of_tail :=
  step; match goal with L : links ?h1 _ _ |- runs _ ?h1 _ =>
          eapply (links_get_prev _ _ _ L); [by lk|] end.
#[local] Ltac store lem := eapply lem; [done|done|done|]; intros ? ? ?.
#[local] Ltac stmt1 := step; prev_of_tail; store set_prev_at.
#[local] Ltac stmt2 := step; store set_next_at.
#[local] Ltac stmt3 := step; prev_of_tail; store set_next_at.
#[local] Ltac stmt4 := step; store set_prev_at.

#[local] Ltac finish HQ :=
  match goal with L : links ?h1 _ _ |- context [?h1] => eapply HQ; [exact L|..] end;
  [intros; by lk|cbn [hd]; by lk|cbn [app nseg hd]; split_and!; by lk].

(** The links after the interrupted push: those of the cells before the last one are
    as they were. *)
Lemma runs_push_once i ys (Q : unit → heap → Prop) :
  ys = match i with 3 => [e2] | 4 => [e; e2] | _ => [e2; e] end → i < 5 →
  (∀ h' f' g', links h' f' g' → (∀ x, x ≠ p → x ≠ e → x ≠ e2 → g' x = g x) →
     g' p = Some (hd T ys) → nseg g' (ys ++ [T]) NULL → Q tt h') →
  runs (list_push_back_irq (λ _ m, m) (once i (list_push_back l e2)) l e) h Q.
Proof.
  intros Hys Hi HQ.
  destruct push_facts as ((Hf & Hg) & (Hp0 & HT0) & (Hpd & HTd) & HpT & Hpe & Hpe2 & HTe & HTe2).
  destruct He as (Hed & He0 & _), He2 as (He2d & He20 & _).
  rw /list_push_back_irq. step. rw /list_end. step. apply runs_not_null.
  { apply (repr_node_nonnull _ _ _ R (head_of l)), in_nodes. by left. }
  step. rw /list_insert_irq. step.
  eapply runs_interior_or_tail; [by apply repr_tail|done..|]. steps; [done|].
  apply runs_not_null; [done|]. pose proof (links_self h) as L0.
  destruct i as [|[|[|[|[|]]]]]; [| | | | |lia]; subst ys.
  - step. irq_here. stmt1. step. no_irq. stmt2. step. no_irq. stmt3. step. no_irq. stmt4.
    no_irq. finish HQ.
  - step. no_irq. stmt1. step. irq_here. stmt2. step. no_irq. stmt3. step. no_irq. stmt4.
    no_irq. finish HQ.
  - step. no_irq. stmt1. step. no_irq. stmt2. step. irq_here. stmt3. step. no_irq. stmt4.
    no_irq. finish HQ.
  - step. no_irq. stmt1. step. no_irq. stmt2. step. no_irq. stmt3. step. irq_here. stmt4.
    no_irq. finish HQ.
  - step. no_irq. stmt1. step. no_irq. stmt2. step. no_irq. stmt3. step. no_irq. stmt4.
    irq_here. finish HQ.
Qed.
End Push.

(** C18.  What a push of [e2] by an interrupt leaves of a push of [e] onto the same list, for
    each of the five cuts.  Before the first three assignments, or after the last, both
    elements are found from the head.  Between the last two, [e] is lost: the links from
    the head reach every other element and the tail, and pass it by. *)
Theorem interrupted_push l h xs e e2 i :
  list_repr h l xs → e ∈ dom h ∧ e ≠ NULL ∧ e ∉ nodes l xs →
  e2 ∈ dom h ∧ e2 ≠ NULL ∧ e2 ∉ nodes l xs → e ≠ e2 → i < 5 →
  runs (list_push_back_irq (λ _ m, m) (once i (list_push_back l e2)) l e) h (λ _ h',
    forward h' l (xs ++ match i with 3 => [e2] | 4 => [e; e2] | _ => [e2; e] end)).
Proof.
  intros R He He2 Hne Hi. eapply runs_push_once; [done..|]. intros h' f' g' L Hg Hp Hy.
  eapply links_forward; [done|]. eapply push_chain; [done| |done..].
  destruct He as (_ & _ & He), He2 as (_ & _ & He2).
  intros x Hx Hxp. apply Hg; [done|..]; intros ->; [apply He|apply He2];
    rw /nodes app_comm_cons; apply elem_of_app; by left.
Qed.

Lemma interrupted_push_witness :
  let h := mk_list 0x500 [0x210]%Z (list_to_map [(0x400, Elem NULL NULL); (0x410, Elem NULL NULL)]%Z) in
  runs (list_push_back_irq (λ _ m, m) (once 3 (list_push_back 0x500 0x410)) 0x500 0x400) h (λ _ h',
    forward h' 0x500 [0x210; 0x410]%Z).
Proof.
  apply (interrupted_push 0x500 _ [0x210]%Z 0x400 0x410 3); [by_eval|by_eval|by_eval|done|lia].
Defined.

(** ** The kernel *)

Definition rounds (n : nat) : list call := concat (repeat [Tick; Loop] n).

(** The thread "s" sleeps for three ticks; two have passed when "n", with two ticks of
    work, is created, and the third comes at the cut [i] of the insertion into the ready
    list; [n] rounds follow.  What is left: the threads that own a block, and the work
    of "n" when it is one of them. *)
Definition race (i n : nat) : option (list Z * option (thread_status * Z)) :=
  s ← demo ([demo_create "s" 5; Sleep 3] ++ rounds 2);
  match thread_create_irq (once i (timer_interrupt;; mret tt)) (CStr 0x10000000 "n")
          0x10000201 0 2 s with
  | Err _ => None
  | Ok (_, s) =>
      s ← run_calls (rounds n) s;
      mret (live (k_events s), (λ th, (status th, duration_ticks th)) <$> k_threads s !! slot 2)
  end.

(** A tick between the last two assignments of the insertion in [thread_unblock]
    loses the thread that is being created: twenty ticks later the sleeper that the tick
    woke has finished and the idle thread runs, and the new thread is still ready, with
    all its work ahead of it.  A tick at any other cut does no harm: both threads finish. *)
Theorem unblock_race :
  race 3 20 = Some ([slot 2; slot 0], Some (THREAD_READY, 2%Z)) ∧
  Forall (λ i, race i 20 = Some ([slot 0], None)) [0; 1; 2; 4].
Proof. split; [by vm_compute|by apply (bool_decide_unpack _); vm_compute]. Qed.
