(* ===== verification/RaceSleep.v ===== *)
(** * A timer interrupt inside the insertion of a sleeper

    [insertar_en_lista_espera] does not disable interrupts either (thread.c:502 is a
    comment), and the timer interrupt removes from the same list the sleepers that are
    due.  What the removal of the last sleeper, at each cut of the insertion, leaves of
    the list, and what becomes of the kernel. *)

From S2P Require Import Prelude CList CListRepr CListSpec CListMove Machine Thread Main.
From S2P Require Import Sim Kernel Reach Demo ListProps Race.

(** ** The code, statement by statement *)

Definition insertar_en_lista_espera_irq `{Platform} (irq : nat → M kstate unit) (n : Z) :
    M kstate unit :=
  thread_actual ← thread_current;
  now ← timer_ticks;
  wake ← int_op (now + n);
  update_thread thread_actual (λ th, with_sleep_time th (uint64 wake));;
  list_push_back_irq heap_part irq lista_espera (elem_ptr thread_actual);;
  thread_block.

(** Without an interrupt, the code is that of Thread.v. *)
Lemma insertar_quiet `{Platform} n s :
  insertar_en_lista_espera_irq quiet n s = insertar_en_lista_espera n s.
Proof.
  rw /insertar_en_lista_espera_irq /insertar_en_lista_espera /insertar_begin.
  rw /mbind /M_bind. destruct (thread_current s) as [[c s1]|]; [|done].
  destruct (timer_ticks s1) as [[now s2]|]; [|done].
  destruct (int_op (now + n) s2) as [[wake s3]|]; [|done].
  destruct (update_thread c _ s3) as [[[] s4]|]; [|done].
  by rw list_push_back_quiet.
Qed.

(** ** The list *)

(** A removal, on link functions. *)
Lemma runs_remove_links h f g x p n (Q : unit → heap → Prop) :
  links h f g → f x = Some p → g x = Some n → x ≠ NULL → p ≠ NULL → n ≠ NULL →
  p ∈ dom h → n ∈ dom h → x ≠ p → x ≠ n →
  (∀ h', links h' (upd f n p) (upd g p n) → dom h' = dom h → Q tt h') →
  runs (list_remove x;; mret tt) h Q.
Proof.
  intros L Hp Hn Hx0 Hp0 Hn0 Hpd Hnd Hxp Hxn HQ. step. rw /list_remove. step.
  eapply runs_interior; [by eapply links_lookup|done..|]. steps; [done|].
  eapply links_get_prev; [done..|]. step. eapply links_get_next; [done..|]. step.
  eapply links_set_next; [done..|]. intros h1 L1 D1. step.
  eapply (links_get_next _ _ _ L1 _ n); [by rw upd_ne|]. step.
  eapply (links_get_prev _ _ _ L1 _ p); [done|]. step.
  eapply links_set_prev; [done|by rw D1|]. intros h2 L2 D2.
  eapply (links_get_next _ _ _ L2 _ n); [by rw upd_ne|]. step.
  apply HQ; [done|congruence].
Qed.

Section Sleeper.
Context (l : Z) (h : heap) (xs : list Z) (p e : Z).
Hypothesis R : list_repr h l (xs ++ [p]).
Hypothesis He : e ∈ dom h ∧ e ≠ NULL ∧ e ∉ nodes l (xs ++ [p]).

Definition before_last : Z := lastd (head_of l) xs.
Abbreviation q := before_last.
Abbreviation T := (tail_of l).

(** The cells: those before [q], then [q], [p] and the tail. *)
Lemma sleeper_nodes :
  ∃ A, head_of l :: xs = A ++ [q] ∧ nodes l (xs ++ [p]) = A ++ [q; p; T].
Proof.
  destruct (list_ends (head_of l :: xs) NULL NULL ltac:(done)) as (A & _ & _ & HA).
  exists A. change (lastd NULL (head_of l :: xs)) with q in HA. split; [done|].
  by rw /nodes -app_assoc (app_comm_cons xs) HA -app_assoc.
Qed.

Lemma sleeper_facts :
  (pv h T = Some p ∧ nx h T = Some NULL ∧ pv h p = Some q ∧ nx h p = Some T) ∧
  (q ≠ NULL ∧ p ≠ NULL ∧ T ≠ NULL) ∧ (q ∈ dom h ∧ p ∈ dom h ∧ T ∈ dom h) ∧
  (p ≠ q ∧ p ≠ T ∧ q ≠ T) ∧ (q ≠ e ∧ p ≠ e ∧ T ≠ e).
Proof.
  destruct sleeper_nodes as (A & _ & HN). destruct He as (_ & _ & Hi).
  assert (q ∈ nodes l (xs ++ [p]) ∧ p ∈ nodes l (xs ++ [p]) ∧ T ∈ nodes l (xs ++ [p]))
    as (Hq & Hp & HT) by (rw HN; set_solver).
  pose proof (repr_tail _ _ _ R) as HTl. rw lookup_pv_nx lastd_app in HTl.
  pose proof (repr_elem _ _ _ R xs p [] eq_refl) as Hpl. rw lookup_pv_nx in Hpl.
  assert (NoDup [q; p; T]) as Hnd.
  { destruct R as [_ Hnd _]. rw HN in Hnd. by apply NoDup_app in Hnd as (_ & _ & Hnd). }
  rewrite !NoDup_cons in Hnd.
  pose proof (repr_node_nonnull _ _ _ R) as H0. pose proof (repr_node_dom _ _ _ R) as Hd.
  split_and!; [tauto|tauto|tauto|tauto|auto..|set_solver|set_solver|set_solver| | |];
    intros E; apply Hi; by rw -E.
Qed.

(** The chain, when only the links from [q] on have changed. *)
Lemma sleeper_chain g' ys :
  (∀ x, x ∈ head_of l :: xs → x ≠ q → g' x = nx h x) → g' q = Some (hd T ys) →
  nseg g' (ys ++ [T]) NULL → nseg g' (nodes l (xs ++ ys)) NULL.
Proof.
  intros Hg Hq Hy. destruct (sleeper_nodes) as (A & HA & HN).
  destruct R as [_ Hnd [_ Hn]%dseg_links]. rewrite HN in Hnd, Hn.
  rewrite nseg_app in Hn. destruct Hn as [Hn _].
  rw /nodes -app_assoc app_comm_cons HA -app_assoc. apply nseg_app. split.
  - eapply nseg_ext; [|exact Hn]. intros x Hx. symmetry. apply Hg.
    + rw HA. apply elem_of_app. by left.
    + intros ->. apply NoDup_app in Hnd as (_ & Hnd & _). apply (Hnd _ Hx). by left.
  - simpl. split; [|done]. rw Hq. by destruct ys.
Qed.

Lemma sleeper_out x : x ∈ head_of l :: xs → x ≠ p ∧ x ≠ e ∧ x ≠ T.
Proof.
  intros Hx. destruct sleeper_nodes as (A & HA & HN). destruct He as (_ & _ & Hi).
  destruct R as [_ Hnd _]. rewrite HN in Hnd, Hi. rewrite HA in Hx.
  assert (A ++ [q; p; T] = (A ++ [q]) ++ [p; T]) as E by by rw -app_assoc.
  rewrite E in Hnd, Hi. apply NoDup_app in Hnd as (_ & Hd & _). specialize (Hd x Hx).
  set_solver.
Qed.

#[local] Ltac lk := repeat first [rewrite upd_eq | rewrite upd_ne; [done|]].
#[local] Ltac no_irq := rewrite once_else; [lia|]; step.
#[local] Ltac irq_here :=
  rewrite once_here; eapply (runs_remove_links _ _ _ p q);
  [done|by lk|by lk|done|done|done|congruence|congruence|done|done|]; intros ? ? ?.
#[local] Ltac prev_of_tail :=
  step; match goal with L : links ?h1 _ _ |- runs _ ?h1 _ =>
          eapply (links_get_prev _ _ _ L); [by lk|] end.
#[local] Ltac store lem := eapply lem; [done|congruence|]; intros ? ? ?.
#[local] Ltac stmt1 := step; prev_of_tail; store links_set_prev.
#[local] Ltac stmt2 := step; store links_set_next.
#[local] Ltac stmt3 := step; prev_of_tail; store links_set_next.
#[local] Ltac stmt4 := step; store links_set_prev.
#[local] Ltac finish HQ :=
  match goal with L : links ?h1 _ _ |- context [?h1] => eapply HQ; [exact L|congruence|..] end;
  [intros; by lk|by lk|by lk|by lk|by lk].

Lemma runs_sleep_once i (Q : unit → heap → Prop) :
  i < 5 →
  (∀ h' f' g', links h' f' g' → dom h' = dom h → (∀ x, x ≠ q → x ≠ p → x ≠ e → g' x = nx h x) →
     g' q = Some e → g' e = Some T → g' T = Some NULL →
     f' e = Some (match i with 1 | 2 => p | _ => q end) → Q tt h') →
  runs (list_push_back_irq (λ _ m, m) (once i (list_remove p;; mret tt)) l e) h Q.
Proof.
  intros Hi HQ. destruct sleeper_facts as ((HfT & HgT & Hfp & Hgp) & (Hq0 & Hp0 & HT0)
    & (Hqd & Hpd & HTd) & (Hpq & HpT & HqT) & Hqe & Hpe & HTe).
  destruct He as (Hed & He0 & _).
  rw /list_push_back_irq. step. rw /list_end. step. apply runs_not_null.
  { apply (repr_node_nonnull _ _ _ R (head_of l)), in_nodes. by left. }
  step. rw /list_insert_irq. step.
  eapply runs_interior_or_tail; [by apply repr_tail|done|by rw lastd_app|]. steps; [done|].
  apply runs_not_null; [done|]. pose proof (links_self h) as L0.
  destruct i as [|[|[|[|[|]]]]]; [| | | | |lia].
  - step. irq_here. stmt1. step. no_irq. stmt2. step. no_irq. stmt3. step. no_irq. stmt4.
    no_irq. finish HQ.
  - step. no_irq. stmt1. step. irq_here. stmt2. step. no_irq. stmt3. step. no_irq. stmt4.
    no_irq. finish HQ.
  - step. no_irq. stmt1. step. no_irq. stmt2. step. irq_here. stmt3. step. no_irq. stmt4.
    no_irq. finish HQ.
  - step. no_irq. stmt1. step. no_irq. stmt2. step. no_irq. stmt3. step. irq_here. stmt4.
    no_irq. finish HQ.
  - step. no_irq. stmt1. step. no_irq. stmt2. step. no_irq. stmt3. step. no_irq. stmt4.
    irq_here. finish HQ.
Qed.

(** The new sleeper is taken out again. *)
Lemma runs_sleep_wake i (Q : unit → heap → Prop) :
  i < 5 →
  (∀ h', forward h' l (xs ++ match i with 1 | 2 => [e] | _ => [] end) → Q tt h') →
  runs (list_push_back_irq (λ _ m, m) (once i (list_remove p;; mret tt)) l e;;
        list_remove e;; mret tt) h Q.
Proof.
  intros Hi HQ. destruct sleeper_facts as (_ & (Hq0 & Hp0 & HT0)
    & (Hqd & Hpd & HTd) & (Hpq & HpT & HqT) & Hqe & Hpe & HTe).
  destruct He as (_ & He0 & _). step. apply runs_sleep_once; [done|].
  intros h1 f1 g1 L1 D1 Hg Hgq Hge HgT Hf.
  eapply (runs_remove_links _ _ _ e _ T); [done..|by destruct i as [|[|[|]]]|done| |congruence| |done|].
  1-2: by destruct i as [|[|[|]]]; rewrite ?D1; congruence.
  intros h2 L2 _. apply HQ. eapply links_forward; [done|].
  assert (∀ x, x ∈ head_of l :: xs → x ≠ q → g1 x = nx h x) as Hx.
  { intros x Hx Hxq. by apply Hg; [|destruct (sleeper_out x Hx) as (? & ? & ?)..]. }
  assert (∀ v, v = p ∨ v = q → ∀ x, x ∈ head_of l :: xs → x ≠ q → upd g1 v T x = nx h x) as Hu.
  { intros v Hv x Hin Hxq. rw upd_ne; [|by apply Hx]. intros ->.
    destruct (sleeper_out v Hin) as (? & _), Hv; congruence. }
  destruct i as [|[|[|i]]]; (apply sleeper_chain; [by auto| |]); cbn [app hd nseg]; split_and?;
    rewrite ?upd_eq; try done; by rw !upd_ne.
Qed.
End Sleeper.

(** C19.  Waking the last sleeper [p] in the middle of putting another one, [e], to sleep:
    between the first and the third assignment of the insertion, [e] has already copied
    the link back to [p], and no later wake-up can take it out of the waiting list (the
    removal unlinks it from [p], not from the list); at any other cut it can. *)
Theorem interrupted_sleep l h xs p e i :
  list_repr h l (xs ++ [p]) → e ∈ dom h ∧ e ≠ NULL ∧ e ∉ nodes l (xs ++ [p]) → i < 5 →
  runs (list_push_back_irq (λ _ m, m) (once i (list_remove p;; mret tt)) l e;;
        list_remove e;; mret tt) h (λ _ h',
    forward h' l (xs ++ match i with 1 | 2 => [e] | _ => [] end)).
Proof. intros R He Hi. by eapply runs_sleep_wake. Qed.

Lemma interrupted_sleep_witness :
  let h := mk_list 0x500 [0x210; 0x220]%Z (list_to_map [(0x400, Elem NULL NULL)]%Z) in
  runs (list_push_back_irq (λ _ m, m) (once 2 (list_remove 0x220;; mret tt)) 0x500 0x400;;
        list_remove 0x400;; mret tt) h (λ _ h', forward h' 0x500 [0x210; 0x400]%Z).
Proof. apply (interrupted_sleep 0x500 _ [0x210]%Z 0x220 0x400 2); [by_eval|by_eval|lia]. Defined.

(** ** The kernel *)

(** The thread "s" sleeps for three ticks; two have passed when "n", which runs, goes to
    sleep for four, and the third comes at the cut [i] of the insertion into the waiting
    list; [n] rounds follow, and a timer interrupt.  What is left: the threads that own a
    block. *)
Definition sleep_race (i n : nat) : option (result (list Z)) :=
  s ← demo ([demo_create "s" 5; Sleep 3; demo_create "n" 9] ++ rounds 2);
  match insertar_en_lista_espera_irq (once i (timer_interrupt;; mret tt)) 4 s with
  | Err e => Some (Err e)
  | Ok (_, s) =>
      s ← run_calls (rounds n) s;
      Some (match timer_interrupt s with
            | Err e => Err e
            | Ok (_, s) => Ok (live (k_events s))
            end)
  end.

(** A tick that wakes a sleeper between the first and the third assignment of the
    insertion in [insertar_en_lista_espera] stops the kernel: the new sleeper is woken on
    its tick but stays in the waiting list, and the next tick, which finds it there
    again, panics in [thread_unblock] because it is not blocked.  A tick at any other cut
    does no harm: twenty rounds later both threads have finished. *)
Theorem sleep_race_panics :
  Forall (λ i, sleep_race i 3 = Some (Err (Panic thread_c 316))) [1; 2] ∧
  Forall (λ i, sleep_race i 20 = Some (Ok [slot 0])) [0; 3; 4].
Proof. split; repeat constructor; by vm_compute. Qed.
