(* ===== verification/Palloc.v ===== *)
(** * lib/palloc.c: bitmaps and the page pools

    The page allocator's initialization: address conversion, the bitmap of a pool and
    the two pools.  Memory is the RP2040's RAM, one word at each address; an access
    outside it is a fault.  The two inline assembly statements that should set and
    clear a bit combine R0 and R1, whatever the compiler keeps there, into R0, and declare
    the word of the bitmap as their output: which value this word has afterwards the
    source does not say, and it is a parameter, the class [Asm].  What becomes of R0,
    which the statements change without declaring it, is not modelled. *)

From S2P Require Import Prelude CList Machine.

Definition palloc_c : string := "lib/palloc.c".

(** ** Memory *)

Record pool := Pool { used_map : Z; base : Z }.

Record pstate := PState {
  mem : gmap Z Z;               (* words of RAM; one that was never written reads 0 *)
  kernel_pool : pool;
  user_pool : pool;
  p_out : list output;
}.

(** SRAM and the two scratch banks. *)
Definition ram_start : Z := 0x20000000.
Definition ram_end : Z := 0x20042000.
Definition in_ram (a : Z) : bool :=
  bool_decide (ram_start ≤ a)%Z && bool_decide (a + 4 ≤ ram_end)%Z.

Definition load_mem (a : Z) : M pstate Z := λ s,
  if in_ram a then Ok (default 0%Z (mem s !! a), s) else Err (Fault a).
Definition store_mem (a v : Z) : M pstate unit := λ s,
  if in_ram a then Ok (tt, PState (<[a := v]> (mem s)) (kernel_pool s) (user_pool s) (p_out s))
  else Err (Fault a).
Definition p_printf (f : string) (l : list parg) : M pstate unit :=
  modify (λ s, PState (mem s) (kernel_pool s) (user_pool s) (Printf f l :: p_out s)).

(** ** Macros and address conversion *)

Definition LOADER_PHYS_BASE : Z := 0x40000000.
Definition PHYS_BASE : Z := LOADER_PHYS_BASE.
(** On [size_t]: the sum wraps. *)
Definition DIV_ROUND_UP (x step : Z) : Z := uint32 (x + step - 1) `div` step.

Definition ptov (paddr : Z) : M pstate Z :=
  ASSERT palloc_c 41 (bool_decide (paddr < PHYS_BASE)%Z);;
  mret (uint32 (paddr + PHYS_BASE)).

Definition is_user_vaddr (vaddr : Z) : bool := bool_decide (vaddr < PHYS_BASE)%Z.
Definition is_kernel_vaddr (vaddr : Z) : bool := bool_decide (PHYS_BASE ≤ vaddr)%Z.

(** ** Bitmaps *)

Definition sizeof_elem_type : Z := 4.
Definition ELEM_BITS : Z := sizeof_elem_type * 8.

(** [struct bitmap]: [bit_cnt] at its address, [bits] behind it. *)
Definition off_bits : Z := 4.
Definition sizeof_bitmap : Z := 8.

Definition elem_idx (bit_idx : Z) : Z := bit_idx `div` ELEM_BITS.
Definition bit_mask (bit_idx : Z) : Z := uint32 (Z.shiftl 1 (bit_idx `mod` ELEM_BITS)).
Definition elem_cnt (bit_cnt : Z) : Z := DIV_ROUND_UP bit_cnt ELEM_BITS.
Definition byte_cnt (bit_cnt : Z) : Z := uint32 (sizeof_elem_type * elem_cnt bit_cnt).
Definition bitmap_buf_size (bit_cnt : Z) : Z := uint32 (sizeof_bitmap + byte_cnt bit_cnt).

Definition bitmap_size (b : Z) : M pstate Z := load_mem b.

(** The value of the output operand [b->bits[idx]] of the two statements, from its old
    value and the input operand.  Nothing is known of it. *)
Class Asm := {
  asm_orr : Z → Z → Z;
  asm_and : Z → Z → Z;
}.

Section Palloc.
Context `{Asm}.

(** [&b->bits[idx]]. *)
Definition bits_word (bits idx : Z) : Z := uint32 (bits + sizeof_elem_type * idx).

(** [asm ("ORR R0, R0, R1" : "=m" (b->bits[idx]) : "r" (mask) : "cc");] *)
Definition bitmap_mark (b bit_idx : Z) : M pstate unit :=
  let idx := elem_idx bit_idx in
  let mask := bit_mask bit_idx in
  bits ← load_mem (b + off_bits);
  old ← load_mem (bits_word bits idx);
  store_mem (bits_word bits idx) (asm_orr old mask).

(** [asm ("AND R0, R0, R1" : "=m" (b->bits[idx]) : "r" (~mask) : "cc");] *)
Definition bitmap_reset (b bit_idx : Z) : M pstate unit :=
  let idx := elem_idx bit_idx in
  let mask := bit_mask bit_idx in
  bits ← load_mem (b + off_bits);
  old ← load_mem (bits_word bits idx);
  store_mem (bits_word bits idx) (asm_and old (uint32 (Z.lnot mask))).

Definition bitmap_set (b idx : Z) (value : bool) : M pstate unit :=
  ASSERT palloc_c 161 (bool_decide (b ≠ NULL));;
  bit_cnt ← load_mem b;
  ASSERT palloc_c 162 (bool_decide (idx < bit_cnt)%Z);;
  if value then bitmap_mark b idx else bitmap_reset b idx.

(** [for (i = 0; i < cnt; i++) bitmap_set (b, start + i, value);], [n] rounds from [i]. *)
Fixpoint set_multiple_loop (n : nat) (b start i : Z) (value : bool) : M pstate unit :=
  match n with
  | O => mret tt
  | S n =>
      bitmap_set b (uint32 (start + i)) value;;
      set_multiple_loop n b start (i + 1) value
  end.

Definition bitmap_set_multiple (b start cnt : Z) (value : bool) : M pstate unit :=
  ASSERT palloc_c 151 (bool_decide (b ≠ NULL));;
  bit_cnt ← load_mem b;
  ASSERT palloc_c 152 (bool_decide (start ≤ bit_cnt)%Z);;
  bit_cnt ← load_mem b;
  ASSERT palloc_c 153 (bool_decide (uint32 (start + cnt) ≤ bit_cnt)%Z);;
  set_multiple_loop (Z.to_nat cnt) b start 0 value.

Definition bitmap_set_all (b : Z) (value : bool) : M pstate unit :=
  ASSERT palloc_c 137 (bool_decide (b ≠ NULL));;
  n ← bitmap_size b;
  bitmap_set_multiple b 0 n value.

Definition bitmap_create_in_buf (bit_cnt block block_size : Z) : M pstate Z :=
  let b := block in
  ASSERT palloc_c 126 (bool_decide (bitmap_buf_size bit_cnt ≤ block_size)%Z);;
  store_mem b bit_cnt;;
  store_mem (b + off_bits) (uint32 (b + sizeof_bitmap));;
  bitmap_set_all b false;;
  mret b.

(** ** Pools *)

Inductive pool_id := KernelPool | UserPool.

Definition get_pool (s : pstate) (p : pool_id) : pool :=
  match p with KernelPool => kernel_pool s | UserPool => user_pool s end.
Definition set_pool (p : pool_id) (v : pool) : M pstate unit :=
  modify (λ s,
    match p with
    | KernelPool => PState (mem s) v (user_pool s) (p_out s)
    | UserPool => PState (mem s) (kernel_pool s) v (p_out s)
    end).

Definition init_pool (p : pool_id) (base page_cnt : Z) (nm : string) : M pstate unit :=
  let bm_pages := DIV_ROUND_UP (bitmap_buf_size page_cnt) PGSIZE in
  if bool_decide (page_cnt < bm_pages)%Z then PANIC palloc_c 246
  else
    let page_cnt := uint32 (page_cnt - bm_pages) in
    p_printf "%zu pages available in %s.\n" [PInt page_cnt; PStr nm];;
    b ← bitmap_create_in_buf page_cnt base (uint32 (bm_pages * PGSIZE));
    s ← get;
    set_pool p (Pool b (Palloc.base (get_pool s p)));;
    s ← get;
    set_pool p (Pool (used_map (get_pool s p)) (uint32 (base + bm_pages * PGSIZE))).

Definition palloc_init (user_page_limit : Z) : M pstate unit :=
  free_start ← ptov (1024 * 1024);
  free_end ← ptov (40 * PGSIZE);
  let free_pages := uint32 (Z.quot (free_end - free_start)%Z PGSIZE) in
  let user_pages := (free_pages `div` 2)%Z in
  let user_pages := if bool_decide (user_page_limit < user_pages)%Z then user_page_limit
                    else user_pages in
  let kernel_pages := uint32 (free_pages - user_pages) in
  init_pool KernelPool free_start kernel_pages "kernel pool";;
  init_pool UserPool (uint32 (free_start + kernel_pages * PGSIZE)) user_pages "user pool".
End Palloc.
