(* ===== verification/PallocProps.v ===== *)
(** * Properties of the page allocator

    The arithmetic of the bitmaps, the layout of a pool, and why the initialization
    that main.c has commented out cannot work on the board. *)

From S2P Require Import Prelude CList Machine Palloc.

(** ** Arithmetic without wrap-around *)

Lemma elem_cnt_exact n :
  (0 ≤ n)%Z → (n + 31 < 2 ^ 32)%Z → (elem_cnt n = (n + 31) `div` 32)%Z.
Proof.
  intros H0 Hn. rw /elem_cnt /DIV_ROUND_UP. change ELEM_BITS with 32%Z.
  rw uint32_id; [lia|]. f_equal; lia.
Qed.

Lemma bitmap_buf_size_exact n :
  (0 ≤ n)%Z → (n + 31 < 2 ^ 32)%Z → (bitmap_buf_size n = 8 + 4 * ((n + 31) `div` 32))%Z.
Proof.
  intros H0 Hn. rw /bitmap_buf_size /byte_cnt elem_cnt_exact //.
  change sizeof_elem_type with 4%Z. change sizeof_bitmap with 8%Z.
  rw (uint32_id (4 * _)); [Z.to_euclidean_division_equations; lia|].
  rw uint32_id //. Z.to_euclidean_division_equations; lia.
Qed.

Lemma bit_mask_exact k : (bit_mask k = 2 ^ (k `mod` 32))%Z.
Proof.
  rw /bit_mask. change ELEM_BITS with 32%Z. pose proof (Z.mod_pos_bound k 32 ltac:(lia)) as Hm.
  rw Z.shiftl_1_l uint32_id //. split; [apply Z.pow_nonneg; lia|].
  apply Z.pow_lt_mono_r; lia.
Qed.

(** ** Operations on bitmaps *)

Lemma runs_load_mem a s (Q : Z → pstate → Prop) :
  in_ram a = true → Q (default 0%Z (mem s !! a)) s → runs (load_mem a) s Q.
Proof. intros Ha HQ. by rw /runs /load_mem Ha. Qed.

Lemma runs_store_mem a v s (Q : unit → pstate → Prop) :
  in_ram a = true →
  Q tt (PState (<[a := v]> (mem s)) (kernel_pool s) (user_pool s) (p_out s)) →
  runs (store_mem a v) s Q.
Proof. intros Ha HQ. by rw /runs /store_mem Ha. Qed.

Lemma in_ram_true a : (ram_start ≤ a)%Z → (a + 4 ≤ ram_end)%Z → in_ram a = true.
Proof. intros H1 H2. by rw /in_ram !bool_decide_eq_true_2. Qed.

(** A header in RAM. *)
Definition header_in_ram (b : Z) : Prop :=
  b ≠ NULL ∧ in_ram b = true ∧ in_ram (b + off_bits) = true.

(** A bitmap of [n] bits at [b], its words right behind its header and in RAM. *)
Record bitmap_at (s : pstate) (b n : Z) : Prop := {
  ba_cnt : mem s !! b = Some n;
  ba_bits : mem s !! (b + 4)%Z = Some (b + 8)%Z;
  ba_size : (0 ≤ n)%Z ∧ (n + 31 < 2 ^ 32)%Z;
  ba_ram : (ram_start ≤ b)%Z ∧ (b + bitmap_buf_size n ≤ ram_end)%Z ∧ (b + 8 ≤ ram_end)%Z;
}.

(** [s'] differs from [s] only in the words of that bitmap. *)
Definition bits_change (b n : Z) (s s' : pstate) : Prop :=
  (kernel_pool s', user_pool s', p_out s') = (kernel_pool s, user_pool s, p_out s) ∧
  ∀ a, (a < b + 8 ∨ b + bitmap_buf_size n ≤ a)%Z → mem s' !! a = mem s !! a.

Lemma bits_change_refl b n s : bits_change b n s s.
Proof. by split. Qed.

Lemma bits_change_trans b n s1 s2 s3 :
  bits_change b n s1 s2 → bits_change b n s2 s3 → bits_change b n s1 s3.
Proof. intros [E1 H1] [E2 H2]. split; [congruence|]. intros a Ha. by rw H2 // H1. Qed.

Lemma bits_change_at b n s s' : bits_change b n s s' → bitmap_at s b n → bitmap_at s' b n.
Proof. intros [_ Hm] []. split; [by rw Hm; [lia|]..|done|done]. Qed.

(** Addressing in a bitmap: every bit below [bit_cnt] lies in the buffer of
    [bitmap_buf_size (bit_cnt)] bytes, its mask is the power of two of its position in
    its word, and two different bits differ in their word or in their mask's bit. *)
Theorem bitmap_addressing bit_cnt i j :
  (0 ≤ i < bit_cnt)%Z → (0 ≤ j < bit_cnt)%Z → (bit_cnt + 31 < 2 ^ 32)%Z →
  (0 ≤ elem_idx i < elem_cnt bit_cnt)%Z ∧
  (sizeof_bitmap + sizeof_elem_type * (elem_idx i + 1) ≤ bitmap_buf_size bit_cnt)%Z ∧
  (∀ k, (0 ≤ k)%Z → Z.testbit (bit_mask i) k = bool_decide (ELEM_BITS * elem_idx i + k = i)%Z) ∧
  (i ≠ j → elem_idx i ≠ elem_idx j ∨ Z.land (bit_mask i) (bit_mask j) = 0%Z).
Proof.
  intros Hi Hj Hb. rw elem_cnt_exact; [lia..|]. rw bitmap_buf_size_exact; [lia..|].
  rw /elem_idx !bit_mask_exact. change ELEM_BITS with 32%Z. change sizeof_bitmap with 8%Z.
  change sizeof_elem_type with 4%Z.
  pose proof (Z.mod_pos_bound i 32 ltac:(lia)) as Hmi.
  pose proof (Z.mod_pos_bound j 32 ltac:(lia)) as Hmj.
  split_and!; [Z.to_euclidean_division_equations; lia..| |].
  - intros k Hk. rw Z.pow2_bits_eqb; [lia|]. destruct (Z.eqb_spec (i `mod` 32) k) as [<-|Hne].
    + rw bool_decide_eq_true_2 //. Z.to_euclidean_division_equations; lia.
    + rw bool_decide_eq_false_2 //. intros E. apply Hne. rw -E.
      rw Z.add_comm Z.mul_comm Z_mod_plus_full Z.mod_small //.
      Z.to_euclidean_division_equations; lia.
  - intros Hne. destruct (decide (i `div` 32 = j `div` 32)%Z) as [E|]; [right|by left].
    assert (i `mod` 32 ≠ j `mod` 32)%Z as Hm by (Z.to_euclidean_division_equations; lia).
    apply Z.bits_inj'. intros k Hk. rw Z.land_spec Z.bits_0 !Z.pow2_bits_eqb; [lia..|].
    destruct (Z.eqb_spec (i `mod` 32) k), (Z.eqb_spec (j `mod` 32) k); try done. congruence.
Qed.

Section Bitmaps.
Context `{Asm}.

Lemma runs_bitmap_set s b n idx value (Q : unit → pstate → Prop) :
  bitmap_at s b n → (0 ≤ idx < n)%Z → (∀ s', bits_change b n s s' → Q tt s') →
  runs (bitmap_set b idx value) s Q.
Proof.
  intros [Hc Hb [Hn1 Hn2] (Hr1 & Hr2 & Hr3)] Hi HQ.
  destruct (bitmap_addressing n idx idx Hi Hi Hn2) as (Hidx & Hend & _).
  change sizeof_bitmap with 8%Z in Hend. unfold ram_start, ram_end in *.
  assert (bits_word (b + 8) (elem_idx idx) = b + 8 + 4 * elem_idx idx)%Z as Ew.
  { rw /bits_word. change sizeof_elem_type with 4%Z in *. apply uint32_id. lia. }
  change sizeof_elem_type with 4%Z in *.
  assert (∀ v, Q tt (PState (<[(b + 8 + 4 * elem_idx idx)%Z := v]> (mem s)) (kernel_pool s)
    (user_pool s) (p_out s))) as HQ'.
  { intros v. apply HQ. split; [done|]. intros a Ha. simpl. rw lookup_insert_ne //. lia. }
  rw /bitmap_set. step. step; [apply bool_decide_eq_true_2; unfold NULL; lia|].
  step. apply runs_load_mem; [apply in_ram_true; unfold ram_start, ram_end; lia|].
  step. step; [apply bool_decide_eq_true_2; rw Hc; simpl; lia|].
  destruct value; rw /bitmap_mark /bitmap_reset; change off_bits with 4%Z.
  all: step; apply runs_load_mem; [apply in_ram_true; unfold ram_start, ram_end; lia|];
    rw Hb /= Ew.
  all: step; apply runs_load_mem; [apply in_ram_true; unfold ram_start, ram_end; lia|].
  all: apply runs_store_mem; [apply in_ram_true; unfold ram_start, ram_end; lia|apply HQ'].
Qed.

Lemma runs_set_multiple_loop m b n start i value s (Q : unit → pstate → Prop) :
  bitmap_at s b n → (0 ≤ start)%Z → (0 ≤ i)%Z → (start + i + Z.of_nat m ≤ n)%Z →
  (∀ s', bits_change b n s s' → Q tt s') →
  runs (set_multiple_loop m b start i value) s Q.
Proof.
  intros Hb Hs. revert i s Hb Q. induction m as [|m IH]; intros i s Hb Q Hi Hle HQ.
  { apply HQ, bits_change_refl. }
  cbn [set_multiple_loop]. step. pose proof (ba_size _ _ _ Hb).
  eapply (runs_bitmap_set _ _ n); [done|rw uint32_id; lia|]. intros s1 H1.
  apply IH; [by eapply bits_change_at|lia|lia|]. intros s2 H2. apply HQ.
  by eapply bits_change_trans.
Qed.

Lemma runs_bitmap_set_multiple s b n start cnt value (Q : unit → pstate → Prop) :
  bitmap_at s b n → (0 ≤ start)%Z → (0 ≤ cnt)%Z → (start + cnt ≤ n)%Z →
  (∀ s', bits_change b n s s' → Q tt s') →
  runs (bitmap_set_multiple b start cnt value) s Q.
Proof.
  intros Hb H1 H2 H3 HQ. pose proof Hb as [Hc _ [Hn1 Hn2] (Hr1 & Hr2 & Hr3)].
  assert (in_ram b = true) as Hr by (apply in_ram_true; lia). unfold ram_start in Hr1.
  rw /bitmap_set_multiple. step. step; [apply bool_decide_eq_true_2; unfold NULL; lia|].
  step. apply runs_load_mem; [done|]. rw Hc /=.
  step. step; [apply bool_decide_eq_true_2; lia|]. step. apply runs_load_mem; [done|]. rw Hc /=. step. step; [apply bool_decide_eq_true_2; rw uint32_id; lia|].
  eapply runs_set_multiple_loop; [done..|lia|lia|done].
Qed.

(** [bitmap_set_all] goes through the whole bitmap and writes no word outside it. *)
Lemma runs_bitmap_set_all s b n value (Q : unit → pstate → Prop) :
  bitmap_at s b n → (∀ s', bits_change b n s s' → Q tt s') → runs (bitmap_set_all b value) s Q.
Proof.
  intros Hb HQ. pose proof Hb as [Hc _ [Hn1 Hn2] (Hr1 & Hr2 & Hr3)].
  rw /bitmap_set_all. unfold ram_start in Hr1.
  step. step; [apply bool_decide_eq_true_2; unfold NULL; lia|].
  step. rw /bitmap_size. apply runs_load_mem; [apply in_ram_true; unfold ram_start; lia|]. rw Hc /=. eapply runs_bitmap_set_multiple; [done|lia..|done].
Qed.
End Bitmaps.

(** [base + 4] and [base] of a page that lies in RAM. *)
Lemma page_header base n :
  (ram_start ≤ base)%Z → (1 ≤ n)%Z → (base + n * PGSIZE ≤ ram_end)%Z → header_in_ram base.
Proof.
  change PGSIZE with 4096%Z. rw /header_in_ram /in_ram /ram_start /ram_end /off_bits /NULL.
  intros H1 H2 H3. rw !bool_decide_eq_true_2; by lia.
Qed.

(** ** Pools *)

(** Every pool of RAM is small: its bitmap takes one page. *)
Lemma bm_pages_small n :
  (1 ≤ n ≤ 66)%Z → DIV_ROUND_UP (bitmap_buf_size n) PGSIZE = 1%Z.
Proof.
  intros Hn. rw bitmap_buf_size_exact; [lia..|]. rw /DIV_ROUND_UP. change PGSIZE with 4096%Z.
  rw uint32_id; Z.to_euclidean_division_equations; lia.
Qed.

Lemma runs_create_in_buf `{Asm} s bit_cnt block block_size (Q : Z → pstate → Prop) :
  header_in_ram block → (0 ≤ bit_cnt)%Z → (bit_cnt + 31 < 2 ^ 32)%Z →
  (bitmap_buf_size bit_cnt ≤ block_size)%Z → (ram_start ≤ block)%Z →
  (block + bitmap_buf_size bit_cnt ≤ ram_end)%Z →
  (∀ s', bits_change block bit_cnt
     (PState (<[(block + 4)%Z := (block + 8)%Z]> (<[block := bit_cnt]> (mem s)))
        (kernel_pool s) (user_pool s) (p_out s)) s' → Q block s') →
  runs (bitmap_create_in_buf bit_cnt block block_size) s Q.
Proof.
  intros Hh H0 Hb Hs H1 H2 HQ. destruct (Hh) as (Hn & Hr1 & Hr2).
  assert (8 ≤ bitmap_buf_size bit_cnt)%Z as H8.
  { rw bitmap_buf_size_exact; [done..|]. Z.to_euclidean_division_equations; lia. }
  rw /bitmap_create_in_buf. step. step; [by apply bool_decide_eq_true_2|].
  step. apply runs_store_mem; [done|]. step. apply runs_store_mem; [done|].
  change sizeof_bitmap with 8%Z. change off_bits with 4%Z.
  rw uint32_id; [unfold ram_start, ram_end in *; lia|].
  step. eapply (runs_bitmap_set_all _ _ bit_cnt).
  - split; simpl; [|by rw lookup_insert_eq|done|lia].
    rw lookup_insert_ne; [lia|]. by rw lookup_insert_eq.
  - intros s' Hs'. step. by apply HQ.
Qed.

(** The pool that [init_pool] leaves, and the state around it: the header of the bitmap is
    written, its words may change, and nothing else. *)
Definition initialized_pool (p : pool_id) (base page_cnt : Z) (s s' : pstate) : Prop :=
  get_pool s' p = Pool base (base + PGSIZE) ∧
  (∀ q, q ≠ p → get_pool s' q = get_pool s q) ∧
  mem s' !! base = Some (page_cnt - 1)%Z ∧ mem s' !! (base + 4)%Z = Some (base + 8)%Z ∧
  (∀ a, (a < base ∨ base + bitmap_buf_size (page_cnt - 1) ≤ a)%Z → mem s' !! a = mem s !! a).

Section Pools.
Context `{Asm}.
Implicit Types (s : pstate).

(** C32.  A pool in RAM: given [page_cnt] pages of the board's memory, [init_pool] returns,
    whatever the inline assembly leaves in the words of the bitmap; the bitmap's header is
    on the first page, the pool starts on the next one and has the other [page_cnt - 1]
    pages, so bitmap and pool lie within the pages given and do not overlap; the other
    pool and every word of memory outside the bitmap keep their values. *)
Theorem init_pool_layout s p base page_cnt nm :
  (ram_start ≤ base)%Z → (1 ≤ page_cnt)%Z → (base + page_cnt * PGSIZE ≤ ram_end)%Z →
  runs (init_pool p base page_cnt nm) s (λ _ s',
    initialized_pool p base page_cnt s s' ∧
    (base + bitmap_buf_size (page_cnt - 1) ≤ Palloc.base (get_pool s' p))%Z ∧
    (Palloc.base (get_pool s' p) + (page_cnt - 1) * PGSIZE = base + page_cnt * PGSIZE)%Z).
Proof.
  intros H1 H2 H3. pose proof (page_header base page_cnt H1 H2 H3) as Hh.
  assert (page_cnt ≤ 66)%Z as H4.
  { change PGSIZE with 4096%Z in *. unfold ram_start, ram_end in *. lia. }
  assert (bitmap_buf_size (page_cnt - 1) ≤ PGSIZE)%Z as Hbuf.
  { rw bitmap_buf_size_exact; [lia..|]. change PGSIZE with 4096%Z.
    Z.to_euclidean_division_equations; lia. }
  rw /init_pool bm_pages_small; [lia|]. cbv zeta. rw bool_decide_eq_false_2; [lia|].
  change PGSIZE with 4096%Z in *. unfold ram_start, ram_end in *.
  rw (uint32_id (page_cnt - 1)); [lia|]. rw (uint32_id (1 * 4096)); [lia|].
  rw (uint32_id (base + _)); [lia|].
  step. rw /p_printf. step. step.
  apply runs_create_in_buf; unfold ram_start, ram_end; try done; [lia..|].
  intros s' [Ep Hm]. simpl in Ep, Hm. injection Ep as E1 E2 E3.
  assert (8 ≤ bitmap_buf_size (page_cnt - 1))%Z as H8.
  { rw bitmap_buf_size_exact; [lia..|]. Z.to_euclidean_division_equations; lia. }
  assert (mem s' !! base = Some (page_cnt - 1)%Z ∧ mem s' !! (base + 4)%Z = Some (base + 8)%Z ∧
    ∀ a, (a < base ∨ base + bitmap_buf_size (page_cnt - 1) ≤ a)%Z → mem s' !! a = mem s !! a)
    as (M1 & M2 & M3).
  { split_and!.
    - rw Hm; [lia|]. rw lookup_insert_ne; [lia|]. by rw lookup_insert_eq.
    - rw Hm; [lia|]. by rw lookup_insert_eq.
    - intros a Ha. rw Hm; [lia|]. by rewrite !lookup_insert_ne; [lia..|]. }
  rw /set_pool. steps. rw /initialized_pool. change PGSIZE with 4096%Z.
  destruct p; cbn [get_pool used_map Palloc.base mem kernel_pool user_pool];
    split_and!; try done; try lia; intros [] Hq; done || congruence.
Qed.

(** C33.  The start-up that main.c leaves commented out ("DA HARDFAULT"): for every limit
    on the user pages, [palloc_init] stops at a store to 0x40100000, outside the
    memory of the board.  Free memory ends before it starts, the number of free pages
    wraps to 4294967080, and both assertions on the way pass. *)
Theorem palloc_init_faults limit s :
  (0 ≤ limit < 2 ^ 32)%Z → palloc_init limit s = Err (Fault 0x40100000).
Proof.
  intros Hl. rw /palloc_init. apply runs_err. rw /ptov. step. step; [done|]. step.
  apply runs_err. step. step; [done|]. step.
  set (fs := uint32 (1024 * 1024 + PHYS_BASE)). set (fe := uint32 (40 * PGSIZE + PHYS_BASE)).
  set (fp := uint32 ((fe - fs) `quot` PGSIZE)). cbv zeta.
  assert (fs = 0x40100000 ∧ fp = 4294967080 ∧ fp `div` 2 = 2147483540)%Z as (-> & -> & ->)
    by by vm_compute.
  set (up := if bool_decide (limit < 2147483540)%Z then limit else 2147483540%Z).
  assert (0 ≤ up ≤ 2147483540)%Z as Hup by (rw /up; case_bool_decide; lia).
  clearbody up. rw (uint32_id (4294967080 - up)); [lia|]. apply bind_Err.
  set (n := (4294967080 - up)%Z). assert (2147483540 ≤ n ≤ 4294967080)%Z as Hn by lia.
  clearbody n. clear dependent up fe.
  rw /init_pool. set (bm := DIV_ROUND_UP (bitmap_buf_size n) PGSIZE).
  assert (1 ≤ bm ≤ 131073 ∧ bitmap_buf_size n ≤ bm * 4096)%Z as [Hbm Hbuf].
  { rw /bm bitmap_buf_size_exact; [lia..|]. rw /DIV_ROUND_UP. change PGSIZE with 4096%Z.
    rw uint32_id; Z.to_euclidean_division_equations; lia. }
  clearbody bm. cbv zeta. rw bool_decide_eq_false_2; [lia|].
  change PGSIZE with 4096%Z. rw (uint32_id (n - bm)); [lia|].
  rw (uint32_id (bm * 4096)); [lia|].
  apply runs_err. rw /p_printf. step. apply bind_Err. rw /bitmap_create_in_buf.
  apply runs_err. step; [|by apply bind_Err].
  apply bool_decide_eq_true_2. rw bitmap_buf_size_exact in Hbuf; [lia..|].
  rw bitmap_buf_size_exact; [lia..|]. Z.to_euclidean_division_equations; lia.
Qed.

End Pools.

(** ** Instances *)

Definition demo_pools : pstate := PState ∅ (Pool NULL NULL) (Pool NULL NULL) [].

(** The statements as their comments want them. *)
#[local] Instance asm_meant : Asm := {| asm_orr := Z.lor; asm_and := Z.land |}.

Lemma init_pool_layout_witness :
  runs (init_pool UserPool 0x20010000 20 "user pool") demo_pools (λ _ s',
    user_pool s' = Pool 0x20010000 0x20011000 ∧ kernel_pool s' = Pool NULL NULL).
Proof.
  eapply runs_mono.
  - apply (init_pool_layout demo_pools UserPool 0x20010000 20 "user pool"); by vm_compute.
  - intros [] s' [(H1 & H2 & _) _]. split; [exact H1|exact (H2 KernelPool ltac:(done))].
Defined.

Lemma palloc_init_faults_witness : palloc_init 20 demo_pools = Err (Fault 0x40100000).
Proof. apply (palloc_init_faults 20 demo_pools). by vm_compute. Defined.

Lemma bitmap_addressing_witness :
  elem_idx 35 = 1%Z ∧ bit_mask 35 = 8%Z ∧ Z.land (bit_mask 35) (bit_mask 36) = 0%Z.
Proof.
  destruct (bitmap_addressing 40 35 36) as (_ & _ & _ & H); [by vm_compute..|].
  split_and!; [done..|]. destruct H as [H|H]; [done|by vm_compute in H|exact H].
Defined.
