(* ===== verification/Debug.v ===== *)
(** * lib/debug.c: the call stack and the end of a panic

    [ASSERT] and [PANIC] stop a computation with the error [Panic] (see [Prelude]); this
    file says what [debug_panic] prints before the program exits, and models
    [debug_backtrace], which walks the frame pointers of the stack. *)

From S2P Require Import Prelude CList Machine Thread.

(** The words of the stack, the static flag [explained] and the console. *)
Record dstate := DState {
  words : gmap Z Z;
  explained : bool;
  d_out : list output;
}.

Definition d_printf (f : string) (l : list parg) : M dstate unit :=
  modify (λ s, DState (words s) (explained s) (Printf f l :: d_out s)).
Definition load_frame (a : Z) : M dstate Z := λ s,
  match words s !! a with Some v => Ok (v, s) | None => Err (Fault a) end.

(** The [for] loop, from [frame], for at most [fuel] tests of its condition. *)
Fixpoint backtrace_loop (fuel : nat) (frame : Z) : M dstate unit :=
  match fuel with
  | O => fail Diverge
  | S fuel =>
      if bool_decide (0x1000 ≤ frame)%Z then
        next ← load_frame frame;
        if bool_decide (next ≠ NULL) then
          ret ← load_frame (frame + 4);
          d_printf " %p" [PInt ret];;
          frame ← load_frame frame;
          backtrace_loop fuel frame
        else mret tt
      else mret tt
  end.

(** The explanation, printed once, as the source writes it, escapes included. *)
Definition backtrace_note : string :=
  ("The `backtrace' program can make call stacks useful.\n" ++
  "Read \" ++ dquote ++ "Backtraces\" ++ dquote ++ " in the \" ++ dquote ++
  "Debugging Tools\" ++ dquote ++ " chapter\n" ++
  "of the Pintos documentation for more information.\n")%string.

(** [return_address] and [frame] are the results of [__builtin_return_address (0)] and
    of [__builtin_frame_address (1)]. *)
Definition debug_backtrace (fuel : nat) (return_address frame : Z) : M dstate unit :=
  d_printf "Call stack: %p" [PInt return_address];;
  backtrace_loop fuel frame;;
  d_printf ".\n" [];;
  s ← get;
  if negb (explained s) then
    modify (λ s, DState (words s) true (d_out s));;
    d_printf backtrace_note []
  else mret tt.

(** The console after [debug_panic], most recent first, and the exit status. *)
Definition debug_panic (file : string) (line : Z) (function message : string)
    (args : list parg) (out : list output) : list output * Z :=
  let out := Printf "User process ABORT at %s:%d in %s(): \n"
               [PStr file; PInt line; PStr function] :: out in
  let out := Printf message args :: out in
  let out := Printf "\n" [] :: out in
  (out, 1%Z).

(** ** Walking the frames *)

(** From [frame], the frame pointers lead through frames with the return addresses [rs]
    to a null pointer or out of the stack. *)
Inductive frames (w : gmap Z Z) : Z → list Z → Prop :=
| frames_low f : (f < 0x1000)%Z → frames w f []
| frames_null f : (0x1000 ≤ f)%Z → w !! f = Some NULL → frames w f []
| frames_cons f g r rs :
    (0x1000 ≤ f)%Z → w !! f = Some g → g ≠ NULL → w !! (f + 4)%Z = Some r →
    frames w g rs → frames w f (r :: rs).

Lemma runs_load_frame a v s (Q : Z → dstate → Prop) :
  words s !! a = Some v → Q v s → runs (load_frame a) s Q.
Proof. intros E HQ. by rw /runs /load_frame E. Qed.

Lemma runs_backtrace_loop fuel f rs s (Q : unit → dstate → Prop) :
  frames (words s) f rs → (length rs < fuel)%nat →
  Q tt (DState (words s) (explained s) (rev ((λ r, Printf " %p" [PInt r]) <$> rs) ++ d_out s)) →
  runs (backtrace_loop fuel f) s Q.
Proof.
  remember (words s) as w eqn:Ew. intros Hf. revert fuel s Ew.
  induction Hf as [f Hf|f Hf E|f g r rs Hf E Hg Er Hrs IH]; intros [|fuel] s Ew Hlt HQ;
    try (simpl in Hlt; lia); cbn [backtrace_loop].
  - rw bool_decide_eq_false_2; [lia|]. step. subst w. by destruct s.
  - rw bool_decide_eq_true_2; [lia|]. step. eapply runs_load_frame; [by rw -Ew|].
    rw bool_decide_eq_false_2; [by intros []|]. step. subst w. by destruct s.
  - rw bool_decide_eq_true_2; [lia|]. step. eapply runs_load_frame; [by rw -Ew|].
    rw bool_decide_eq_true_2 //. step. eapply runs_load_frame; [by rw -Ew|].
    rw /d_printf. repeat step. eapply runs_load_frame; [by rw /= -Ew|].
    apply IH; [done|simpl in Hlt; lia|]. simpl. simpl in HQ. by rw -app_assoc in HQ.
Qed.

(** C38.  The call stack: over frames that end in a null pointer, with more rounds than
    frames, [debug_backtrace] returns; it prints the caller's return address, then that
    of every frame from the innermost on, and the explanation exactly when it has not
    been printed before. *)
Theorem backtrace_prints_frames s ra f rs fuel :
  frames (words s) f rs → (length rs < fuel)%nat →
  runs (debug_backtrace fuel ra f) s (λ _ s',
    words s' = words s ∧ explained s' = true ∧
    rev (d_out s') = rev (d_out s) ++ Printf "Call stack: %p" [PInt ra]
      :: ((λ r, Printf " %p" [PInt r]) <$> rs) ++ Printf ".\n" []
      :: if explained s then [] else [Printf backtrace_note []]).
Proof.
  intros Hf Hlt. rw /debug_backtrace /d_printf. repeat step.
  eapply runs_backtrace_loop; [done..|]. repeat step. simpl.
  destruct (explained s) eqn:Ex; simpl; repeat step; simpl; split_and!; try done;
    rewrite ?Ex ?rev_app_distr /= ?rev_involutive -?app_assoc //=.
Qed.

(** Two frames above the caller's. *)
Definition demo_stack : dstate :=
  DState (list_to_map [(0x20041f00, 0x20041f40); (0x20041f04, 0x10000abc);
                       (0x20041f40, 0x20041f80); (0x20041f44, 0x10000def); (0x20041f80, 0)]%Z)
    false [].

Lemma backtrace_prints_frames_witness :
  runs (debug_backtrace 3 0x10000123 0x20041f00) demo_stack (λ _ s', explained s' = true).
Proof.
  eapply runs_mono.
  - apply (backtrace_prints_frames demo_stack 0x10000123 0x20041f00 [0x10000abc; 0x10000def]%Z 3).
    + eapply frames_cons; [lia|by vm_compute|done|by vm_compute|].
      eapply frames_cons; [lia|by vm_compute|done|by vm_compute|].
      by apply frames_null; [lia|vm_compute].
    + simpl. lia.
  - by intros [] s' (_ & H & _).
Defined.
