(* ===== verification/Switch.v ===== *)
(** * lib/switch.S: the assembly context switch

    The instructions of [switch_threads] and [switch_entry] one by one, on the registers
    they use and the words of memory.  The kernel calls [switch_threads_c] of switch.c
    instead (see [Thread]); the assembly is linked beside it. *)

From S2P Require Import Prelude CList Machine.

(** ** switch.h *)

(** [struct switch_threads_frame], the stack of a suspended thread seen from its saved
    stack pointer: the members in order, one word each. *)
Inductive frame_member := SF_edi | SF_esi | SF_ebp | SF_ebx | SF_eip | SF_cur | SF_next.

Definition switch_threads_frame : list frame_member :=
  [SF_edi; SF_esi; SF_ebp; SF_ebx; SF_eip; SF_cur; SF_next].

Definition SWITCH_CUR : Z := 20.
Definition SWITCH_NEXT : Z := 24.

(** switch.c: [offsetof (struct thread, stack)]. *)
Definition thread_stack_ofs : Z := 24.

(** ** The processor *)

Record cpu := Cpu {
  R0 : Z; R1 : Z; R2 : Z; R3 : Z; R5 : Z; R6 : Z; R7 : Z; SP : Z; LR : Z; PC : Z;
  word : gmap Z Z;
}.

Definition ldr (a : Z) : M cpu Z := λ c,
  match word c !! a with Some v => Ok (v, c) | None => Err (Fault a) end.
Definition str (a v : Z) : M cpu unit :=
  modify (λ c, Cpu (R0 c) (R1 c) (R2 c) (R3 c) (R5 c) (R6 c) (R7 c) (SP c)
                   (LR c) (PC c) (<[a := v]> (word c))).

Definition set_R0 v : M cpu unit :=
  modify (λ c, Cpu v (R1 c) (R2 c) (R3 c) (R5 c) (R6 c) (R7 c) (SP c) (LR c) (PC c) (word c)).
Definition set_R1 v : M cpu unit :=
  modify (λ c, Cpu (R0 c) v (R2 c) (R3 c) (R5 c) (R6 c) (R7 c) (SP c) (LR c) (PC c) (word c)).
Definition set_R2 v : M cpu unit :=
  modify (λ c, Cpu (R0 c) (R1 c) v (R3 c) (R5 c) (R6 c) (R7 c) (SP c) (LR c) (PC c) (word c)).
Definition set_R3 v : M cpu unit :=
  modify (λ c, Cpu (R0 c) (R1 c) (R2 c) v (R5 c) (R6 c) (R7 c) (SP c) (LR c) (PC c) (word c)).
Definition set_SP v : M cpu unit :=
  modify (λ c, Cpu (R0 c) (R1 c) (R2 c) (R3 c) (R5 c) (R6 c) (R7 c) v (LR c) (PC c) (word c)).

(** [BX LR]: a branch to Thumb code; the bit that says so is the lowest of the target, and
    the processor, which has no other instruction set, faults without it. *)
Definition bx_lr : M cpu unit :=
  c ← get;
  if Z.testbit (LR c) 0
  then modify (λ c, Cpu (R0 c) (R1 c) (R2 c) (R3 c) (R5 c) (R6 c) (R7 c) (SP c) (LR c)
                        (Z.clearbit (LR c) 0) (word c))
  else fail (Fault (LR c)).

(** [PUSH {R3, R5, R6, R7}]: the lowest register at the lowest address. *)
Definition push_saved : M cpu unit :=
  c ← get;
  set_SP (SP c - 16);;
  str (SP c - 16) (R3 c);;
  str (SP c - 12) (R5 c);;
  str (SP c - 8) (R6 c);;
  str (SP c - 4) (R7 c).

(** [POP {R3, R5, R6, R7}]. *)
Definition pop_saved : M cpu unit :=
  c ← get;
  v3 ← ldr (SP c);
  v5 ← ldr (SP c + 4);
  v6 ← ldr (SP c + 8);
  v7 ← ldr (SP c + 12);
  modify (λ c, Cpu (R0 c) (R1 c) (R2 c) v3 v5 v6 v7 (SP c + 16) (LR c) (PC c) (word c)).

(** ** switch_threads *)

Definition switch_threads : M cpu unit :=
  push_saved;;
  (* LDR R2, =thread_stack_ofs; LDR R2, [R2] *)
  set_R2 thread_stack_ofs;;
  (* LDR R0, [SP, #20] *)
  c ← get;
  v ← ldr (SP c + SWITCH_CUR);
  set_R0 v;;
  (* ADDS R1, R0, R2 *)
  c ← get;
  set_R1 (uint32 (R0 c + R2 c));;
  (* MOV R3, SP; STR R3, [R1] *)
  c ← get;
  set_R3 (SP c);;
  c ← get;
  str (R1 c) (R3 c);;
  (* LDR R3, [SP, #24] *)
  c ← get;
  v ← ldr (SP c + SWITCH_NEXT);
  set_R3 v;;
  (* ADDS R3, R3, R2; LDR R3, [R3] *)
  c ← get;
  set_R3 (uint32 (R3 c + R2 c));;
  c ← get;
  v ← ldr (R3 c);
  set_R3 v;;
  (* MOV SP, R3 *)
  c ← get;
  set_SP (R3 c);;
  pop_saved;;
  bx_lr.

(** ** switch_entry *)

Section Entry.
(** Where the linker puts [switch_entry], and the code it calls. *)
Context (base : Z) (thread_schedule_tail : M cpu unit).

Definition set_LR v : M cpu unit :=
  modify (λ c, Cpu (R0 c) (R1 c) (R2 c) (R3 c) (R5 c) (R6 c) (R7 c) (SP c) v (PC c) (word c)).

(** [ADD SP, SP, #n]. *)
Definition add_sp (n : Z) : M cpu unit := c ← get; set_SP (uint32 (SP c + n)).

(** The address after [BL]: [ADD] and [PUSH] are of two bytes, [BL] of four. *)
Definition entry_return : Z := base + 8.

(** [BL f], at the end of which the callee has returned. *)
Definition bl (f : M cpu unit) : M cpu unit :=
  set_LR (Z.setbit entry_return 0);;
  f.

(** The instructions from [entry_return] on. *)
Definition switch_entry_end : M cpu unit :=
  add_sp 4;;
  bx_lr.

Definition switch_entry : M cpu unit :=
  add_sp 8;;
  (* PUSH {R0} *)
  c ← get;
  set_SP (SP c - 4);;
  str (SP c - 4) (R0 c);;
  bl thread_schedule_tail;;
  switch_entry_end.
End Entry.

(** A call that follows the procedure call standard: it returns to the address it was
    called with, with the stack pointer and the registers that belong to the caller as
    they were.  R0 to R3 and the link register are the callee's to change. *)
Definition follows_standard (f : M cpu unit) : Prop :=
  ∀ c, Z.testbit (LR c) 0 = true →
    runs f c (λ _ c', PC c' = Z.clearbit (LR c) 0 ∧ SP c' = SP c ∧
                      R5 c' = R5 c ∧ R6 c' = R6 c ∧ R7 c' = R7 c).

(** ** Suspended threads *)

(** What a switch saves and restores. *)
Record context := Context_ { x3 : Z; x5 : Z; x6 : Z; x7 : Z; xsp : Z }.
Definition context_of (c : cpu) : context := Context_ (R3 c) (R5 c) (R6 c) (R7 c) (SP c).

(** The words of memory that hold the context [x] of the thread at [t]. *)
Definition save_area (t : Z) (x : context) : list (Z * Z) :=
  [((t + thread_stack_ofs)%Z, (xsp x - 16)%Z); ((xsp x - 16)%Z, x3 x); ((xsp x - 12)%Z, x5 x);
   ((xsp x - 8)%Z, x6 x); ((xsp x - 4)%Z, x7 x)].
Definition saved (w : gmap Z Z) (t : Z) (x : context) : Prop :=
  Forall (λ '(a, v), w !! a = Some v) (save_area t x).

(** The caller's arguments, at the offsets of [struct switch_threads_frame] less the
    sixteen bytes that [switch_threads] pushes. *)
Definition arguments (c : cpu) : list Z :=
  [(SP c - 16 + SWITCH_CUR)%Z; (SP c - 16 + SWITCH_NEXT)%Z].
Definition called_with (c : cpu) (cur next : Z) : Prop :=
  Z.testbit (LR c) 0 = true ∧
  (word c !! (SP c - 16 + SWITCH_CUR) = Some cur)%Z ∧
  (word c !! (SP c - 16 + SWITCH_NEXT) = Some next)%Z.

(** What the switch writes does not overlap what it reads. *)
Definition no_overlap (c : cpu) (cur next : Z) (x : context) : Prop :=
  NoDup (save_area cur (context_of c)).*1 ∧
  Forall (λ a, a ∉ (save_area cur (context_of c)).*1)
    (arguments c ++ (save_area next x).*1).

#[global] Instance no_overlap_dec c cur next x : Decision (no_overlap c cur next x).
Proof. unfold no_overlap. apply _. Defined.

Definition address (a : Z) : Prop := (0 ≤ a ∧ a + sizeof_thread < 2 ^ 32)%Z.

Lemma runs_ldr a v c (Q : Z → cpu → Prop) :
  word c !! a = Some v → Q v c → runs (ldr a) c Q.
Proof. intros E HQ. by rw /runs /ldr E. Qed.

Lemma runs_str a v c (Q : unit → cpu → Prop) :
  Q tt (Cpu (R0 c) (R1 c) (R2 c) (R3 c) (R5 c) (R6 c) (R7 c) (SP c) (LR c) (PC c)
    (<[a := v]> (word c))) →
  runs (str a v) c Q.
Proof. done. Qed.

(** Reading a word that is none of those written. *)
Lemma lookup_after_writes (w : gmap Z Z) (l : list (Z * Z)) a :
  a ∉ l.*1 → foldl (λ w '(a, v), <[a := v]> w) w l !! a = w !! a.
Proof.
  revert w. induction l as [|[b v] l IH]; [done|]. intros w. simpl.
  intros [Hne Hl]%not_elem_of_cons. by rw IH // lookup_insert_ne.
Qed.

Lemma saved_after_writes (w : gmap Z Z) (l : list (Z * Z)) :
  NoDup l.*1 →
  Forall (λ '(a, v), foldl (λ w '(a, v), <[a := v]> w) w l !! a = Some v) l.
Proof.
  revert w. induction l as [|[b v] l IH]; [constructor|]. intros w. simpl.
  intros [Hb Hl]%NoDup_cons. constructor; [|by apply IH].
  by rw lookup_after_writes // lookup_insert_eq.
Qed.

(** The memory after a switch away from [cur]: the pushes, then the stack pointer. *)
Definition after_switch (c : cpu) (cur : Z) : gmap Z Z :=
  let x := context_of c in
  foldl (λ w '(a, v), <[a := v]> w) (word c)
    (tail (save_area cur x) ++ take 1 (save_area cur x)).

#[local] Ltac mem := auto 10 using list_elem_of_here, list_elem_of_further.

Lemma runs_switch_threads c cur next x (Q : unit → cpu → Prop) :
  called_with c cur next → saved (word c) next x → no_overlap c cur next x →
  address cur → address next →
  (∀ c', context_of c' = x → word c' = after_switch c cur → R0 c' = cur →
    LR c' = LR c → PC c' = Z.clearbit (LR c) 0 → Q tt c') →
  runs switch_threads c Q.
Proof.
  intros (Hlr & Hc & Hn) Hs [Hnd Hov] Hac Han HQ.
  unfold address, sizeof_thread in *. unfold arguments, saved, save_area in *.
  rw !Forall_cons in Hs. destruct Hs as (S1 & S2 & S3 & S4 & S5 & _).
  set (l := save_area cur (context_of c)) in *.
  assert (∀ a, a ∈ l.*1 ↔ a ∈ (tail l ++ take 1 l).*1) as Hp.
  { intros a. simpl. rw !elem_of_cons. tauto. }
  assert (∀ a, a ∈ [(SP c - 16 + SWITCH_NEXT)%Z; (next + thread_stack_ofs)%Z; (xsp x - 16)%Z;
    (xsp x - 12)%Z; (xsp x - 8)%Z; (xsp x - 4)%Z] → after_switch c cur !! a = word c !! a) as Hrd.
  { intros a Ha. rw /after_switch lookup_after_writes //. rw -Hp.
    rw Forall_forall in Hov. apply Hov. simpl. rw !elem_of_cons in Ha *. tauto. }
  rewrite -Hrd in Hn; [mem|]. rewrite -Hrd in S1; [mem|].
  rewrite -Hrd in S2; [mem|]. rewrite -Hrd in S3; [mem|].
  rewrite -Hrd in S4; [mem|]. rewrite -Hrd in S5; [mem|].
  assert (uint32 (cur + thread_stack_ofs) = cur + thread_stack_ofs)%Z as Ec.
  { apply uint32_id. unfold thread_stack_ofs. lia. }
  assert (uint32 (next + thread_stack_ofs) = next + thread_stack_ofs)%Z as En.
  { apply uint32_id. unfold thread_stack_ofs. lia. }
  unfold switch_threads, push_saved, pop_saved, set_R0, set_R1, set_R2, set_R3, set_SP, str.
  repeat (step; simpl). eapply runs_ldr.
  { simpl. rewrite !lookup_insert_ne; [unfold SWITCH_CUR; lia..|exact Hc]. }
  repeat (step; simpl). rewrite Ec.
  eapply runs_ldr; [exact Hn|].
  repeat (step; simpl). rewrite En.
  eapply runs_ldr; [exact S1|].
  repeat (step; simpl).
  eapply runs_ldr; [exact S2|]. step.
  eapply runs_ldr.
  { simpl. replace (xsp x - 16 + 4)%Z with (xsp x - 12)%Z by lia.
    exact S3. }
  step. eapply runs_ldr.
  { simpl. replace (xsp x - 16 + 8)%Z with (xsp x - 8)%Z by lia.
    exact S4. }
  step. eapply runs_ldr.
  { simpl. replace (xsp x - 16 + 12)%Z with (xsp x - 4)%Z by lia.
    exact S5. }
  step. rw /bx_lr. repeat step. cbn [LR]. rw Hlr. step.
  apply HQ; [|done..]. rw /context_of /=.
  replace (xsp x - 16 + 16)%Z with (xsp x) by lia. by destruct x.
Qed.

(** A switch leaves the context of the thread it suspends in memory. *)
Lemma after_switch_saved c cur next x :
  no_overlap c cur next x → saved (after_switch c cur) cur (context_of c).
Proof.
  intros [Hnd _]. rw /saved /after_switch. set (l := save_area cur (context_of c)) in *.
  assert (tail l ++ take 1 l ≡ₚ l) as Hl by (apply (Permutation_app_comm (tail l) (take 1 l))).
  eapply Permutation_Forall; [exact Hl|]. apply saved_after_writes.
  eapply NoDup_Permutation_proper; [|exact Hnd]. by apply fmap_Permutation.
Qed.

(** C29.  Switching away and back, in assembly: when [cur] calls [switch_threads] with the
    arguments on its stack where [struct switch_threads_frame] has them, it resumes the
    thread [next] with the registers and the stack pointer it was suspended with, at the
    return address of [cur]'s call, the link register being none of those saved; and when any code that has kept the words of [cur]'s saved context switches back to
    [cur], R3, R5, R6, R7 and the stack pointer are those of the first call. *)
Theorem switch_round_trip c cur next x :
  called_with c cur next → saved (word c) next x → no_overlap c cur next x →
  address cur → address next →
  runs switch_threads c (λ _ c1,
    context_of c1 = x ∧ LR c1 = LR c ∧ PC c1 = Z.clearbit (LR c) 0 ∧
    ∀ c2, Forall (λ '(a, _), word c2 !! a = word c1 !! a) (save_area cur (context_of c)) →
      called_with c2 next cur → no_overlap c2 next cur (context_of c) →
      runs switch_threads c2 (λ _ c3, context_of c3 = context_of c)).
Proof.
  intros Hc Hs Ho Ha Hn. eapply runs_switch_threads; [done..|]. intros c1 Hx Hw _ Hl Hp.
  split_and!; [done..|]. intros c2 Hkeep Hc2 Ho2.
  pose proof (after_switch_saved _ _ _ _ Ho) as Hsv. rw -Hw in Hsv.
  assert (saved (word c2) cur (context_of c)) as Hs2.
  { apply Forall_forall. intros [a v] Hin.
    pose proof (proj1 (Forall_forall _ _) Hkeep (a, v) Hin) as K.
    pose proof (proj1 (Forall_forall _ _) Hsv (a, v) Hin) as V. simpl in *. congruence. }
  eapply runs_switch_threads; [done..|]. by intros c3 -> _ _ _ _.
Qed.

(** Two threads on two stacks. *)
Definition demo_cpu : cpu :=
  Cpu 0 0 0 3 5 6 7 0x20003000 0x10000225 0x10000400
    (list_to_map [(0x20003004, 0x20001200); (0x20003008, 0x20001400);
                  (0x20001418, 0x20003ff0); (0x20003ff0, 13); (0x20003ff4, 15);
                  (0x20003ff8, 16); (0x20003ffc, 17)])%Z.

Lemma switch_round_trip_witness :
  runs switch_threads demo_cpu (λ _ c1, context_of c1 = Context_ 13 15 16 17 0x20004000).
Proof.
  eapply runs_mono.
  - apply (switch_round_trip demo_cpu 0x20001200 0x20001400 (Context_ 13 15 16 17 0x20004000)).
    + done.
    + repeat constructor.
    + apply (bool_decide_unpack (no_overlap _ _ _ _)). by vm_compute.
    + by rw /address /sizeof_thread.
    + by rw /address /sizeof_thread.
  - by intros [] c1 [? _].
Defined.

(** ** A thread that has not run *)

Lemma runs_switch_entry_end c (Q : unit → cpu → Prop) :
  Z.testbit (LR c) 0 = true →
  Q tt (Cpu (R0 c) (R1 c) (R2 c) (R3 c) (R5 c) (R6 c) (R7 c) (uint32 (SP c + 4)) (LR c)
            (Z.clearbit (LR c) 0) (word c)) →
  runs switch_entry_end c Q.
Proof.
  intros E HQ. rw /switch_entry_end /add_sp /set_SP /bx_lr. repeat step. cbn [LR]. rw E.
  by step.
Qed.

(** The state in which [switch_entry] calls [thread_schedule_tail]. *)
Definition entry_call (base : Z) (c : cpu) : cpu :=
  Cpu (R0 c) (R1 c) (R2 c) (R3 c) (R5 c) (R6 c) (R7 c) (uint32 (SP c + 8) - 4)%Z
    (Z.setbit (entry_return base) 0) (PC c) (<[(uint32 (SP c + 8) - 4)%Z := R0 c]> (word c)).

Lemma entry_call_thumb base c : Z.testbit (LR (entry_call base c)) 0 = true.
Proof. by apply Z.setbit_eq. Qed.

Lemma clear_entry_return base c :
  Z.even base = true → Z.clearbit (LR (entry_call base c)) 0 = entry_return base.
Proof.
  intros He. cbn [LR entry_call]. apply Z.bits_inj'. intros i Hi.
  rw Z.clearbit_eqb // Z.setbit_eqb //. destruct (Z.eqb_spec 0 i) as [<-|]; cbn [orb negb].
  - rw andb_false_r /entry_return Z.bit0_odd Z.odd_add. by rw -Z.negb_even He.
  - by rw andb_true_r.
Qed.

Lemma runs_switch_entry base tail c (Q : unit → cpu → Prop) :
  runs tail (entry_call base c) (λ _ c', runs switch_entry_end c' Q) →
  runs (switch_entry base tail) c Q.
Proof.
  intros H. rw /switch_entry /add_sp /set_SP /str /bl /set_LR. repeat (step; simpl). exact H.
Qed.

(** Coming back to the end of [switch_entry] for as long as LR holds its own address. *)
Lemma runs_entry_ends base n : ∀ c,
  Z.even base = true → LR c = LR (entry_call base c) → PC c = entry_return base →
  (0 ≤ SP c < 2 ^ 32)%Z →
  runs (Nat.iter n (λ m, m ≫= λ _, switch_entry_end) (mret tt)) c (λ _ c',
    LR c' = LR c ∧ PC c' = entry_return base ∧ SP c' = uint32 (SP c + 4 * Z.of_nat n)).
Proof.
  induction n as [|n IH]; intros c He Hl Hp Hs; simpl Nat.iter.
  { step. split_and!; [done..|]. rw uint32_id; lia. }
  step. use IH; [done..|]. intros [] c' (Hl' & Hp' & Hs').
  apply runs_switch_entry_end; [rw Hl' Hl; apply entry_call_thumb|].
  cbn [LR PC SP]. split_and!; [done|by rw Hl' Hl clear_entry_return|].
  rw Hs' /uint32 Zplus_mod_idemp_l. f_equal. lia.
Qed.

(** C30.  The first run of a thread, in assembly: whatever [switch_entry] finds on the
    stack, and whatever conforming code is linked as [thread_schedule_tail], it ends at the
    address that call left in the link register, eight bytes up the stack: no word of the
    stack is loaded, so the entry point that [thread_create] means the thread to start at
    is not reached.  When the callee leaves LR alone, that address is the instruction
    after the call, and the processor goes round the last two instructions for ever,
    four bytes of stack at a time. *)
Theorem switch_entry_starts_nothing base tail c c1 :
  Z.even base = true → follows_standard tail →
  tail (entry_call base c) = Ok (tt, c1) → Z.testbit (LR c1) 0 = true →
  runs (switch_entry base tail) c (λ _ c2,
    PC c2 = Z.clearbit (LR c1) 0 ∧ SP c2 = uint32 (SP c + 8) ∧ word c2 = word c1 ∧
    R5 c2 = R5 c ∧ R6 c2 = R6 c ∧ R7 c2 = R7 c ∧
    (LR c1 = LR (entry_call base c) →
     ∀ n, runs (Nat.iter n (λ m, m ≫= λ _, switch_entry_end) (mret tt)) c2 (λ _ c3,
            PC c3 = entry_return base ∧ SP c3 = uint32 (SP c + 8 + 4 * Z.of_nat n)))).
Proof.
  intros He Hf E Hl. pose proof (Hf _ (entry_call_thumb base c)) as Hc.
  rw /runs E in Hc. destruct Hc as (_ & Hs & H5 & H6 & H7).
  apply runs_switch_entry. rw /runs E. apply runs_switch_entry_end; [done|].
  cbn [LR PC SP R5 R6 R7 word].
  assert (uint32 (SP c1 + 4) = uint32 (SP c + 8)) as Hsp.
  { rw Hs. cbn [SP entry_call]. replace (_ - 4 + 4)%Z with (uint32 (SP c + 8)) by lia.
    apply uint32_id, uint32_range. }
  split_and!; [done..|]. intros Hk n.
  use (runs_entry_ends base n); [done|done| |apply uint32_range|].
  { cbn [PC]. by rw Hk clear_entry_return. }
  intros [] c3 (_ & Hp & Hs3). split; [done|]. rw Hs3. cbn [SP].
  by rw Hsp /uint32 Zplus_mod_idemp_l.
Qed.

(** Code that returns at once, as a function that calls nothing may. *)
Definition leaf : M cpu unit := bx_lr.

Lemma switch_entry_starts_nothing_witness :
  runs (switch_entry 0x10000400 leaf) demo_cpu (λ _ c2,
    PC c2 = 0x10000408%Z ∧ SP c2 = 0x20003008%Z).
Proof.
  eapply runs_mono.
  - eapply (switch_entry_starts_nothing 0x10000400 leaf demo_cpu).
    + done.
    + intros c Hl. rw /leaf /bx_lr. repeat step. cbn [LR]. rw Hl. by step.
    + by vm_compute.
    + done.
  - by intros [] c2 (Hp & Hs & _).
Defined.
