(* ===== verification/CompilerId.v ===== *)
(** * build/CMakeFiles/3.29.3/CompilerIdC/CMakeCCompilerId.c: naming the compiler

    The C program with which the build finds out which compiler it was given: a chain of
    preprocessor conditions on the macros that compilers predefine, and strings, made of
    what the chain defines, that the build looks for in the object file.  (The copy under
    elf2uf2 is the same file; the build writes both.)

    A group of directives is syntax ([group]) with an interpreter ([preprocess]) over the
    table of macros; the groups below follow the lines of the file.  A macro body is
    syntax too, expanded where it is used.  What does not compile is [None]. *)

From stdpp Require Import pretty.
From S2P Require Import Prelude.

(** ** Directives *)

(** Integer expressions over macros. *)
Inductive expr :=
| Mac (n : string)
| Num (z : Z)
| Div (a b : expr) | Mod (a b : expr) | Sub (a b : expr) | Mul (a b : expr)
| Shr (a b : expr) | Band (a b : expr).

(** Macro bodies: a number, a string literal, [DEC(e)], [HEX(e)], another macro, a string
    literal followed by [STRINGIFY] of a macro, nothing. *)
Inductive body :=
| Val (z : Z)
| Str (s : string)
| Dec (e : expr)
| Hex (e : expr)
| Name (n : string)
| StrNum (s n : string)
| Nothing.

(** Conditions of [#if] and [#elif]. *)
Inductive cond :=
| Defined (n : string)
| CNot (c : cond)
| CAnd (c d : cond) | COr (c d : cond)
| CLt (a b : expr) | CLe (a b : expr) | CGt (a b : expr) | CGe (a b : expr) | CEq (a b : expr).

(** Directives in sequence: [If c g h k] is [#if c], the group [g], [#else], the group
    [h], [#endif], and then [k]. *)
Inductive group :=
| Done
| Define (n : string) (b : body) (k : group)
| If (c : cond) (g h k : group).

(** [#if], the [#elif]s, [#else], [#endif]. *)
Fixpoint chain (bs : list (cond * group)) (els k : group) : group :=
  match bs with
  | [] => If (CEq (Num 0) (Num 1)) Done els k
  | [(c, g)] => If c g els k
  | (c, g) :: bs => If c g (chain bs els Done) k
  end.

(** ** Their meaning *)

Definition macros := gmap string body.

Definition defined (m : macros) (n : string) : bool := bool_decide (is_Some (m !! n)).

(** Division and remainder truncate, as in C. *)
Fixpoint eval (mac : string → option Z) (e : expr) : option Z :=
  let op f a b := x ← eval mac a; y ← eval mac b; Some (f x y) in
  match e with
  | Mac n => mac n
  | Num z => Some z
  | Div a b => op Z.quot a b
  | Mod a b => op Z.rem a b
  | Sub a b => op Z.sub a b
  | Mul a b => op Z.mul a b
  | Shr a b => op Z.shiftr a b
  | Band a b => op Z.land a b
  end.

Definition number (b : body) : option Z := match b with Val z => Some z | _ => None end.

(** In a condition, a name that is not a macro counts as 0. *)
Definition in_condition (m : macros) (n : string) : option Z :=
  match m !! n with None => Some 0%Z | Some b => number b end.
(** In code, it is an identifier that nothing declares. *)
Definition in_code (m : macros) (n : string) : option Z := m !! n ≫= number.

Fixpoint holds (m : macros) (c : cond) : option bool :=
  let rel (f : Z → Z → bool) a b :=
    x ← eval (in_condition m) a; y ← eval (in_condition m) b; Some (f x y) in
  match c with
  | Defined n => Some (defined m n)
  | CNot c => negb <$> holds m c
  | CAnd c d => x ← holds m c; y ← holds m d; Some (x && y)
  | COr c d => x ← holds m c; y ← holds m d; Some (x || y)
  | CLt a b => rel Z.ltb a b
  | CLe a b => rel Z.leb a b
  | CGt a b => rel Z.gtb a b
  | CGe a b => rel Z.geb a b
  | CEq a b => rel Z.eqb a b
  end.

(** A second [#define] of a name replaces the first. *)
Fixpoint preprocess (g : group) (m : macros) : option macros :=
  match g with
  | Done => Some m
  | Define n b k => preprocess k (<[n := b]> m)
  | If c g h k =>
      x ← holds m c;
      m' ← preprocess (if x : bool then g else h) m;
      preprocess k m'
  end.

(** ** The program *)

Declare Scope directive_scope.
Delimit Scope directive_scope with directive.
Coercion Mac : string >-> expr.
Infix "/" := Div : directive_scope.
Infix "mod" := Mod : directive_scope.
Infix "-" := Sub : directive_scope.
Infix "*" := Mul : directive_scope.
Infix ">>" := Shr (at level 45, left associativity) : directive_scope.
Infix ".&" := Band (at level 48, left associativity) : directive_scope.
Infix "<" := CLt : directive_scope.
Infix "≤" := CLe : directive_scope.
Infix ">" := CGt : directive_scope.
Infix "≥" := CGe : directive_scope.
Infix "=" := CEq : directive_scope.
Infix "&&" := CAnd : directive_scope.
Infix "||" := COr : directive_scope.
Notation "¬ c" := (CNot c) : directive_scope.

Section Program.
Local Open Scope directive_scope.

(** [__has_include] takes an argument; nothing in the file uses it. *)
Definition prologue : group :=
  If (Defined "__18CXX") (Define "ID_VOID_MAIN" Nothing Done) Done $
  If (Defined "__CLASSIC_C__")
     (Define "const" Nothing $ Define "volatile" Nothing Done)
     Done $
  If (¬ Defined "__has_include") (Define "__has_include" (Val 0) Done) Done Done.

(** *** Lines 24 to 449: one group per compiler *)

Definition id_Intel : group :=
  Define "COMPILER_ID" (Str "Intel") $
  If (Defined "_MSC_VER") (Define "SIMULATE_ID" (Str "MSVC") Done) Done $
  If (Defined "__GNUC__") (Define "SIMULATE_ID" (Str "GNU") Done) Done $
  If (("__INTEL_COMPILER" < Num 2021) || ("__INTEL_COMPILER" = Num 202110) ||
      ("__INTEL_COMPILER" = Num 202111))
     (Define "COMPILER_VERSION_MAJOR" (Dec ("__INTEL_COMPILER" / Num 100)) $
      Define "COMPILER_VERSION_MINOR" (Dec ("__INTEL_COMPILER" / Num 10 mod Num 10)) $
      If (Defined "__INTEL_COMPILER_UPDATE")
         (Define "COMPILER_VERSION_PATCH" (Dec "__INTEL_COMPILER_UPDATE") Done)
         (Define "COMPILER_VERSION_PATCH" (Dec ("__INTEL_COMPILER" mod Num 10)) Done) Done)
     (Define "COMPILER_VERSION_MAJOR" (Dec "__INTEL_COMPILER") $
      Define "COMPILER_VERSION_MINOR" (Dec "__INTEL_COMPILER_UPDATE") $
      Define "COMPILER_VERSION_PATCH" (Dec (Num 0)) Done) $
  If (Defined "__INTEL_COMPILER_BUILD_DATE")
     (Define "COMPILER_VERSION_TWEAK" (Dec "__INTEL_COMPILER_BUILD_DATE") Done)
     Done $
  If (Defined "_MSC_VER")
     (Define "SIMULATE_VERSION_MAJOR" (Dec ("_MSC_VER" / Num 100)) $
      Define "SIMULATE_VERSION_MINOR" (Dec ("_MSC_VER" mod Num 100)) Done)
     Done $
  chain
    [(Defined "__GNUC__", Define "SIMULATE_VERSION_MAJOR" (Dec "__GNUC__") Done);
     (Defined "__GNUG__", Define "SIMULATE_VERSION_MAJOR" (Dec "__GNUG__") Done)]
    Done $
  If (Defined "__GNUC_MINOR__")
     (Define "SIMULATE_VERSION_MINOR" (Dec "__GNUC_MINOR__") Done)
     Done $
  If (Defined "__GNUC_PATCHLEVEL__")
     (Define "SIMULATE_VERSION_PATCH" (Dec "__GNUC_PATCHLEVEL__") Done)
     Done Done.

Definition id_IntelLLVM : group :=
  Define "COMPILER_ID" (Str "IntelLLVM") $
  If (Defined "_MSC_VER") (Define "SIMULATE_ID" (Str "MSVC") Done) Done $
  If (Defined "__GNUC__") (Define "SIMULATE_ID" (Str "GNU") Done) Done $
  If ("__INTEL_LLVM_COMPILER" < Num 1000000)
     (Define "COMPILER_VERSION_MAJOR" (Dec ("__INTEL_LLVM_COMPILER" / Num 100)) $
      Define "COMPILER_VERSION_MINOR" (Dec ("__INTEL_LLVM_COMPILER" / Num 10 mod Num 10)) $
      Define "COMPILER_VERSION_PATCH" (Dec ("__INTEL_LLVM_COMPILER" mod Num 10)) Done)
     (Define "COMPILER_VERSION_MAJOR" (Dec ("__INTEL_LLVM_COMPILER" / Num 10000)) $
      Define "COMPILER_VERSION_MINOR" (Dec ("__INTEL_LLVM_COMPILER" / Num 100 mod Num 100)) $
      Define "COMPILER_VERSION_PATCH" (Dec ("__INTEL_LLVM_COMPILER" mod Num 100)) Done) $
  If (Defined "_MSC_VER")
     (Define "SIMULATE_VERSION_MAJOR" (Dec ("_MSC_VER" / Num 100)) $
      Define "SIMULATE_VERSION_MINOR" (Dec ("_MSC_VER" mod Num 100)) Done)
     Done $
  chain
    [(Defined "__GNUC__", Define "SIMULATE_VERSION_MAJOR" (Dec "__GNUC__") Done);
     (Defined "__GNUG__", Define "SIMULATE_VERSION_MAJOR" (Dec "__GNUG__") Done)]
    Done $
  If (Defined "__GNUC_MINOR__")
     (Define "SIMULATE_VERSION_MINOR" (Dec "__GNUC_MINOR__") Done)
     Done $
  If (Defined "__GNUC_PATCHLEVEL__")
     (Define "SIMULATE_VERSION_PATCH" (Dec "__GNUC_PATCHLEVEL__") Done)
     Done Done.

Definition id_PathScale : group :=
  Define "COMPILER_ID" (Str "PathScale") $
  Define "COMPILER_VERSION_MAJOR" (Dec "__PATHCC__") $
  Define "COMPILER_VERSION_MINOR" (Dec "__PATHCC_MINOR__") $
  If (Defined "__PATHCC_PATCHLEVEL__")
     (Define "COMPILER_VERSION_PATCH" (Dec "__PATHCC_PATCHLEVEL__") Done)
     Done Done.

Definition id_Embarcadero : group :=
  Define "COMPILER_ID" (Str "Embarcadero") $
  Define "COMPILER_VERSION_MAJOR" (Hex (("__CODEGEARC_VERSION__" >> Num 24) .& Num 0x00FF)) $
  Define "COMPILER_VERSION_MINOR" (Hex (("__CODEGEARC_VERSION__" >> Num 16) .& Num 0x00FF)) $
  Define "COMPILER_VERSION_PATCH" (Dec ("__CODEGEARC_VERSION__" .& Num 0xFFFF)) Done.

Definition id_Borland : group :=
  Define "COMPILER_ID" (Str "Borland") $
  Define "COMPILER_VERSION_MAJOR" (Hex ("__BORLANDC__" >> Num 8)) $
  Define "COMPILER_VERSION_MINOR" (Hex ("__BORLANDC__" .& Num 0xFF)) Done.

Definition id_Watcom : group :=
  Define "COMPILER_ID" (Str "Watcom") $
  Define "COMPILER_VERSION_MAJOR" (Dec ("__WATCOMC__" / Num 100)) $
  Define "COMPILER_VERSION_MINOR" (Dec ("__WATCOMC__" / Num 10 mod Num 10)) $
  If (("__WATCOMC__" mod Num 10) > Num 0)
     (Define "COMPILER_VERSION_PATCH" (Dec ("__WATCOMC__" mod Num 10)) Done)
     Done Done.

Definition id_OpenWatcom : group :=
  Define "COMPILER_ID" (Str "OpenWatcom") $
  Define "COMPILER_VERSION_MAJOR" (Dec (("__WATCOMC__" - Num 1100) / Num 100)) $
  Define "COMPILER_VERSION_MINOR" (Dec ("__WATCOMC__" / Num 10 mod Num 10)) $
  If (("__WATCOMC__" mod Num 10) > Num 0)
     (Define "COMPILER_VERSION_PATCH" (Dec ("__WATCOMC__" mod Num 10)) Done)
     Done Done.

Definition id_SunPro : group :=
  Define "COMPILER_ID" (Str "SunPro") $
  If ("__SUNPRO_C" ≥ Num 0x5100)
     (Define "COMPILER_VERSION_MAJOR" (Hex ("__SUNPRO_C" >> Num 12)) $
      Define "COMPILER_VERSION_MINOR" (Hex (("__SUNPRO_C" >> Num 4) .& Num 0xFF)) $
      Define "COMPILER_VERSION_PATCH" (Hex ("__SUNPRO_C" .& Num 0xF)) Done)
     (Define "COMPILER_VERSION_MAJOR" (Hex ("__SUNPRO_C" >> Num 8)) $
      Define "COMPILER_VERSION_MINOR" (Hex (("__SUNPRO_C" >> Num 4) .& Num 0xF)) $
      Define "COMPILER_VERSION_PATCH" (Hex ("__SUNPRO_C" .& Num 0xF)) Done) Done.

Definition id_HP : group :=
  Define "COMPILER_ID" (Str "HP") $
  Define "COMPILER_VERSION_MAJOR" (Dec ("__HP_cc" / Num 10000)) $
  Define "COMPILER_VERSION_MINOR" (Dec ("__HP_cc" / Num 100 mod Num 100)) $
  Define "COMPILER_VERSION_PATCH" (Dec ("__HP_cc" mod Num 100)) Done.

Definition id_Compaq : group :=
  Define "COMPILER_ID" (Str "Compaq") $
  Define "COMPILER_VERSION_MAJOR" (Dec ("__DECC_VER" / Num 10000000)) $
  Define "COMPILER_VERSION_MINOR" (Dec ("__DECC_VER" / Num 100000 mod Num 100)) $
  Define "COMPILER_VERSION_PATCH" (Dec ("__DECC_VER" mod Num 10000)) Done.

Definition id_zOS : group :=
  Define "COMPILER_ID" (Str "zOS") $
  Define "COMPILER_VERSION_MAJOR" (Dec ("__IBMC__" / Num 100)) $
  Define "COMPILER_VERSION_MINOR" (Dec ("__IBMC__" / Num 10 mod Num 10)) $
  Define "COMPILER_VERSION_PATCH" (Dec ("__IBMC__" mod Num 10)) Done.

Definition id_IBMClang : group :=
  Define "COMPILER_ID" (Str "IBMClang") $
  Define "COMPILER_VERSION_MAJOR" (Dec "__open_xl_version__") $
  Define "COMPILER_VERSION_MINOR" (Dec "__open_xl_release__") $
  Define "COMPILER_VERSION_PATCH" (Dec "__open_xl_modification__") $
  Define "COMPILER_VERSION_TWEAK" (Dec "__open_xl_ptf_fix_level__") Done.

Definition id_XLClang : group :=
  Define "COMPILER_ID" (Str "XLClang") $
  Define "COMPILER_VERSION_MAJOR" (Dec "__ibmxl_version__") $
  Define "COMPILER_VERSION_MINOR" (Dec "__ibmxl_release__") $
  Define "COMPILER_VERSION_PATCH" (Dec "__ibmxl_modification__") $
  Define "COMPILER_VERSION_TWEAK" (Dec "__ibmxl_ptf_fix_level__") Done.

Definition id_XL : group :=
  Define "COMPILER_ID" (Str "XL") $
  Define "COMPILER_VERSION_MAJOR" (Dec ("__IBMC__" / Num 100)) $
  Define "COMPILER_VERSION_MINOR" (Dec ("__IBMC__" / Num 10 mod Num 10)) $
  Define "COMPILER_VERSION_PATCH" (Dec ("__IBMC__" mod Num 10)) Done.

Definition id_VisualAge : group :=
  Define "COMPILER_ID" (Str "VisualAge") $
  Define "COMPILER_VERSION_MAJOR" (Dec ("__IBMC__" / Num 100)) $
  Define "COMPILER_VERSION_MINOR" (Dec ("__IBMC__" / Num 10 mod Num 10)) $
  Define "COMPILER_VERSION_PATCH" (Dec ("__IBMC__" mod Num 10)) Done.

Definition id_NVHPC : group :=
  Define "COMPILER_ID" (Str "NVHPC") $
  Define "COMPILER_VERSION_MAJOR" (Dec "__NVCOMPILER_MAJOR__") $
  Define "COMPILER_VERSION_MINOR" (Dec "__NVCOMPILER_MINOR__") $
  If (Defined "__NVCOMPILER_PATCHLEVEL__")
     (Define "COMPILER_VERSION_PATCH" (Dec "__NVCOMPILER_PATCHLEVEL__") Done)
     Done Done.

Definition id_PGI : group :=
  Define "COMPILER_ID" (Str "PGI") $
  Define "COMPILER_VERSION_MAJOR" (Dec "__PGIC__") $
  Define "COMPILER_VERSION_MINOR" (Dec "__PGIC_MINOR__") $
  If (Defined "__PGIC_PATCHLEVEL__")
     (Define "COMPILER_VERSION_PATCH" (Dec "__PGIC_PATCHLEVEL__") Done)
     Done Done.

Definition id_CrayClang : group :=
  Define "COMPILER_ID" (Str "CrayClang") $
  Define "COMPILER_VERSION_MAJOR" (Dec "__cray_major__") $
  Define "COMPILER_VERSION_MINOR" (Dec "__cray_minor__") $
  Define "COMPILER_VERSION_PATCH" (Dec "__cray_patchlevel__") $
  Define "COMPILER_VERSION_INTERNAL_STR" (Name "__clang_version__") Done.

Definition id_Cray : group :=
  Define "COMPILER_ID" (Str "Cray") $
  Define "COMPILER_VERSION_MAJOR" (Dec "_RELEASE_MAJOR") $
  Define "COMPILER_VERSION_MINOR" (Dec "_RELEASE_MINOR") Done.

Definition id_TI : group :=
  Define "COMPILER_ID" (Str "TI") $
  Define "COMPILER_VERSION_MAJOR" (Dec ("__TI_COMPILER_VERSION__" / Num 1000000)) $
  Define "COMPILER_VERSION_MINOR" (Dec ("__TI_COMPILER_VERSION__" / Num 1000 mod Num 1000)) $
  Define "COMPILER_VERSION_PATCH" (Dec ("__TI_COMPILER_VERSION__" mod Num 1000)) Done.

Definition id_FujitsuClang : group :=
  Define "COMPILER_ID" (Str "FujitsuClang") $
  Define "COMPILER_VERSION_MAJOR" (Dec "__FCC_major__") $
  Define "COMPILER_VERSION_MINOR" (Dec "__FCC_minor__") $
  Define "COMPILER_VERSION_PATCH" (Dec "__FCC_patchlevel__") $
  Define "COMPILER_VERSION_INTERNAL_STR" (Name "__clang_version__") Done.

Definition id_Fujitsu : group :=
  Define "COMPILER_ID" (Str "Fujitsu") $
  chain
    [(Defined "__FCC_version__", Define "COMPILER_VERSION" (Name "__FCC_version__") Done);
     (Defined "__FCC_major__",
        Define "COMPILER_VERSION_MAJOR" (Dec "__FCC_major__") $
        Define "COMPILER_VERSION_MINOR" (Dec "__FCC_minor__") $
        Define "COMPILER_VERSION_PATCH" (Dec "__FCC_patchlevel__") Done)]
    Done $
  chain
    [(Defined "__fcc_version", Define "COMPILER_VERSION_INTERNAL" (Dec "__fcc_version") Done);
     (Defined "__FCC_VERSION", Define "COMPILER_VERSION_INTERNAL" (Dec "__FCC_VERSION") Done)]
    Done Done.

Definition id_GHS : group :=
  Define "COMPILER_ID" (Str "GHS") $
  If (Defined "__GHS_VERSION_NUMBER")
     (Define "COMPILER_VERSION_MAJOR" (Dec ("__GHS_VERSION_NUMBER" / Num 100)) $
      Define "COMPILER_VERSION_MINOR" (Dec ("__GHS_VERSION_NUMBER" / Num 10 mod Num 10)) $
      Define "COMPILER_VERSION_PATCH" (Dec ("__GHS_VERSION_NUMBER" mod Num 10)) Done)
     Done Done.

Definition id_Tasking : group :=
  Define "COMPILER_ID" (Str "Tasking") $
  Define "COMPILER_VERSION_MAJOR" (Dec ("__VERSION__" / Num 1000)) $
  Define "COMPILER_VERSION_MINOR" (Dec ("__VERSION__" mod Num 100)) $
  Define "COMPILER_VERSION_INTERNAL" (Dec "__VERSION__") Done.

Definition id_OrangeC : group :=
  Define "COMPILER_ID" (Str "OrangeC") $
  Define "COMPILER_VERSION_MAJOR" (Dec "__ORANGEC_MAJOR__") $
  Define "COMPILER_VERSION_MINOR" (Dec "__ORANGEC_MINOR__") $
  Define "COMPILER_VERSION_PATCH" (Dec "__ORANGEC_PATCHLEVEL__") Done.

Definition id_TinyCC : group :=
  Define "COMPILER_ID" (Str "TinyCC") Done.

Definition id_Bruce : group :=
  Define "COMPILER_ID" (Str "Bruce") Done.

Definition id_SCO : group :=
  Define "COMPILER_ID" (Str "SCO") Done.

Definition id_ARMCC : group :=
  Define "COMPILER_ID" (Str "ARMCC") $
  If ("__ARMCC_VERSION" ≥ Num 1000000)
     (Define "COMPILER_VERSION_MAJOR" (Dec ("__ARMCC_VERSION" / Num 1000000)) $
      Define "COMPILER_VERSION_MINOR" (Dec ("__ARMCC_VERSION" / Num 10000 mod Num 100)) $
      Define "COMPILER_VERSION_PATCH" (Dec ("__ARMCC_VERSION" mod Num 10000)) Done)
     (Define "COMPILER_VERSION_MAJOR" (Dec ("__ARMCC_VERSION" / Num 100000)) $
      Define "COMPILER_VERSION_MINOR" (Dec ("__ARMCC_VERSION" / Num 10000 mod Num 10)) $
      Define "COMPILER_VERSION_PATCH" (Dec ("__ARMCC_VERSION" mod Num 10000)) Done) Done.

Definition id_AppleClang : group :=
  Define "COMPILER_ID" (Str "AppleClang") $
  If (Defined "_MSC_VER") (Define "SIMULATE_ID" (Str "MSVC") Done) Done $
  Define "COMPILER_VERSION_MAJOR" (Dec "__clang_major__") $
  Define "COMPILER_VERSION_MINOR" (Dec "__clang_minor__") $
  Define "COMPILER_VERSION_PATCH" (Dec "__clang_patchlevel__") $
  If (Defined "_MSC_VER")
     (Define "SIMULATE_VERSION_MAJOR" (Dec ("_MSC_VER" / Num 100)) $
      Define "SIMULATE_VERSION_MINOR" (Dec ("_MSC_VER" mod Num 100)) Done)
     Done $
  Define "COMPILER_VERSION_TWEAK" (Dec "__apple_build_version__") Done.

Definition id_ARMClang : group :=
  Define "COMPILER_ID" (Str "ARMClang") $
  Define "COMPILER_VERSION_MAJOR" (Dec ("__ARMCOMPILER_VERSION" / Num 1000000)) $
  Define "COMPILER_VERSION_MINOR" (Dec ("__ARMCOMPILER_VERSION" / Num 10000 mod Num 100)) $
  Define "COMPILER_VERSION_PATCH" (Dec ("__ARMCOMPILER_VERSION" / Num 100 mod Num 100)) $
  Define "COMPILER_VERSION_INTERNAL" (Dec "__ARMCOMPILER_VERSION") Done.

Definition id_TIClang : group :=
  Define "COMPILER_ID" (Str "TIClang") $
  Define "COMPILER_VERSION_MAJOR" (Dec "__ti_major__") $
  Define "COMPILER_VERSION_MINOR" (Dec "__ti_minor__") $
  Define "COMPILER_VERSION_PATCH" (Dec "__ti_patchlevel__") $
  Define "COMPILER_VERSION_INTERNAL" (Dec "__ti_version__") Done.

Definition id_Clang : group :=
  Define "COMPILER_ID" (Str "Clang") $
  If (Defined "_MSC_VER") (Define "SIMULATE_ID" (Str "MSVC") Done) Done $
  Define "COMPILER_VERSION_MAJOR" (Dec "__clang_major__") $
  Define "COMPILER_VERSION_MINOR" (Dec "__clang_minor__") $
  Define "COMPILER_VERSION_PATCH" (Dec "__clang_patchlevel__") $
  If (Defined "_MSC_VER")
     (Define "SIMULATE_VERSION_MAJOR" (Dec ("_MSC_VER" / Num 100)) $
      Define "SIMULATE_VERSION_MINOR" (Dec ("_MSC_VER" mod Num 100)) Done)
     Done Done.

Definition id_LCC : group :=
  Define "COMPILER_ID" (Str "LCC") $
  Define "COMPILER_VERSION_MAJOR" (Dec ("__LCC__" / Num 100)) $
  Define "COMPILER_VERSION_MINOR" (Dec ("__LCC__" mod Num 100)) $
  If (Defined "__LCC_MINOR__")
     (Define "COMPILER_VERSION_PATCH" (Dec "__LCC_MINOR__") Done)
     Done $
  If (Defined "__GNUC__" && Defined "__GNUC_MINOR__")
     (Define "SIMULATE_ID" (Str "GNU") $
      Define "SIMULATE_VERSION_MAJOR" (Dec "__GNUC__") $
      Define "SIMULATE_VERSION_MINOR" (Dec "__GNUC_MINOR__") $
      If (Defined "__GNUC_PATCHLEVEL__")
         (Define "SIMULATE_VERSION_PATCH" (Dec "__GNUC_PATCHLEVEL__") Done)
         Done Done)
     Done Done.

Definition id_GNU : group :=
  Define "COMPILER_ID" (Str "GNU") $
  Define "COMPILER_VERSION_MAJOR" (Dec "__GNUC__") $
  If (Defined "__GNUC_MINOR__")
     (Define "COMPILER_VERSION_MINOR" (Dec "__GNUC_MINOR__") Done)
     Done $
  If (Defined "__GNUC_PATCHLEVEL__")
     (Define "COMPILER_VERSION_PATCH" (Dec "__GNUC_PATCHLEVEL__") Done)
     Done Done.

Definition id_MSVC : group :=
  Define "COMPILER_ID" (Str "MSVC") $
  Define "COMPILER_VERSION_MAJOR" (Dec ("_MSC_VER" / Num 100)) $
  Define "COMPILER_VERSION_MINOR" (Dec ("_MSC_VER" mod Num 100)) $
  If (Defined "_MSC_FULL_VER")
     (If ("_MSC_VER" ≥ Num 1400)
         (Define "COMPILER_VERSION_PATCH" (Dec ("_MSC_FULL_VER" mod Num 100000)) Done)
         (Define "COMPILER_VERSION_PATCH" (Dec ("_MSC_FULL_VER" mod Num 10000)) Done) Done)
     Done $
  If (Defined "_MSC_BUILD")
     (Define "COMPILER_VERSION_TWEAK" (Dec "_MSC_BUILD") Done)
     Done Done.

Definition id_ADSP : group :=
  Define "COMPILER_ID" (Str "ADSP") $
  If (Defined "__VERSIONNUM__")
     (Define "COMPILER_VERSION_MAJOR" (Dec (("__VERSIONNUM__" >> Num 24) .& Num 0xFF)) $
      Define "COMPILER_VERSION_MINOR" (Dec (("__VERSIONNUM__" >> Num 16) .& Num 0xFF)) $
      Define "COMPILER_VERSION_PATCH" (Dec (("__VERSIONNUM__" >> Num 8) .& Num 0xFF)) $
      Define "COMPILER_VERSION_TWEAK" (Dec ("__VERSIONNUM__" .& Num 0xFF)) Done)
     Done Done.

Definition id_IAR : group :=
  Define "COMPILER_ID" (Str "IAR") $
  chain
    [(Defined "__VER__" && Defined "__ICCARM__",
        Define "COMPILER_VERSION_MAJOR" (Dec ("__VER__" / Num 1000000)) $
        Define "COMPILER_VERSION_MINOR" (Dec ("__VER__" / Num 1000 mod Num 1000)) $
        Define "COMPILER_VERSION_PATCH" (Dec ("__VER__" mod Num 1000)) $
        Define "COMPILER_VERSION_INTERNAL" (Dec "__IAR_SYSTEMS_ICC__") Done);
     (Defined "__VER__" &&
        (Defined "__ICCAVR__" || Defined "__ICCRX__" || Defined "__ICCRH850__" ||
         Defined "__ICCRL78__" || Defined "__ICC430__" || Defined "__ICCRISCV__" ||
         Defined "__ICCV850__" || Defined "__ICC8051__" || Defined "__ICCSTM8__"),
        Define "COMPILER_VERSION_MAJOR" (Dec ("__VER__" / Num 100)) $
        Define "COMPILER_VERSION_MINOR" (Dec ("__VER__" - (("__VER__" / Num 100) * Num 100))) $
        Define "COMPILER_VERSION_PATCH" (Dec "__SUBVERSION__") $
        Define "COMPILER_VERSION_INTERNAL" (Dec "__IAR_SYSTEMS_ICC__") Done)]
    Done Done.

Definition id_SDCC : group :=
  Define "COMPILER_ID" (Str "SDCC") $
  If (Defined "__SDCC_VERSION_MAJOR")
     (Define "COMPILER_VERSION_MAJOR" (Dec "__SDCC_VERSION_MAJOR") $
      Define "COMPILER_VERSION_MINOR" (Dec "__SDCC_VERSION_MINOR") $
      Define "COMPILER_VERSION_PATCH" (Dec "__SDCC_VERSION_PATCH") Done)
     (Define "COMPILER_VERSION_MAJOR" (Dec ("SDCC" / Num 100)) $
      Define "COMPILER_VERSION_MINOR" (Dec ("SDCC" / Num 10 mod Num 10)) $
      Define "COMPILER_VERSION_PATCH" (Dec ("SDCC" mod Num 10)) Done) Done.

Definition id_HP_native : group :=
  Define "COMPILER_ID" (Str "HP") Done.

Definition compilers : list (cond * group) :=
  [(Defined "__INTEL_COMPILER" || Defined "__ICC", id_Intel);
   ((Defined "__clang__" && Defined "__INTEL_CLANG_COMPILER") ||
      Defined "__INTEL_LLVM_COMPILER", id_IntelLLVM);
   (Defined "__PATHCC__", id_PathScale);
   (Defined "__BORLANDC__" && Defined "__CODEGEARC_VERSION__", id_Embarcadero);
   (Defined "__BORLANDC__", id_Borland);
   (Defined "__WATCOMC__" && ("__WATCOMC__" < Num 1200), id_Watcom);
   (Defined "__WATCOMC__", id_OpenWatcom);
   (Defined "__SUNPRO_C", id_SunPro);
   (Defined "__HP_cc", id_HP);
   (Defined "__DECC", id_Compaq);
   (Defined "__IBMC__" && Defined "__COMPILER_VER__", id_zOS);
   (Defined "__open_xl__" && Defined "__clang__", id_IBMClang);
   (Defined "__ibmxl__" && Defined "__clang__", id_XLClang);
   (Defined "__IBMC__" && (¬ Defined "__COMPILER_VER__") && ("__IBMC__" ≥ Num 800), id_XL);
   (Defined "__IBMC__" && (¬ Defined "__COMPILER_VER__") && ("__IBMC__" < Num 800), id_VisualAge);
   (Defined "__NVCOMPILER", id_NVHPC);
   (Defined "__PGI", id_PGI);
   (Defined "__clang__" && Defined "__cray__", id_CrayClang);
   (Defined "_CRAYC", id_Cray);
   (Defined "__TI_COMPILER_VERSION__", id_TI);
   (Defined "__CLANG_FUJITSU", id_FujitsuClang);
   (Defined "__FUJITSU", id_Fujitsu);
   (Defined "__ghs__", id_GHS);
   (Defined "__TASKING__", id_Tasking);
   (Defined "__ORANGEC__", id_OrangeC);
   (Defined "__TINYC__", id_TinyCC);
   (Defined "__BCC__", id_Bruce);
   (Defined "__SCO_VERSION__", id_SCO);
   (Defined "__ARMCC_VERSION" && (¬ Defined "__clang__"), id_ARMCC);
   (Defined "__clang__" && Defined "__apple_build_version__", id_AppleClang);
   (Defined "__clang__" && Defined "__ARMCOMPILER_VERSION", id_ARMClang);
   (Defined "__clang__" && Defined "__ti__", id_TIClang);
   (Defined "__clang__", id_Clang);
   (Defined "__LCC__" && (Defined "__GNUC__" || Defined "__GNUG__" || Defined "__MCST__"), id_LCC);
   (Defined "__GNUC__", id_GNU);
   (Defined "_MSC_VER", id_MSVC);
   (Defined "_ADI_COMPILER", id_ADSP);
   (Defined "__IAR_SYSTEMS_ICC__" || Defined "__IAR_SYSTEMS_ICC", id_IAR);
   (Defined "__SDCC_VERSION_MAJOR" || Defined "SDCC", id_SDCC);
   (Defined "__hpux" || Defined "__hpua", id_HP_native)].

Definition compiler_chain : group :=
  chain compilers (Define "COMPILER_ID" (Str "") Done) Done.

(** *** The platform, the architecture, the version of the language *)

Definition platform_watcom : group :=
  chain
    [(Defined "__LINUX__", Define "PLATFORM_ID" (Str "Linux") Done);
     (Defined "__DOS__", Define "PLATFORM_ID" (Str "DOS") Done);
     (Defined "__OS2__", Define "PLATFORM_ID" (Str "OS2") Done);
     (Defined "__WINDOWS__", Define "PLATFORM_ID" (Str "Windows3x") Done);
     (Defined "__VXWORKS__", Define "PLATFORM_ID" (Str "VxWorks") Done)]
    (Define "PLATFORM_ID" Nothing Done) Done.

Definition platform_integrity : group :=
  If (Defined "INT_178B")
     (Define "PLATFORM_ID" (Str "Integrity178") Done)
     (Define "PLATFORM_ID" (Str "Integrity") Done) Done.

Definition platform_chain : group :=
  chain
    [(Defined "__linux" || Defined "__linux__" || Defined "linux",
        Define "PLATFORM_ID" (Str "Linux") Done);
     (Defined "__MSYS__", Define "PLATFORM_ID" (Str "MSYS") Done);
     (Defined "__CYGWIN__", Define "PLATFORM_ID" (Str "Cygwin") Done);
     (Defined "__MINGW32__", Define "PLATFORM_ID" (Str "MinGW") Done);
     (Defined "__APPLE__", Define "PLATFORM_ID" (Str "Darwin") Done);
     (Defined "_WIN32" || Defined "__WIN32__" || Defined "WIN32",
        Define "PLATFORM_ID" (Str "Windows") Done);
     (Defined "__FreeBSD__" || Defined "__FreeBSD",
        Define "PLATFORM_ID" (Str "FreeBSD") Done);
     (Defined "__NetBSD__" || Defined "__NetBSD", Define "PLATFORM_ID" (Str "NetBSD") Done);
     (Defined "__OpenBSD__" || Defined "__OPENBSD",
        Define "PLATFORM_ID" (Str "OpenBSD") Done);
     (Defined "__sun" || Defined "sun", Define "PLATFORM_ID" (Str "SunOS") Done);
     (Defined "_AIX" || Defined "__AIX" || Defined "__AIX__" || Defined "__aix" ||
        Defined "__aix__",
        Define "PLATFORM_ID" (Str "AIX") Done);
     (Defined "__hpux" || Defined "__hpux__", Define "PLATFORM_ID" (Str "HP-UX") Done);
     (Defined "__HAIKU__", Define "PLATFORM_ID" (Str "Haiku") Done);
     (Defined "__BeOS" || Defined "__BEOS__" || Defined "_BEOS",
        Define "PLATFORM_ID" (Str "BeOS") Done);
     (Defined "__QNX__" || Defined "__QNXNTO__", Define "PLATFORM_ID" (Str "QNX") Done);
     (Defined "__tru64" || Defined "_tru64" || Defined "__TRU64__",
        Define "PLATFORM_ID" (Str "Tru64") Done);
     (Defined "__riscos" || Defined "__riscos__", Define "PLATFORM_ID" (Str "RISCos") Done);
     (Defined "__sinix" || Defined "__sinix__" || Defined "__SINIX__",
        Define "PLATFORM_ID" (Str "SINIX") Done);
     (Defined "__UNIX_SV__", Define "PLATFORM_ID" (Str "UNIX_SV") Done);
     (Defined "__bsdos__", Define "PLATFORM_ID" (Str "BSDOS") Done);
     (Defined "_MPRAS" || Defined "MPRAS", Define "PLATFORM_ID" (Str "MP-RAS") Done);
     (Defined "__osf" || Defined "__osf__", Define "PLATFORM_ID" (Str "OSF1") Done);
     (Defined "_SCO_SV" || Defined "SCO_SV" || Defined "sco_sv",
        Define "PLATFORM_ID" (Str "SCO_SV") Done);
     (Defined "__ultrix" || Defined "__ultrix__" || Defined "_ULTRIX",
        Define "PLATFORM_ID" (Str "ULTRIX") Done);
     (Defined "__XENIX__" || Defined "_XENIX" || Defined "XENIX",
        Define "PLATFORM_ID" (Str "Xenix") Done);
     (Defined "__WATCOMC__", platform_watcom);
     (Defined "__INTEGRITY", platform_integrity);
     (Defined "_ADI_COMPILER", Define "PLATFORM_ID" (Str "ADSP") Done)]
    (Define "PLATFORM_ID" Nothing Done) Done.

Definition arch_windows : group :=
  chain
    [(Defined "_M_IA64", Define "ARCHITECTURE_ID" (Str "IA64") Done);
     (Defined "_M_ARM64EC", Define "ARCHITECTURE_ID" (Str "ARM64EC") Done);
     (Defined "_M_X64" || Defined "_M_AMD64", Define "ARCHITECTURE_ID" (Str "x64") Done);
     (Defined "_M_IX86", Define "ARCHITECTURE_ID" (Str "X86") Done);
     (Defined "_M_ARM64", Define "ARCHITECTURE_ID" (Str "ARM64") Done);
     (Defined "_M_ARM",
        chain
          [("_M_ARM" = Num 4, Define "ARCHITECTURE_ID" (Str "ARMV4I") Done);
           ("_M_ARM" = Num 5, Define "ARCHITECTURE_ID" (Str "ARMV5I") Done)]
          (Define "ARCHITECTURE_ID" (StrNum "ARMV" "_M_ARM") Done) Done);
     (Defined "_M_MIPS", Define "ARCHITECTURE_ID" (Str "MIPS") Done);
     (Defined "_M_SH", Define "ARCHITECTURE_ID" (Str "SHx") Done)]
    (Define "ARCHITECTURE_ID" (Str "") Done) Done.

Definition arch_watcom : group :=
  chain
    [(Defined "_M_I86", Define "ARCHITECTURE_ID" (Str "I86") Done);
     (Defined "_M_IX86", Define "ARCHITECTURE_ID" (Str "X86") Done)]
    (Define "ARCHITECTURE_ID" (Str "") Done) Done.

Definition arch_iar : group :=
  chain
    [(Defined "__ICCARM__", Define "ARCHITECTURE_ID" (Str "ARM") Done);
     (Defined "__ICCRX__", Define "ARCHITECTURE_ID" (Str "RX") Done);
     (Defined "__ICCRH850__", Define "ARCHITECTURE_ID" (Str "RH850") Done);
     (Defined "__ICCRL78__", Define "ARCHITECTURE_ID" (Str "RL78") Done);
     (Defined "__ICCRISCV__", Define "ARCHITECTURE_ID" (Str "RISCV") Done);
     (Defined "__ICCAVR__", Define "ARCHITECTURE_ID" (Str "AVR") Done);
     (Defined "__ICC430__", Define "ARCHITECTURE_ID" (Str "MSP430") Done);
     (Defined "__ICCV850__", Define "ARCHITECTURE_ID" (Str "V850") Done);
     (Defined "__ICC8051__", Define "ARCHITECTURE_ID" (Str "8051") Done);
     (Defined "__ICCSTM8__", Define "ARCHITECTURE_ID" (Str "STM8") Done)]
    (Define "ARCHITECTURE_ID" (Str "") Done) Done.

Definition arch_ghs : group :=
  chain
    [(Defined "__PPC64__", Define "ARCHITECTURE_ID" (Str "PPC64") Done);
     (Defined "__ppc__", Define "ARCHITECTURE_ID" (Str "PPC") Done);
     (Defined "__ARM__", Define "ARCHITECTURE_ID" (Str "ARM") Done);
     (Defined "__x86_64__", Define "ARCHITECTURE_ID" (Str "x64") Done);
     (Defined "__i386__", Define "ARCHITECTURE_ID" (Str "X86") Done)]
    (Define "ARCHITECTURE_ID" (Str "") Done) Done.

Definition arch_ticlang : group :=
  If (Defined "__ARM_ARCH")
     (Define "ARCHITECTURE_ID" (Str "Arm") Done)
     (Define "ARCHITECTURE_ID" (Str "") Done) Done.

Definition arch_ti : group :=
  chain
    [(Defined "__TI_ARM__", Define "ARCHITECTURE_ID" (Str "ARM") Done);
     (Defined "__MSP430__", Define "ARCHITECTURE_ID" (Str "MSP430") Done);
     (Defined "__TMS320C28XX__", Define "ARCHITECTURE_ID" (Str "TMS320C28x") Done);
     (Defined "__TMS320C6X__" || Defined "_TMS320C6X",
        Define "ARCHITECTURE_ID" (Str "TMS320C6x") Done)]
    (Define "ARCHITECTURE_ID" (Str "") Done) Done.

Definition arch_tasking : group :=
  chain
    [(Defined "__CTC__" || Defined "__CPTC__", Define "ARCHITECTURE_ID" (Str "TriCore") Done);
     (Defined "__CMCS__", Define "ARCHITECTURE_ID" (Str "MCS") Done);
     (Defined "__CARM__", Define "ARCHITECTURE_ID" (Str "ARM") Done);
     (Defined "__CARC__", Define "ARCHITECTURE_ID" (Str "ARC") Done);
     (Defined "__C51__", Define "ARCHITECTURE_ID" (Str "8051") Done);
     (Defined "__CPCP__", Define "ARCHITECTURE_ID" (Str "PCP") Done)]
    (Define "ARCHITECTURE_ID" (Str "") Done) Done.

Definition architecture_chain : group :=
  chain
    [(Defined "_WIN32" && Defined "_MSC_VER", arch_windows);
     (Defined "__WATCOMC__", arch_watcom);
     (Defined "__IAR_SYSTEMS_ICC__" || Defined "__IAR_SYSTEMS_ICC", arch_iar);
     (Defined "__ghs__", arch_ghs);
     (Defined "__clang__" && Defined "__ti__", arch_ticlang);
     (Defined "__TI_COMPILER_VERSION__", arch_ti);
     (Defined "__ADSPSHARC__", Define "ARCHITECTURE_ID" (Str "SHARC") Done);
     (Defined "__ADSPBLACKFIN__", Define "ARCHITECTURE_ID" (Str "Blackfin") Done);
     (Defined "__TASKING__", arch_tasking)]
    (Define "ARCHITECTURE_ID" Nothing Done) Done.

Definition standard_chain : group :=
  chain
    [((¬ Defined "__STDC__") && (¬ Defined "__clang__"),
        If (Defined "_MSC_VER" || Defined "__ibmxl__" || Defined "__IBMC__")
           (Define "C_VERSION" (Str "90") Done)
           (Define "C_VERSION" Nothing Done) Done);
     ("__STDC_VERSION__" > Num 201710, Define "C_VERSION" (Str "23") Done);
     ("__STDC_VERSION__" ≥ Num 201710, Define "C_VERSION" (Str "17") Done);
     ("__STDC_VERSION__" ≥ Num 201000, Define "C_VERSION" (Str "11") Done);
     ("__STDC_VERSION__" ≥ Num 199901, Define "C_VERSION" (Str "99") Done)]
    (Define "C_VERSION" (Str "90") Done) Done.

(** The condition of [info_language_extensions_default]. *)
Definition extensions_on : cond :=
  (Defined "__clang__" || Defined "__GNUC__" || Defined "__xlC__" ||
   Defined "__TI_COMPILER_VERSION__") && ¬ Defined "__STRICT_ANSI__".
End Program.

(** The macros at the end of the file; [#error] when the compiler is one for C++. *)
Definition compile (env : macros) : option macros :=
  if defined env "__cplusplus" then None
  else
    m ← preprocess prologue env;
    m ← preprocess compiler_chain m;
    m ← preprocess platform_chain m;
    m ← preprocess architecture_chain m;
    preprocess standard_chain m.

(** ** The strings *)

Definition char (c : Ascii.ascii) : Z := Z.of_nat (Ascii.nat_of_ascii c).
Definition chars (s : string) : list Z := char <$> String.list_ascii_of_string s.
(** A string literal: its characters and a NUL. *)
Definition literal (s : string) : list Z := chars s ++ [0%Z].

(** [DEC(n)] and [HEX(n)]: eight character constants. *)
Definition DEC (n : Z) : list Z :=
  [48 + Z.rem (Z.quot n 10000000) 10;
   48 + Z.rem (Z.quot n 1000000) 10;
   48 + Z.rem (Z.quot n 100000) 10;
   48 + Z.rem (Z.quot n 10000) 10;
   48 + Z.rem (Z.quot n 1000) 10;
   48 + Z.rem (Z.quot n 100) 10;
   48 + Z.rem (Z.quot n 10) 10;
   48 + Z.rem n 10]%Z.

Definition HEX (n : Z) : list Z :=
  [48 + Z.land (Z.shiftr n 28) 0xF;
   48 + Z.land (Z.shiftr n 24) 0xF;
   48 + Z.land (Z.shiftr n 20) 0xF;
   48 + Z.land (Z.shiftr n 16) 0xF;
   48 + Z.land (Z.shiftr n 12) 0xF;
   48 + Z.land (Z.shiftr n 8) 0xF;
   48 + Z.land (Z.shiftr n 4) 0xF;
   48 + Z.land n 0xF]%Z.

(** A macro used among string literals, and one used among character constants. *)
Definition as_string (m : macros) (n : string) : option string :=
  b ← m !! n;
  match b with
  | Str s => Some s
  | StrNum s k => z ← in_code m k; Some (s +:+ pretty z)
  | Name k => b ← m !! k; match b with Str s => Some s | _ => None end
  | Nothing => Some ""
  | _ => None
  end.

Definition as_digits (m : macros) (n : string) : option (list Z) :=
  b ← m !! n;
  match b with
  | Dec e => DEC <$> eval (in_code m) e
  | Hex e => HEX <$> eval (in_code m) e
  | _ => None
  end.

(** ["INFO" ":" "what[" N "]"]. *)
Definition info_string (m : macros) (what n : string) : option (list Z) :=
  s ← as_string m n;
  Some (literal ("INFO:" +:+ what +:+ "[" +:+ s +:+ "]")).

(** The nested [#ifdef]s of a version: each component if those before it are defined. *)
Fixpoint components (m : macros) (ns : list string) : option (list Z) :=
  match ns with
  | [] => Some []
  | n :: ns =>
      if defined m n then
        d ← as_digits m n;
        r ← components m ns;
        Some (chars "." ++ d ++ r)
      else Some []
  end.

Definition version_string (m : macros) (what prefix : string) : option (list Z) :=
  d ← as_digits m (prefix +:+ "_MAJOR");
  r ← components m [prefix +:+ "_MINOR"; prefix +:+ "_PATCH"; prefix +:+ "_TWEAK"];
  Some (chars ("INFO:" +:+ what +:+ "[") ++ d ++ r ++ literal "]").

(** A declaration under a condition. *)
Definition only_if (b : bool) (x : option (list Z)) : option (option (list Z)) :=
  if b then Some <$> x else Some None.

Definition info_compiler (m : macros) : option (list Z) := info_string m "compiler" "COMPILER_ID".

Definition info_simulate (m : macros) : option (option (list Z)) :=
  only_if (defined m "SIMULATE_ID") (info_string m "simulate" "SIMULATE_ID").

Definition info_qnxnto (m : macros) : option (option (list Z)) :=
  only_if (defined m "__QNXNTO__") (Some (literal "INFO:qnxnto[]")).

Definition info_cray (m : macros) : option (option (list Z)) :=
  only_if (defined m "__CRAYXT_COMPUTE_LINUX_TARGET")
    (Some (literal "INFO:compiler_wrapper[CrayPrgEnv]")).

Definition info_version (m : macros) : option (option (list Z)) :=
  if defined m "COMPILER_VERSION"
  then Some <$> info_string m "compiler_version" "COMPILER_VERSION"
  else only_if (defined m "COMPILER_VERSION_MAJOR")
         (version_string m "compiler_version" "COMPILER_VERSION").

Definition info_version_internal (m : macros) : option (option (list Z)) :=
  if defined m "COMPILER_VERSION_INTERNAL" then
    d ← as_digits m "COMPILER_VERSION_INTERNAL";
    Some (Some (chars "INFO:compiler_version_internal[" ++ d ++ literal "]"))
  else only_if (defined m "COMPILER_VERSION_INTERNAL_STR")
         (info_string m "compiler_version_internal" "COMPILER_VERSION_INTERNAL_STR").

Definition info_simulate_version (m : macros) : option (option (list Z)) :=
  only_if (defined m "SIMULATE_VERSION_MAJOR")
    (version_string m "simulate_version" "SIMULATE_VERSION").

Definition info_platform (m : macros) : option (list Z) := info_string m "platform" "PLATFORM_ID".
Definition info_arch (m : macros) : option (list Z) := info_string m "arch" "ARCHITECTURE_ID".

Definition info_language_standard_default (m : macros) : option (list Z) :=
  info_string m "standard_default" "C_VERSION".

Definition info_language_extensions_default (m : macros) : option (list Z) :=
  on ← holds m extensions_on;
  Some (literal ("INFO:extensions_default[" +:+ (if on : bool then "ON" else "OFF") +:+ "]")).

(** The object file: the arrays it holds, and those that [main] reads. *)
Record object := Object {
  o_compiler : list Z;
  o_simulate : option (list Z);
  o_qnxnto : option (list Z);
  o_cray : option (list Z);
  o_version : option (list Z);
  o_version_internal : option (list Z);
  o_simulate_version : option (list Z);
  o_platform : list Z;
  o_arch : list Z;
  o_standard : list Z;
  o_extensions : list Z;
  o_reads_version : bool;            (* COMPILER_VERSION_MAJOR is defined *)
  o_reads_internal : bool;           (* COMPILER_VERSION_INTERNAL is defined *)
  o_void_main : bool;                (* ID_VOID_MAIN is defined *)
}.

Definition build (env : macros) : option object :=
  m ← compile env;
  compiler ← info_compiler m;
  simulate ← info_simulate m;
  qnxnto ← info_qnxnto m;
  cray ← info_cray m;
  version ← info_version m;
  internal ← info_version_internal m;
  simulate_version ← info_simulate_version m;
  platform ← info_platform m;
  arch ← info_arch m;
  standard ← info_language_standard_default m;
  extensions ← info_language_extensions_default m;
  Some (Object compiler simulate qnxnto cray version internal simulate_version platform arch
          standard extensions (defined m "COMPILER_VERSION_MAJOR")
          (defined m "COMPILER_VERSION_INTERNAL") (defined m "ID_VOID_MAIN")).

(** ** main *)

(** [require += a[argc]]. *)
Definition add_char (argc : Z) (a : list Z) (require : Z) : result Z :=
  if bool_decide (0 ≤ argc)%Z then
    match a !! Z.to_nat argc with
    | Some c => Ok (require + c)%Z
    | None => Err (Fault argc)
    end
  else Err (Fault argc).

Fixpoint add_chars (argc : Z) (l : list (list Z)) (require : Z) : result Z :=
  match l with
  | [] => Ok require
  | a :: l =>
      match add_char argc a require with
      | Ok r => add_chars argc l r
      | Err e => Err e
      end
  end.

Definition opt_list (b : bool) (a : option (list Z)) : list (list Z) :=
  match a with Some x => if b then [x] else [] | None => [] end.

(** The arrays that [main] indexes, in order. *)
Definition read_by_main (o : object) : list (list Z) :=
  [o_compiler o; o_platform o; o_arch o] ++
  opt_list (o_reads_version o) (o_version o) ++
  opt_list (o_reads_internal o) (o_version_internal o) ++
  opt_list true (o_simulate o) ++
  opt_list true (o_simulate_version o) ++
  opt_list true (o_cray o) ++
  [o_standard o; o_extensions o].

(** [None] where [main] is [void] and empty. *)
Definition main (o : object) (argc : Z) : result (option Z) :=
  if o_void_main o then Ok None
  else match add_chars argc (read_by_main o) 0 with
       | Ok r => Ok (Some r)
       | Err e => Err e
       end.
