(* ===== verification/CompilerIdProps.v ===== *)
(** * Properties of the compiler identification

    The version written into the object file reads back as the one the compiler has; the
    GNU compiler is recognized whatever its version; every compiler gets one of the known
    names; and [main] stays inside its strings. *)

From Stdlib Require Import Ascii.
From S2P Require Import Prelude CompilerId.

(** ** Groups of directives *)

Fixpoint defines (g : group) : list string :=
  match g with
  | Done => []
  | Define n _ k => n :: defines k
  | If _ g h k => defines g ++ defines h ++ defines k
  end.

Fixpoint expr_macros (e : expr) : list string :=
  match e with
  | Mac n => [n]
  | Num _ => []
  | Div a b | Mod a b | Sub a b | Mul a b | Shr a b | Band a b => expr_macros a ++ expr_macros b
  end.

(** The macros a condition looks at, and those it takes as numbers. *)
Fixpoint cond_macros (c : cond) : list string :=
  match c with
  | Defined n => [n]
  | CNot c => cond_macros c
  | CAnd c d | COr c d => cond_macros c ++ cond_macros d
  | CLt a b | CLe a b | CGt a b | CGe a b | CEq a b => expr_macros a ++ expr_macros b
  end.
Fixpoint cond_numbers (c : cond) : list string :=
  match c with
  | Defined n => []
  | CNot c => cond_numbers c
  | CAnd c d | COr c d => cond_numbers c ++ cond_numbers d
  | CLt a b | CLe a b | CGt a b | CGe a b | CEq a b => expr_macros a ++ expr_macros b
  end.
Fixpoint numbers (g : group) : list string :=
  match g with
  | Done => []
  | Define _ _ k => numbers k
  | If c g h k => cond_numbers c ++ numbers g ++ numbers h ++ numbers k
  end.

(** Does every path through the group define [n]?  With which bodies? *)
Fixpoint always (n : string) (g : group) : bool :=
  match g with
  | Done => false
  | Define n' _ k => bool_decide (n' = n) || always n k
  | If _ g h k => (always n g && always n h) || always n k
  end.
Fixpoint bodies (n : string) (g : group) : list body :=
  match g with
  | Done => []
  | Define n' b k => (if bool_decide (n' = n) then [b] else []) ++ bodies n k
  | If _ g h k => bodies n g ++ bodies n h ++ bodies n k
  end.

Lemma preprocess_frame g : ∀ m m' n,
  preprocess g m = Some m' → n ∉ defines g → m' !! n = m !! n.
Proof.
  induction g as [|n b k IH|c g IHg h IHh k IHk]; intros m m' x; cbn [preprocess defines].
  - by intros [= <-].
  - intros E [Hn Hk]%not_elem_of_cons. rw (IH _ _ _ E Hk). by rw lookup_insert_ne.
  - destruct (holds m c) as [v|]; [|done]. simpl.
    destruct (preprocess (if v then g else h) m) as [m1|] eqn:E1; [|done]. simpl.
    intros E. rw !not_elem_of_app. intros (Hg & Hh & Hk). rw (IHk _ _ _ E Hk).
    destruct v; [by eapply IHg|by eapply IHh].
Qed.

(** A macro is number-like: undefined or a number. *)
Definition numeric (m : macros) (n : string) : Prop :=
  m !! n = None ∨ ∃ z, m !! n = Some (Val z).

Lemma eval_numeric m e :
  (∀ n, n ∈ expr_macros e → numeric m n) → is_Some (eval (in_condition m) e).
Proof.
  induction e as [n| |a IHa b IHb|a IHa b IHb|a IHa b IHb|a IHa b IHb|a IHa b IHb|a IHa b IHb];
    intros Hn; cbn [eval expr_macros] in *;
    try (destruct IHa as [x ->]; [intros; apply Hn; set_solver|];
         destruct IHb as [y ->]; [intros; apply Hn; set_solver|]; by eexists).
  - destruct (Hn n) as [E|[z E]]; [by left|..]; rw /in_condition E; by eexists.
  - by eexists.
Qed.

Lemma holds_numeric m c : (∀ n, n ∈ cond_numbers c → numeric m n) → is_Some (holds m c).
Proof.
  induction c as [n|c IH|c IHc d IHd|c IHc d IHd|a b|a b|a b|a b|a b]; intros Hn;
    cbn [holds cond_numbers] in *;
    try (destruct (eval_numeric m a) as [x ->]; [intros; apply Hn; set_solver|];
         destruct (eval_numeric m b) as [y ->]; [intros; apply Hn; set_solver|]; by eexists);
    try (destruct IHc as [x ->]; [intros; apply Hn; set_solver|];
         destruct IHd as [y ->]; [intros; apply Hn; set_solver|]; by eexists).
  - by eexists.
  - destruct IH as [x ->]; [done|]. by eexists.
Qed.

(** Preprocessing succeeds when what is taken as a number is one. *)
Lemma preprocess_total g : ∀ m,
  (∀ n, n ∈ numbers g → numeric m n) → (∀ n, n ∈ numbers g → n ∉ defines g) →
  is_Some (preprocess g m).
Proof.
  induction g as [|n b k IH|c g IHg h IHh k IHk]; intros m Hn Hd; cbn [preprocess numbers defines] in *.
  - by eexists.
  - apply IH; [|set_solver]. intros x Hx. rw /numeric.
    rw lookup_insert_ne; [set_solver|]. by apply Hn.
  - destruct (holds_numeric m c) as [v ->]; [set_solver|]. simpl.
    assert (is_Some (preprocess (if v then g else h) m)) as [m1 E].
    { destruct v; [apply IHg|apply IHh]; set_solver. }
    rw E /=. apply IHk; [|set_solver]. intros x Hx. rw /numeric.
    rw (preprocess_frame _ _ _ x E); [destruct v; set_solver|]. set_solver.
Qed.

(** What a group leaves of a macro: the value before, or one of the group's bodies. *)
Lemma preprocess_bodies n g : ∀ m m',
  preprocess g m = Some m' → m' !! n = m !! n ∨ ∃ b, b ∈ bodies n g ∧ m' !! n = Some b.
Proof.
  induction g as [|n' b k IH|c g IHg h IHh k IHk]; intros m m'; cbn [preprocess bodies].
  - intros [= <-]. by left.
  - intros E. destruct (IH _ _ E) as [->|(b' & Hb & ->)]; [|right; set_solver].
    destruct (decide (n' = n)) as [->|Hne].
    + rw lookup_insert_eq. right. exists b. rw bool_decide_true //. set_solver.
    + rw lookup_insert_ne //. by left.
  - destruct (holds m c) as [v|]; [|done]. simpl.
    destruct (preprocess (if v then g else h) m) as [m1|] eqn:E1; [|done]. simpl.
    intros E. destruct (IHk _ _ E) as [->|(b & Hb & ->)]; [|right; set_solver].
    destruct v; [destruct (IHg _ _ E1) as [->|(b & Hb & ->)]
                |destruct (IHh _ _ E1) as [->|(b & Hb & ->)]]; set_solver.
Qed.

Lemma preprocess_always n g : ∀ m m',
  preprocess g m = Some m' → always n g = true → ∃ b, b ∈ bodies n g ∧ m' !! n = Some b.
Proof.
  induction g as [|n' b k IH|c g IHg h IHh k IHk]; intros m m'; cbn [preprocess always bodies].
  - done.
  - intros E [Hn%bool_decide_eq_true|Hk]%orb_prop.
    + subst n'. destruct (preprocess_bodies n _ _ _ E) as [->|(b' & Hb & ->)]; [|set_solver].
      rw lookup_insert_eq. rw bool_decide_true //. set_solver.
    + destruct (IH _ _ E Hk) as (b' & Hb & ->). set_solver.
  - destruct (holds m c) as [v|]; [|done]. simpl.
    destruct (preprocess (if v then g else h) m) as [m1|] eqn:E1; [|done]. simpl.
    intros E [[Hg Hh]%andb_prop|Hk]%orb_prop.
    + destruct (preprocess_bodies n _ _ _ E) as [->|(b & Hb & ->)]; [|set_solver].
      destruct v; [destruct (IHg _ _ E1 Hg) as (b & Hb & ->)
                  |destruct (IHh _ _ E1 Hh) as (b & Hb & ->)]; set_solver.
    + destruct (IHk _ _ E Hk) as (b & Hb & ->). set_solver.
Qed.

(** ** What the program looks at *)

Definition body_macros (b : body) : list string :=
  match b with
  | Dec e | Hex e => expr_macros e
  | Name n | StrNum _ n => [n]
  | Val _ | Str _ | Nothing => []
  end.

Fixpoint mentions (g : group) : list string :=
  match g with
  | Done => []
  | Define _ b k => body_macros b ++ mentions k
  | If c g h k => cond_macros c ++ mentions g ++ mentions h ++ mentions k
  end.

(** The names that the declarations use. *)
Definition declared_from : list string :=
  ["__cplusplus"; "COMPILER_ID"; "SIMULATE_ID"; "__QNXNTO__"; "__CRAYXT_COMPUTE_LINUX_TARGET";
   "COMPILER_VERSION"; "COMPILER_VERSION_MAJOR"; "COMPILER_VERSION_MINOR";
   "COMPILER_VERSION_PATCH"; "COMPILER_VERSION_TWEAK"; "COMPILER_VERSION_INTERNAL";
   "COMPILER_VERSION_INTERNAL_STR"; "SIMULATE_VERSION_MAJOR"; "SIMULATE_VERSION_MINOR";
   "SIMULATE_VERSION_PATCH"; "SIMULATE_VERSION_TWEAK"; "PLATFORM_ID"; "ARCHITECTURE_ID";
   "C_VERSION"; "ID_VOID_MAIN"].

Definition program_macros : list string :=
  mentions prologue ++ mentions compiler_chain ++ mentions platform_chain ++
  mentions architecture_chain ++ mentions standard_chain ++ cond_macros extensions_on ++
  declared_from.

(** Two tables are the same on the names of [S], whose bodies use names of [S] only. *)
Definition same (S : list string) (m1 m2 : macros) : Prop :=
  ∀ n, n ∈ S → m1 !! n = m2 !! n ∧ ∀ b, m1 !! n = Some b → body_macros b ⊆ S.

#[export] Instance same_symmetric S : Symmetric (same S).
Proof. intros m1 m2 H n Hn. destruct (H n Hn) as [E Hb]. by rw -E. Qed.
#[export] Instance same_transitive S : Transitive (same S).
Proof. intros m1 m2 m3 H H' n Hn. destruct (H n Hn), (H' n Hn). split; [congruence|done]. Qed.

Section Same.
Context (S : list string) (m1 m2 : macros) (Hm : same S m1 m2).

Lemma lookup_same n : n ∈ S → m1 !! n = m2 !! n.
Proof. intros Hn. by destruct (Hm n Hn). Qed.

Lemma defined_same n : n ∈ S → defined m1 n = defined m2 n.
Proof. intros Hn. rw /defined. by rw (lookup_same n Hn). Qed.

Lemma eval_same f g e :
  (∀ n, n ∈ S → f n = g n) → expr_macros e ⊆ S → eval f e = eval g e.
Proof.
  intros Hf. induction e; cbn [eval expr_macros]; intros He; auto;
    try (rw IHe1; [set_solver|]; rw IHe2; [set_solver|]; done).
  apply Hf. set_solver.
Qed.

Lemma in_condition_same n : n ∈ S → in_condition m1 n = in_condition m2 n.
Proof. intros Hn. rw /in_condition. by rw (lookup_same n Hn). Qed.
Lemma in_code_same n : n ∈ S → in_code m1 n = in_code m2 n.
Proof. intros Hn. rw /in_code. by rw (lookup_same n Hn). Qed.

Lemma holds_same c : cond_macros c ⊆ S → holds m1 c = holds m2 c.
Proof.
  induction c; cbn [holds cond_macros]; intros Hc;
    try (rw IHc1; [set_solver|]; rw IHc2; [set_solver|]; done);
    try (rw !(eval_same _ _ _ in_condition_same); [set_solver..|]; done).
  - rw defined_same; [set_solver|done].
  - by rw IHc.
Qed.

Lemma as_digits_same n : n ∈ S → as_digits m1 n = as_digits m2 n.
Proof.
  intros Hn. rw /as_digits. destruct (Hm n Hn) as [<- Hb].
  destruct (m1 !! n) as [b|]; [|done]. simpl. specialize (Hb b eq_refl).
  destruct b; try done; cbn [body_macros] in Hb; by rw (eval_same _ _ _ in_code_same Hb).
Qed.

Lemma as_string_same n : n ∈ S → as_string m1 n = as_string m2 n.
Proof.
  intros Hn. rw /as_string. destruct (Hm n Hn) as [<- Hb].
  destruct (m1 !! n) as [b|]; [|done]. simpl. specialize (Hb b eq_refl).
  destruct b; try done; cbn [body_macros] in Hb;
    [rw lookup_same|rw in_code_same]; [set_solver|done|set_solver|done].
Qed.

Lemma components_same ns : ns ⊆ S → components m1 ns = components m2 ns.
Proof.
  induction ns as [|n ns IH]; cbn [components]; [done|]. intros Hns.
  rw defined_same; [set_solver|]. rw as_digits_same; [set_solver|]. rw IH; [set_solver|done].
Qed.
End Same.

Lemma preprocess_same S g : ∀ m1 m2,
  mentions g ⊆ S → same S m1 m2 →
  option_Forall2 (same S) (preprocess g m1) (preprocess g m2).
Proof.
  induction g as [|n b k IH|c g IHg h IHh k IHk]; intros m1 m2; cbn [preprocess mentions].
  - intros _ Hm. by constructor.
  - intros HS Hm. apply IH; [set_solver|]. intros x Hx.
    destruct (decide (n = x)) as [->|Hne].
    + rw !lookup_insert_eq. split; [done|]. intros ? [= <-]. set_solver.
    + rw !lookup_insert_ne; [done..|]. by apply Hm.
  - intros HS Hm. rw (holds_same S m1 m2 Hm c); [set_solver|].
    destruct (holds m2 c) as [v|]; [|constructor]. simpl.
    assert (option_Forall2 (same S) (preprocess (if v then g else h) m1)
                                    (preprocess (if v then g else h) m2)) as Ho.
    { destruct v; [apply IHg|apply IHh]; set_solver. }
    destruct Ho as [m1' m2' Hm'|]; [|constructor]. simpl. apply IHk; set_solver.
Qed.

Lemma bind_same {A B} (R : A → A → Prop) (R' : B → B → Prop) (f g : A → option B) o1 o2 :
  option_Forall2 R o1 o2 → (∀ x y, R x y → option_Forall2 R' (f x) (g y)) →
  option_Forall2 R' (o1 ≫= f) (o2 ≫= g).
Proof. intros [x y Hxy|] Hf; [by apply Hf|constructor]. Qed.

(** Every part of the program is in [program_macros]. *)
Lemma parts_included {A} (a b c d e f g : list A) :
  let S := a ++ b ++ c ++ d ++ e ++ f ++ g in
  a ⊆ S ∧ b ⊆ S ∧ c ⊆ S ∧ d ⊆ S ∧ e ⊆ S ∧ f ⊆ S ∧ g ⊆ S.
Proof. set_solver. Qed.

Lemma program_parts :
  mentions prologue ⊆ program_macros ∧ mentions compiler_chain ⊆ program_macros ∧
  mentions platform_chain ⊆ program_macros ∧ mentions architecture_chain ⊆ program_macros ∧
  mentions standard_chain ⊆ program_macros ∧ cond_macros extensions_on ⊆ program_macros ∧
  declared_from ⊆ program_macros.
Proof. exact (parts_included _ _ _ _ _ _ _). Qed.

Lemma declared_in (l : list string) :
  forallb (λ n, bool_decide (n ∈ declared_from)) l = true → l ⊆ program_macros.
Proof.
  intros Hl n Hn. apply program_parts.
  rewrite List.forallb_forall in Hl.
  eapply bool_decide_eq_true_1, Hl. by apply list_elem_of_In.
Qed.

Lemma compile_same env1 env2 :
  same program_macros env1 env2 →
  option_Forall2 (same program_macros) (compile env1) (compile env2).
Proof.
  intros Hm. destruct program_parts as (H1 & H2 & H3 & H4 & H5 & _ & H7).
  rw /compile. rw (defined_same _ _ _ Hm "__cplusplus"); [by apply H7; left|].
  destruct (defined env2 "__cplusplus"); [constructor|].
  repeat (eapply bind_same; [by apply preprocess_same|];
          clear dependent env1 env2; intros env1 env2 Hm).
  by apply preprocess_same.
Qed.

Section SameStrings.
Context (m1 m2 : macros) (Hm : same program_macros m1 m2).

Lemma declared_same n : n ∈ declared_from → defined m1 n = defined m2 n.
Proof. intros Hn. by apply (defined_same _ _ _ Hm), program_parts. Qed.

Lemma info_string_same what n :
  n ∈ declared_from → info_string m1 what n = info_string m2 what n.
Proof.
  intros Hn. rw /info_string. rw (as_string_same _ _ _ Hm n); [|done]. by apply program_parts.
Qed.

Lemma version_string_same what prefix :
  prefix = "COMPILER_VERSION" ∨ prefix = "SIMULATE_VERSION" →
  version_string m1 what prefix = version_string m2 what prefix.
Proof.
  intros Hp. rw /version_string.
  assert ((prefix +:+ "_MAJOR") :: [prefix +:+ "_MINOR"; prefix +:+ "_PATCH"; prefix +:+ "_TWEAK"]
          ⊆ program_macros) as Hs.
  { apply declared_in. by destruct Hp as [->| ->]; vm_compute. }
  rw (as_digits_same _ _ _ Hm); [by apply Hs; left|].
  rw (components_same _ _ _ Hm); [|done]. intros n Hn. apply Hs. by right.
Qed.
End SameStrings.

Lemma build_same env1 env2 :
  same program_macros env1 env2 → build env1 = build env2.
Proof.
  intros Hm%compile_same. rw /build. destruct Hm as [m1 m2 Hm|]; [cbn [mbind option_bind]|done].
  rw /info_compiler /info_simulate /info_qnxnto /info_cray /info_version /info_version_internal.
  rw /info_simulate_version /info_platform /info_arch /info_language_standard_default.
  rw /info_language_extensions_default (holds_same _ _ _ Hm extensions_on).
  { apply program_parts. }
  rw (as_digits_same _ _ _ Hm "COMPILER_VERSION_INTERNAL"); [by apply program_parts, (bool_decide_unpack _)|].
  rw !(info_string_same _ _ Hm); [by apply (bool_decide_unpack _)..|].
  rw !(declared_same _ _ Hm); [by apply (bool_decide_unpack _)..|].
  rw !(version_string_same _ _ Hm); [by auto..|done].
Qed.

(** ** Versions *)

(** The number that digits denote. *)
Definition decimal (l : list Z) : Z := foldl (λ n c, 10 * n + (c - 48))%Z 0%Z l.

(** The pieces of a text between separators, and the text up to one. *)
Fixpoint split_at (sep : Z) (l : list Z) : list (list Z) :=
  match l with
  | [] => [[]]
  | c :: l =>
      if bool_decide (c = sep) then [] :: split_at sep l
      else match split_at sep l with p :: ps => (c :: p) :: ps | [] => [[c]] end
  end.
Fixpoint before (sep : Z) (l : list Z) : list Z :=
  match l with
  | [] => []
  | c :: l => if bool_decide (c = sep) then [] else c :: before sep l
  end.
Fixpoint after (sep : Z) (l : list Z) : list Z :=
  match l with
  | [] => []
  | c :: l => if bool_decide (c = sep) then l else after sep l
  end.

(** How the build reads a version back: what is between the brackets, at the points. *)
Definition read_version (s : list Z) : list Z :=
  decimal <$> split_at (char "."%char) (before (char "]"%char) (after (char "["%char) s)).

Lemma quot_rem_step n k k' : (0 ≤ n → 0 < k → k' = 10 * k →
  Z.rem (Z.quot n k) 10 = Z.quot n k - 10 * Z.quot n k')%Z.
Proof.
  intros Hn Hk ->. pose proof (Z.quot_pos n k Hn Hk).
  rw (Z.rem_mod_nonneg (Z.quot n k)); [done|lia|]. rw !Z.quot_div_nonneg; [lia..|].
  rw (Z.mul_comm 10 k) -Z.div_div; [lia..|].
  pose proof (Z.div_mod (n / k) 10). lia.
Qed.

Lemma decimal_DEC n : (0 ≤ n < 10 ^ 8)%Z → decimal (DEC n) = n.
Proof.
  intros Hn. rw /decimal /DEC. cbn [foldl].
  pose proof (λ k k', quot_rem_step n k k' (proj1 Hn)) as H.
  pose proof (H 1 10 eq_refl eq_refl)%Z as H0. rewrite Z.quot_1_r in H0.
  rw H0 (H 10 100)%Z // (H 100 1000)%Z // (H 1000 10000)%Z // (H 10000 100000)%Z //.
  rw (H 100000 1000000)%Z // (H 1000000 10000000)%Z // (H 10000000 100000000)%Z //.
  rw (Z.quot_small n 100000000); lia.
Qed.

Lemma DEC_digits n : (0 ≤ n)%Z → Forall (λ c, 48 ≤ c < 58)%Z (DEC n).
Proof.
  intros Hn.
  assert (∀ q, 0 ≤ q → 48 ≤ 48 + Z.rem q 10 < 58)%Z as Hd.
  { intros q Hq. pose proof (Z.rem_bound_pos q 10). lia. }
  rw /DEC. repeat constructor; apply Hd; try done; apply Z.quot_pos; lia.
Qed.

Section Texts.
Context (sep : Z).

Lemma before_app l r : sep ∉ l → before sep (l ++ sep :: r) = l.
Proof.
  induction l as [|c l IH]; cbn [before app].
  - by rw bool_decide_true.
  - intros [Hc Hl]%not_elem_of_cons. rw bool_decide_false; [congruence|]. by rw (IH Hl).
Qed.

Lemma after_app l r : sep ∉ l → after sep (l ++ sep :: r) = r.
Proof.
  induction l as [|c l IH]; cbn [after app].
  - by rw bool_decide_true.
  - intros [Hc Hl]%not_elem_of_cons. rw bool_decide_false; [congruence|]. by apply IH.
Qed.

Lemma split_at_one l : sep ∉ l → split_at sep l = [l].
Proof.
  induction l as [|c l IH]; cbn [split_at]; [done|].
  intros [Hc Hl]%not_elem_of_cons. rw bool_decide_false; [congruence|]. by rw (IH Hl).
Qed.

Lemma split_at_app l r : sep ∉ l → split_at sep (l ++ sep :: r) = l :: split_at sep r.
Proof.
  induction l as [|c l IH]; cbn [split_at app].
  - by rw bool_decide_true.
  - intros [Hc Hl]%not_elem_of_cons. rw bool_decide_false; [congruence|]. by rw (IH Hl).
Qed.
End Texts.

Lemma DEC_not_in c n : (0 ≤ n)%Z → (c < 48)%Z ∨ (58 ≤ c)%Z → c ∉ DEC n.
Proof. intros Hn Hc Hin. pose proof (DEC_digits n Hn) as Hd. rewrite Forall_forall in Hd.
  specialize (Hd c Hin). simpl in Hd. lia. Qed.

(** The text of a version. *)
Fixpoint dotted (vs : list Z) : list Z :=
  match vs with
  | [] => []
  | v :: vs => chars "." ++ DEC v ++ dotted vs
  end.

Lemma split_dotted v vs :
  Forall (λ n, 0 ≤ n < 10 ^ 8)%Z (v :: vs) →
  decimal <$> split_at (char "."%char) (DEC v ++ dotted vs) = v :: vs.
Proof.
  revert v. induction vs as [|w vs IH]; intros v [Hv Hvs]%Forall_cons; cbn [dotted].
  - rw app_nil_r split_at_one; [apply DEC_not_in; [lia|by left]|]. by rw /= decimal_DEC.
  - change (chars "." ++ DEC w ++ dotted vs) with (char "."%char :: DEC w ++ dotted vs).
    rw split_at_app; [apply DEC_not_in; [lia|by left]|]. rw fmap_cons (IH _ Hvs).
    by rw decimal_DEC.
Qed.

Lemma dotted_not_in c vs :
  Forall (λ n, 0 ≤ n < 10 ^ 8)%Z vs → (58 ≤ c)%Z → c ∉ dotted vs.
Proof.
  induction vs as [|v vs IH]; cbn [dotted]; [set_solver|].
  intros [Hv Hvs]%Forall_cons Hc. rw !not_elem_of_app.
  repeat split; [|by apply DEC_not_in; [lia|right]|by apply IH].
  change (c ∉ [46%Z]). rw not_elem_of_cons. split; [lia|set_solver].
Qed.

(** A version between brackets reads back. *)
Lemma read_version_dotted what v vs :
  char "["%char ∉ chars what → Forall (λ n, 0 ≤ n < 10 ^ 8)%Z (v :: vs) →
  read_version (chars what ++ char "["%char :: DEC v ++ dotted vs ++ literal "]") = v :: vs.
Proof.
  intros Hw Hvs. rw /read_version after_app; [done|].
  change (literal "]") with (char "]"%char :: [0%Z]). rw app_assoc before_app; [|by apply split_dotted].
  apply Forall_cons in Hvs as [Hv Hvs]. rw not_elem_of_app.
  split; [apply DEC_not_in; [lia|by right]|by apply dotted_not_in].
Qed.

(** ** The GNU compiler *)

(** What the GNU compiler for ARM predefines, of the macros the program looks at: version
    [a.b.c], called [text], for version [arch] of the architecture. *)
Definition gnu (a b c arch : Z) (text : string) : macros :=
  {[ "__GNUC__" := Val a; "__GNUC_MINOR__" := Val b; "__GNUC_PATCHLEVEL__" := Val c;
     "__VERSION__" := Str text; "__ARM_ARCH" := Val arch; "__has_include" := Nothing;
     "__STDC__" := Val 1; "__STDC_VERSION__" := Val 201710 ]}.

Definition gnu_version (a b c : Z) : list Z :=
  chars "INFO:compiler_version" ++ char "["%char :: DEC a ++ dotted [b; c] ++ literal "]".

Lemma gnu_build a b c arch text :
  build (gnu a b c arch text) =
    Some (Object (literal "INFO:compiler[GNU]") None None None (Some (gnu_version a b c)) None
            None (literal "INFO:platform[]") (literal "INFO:arch[]")
            (literal "INFO:standard_default[17]") (literal "INFO:extensions_default[ON]")
            true false false).
Proof. vm_compute. reflexivity. Qed.

Lemma gnu_ground a b c arch text : map_Forall (λ _ v, body_macros v = []) (gnu a b c arch text).
Proof. rw /gnu. repeat (apply map_Forall_insert_2; [done|]). apply map_Forall_empty. Qed.

(** A table of numbers and texts is what any table is that agrees with it. *)
Lemma same_ground env m :
  map_Forall (λ _ v, body_macros v = []) m →
  (∀ n, n ∈ program_macros → env !! n = m !! n) → same program_macros env m.
Proof.
  intros Hg Hm n Hn. rw (Hm n Hn). split; [done|]. intros b Hb.
  pose proof (Hg n b Hb) as E. simpl in E. rw E. apply list_subseteq_nil.
Qed.

(** C39.  Whatever its version [a.b.c] (each part below 10^8) and whatever else it
    predefines, as long as it is none of the macros the program looks at, the GNU compiler
    for ARM compiles the program; the object file names it GNU, with extensions, C17, and
    the version in it reads back, at the points between the brackets, as [a; b; c]. *)
Theorem gnu_identified env a b c arch text :
  (0 ≤ a < 10 ^ 8)%Z → (0 ≤ b < 10 ^ 8)%Z → (0 ≤ c < 10 ^ 8)%Z →
  (∀ n, n ∈ program_macros → env !! n = gnu a b c arch text !! n) →
  ∃ o v, build env = Some o ∧ o_compiler o = literal "INFO:compiler[GNU]" ∧
    o_standard o = literal "INFO:standard_default[17]" ∧
    o_extensions o = literal "INFO:extensions_default[ON]" ∧
    o_version o = Some v ∧ read_version v = [a; b; c].
Proof.
  intros Ha Hb Hc Henv. do 2 eexists.
  rw (build_same _ _ (same_ground _ _ (gnu_ground a b c arch text) Henv)) gnu_build.
  split_and!; try reflexivity. apply read_version_dotted; [by apply (bool_decide_unpack _)|].
  by apply Forall_cons_2, Forall_cons_2, Forall_cons_2, Forall_nil_2.
Qed.

Lemma gnu_identified_witness :
  ∃ o v, build (<["__thumb__" := Val 1%Z]> (gnu 10 3 1 4 "10.3.1 20210824 (release)")) = Some o ∧
    o_compiler o = literal "INFO:compiler[GNU]" ∧
    o_standard o = literal "INFO:standard_default[17]" ∧
    o_extensions o = literal "INFO:extensions_default[ON]" ∧
    o_version o = Some v ∧ read_version v = [10; 3; 1]%Z.
Proof.
  apply (gnu_identified _ 10 3 1 4 "10.3.1 20210824 (release)"); [lia..|].
  intros n Hn. apply lookup_insert_ne. intros <-. revert Hn.
  apply (bool_decide_unpack _). vm_compute. exact I.
Defined.

(** ** Every compiler *)

(** The names of the compilers the program knows, in its order; the last one is for a
    compiler it does not know. *)
Definition compiler_names : list string :=
  ["Intel"; "IntelLLVM"; "PathScale"; "Embarcadero"; "Borland"; "Watcom"; "OpenWatcom";
   "SunPro"; "HP"; "Compaq"; "zOS"; "IBMClang"; "XLClang"; "XL"; "VisualAge"; "NVHPC"; "PGI";
   "CrayClang"; "Cray"; "TI"; "FujitsuClang"; "Fujitsu"; "GHS"; "Tasking"; "OrangeC";
   "TinyCC"; "Bruce"; "SCO"; "ARMCC"; "AppleClang"; "ARMClang"; "TIClang"; "Clang"; "LCC";
   "GNU"; "MSVC"; "ADSP"; "IAR"; "SDCC"; "HP"; ""].

Lemma compiler_bodies : bodies "COMPILER_ID" compiler_chain = Str <$> compiler_names.
Proof. vm_compute. reflexivity. Qed.

Lemma compile_stages env m :
  compile env = Some m →
  ∃ m1 m2 m3 m4, preprocess prologue env = Some m1 ∧ preprocess compiler_chain m1 = Some m2 ∧
    preprocess platform_chain m2 = Some m3 ∧ preprocess architecture_chain m3 = Some m4 ∧
    preprocess standard_chain m4 = Some m.
Proof.
  rw /compile. destruct (defined env "__cplusplus"); [done|].
  intros (m1 & E1 & (m2 & E2 & (m3 & E3 & (m4 & E4 & E5)%bind_Some)%bind_Some)%bind_Some)%bind_Some.
  eauto 10.
Qed.

(** The macros that conditions take as numbers; the program defines none of them. *)
Definition program_numbers : list string :=
  numbers prologue ++ numbers compiler_chain ++ numbers platform_chain ++
  numbers architecture_chain ++ numbers standard_chain.

Lemma program_numbers_kept :
  Forall (λ n, n ∉ defines prologue ++ defines compiler_chain ++ defines platform_chain ++
                   defines architecture_chain ++ defines standard_chain) program_numbers.
Proof. apply (bool_decide_unpack _). vm_compute. exact I. Qed.

(** A stage succeeds and leaves the numbers alone. *)
Lemma stage_total (ns : list string) g m :
  (∀ n, n ∈ ns → numeric m n) → (∀ n, n ∈ ns → n ∉ defines g) → numbers g ⊆ ns →
  ∃ m', preprocess g m = Some m' ∧ ∀ n, n ∈ ns → numeric m' n.
Proof.
  intros Hn Hd Hg. destruct (preprocess_total g m) as [m' E]; [by auto..|].
  exists m'. split; [done|]. intros n Hns. rw /numeric.
  rw (preprocess_frame _ _ _ n E); [by apply Hd|]. by apply Hn.
Qed.

Lemma numbers_included {A} (a b c d e : list A) :
  let S := a ++ b ++ c ++ d ++ e in a ⊆ S ∧ b ⊆ S ∧ c ⊆ S ∧ d ⊆ S ∧ e ⊆ S.
Proof. set_solver. Qed.

Lemma numbers_kept {A} (a b c d e : list A) n :
  n ∉ a ++ b ++ c ++ d ++ e → n ∉ a ∧ n ∉ b ∧ n ∉ c ∧ n ∉ d ∧ n ∉ e.
Proof. rw !not_elem_of_app. tauto. Qed.

(** Preprocessing succeeds for every C compiler that has numbers where the conditions
    compare. *)
Lemma compile_total env :
  defined env "__cplusplus" = false → (∀ n, n ∈ program_numbers → numeric env n) →
  is_Some (compile env).
Proof.
  intros Hc Hn. rw /compile Hc.
  destruct (numbers_included (numbers prologue) (numbers compiler_chain) (numbers platform_chain)
    (numbers architecture_chain) (numbers standard_chain)) as (I1 & I2 & I3 & I4 & I5).
  fold program_numbers in I1, I2, I3, I4, I5.
  pose proof (proj1 (Forall_forall _ _) program_numbers_kept) as K.
  pose proof (λ n H, numbers_kept _ _ _ _ _ n (K n H)) as K'. clear K.
  destruct (stage_total program_numbers prologue env) as (m1 & E1 & N1); [done|apply K'|done|].
  destruct (stage_total program_numbers compiler_chain m1) as (m2 & E2 & N2); [done|apply K'|done|].
  destruct (stage_total program_numbers platform_chain m2) as (m3 & E3 & N3); [done|apply K'|done|].
  destruct (stage_total program_numbers architecture_chain m3) as (m4 & E4 & N4);
    [done|apply K'|done|].
  destruct (stage_total program_numbers standard_chain m4) as (m5 & E5 & _); [done|apply K'|done|].
  exists m5. rw bind_Some. exists m1. split; [done|]. rw bind_Some. exists m2. split; [done|].
  rw bind_Some. exists m3. split; [done|]. rw bind_Some. by exists m4.
Qed.

(** Every C compiler that has numbers where the conditions compare gets through the
    program and is given a name, one of those the program knows (or the empty one, when it
    matches none of them): nothing that the compiler predefines gets into the name. *)
Theorem compiler_named env :
  defined env "__cplusplus" = false → (∀ n, n ∈ program_numbers → numeric env n) →
  ∃ m name, compile env = Some m ∧ name ∈ compiler_names ∧
    info_compiler m = Some (literal ("INFO:compiler[" +:+ name +:+ "]")).
Proof.
  intros Hc Hn. destruct (compile_total env Hc Hn) as [m Em]. exists m.
  destruct (compile_stages env m Em) as (m1 & m2 & m3 & m4 & _ & E2 & E3 & E4 & E5).
  destruct (preprocess_always "COMPILER_ID" _ _ _ E2) as (b & Hb & Hm2); [done|].
  rewrite compiler_bodies in Hb. apply list_elem_of_fmap in Hb as (name & -> & Hk).
  exists name. split_and!; [done..|]. rw /info_compiler /info_string /as_string.
  rw (preprocess_frame _ _ _ "COMPILER_ID" E5); [by apply (bool_decide_unpack _); vm_compute|].
  rw (preprocess_frame _ _ _ "COMPILER_ID" E4); [by apply (bool_decide_unpack _); vm_compute|].
  rw (preprocess_frame _ _ _ "COMPILER_ID" E3); [by apply (bool_decide_unpack _); vm_compute|].
  by rw Hm2.
Qed.

(** ** main *)

Lemma length_append s t : String.length (s +:+ t) = String.length s + String.length t.
Proof. induction s as [|c s IH]; [done|]. by rw /= IH. Qed.

Lemma length_chars s : length (chars s) = String.length s.
Proof. rw /chars length_fmap. by induction s as [|c s IH]; [|simpl; f_equal]. Qed.

Lemma length_literal s : length (literal s) = S (String.length s).
Proof. rw /literal length_app length_chars /=. lia. Qed.

Lemma info_string_length m what n s :
  info_string m what n = Some s → 8 + String.length what ≤ length s.
Proof.
  rw /info_string. intros (t & _ & [= <-])%bind_Some.
  rw length_literal !length_append /=. lia.
Qed.

Lemma as_digits_length m n d : as_digits m n = Some d → length d = 8.
Proof.
  rw /as_digits. intros (b & _ & H)%bind_Some.
  destruct b; try done; by apply fmap_Some in H as (z & _ & ->).
Qed.

Lemma version_string_length m what prefix s :
  version_string m what prefix = Some s → 12 ≤ length s.
Proof.
  rw /version_string.
  intros (d & Hd%as_digits_length & (r & _ & <-%(inj Some))%bind_Some)%bind_Some.
  rw !length_app !length_chars !length_append Hd /=. lia.
Qed.

(** Every array that [main] indexes is long enough. *)
Definition long (a : list Z) : Prop := 12 ≤ length a.

Lemma opt_list_long b c x a :
  only_if c x = Some a → (∀ s, x = Some s → long s) → Forall long (opt_list b a).
Proof.
  rw /only_if. destruct c; [|by intros [= <-]].
  intros (s & Hs & ->)%fmap_Some Hl. destruct b; cbn [opt_list]; [|done].
  by constructor; [apply Hl|].
Qed.

Lemma version_long m a :
  info_version m = Some a → Forall long (opt_list (defined m "COMPILER_VERSION_MAJOR") a).
Proof.
  rw /info_version. destruct (defined m "COMPILER_VERSION").
  - intros H. apply (opt_list_long _ true _ _ H).
    intros s Hs%info_string_length. rw /long. simpl in Hs. lia.
  - intros H. apply (opt_list_long _ _ _ _ H). intros s. apply version_string_length.
Qed.

Lemma version_internal_long m a :
  info_version_internal m = Some a →
  Forall long (opt_list (defined m "COMPILER_VERSION_INTERNAL") a).
Proof.
  rw /info_version_internal. destruct (defined m "COMPILER_VERSION_INTERNAL").
  - intros (d & _ & <-%(inj Some))%bind_Some. constructor; [|done].
    rw /long length_app length_chars /=. lia.
  - intros H. apply (opt_list_long _ _ _ _ H).
    intros s Hs%info_string_length. rw /long. simpl in Hs. lia.
Qed.

Lemma info_string_long m what n s :
  info_string m what n = Some s → 4 ≤ String.length what → long s.
Proof. intros Hs%info_string_length Hw. rw /long. lia. Qed.

Lemma read_by_main_long env o : build env = Some o → Forall long (read_by_main o).
Proof.
  rw /build. intros (m & _ & H)%bind_Some.
  apply bind_Some in H as (compiler & Hcompiler & H).
  apply bind_Some in H as (simulate & Hsimulate & H).
  apply bind_Some in H as (qnxnto & _ & H). apply bind_Some in H as (cray & Hcray & H).
  apply bind_Some in H as (version & Hversion & H).
  apply bind_Some in H as (internal & Hinternal & H).
  apply bind_Some in H as (simversion & Hsimversion & H).
  apply bind_Some in H as (platform & Hplatform & H). apply bind_Some in H as (arch & Harch & H).
  apply bind_Some in H as (standard & Hstandard & H).
  apply bind_Some in H as (extensions & Hextensions & H). apply (inj Some) in H as <-.
  rw /read_by_main. repeat (apply Forall_app; split).
  - repeat apply Forall_cons_2;
      [apply (info_string_long _ _ _ _ Hcompiler)|apply (info_string_long _ _ _ _ Hplatform)
      |apply (info_string_long _ _ _ _ Harch)|done]; simpl; lia.
  - by apply version_long.
  - by apply version_internal_long.
  - apply (opt_list_long _ _ _ _ Hsimulate). intros s Hs.
    apply (info_string_long _ _ _ _ Hs). simpl; lia.
  - apply (opt_list_long _ _ _ _ Hsimversion). intros s. apply version_string_length.
  - apply (opt_list_long _ _ _ _ Hcray). intros s [= <-]. rw /long /=. lia.
  - repeat apply Forall_cons_2; [apply (info_string_long _ _ _ _ Hstandard); simpl; lia| |done].
    apply bind_Some in Hextensions as ([] & _ & <-%(inj Some)); rw /long /=; lia.
Qed.

Lemma add_chars_long argc l : (0 ≤ argc ≤ 11)%Z → Forall long l →
  ∀ require, ∃ r, add_chars argc l require = Ok r.
Proof.
  intros Ha Hl. induction Hl as [|a l Hla _ IH]; intros require; cbn [add_chars]; [by eexists|].
  rw /add_char bool_decide_true; [lia|].
  destruct (lookup_lt_is_Some_2 a (Z.to_nat argc)) as [c ->]; [rewrite /long in Hla; lia|].
  apply IH.
Qed.

(** C40.  Whatever the compiler, when the program compiles, [main] reads no array past its
    end for up to 11 arguments: the strings it indexes with [argc] have at least 12 cells
    each. *)
Theorem main_in_bounds env o argc :
  build env = Some o → (0 ≤ argc ≤ 11)%Z → ∃ r, main o argc = Ok r.
Proof.
  intros Hb Ha. rw /main. destruct (o_void_main o); [by eexists|].
  destruct (add_chars_long argc _ Ha (read_by_main_long env o Hb) 0) as [r ->]. by eexists.
Qed.

Lemma main_in_bounds_witness :
  ∃ o r, build (gnu 10 3 1 4 "") = Some o ∧ main o 1 = Ok r.
Proof.
  eexists. destruct (main_in_bounds _ _ 1 (gnu_build 10 3 1 4 "")) as [r Hr]; [lia|].
  exists r. split; [apply gnu_build|exact Hr].
Defined.

(** ** The build's own compilers *)

(** What the Microsoft compiler 19.40 for x86 predefines, of the macros of the program. *)
Definition msvc : macros :=
  {[ "_MSC_VER" := Val 1940; "_MSC_FULL_VER" := Val 194033808; "_MSC_BUILD" := Val 0;
     "_WIN32" := Val 1; "_M_IX86" := Val 600; "__has_include" := Nothing ]}.

(** What the build notes of a compiler: its name, version, platform, architecture, the
    version of the language and whether extensions are on. *)
Definition noted (env : macros) :
    option (list Z * option (list Z) * list Z * list Z * list Z * list Z) :=
  o ← build env;
  Some (o_compiler o, read_version <$> o_version o, o_platform o, o_arch o, o_standard o,
        o_extensions o).

(** The two compilers of this build are noted as CMakeCCompiler.cmake has them: the
    cross compiler for the board as GNU 10.3.1, C17, extensions on, no platform or
    architecture; the one for the host tools as MSVC 19.40.33808.0, Windows, X86, C90,
    extensions off.  With 12 arguments [main] would leave the string of the architecture
    of the first. *)
Theorem toolchains_noted :
  noted (gnu 10 3 1 4 "10.3.1 20210824 (release)") =
    Some (literal "INFO:compiler[GNU]", Some [10; 3; 1]%Z, literal "INFO:platform[]",
          literal "INFO:arch[]", literal "INFO:standard_default[17]",
          literal "INFO:extensions_default[ON]") ∧
  noted msvc =
    Some (literal "INFO:compiler[MSVC]", Some [19; 40; 33808; 0]%Z, literal "INFO:platform[Windows]",
          literal "INFO:arch[X86]", literal "INFO:standard_default[90]",
          literal "INFO:extensions_default[OFF]") ∧
  (o ← build (gnu 10 3 1 4 ""); Some (main o 12)) = Some (Err (Fault 12)).
Proof. split_and!; vm_compute; reflexivity. Qed.
